(* ===== verification/_CoqProject ===== *)
-Q . S2P
Prelude.v
Mem.v
Util.v
BttLayout.v
Prog.v
StateM.v
Vmem.v
VmemSpec.v
Btt.v
BttInv.v
BttSpec.v
BttConc.v
BttConcInv.v
BttConcStep.v
BttConcState.v
BttConcWp.v
BttConcOps.v
BttConcSpec.v
BttConcSafe.v
BttOpen.v
BttCrash.v
BttFresh.v
BttCheck.v
Blk.v
BlkSpec.v
Persist.v
Pmem.v
PmemSpec.v
PmemCopy.v
Log.v
LogSpec.v
Durable.v
Obj.v
ObjSpec.v
Bst.v
BstSpec.v
ObjHeap.v
Bucket.v
Backend.v
Pmalloc.v
BackendSpec.v
HeapLogic.v
HeapSpec.v
PmallocSpec.v
PmallocOps.v
PmallocTop.v
PmallocRecover.v
PmallocOpen.v
PmallocCrash.v
PmallocFresh.v
Pcommon.v
Pcheck.v
PcheckBtt.v
PcommonSpec.v
PcheckMap.v
PcheckSpec.v
PcheckLog.v
PcheckType.v
Pranges.v
Poutput.v
Pcreate.v
PcreateSpec.v
Pdump.v
PdumpSpec.v
Pinfo.v
PinfoSpec.v
BttExamples.v
BttConcExamples.v
BlkExamples.v
LogExamples.v
ObjExamples.v
ObjFaults.v
PcheckExamples.v
PtoolExamples.v
PinfoExamples.v
VmemExamples.v
Vmmalloc.v
VmmallocSpec.v
