(* ===== verification/Prelude.v ===== *)
(** A verification of the NVM library (nvml): libpmem, libpmemblk with its block
    translation table (BTT), libpmemlog, the allocator of libpmemobj, libvmem,
    libvmmalloc, the utilities they share, and the commands of the pmempool
    tool.

    * The program

    src/src/libpmem/pmem.c makes stores to mapped memory durable: it flushes
    cache lines, drains, copies and fills with non-temporal stores, and tells
    persistent memory from other mappings.  src/src/common/util.c holds the
    checksum, the pool header, the address hint for mappings, page protections
    and pool files.  Three pool types are built on them:
    - src/src/libpmemlog/log.c, a log of bytes that is only appended to;
    - src/src/libpmemblk/blk.c, an array of blocks with atomic writes.  It gives
      src/src/libpmemblk/btt.c a table of callbacks (nsread, nswrite, nszero,
      nsmap) over its data area; the BTT keeps a map from external to internal
      blocks and, per lane, a flog entry that names a free block.  A write goes
      to the free block, then to the flog, then to the map;
    - src/src/libpmemobj, an allocator of persistent chunks.  pmalloc.c takes an
      arena of the pool (pool.c, arena.c), raises a guard, takes a free chunk
      from a bucket (bucket.c) and stores its offset at a pointer inside the
      pool.  The bucket keeps the free chunks in a search tree
      (container_bst.c); backend_persistent.c holds the media: a header with
      backups, an info slot per arena (the guard, which tells recovery which
      operation to undo) and zones of chunk headers and chunks.  obj.c makes and
      opens the pool file with its layout name; at this commit it does not call
      the allocator yet.
    src/src/tools/pmempool/check.c checks and repairs log and blk pools in their
    files, in steps: the pool header, the header of the log or of the blk pool,
    the info blocks of the BTT (restored from their backups, or made by the BTT
    itself over the mapped file), its maps and flogs, and writing back. 
    create.c makes pools with the libraries; dump.c writes the data of a pool
    out through them; info.c shows what a file holds, reading the formats
     itself. common.c has what they share, among it the parsers of sizes, modes
    and ranges, and output.c the hex dump.
    src/src/libvmem/vmem.c gives the embedded jemalloc a pool of volatile memory
    in a file without a name, or in a region of the caller;
    src/src/libvmmalloc/libvmmalloc.c puts such a pool in the place of malloc.

    * The files

    - Prelude: automation, machine integers, roundings, errno.
    - Mem: bytes, little-endian integers, memory as a function from addresses
      to bytes, memcpy and memset on it, and torn writes (a store reaches the
      media in aligned 8-byte words).
    - Util: util.c and the pool header of util.h.
    - BttLayout: btt_layout.h: the info block, flog entries, map entries, and
      the encodings of them as bytes.
    - Prog: the language the BTT is written in here, a free monad over state:
      reads and writes of the namespace, allocation, waiting for a lock, errors
      that cleanup code catches.  [run] executes it alone and logs the durable
      writes; [crashed] is the media after a power failure within such a log.
      The classes [NsOps] (the callbacks) and [NsLaws] (what the BTT relies on)
      are the interface between the BTT and the pool.
    - StateM: the state monad with faults the allocator is written in, with a
      total-correctness weakest precondition [wp] and its rules.
    - Btt: btt.c, every function: one definition per C function, the body of
      each loop and of each long stretch a definition of its own.
    - BttInv, BttSpec: the arena and device invariants; a BTT implements a
      device (a number of blocks, each zero, in error or data; arenas in error
      read-only), and btt_read, btt_write, btt_set_zero and btt_set_error
      implement the operations of the device on every branch.
    - BttConc: lanes interleaved, one callback, access to the run-time state or
      passed wait a step, over the same definitions of Btt; the specification is
      a device whose operations take effect in one step between call and return.
      BttConcInv, BttConcStep: an arena with lanes inside it, and the steps of
      the protocol.  BttConcState, BttConcWp: the whole state, and rules for
      programs under interference.  BttConcOps: the routines.  BttConcSpec,
      BttConcSafe: the theorems.
    - BttOpen, BttCrash: what reading a layout gives, with flog recovery; a
      write is atomic with respect to power failure, and recovery itself can be
      interrupted and started again.
    - BttFresh: writing the layout; the first open and the first write.
    - BttCheck: btt_check, and what modelling showed.
    - Blk, BlkSpec: blk.c over the same device: lanes, namespace callbacks (an
      instance of the classes of Prog, with its laws proved), creating, opening,
      block operations.
    - Persist: a machine with caches: words in flight, flushes, fences, and the
      media contents possible after a power failure.
    - Pmem, PmemSpec, PmemCopy: pmem.c on that machine.
    - Log, LogSpec: log.c on that machine.
    - Durable: the durable writes of Prog and of the allocator, implemented by
      stores followed by pmem_persist or pmem_msync on that machine.
    - Obj, ObjSpec: obj.c on that machine.
    - Bst, BstSpec: container_bst.c over a heap of nodes with parent links, and
      its refinement of an ordered collection of key-value pairs.
    - ObjHeap: the structures of libpmemobj, the state (memory, buckets, pool,
      the arena of the thread) and the accesses to it.
    - Bucket: containers (the class [Container], with [ContainerLaws] what
      buckets rely on; container_bst and container_noop are instances), and
      bucket.c.
    - Backend: backend_persistent.c.  Pmalloc: backend.c, backend_noop.c,
      arena.c, pool.c, pmalloc.c.
    - BackendSpec: zones as lists of chunks; check_zone.
    - HeapLogic: [safe] and the crash weakest precondition [wpc]: an assertion
      that also holds after a power failure at every point of an operation.
    - HeapSpec, PmallocSpec, PmallocOps, PmallocTop: the invariant of the heap
      ([heap_ok], [media_ok]) and the specification of every operation in the
      crash logic.  PmallocRecover, PmallocOpen: recovery of the info slots and
      opening.  PmallocCrash, PmallocFresh: the theorems.
    - Vmem, VmemSpec: vmem.c, and the mapping functions of util.c and pmem.c,
      over a state of the operating system (descriptors, names, the signal mask,
      mappings, protection, memory).  [kernel] is what the system decides and
      [jemalloc] the embedded allocator; [kernel_ok] and [jemalloc_ok] are what
      the theorems rely on.  Vmmalloc, VmmallocSpec: libvmmalloc.c over them.
    - Pcommon: tools/pmempool/common.c as far as the check uses it: types of
      pools, limits of block sizes, questions.  Pcheck, PcheckBtt: check.c, one
      definition per C function, over [pmempool_check], its context: the file,
      the headers as bytes, the cached arenas, what the user types.
    - PcommonSpec: block sizes.  PcheckMap: maps and flogs.  PcheckSpec: what is
      never written.  PcheckLog: log pools.  PcheckType: the context.
    - Pranges: the parsers and the list of ranges of common.c.  Poutput: the hex
      dump of output.c, and a reader for it.  Pcreate, PcreateSpec: create.c.
      Pdump, PdumpSpec: dump.c.  Pinfo, PinfoSpec: info.c; what is shown is a
      list of items.
    - BttExamples, BttConcExamples, BlkExamples, LogExamples, ObjExamples,
      PcheckExamples, PtoolExamples, PinfoExamples, VmemExamples: concrete
      namespaces, schedules, pools, machines, heaps, files and kernels, with the
      main theorems applied to them.
    - ObjFaults: runs of the allocator that go wrong, by evaluation.

    * What the theorems show

    Durability.  [pmem_persist_durable]: whatever instructions [pmem_init]
    chose, a persisted range survives.  [pmem_memmove_copies] and
    [pmem_memset_spec]: the copy and fill routines store what memmove and memset
    store, for every overlap.  [pmem_memmove_durable] says when a copy also
    survives; [pmem_memmove_head_lost] and [pmem_memmove_unfenced_lost] are two
    copies that do not.  [durable_writes_crash]: a sequence of persisted stores
    is a sequence of durable writes, each of which can be torn.
    Refinement.  [btt_read_refines], [btt_write_refines], [btt_setf_refines],
    and the same for the public functions of libpmemblk; [pmemlog_appendv_spec],
    [pmemlog_rewind_spec], [pmemlog_walk_feeds] for libpmemlog;
    [bst_add_refines] and [bst_get_rm_refines] for the tree of free chunks.
    Concurrency.  [btt_lanes_linearizable]: any interleaving of reads, writes
    and flag setting on their lanes is one of the device. 
    [btt_lanes_race_free]: pending accesses of two lanes never touch the same
    bytes when one of them writes, but for a map entry, an aligned word. 
    [btt_lanes_quiescent]: after the last return the sequential invariant holds
    again. [btt_lanes_deadlock_free], but for a slot of the read tracking table
    left behind by a finished read ([stale_reader_blocks_writer]).
    Power failure.  [btt_write_crash_atomic], [btt_init_restartable],
    [pmemlog_appendv_crash_atomic]: the old or the new contents, never a
    mixture, and the pool opens again.  [pmalloc_crash_atomic] and
    [pfree_crash_atomic]: after recovery the operation has happened or not, no
    chunk is lost and none is both free and pointed to.
    The allocator.  [pmalloc_invariant] and [pfree_invariant] (chunks tile the
    zone, buckets hold exactly the free chunks, the media outside the operation
    is untouched), [pmalloc_succeeds], [pmalloc_pfree_roundtrip],
    [pool_open_fresh], [check_zone_exact].
    Opening.  [btt_init_fresh], [btt_first_write], [pmemblk_create_open],
    [pmemblk_map_recovers], [pmemlog_create_spec], [pmemlog_open_recovers],
    [pmemlog_close_open], [pmemlog_check_spec], [pmemobj_create_open],
    [pmemobj_create_crash], [pmemobj_check_spec].
    Consistency.  [btt_check_accepts] and [btt_check_first_arena], checksum and
    header round trips, the address hint, page ranges, pool files.
    pmempool check.  [pmempool_check_readonly], [pmempool_check_context] (the
    buffers keep their sizes, so what is written back fits),
    [map_flog_check_exact] and [map_flog_repair_accounts] (a bijection between
    blocks and entries), [pmempool_check_log_exact] and
    [pmempool_check_log_repairs] (against [log_file], what pmemlog_open
    accepts), [util_check_bsize_exact] (against btt_init), and
    [third_sequence_rejected], where tool and library disagree. The other
     commands. [pmempool_create_fails_clean] and [pmempool_create_blk_pool];
    [pmempool_dump_log_exports] and [pmempool_dump_blk_exports] (against the
    contents of the log and the device); [pmempool_info_btt_exact] (against the
    device the BTT implements), [pmempool_info_log_data_exact],
    [pmempool_info_terminates]; [util_parse_ranges_spec] and
    [outv_hexdump_roundtrip], each against a printer or a reader written for it.
     PtoolExamples and PinfoExamples run what goes wrong:
    [dump_beyond_the_data], [two_ranges_underflow], [second_file_cut],
    [last_chunk_left_out], [initial_blocks_show_block_0]. libvmem. 
    [vmem_create_exact] (nothing or exactly one mapping), [vmem_create_delete],
    [vmem_region_exact], [vmem_strdup_copies], and [vmem_delete_faults] for
    pages above 4096 bytes. libvmmalloc.  [libvmmalloc_init_exact] (a pool or
    the end of the process), [libvmmalloc_calls_steady] (no sequence of calls
    damages the pool's header), [posix_memalign_reports].

    * Bounds and fuel

    Integers keep the width the code gives them ([u16], [u32], [u64], [s32]);
    the BTT theorems hold for namespaces below 2^63 bytes with the geometry of
    [geom_ok], whose data areas stay below 4 GiB ([data_block_offset_aliases]
    shows what happens beyond), and the fresh-layout theorems for namespaces of
    up to 4 GiB whose size is a multiple of 64.  [layout_fuel], [flush_fuel]
    and the structural loops always suffice; [btt_read] has fuel for its retry
    loop, of which a run without other threads uses one; [pmemlog_walk] needs
    one unit of fuel more than the log has bytes.  The theorems on pmalloc and
    pfree hold for pools of one zone ([pool_ok]; below about 16 GiB) and, for
    pmalloc, requests above one chunk and below 2^48 bytes; [pmalloc_too_small],
    [pmalloc_small_aliases], [zone_too_large] and [last_chunk_beyond_end] show
    what happens outside.  The loops over a tree have fuel for its nodes, those
    over a zone for its chunks; the theorems show that it suffices ([wp] is
    total).  The crash theorems of the allocator assume that the info slot is
    stored whole; [torn_guard_faults] is a run where it is not.
    In pmempool check the scans for info blocks have fuel for the pages of the
    file, the chain of info blocks for its bytes (each offset is visited once or
    the chain is a cycle).  [util_check_bsize_exact] is for files whose data
    area is one arena.
    On interleaved lanes the fuel of a read is chosen at its call, and a read
    that runs out has not returned; what the theorems say of executions holds
    for every choice.  pmempool info takes more fuel than the bytes of the
    largest file, and pmempool dump more than the bytes of the log, for its
    walk.

    * Interface assumptions

    What the operating system and libc do is an argument of the definitions:
    the result of malloc ([Allocator], [NodeMalloc], [BucketMalloc], [obj_env]),
    mmap, msync, mprotect, pread, pwrite, fsync, fstat and open of the tool
    ([penv]), the lines of /proc/cpuinfo, /proc/self/maps and
    /proc/self/smaps, uuid_generate, time, the number of processors.
    Allocation is assumed to succeed where a theorem says so.  In Blk a callback
    that writes is durable when it returns, and so are pmemcpy and pmemset in
    the allocator; that is what [pmem_persist_durable] and
    [durable_writes_crash] show of the calls they make.  ASSERT does nothing, as
    in a release build.  The host is little-endian where the tool converts
    headers; malloc of the tool succeeds (it ends the process otherwise).

    * What is not modelled

    Threads inside the allocator of libpmemobj (each operation runs alone, with
    its locks as state).  On the BTT reads, writes and flag setting interleave
    on their lanes, their shared accesses in one order for all lanes (the memory
    is sequentially consistent); opening, writing the first layout, checking and
    closing run alone.  Debug-only protections (RANGE_RO, RANGE_RW) and logging.
    The embedded jemalloc, a vendored allocator.  Of the pmempool tool the
    backup copy, messages and help, and how numbers, sizes, times and
    percentages look as text; its file system has no access modes.  In Vmem
    stores to a mapping do not reach its file, and only whole mappings are
    unmapped.  Tests, examples and benchmarks.

    * Plan for what is left

    Closing and opening a heap again; the check of info blocks against the
    layout the BTT writes; opening and the first layout of a BTT under
    interference; threads in the allocator, arena by arena; the text of the
    numbers the tool prints. *)

From stdpp Require Export base list list_numbers numbers gmap.
From Stdlib Require Export ZArith Lia Bool.
From Stdlib Require Export Init.Byte.
From Stdlib Require Strings.Byte.

#[global] Open Scope Z_scope.

(** ** Automation *)

(** The lemmas that rewrite list lengths, collected for [len]. *)
Create Rewrite HintDb lens.
(** Well-formedness facts that [eauto] may use across components. *)
Create HintDb nvm discriminated.

#[export] Hint Rewrite @length_app @length_map @length_seqZ @length_take @length_drop
  @length_insert @length_replicate @length_fmap @length_seq : lens.

(** Lengths and linear arithmetic. *)
Ltac len :=
  first [ autorewrite with lens; cbn [length]; lia
        | autorewrite with lens in *; cbn [length] in *; lia ].

(** Split every boolean test of the context and of the goal into linear facts. *)
Ltac bools :=
  repeat match goal with
  | H : _ && _ = true |- _ => apply andb_true_iff in H as [? ?]
  | H : _ && _ = false |- _ => apply andb_false_iff in H
  | H : _ || _ = false |- _ => apply orb_false_iff in H as [? ?]
  | H : negb _ = true |- _ => apply negb_true_iff in H
  | H : negb _ = false |- _ => apply negb_false_iff in H
  | H : (_ <=? _) = true |- _ => apply Z.leb_le in H
  | H : (_ <=? _) = false |- _ => apply Z.leb_gt in H
  | H : (_ <? _) = true |- _ => apply Z.ltb_lt in H
  | H : (_ <? _) = false |- _ => apply Z.ltb_ge in H
  | H : (_ =? _) = true |- _ => apply Z.eqb_eq in H
  | H : (_ =? _) = false |- _ => apply Z.eqb_neq in H
  end.

(** Case split on the boolean comparison the goal branches on. *)
Ltac zcase :=
  match goal with
  | |- context [if ?a <=? ?b then _ else _] => destruct (Z.leb_spec a b)
  | |- context [if ?a <? ?b then _ else _] => destruct (Z.ltb_spec a b)
  | |- context [if ?a =? ?b then _ else _] => destruct (Z.eqb_spec a b)
  end.

(** Replace a boolean test by its value when arithmetic decides it. *)
Ltac ztrue :=
  match goal with
  | |- context [?a <=? ?b] =>
      first [ replace (a <=? b) with true by (symmetry; apply Z.leb_le; lia)
            | replace (a <=? b) with false by (symmetry; apply Z.leb_gt; lia) ]
  | |- context [?a <? ?b] =>
      first [ replace (a <? b) with true by (symmetry; apply Z.ltb_lt; lia)
            | replace (a <? b) with false by (symmetry; apply Z.ltb_ge; lia) ]
  | |- context [?a =? ?b] =>
      first [ replace (a =? b) with true by (symmetry; apply Z.eqb_eq; lia)
            | replace (a =? b) with false by (symmetry; apply Z.eqb_neq; lia) ]
  end.

(** ** Machine integers *)

(** Conversion to an unsigned type of the width, and to [int32_t]. *)
Definition u8 (z : Z) : Z := z mod 2 ^ 8.
Definition u16 (z : Z) : Z := z mod 2 ^ 16.
Definition u32 (z : Z) : Z := z mod 2 ^ 32.
Definition u64 (z : Z) : Z := z mod 2 ^ 64.
Definition s32 (z : Z) : Z := (z + 2 ^ 31) mod 2 ^ 32 - 2 ^ 31.

Lemma u32_range z : 0 <= u32 z < 2 ^ 32.
Proof. apply Z.mod_pos_bound. lia. Qed.
Lemma u64_range z : 0 <= u64 z < 2 ^ 64.
Proof. apply Z.mod_pos_bound. lia. Qed.
Lemma u32_id z : 0 <= z < 2 ^ 32 -> u32 z = z.
Proof. apply Z.mod_small. Qed.
Lemma u64_id z : 0 <= z < 2 ^ 64 -> u64 z = z.
Proof. apply Z.mod_small. Qed.
Lemma s32_id z : - 2 ^ 31 <= z < 2 ^ 31 -> s32 z = z.
Proof. intros. unfold s32. rewrite Z.mod_small; lia. Qed.
Lemma u32_add_mult a k : u32 (a + k * 2 ^ 32) = u32 a.
Proof. apply Z.mod_add. lia. Qed.
Lemma u32_idem z : u32 (u32 z) = u32 z.
Proof. apply u32_id, u32_range. Qed.

(** [roundup] of <sys/param.h>, and [howmany]. *)
Definition roundup (x y : Z) : Z := (x + (y - 1)) / y * y.
Definition howmany (x y : Z) : Z := (x + (y - 1)) / y.

Lemma roundup_bounds x y : 0 < y -> x <= roundup x y < x + y.
Proof.
  intros Hy. unfold roundup.
  pose proof (Z.div_mod (x + (y - 1)) y ltac:(lia)).
  pose proof (Z.mod_pos_bound (x + (y - 1)) y Hy). lia.
Qed.

Lemma roundup_mult x y : 0 < y -> roundup x y mod y = 0.
Proof. intros. apply Z.mod_mul. lia. Qed.

Lemma roundup_id x y : 0 < y -> x mod y = 0 -> roundup x y = x.
Proof.
  intros Hy Hm. apply Z.mod_divide in Hm as [k ->]; [|lia]. unfold roundup.
  rewrite Z.div_add_l by lia. rewrite (Z.div_small (y - 1) y) by lia. lia.
Qed.

Lemma howmany_spec x y : 0 < y -> 0 <= x -> x <= howmany x y * y < x + y.
Proof. intros Hy _. apply roundup_bounds, Hy. Qed.

(** ** Lists *)

Lemma list_alter_insert {A} (f : A -> A) (k : nat) (l : list A) (x : A) :
  l !! k = Some x -> alter f k l = <[k := f x]> l.
Proof.
  intros E. apply list_eq. intros j. destruct (decide (j = k)) as [->|Hne].
  - rewrite list_lookup_alter_eq, list_lookup_insert_eq by (by eapply lookup_lt_Some). by rewrite E.
  - by rewrite list_lookup_alter_ne, list_lookup_insert_ne.
Qed.

(** ** Errors *)

(** The [errno] values the modelled code sets. *)
Inductive errno := EINVAL | EIO | ENOMEM | EROFS | ENOSPC | ENOENT | EEXIST.

#[export] Instance errno_eq_dec : EqDecision errno.
Proof. solve_decision. Defined.
