(* ===== verification/Mem.v ===== *)
(** Mem: bytes, little-endian integers and byte-addressed memory.

    The file, the pool and the namespace of the library are one range of
    bytes.  This file models such a range as a function from addresses to
    bytes, with the [memcpy]/[memset] operations on it, the little-endian
    encodings ([htole32], [le64toh], ...) and the states a write can leave
    behind when the power fails while it is in flight. *)

From S2P Require Import Prelude.

(** ** Bytes *)

Definition b2z (b : byte) : Z := Z.of_N (Byte.to_N b).

Definition z2b (z : Z) : byte :=
  match Byte.of_N (Z.to_N (u8 z)) with Some b => b | None => x00 end.

#[export] Instance byte_eq_dec : EqDecision byte.
Proof. intros a b. destruct (Byte.byte_eq_dec a b); [left|right]; done. Defined.

Lemma b2z_range b : 0 <= b2z b < 256.
Proof.
  unfold b2z. pose proof (Byte.to_N_bounded b). lia.
Qed.

Lemma b2z_z2b z : b2z (z2b z) = z mod 256.
Proof.
  unfold b2z, z2b, u8. change (2 ^ 8) with 256.
  pose proof (Z.mod_pos_bound z 256 ltac:(lia)) as Hb.
  destruct (Byte.of_N (Z.to_N (z mod 256))) as [b|] eqn:E.
  - apply Byte.to_of_N in E. rewrite E. lia.
  - apply Byte.of_N_None_iff in E. lia.
Qed.

Lemma b2z_inj a b : b2z a = b2z b -> a = b.
Proof.
  unfold b2z. intros H. apply N2Z.inj in H.
  pose proof (Byte.of_to_N a) as Ha. rewrite H, (Byte.of_to_N b) in Ha. congruence.
Qed.

Lemma z2b_b2z b : z2b (b2z b) = b.
Proof. apply b2z_inj. rewrite b2z_z2b. apply Z.mod_small, b2z_range. Qed.

(** ** Little-endian integers *)

(** [n] bytes holding [z], least significant first (htole). *)
Fixpoint le_enc (n : nat) (z : Z) : list byte :=
  match n with
  | O => []
  | S n => z2b z :: le_enc n (z / 256)
  end.

(** The value of a little-endian byte string (letoh). *)
Fixpoint le_dec (bs : list byte) : Z :=
  match bs with
  | [] => 0
  | b :: bs => b2z b + 256 * le_dec bs
  end.

Lemma length_le_enc n z : length (le_enc n z) = n.
Proof. revert z. induction n; intros; simpl; auto. Qed.
#[export] Hint Rewrite length_le_enc : lens.

Lemma le_dec_range bs : 0 <= le_dec bs < 256 ^ Z.of_nat (length bs).
Proof.
  induction bs as [|b bs IH]; simpl length; [simpl; lia|].
  rewrite Nat2Z.inj_succ, Z.pow_succ_r by lia. simpl.
  pose proof (b2z_range b). lia.
Qed.

Lemma le_dec_enc n z : le_dec (le_enc n z) = z mod 256 ^ Z.of_nat n.
Proof.
  revert z. induction n as [|n IH]; intros z.
  - simpl. rewrite Z.mod_1_r. done.
  - rewrite Nat2Z.inj_succ, Z.pow_succ_r by lia. simpl le_dec.
    rewrite b2z_z2b, IH. rewrite (Z.rem_mul_r z 256) by lia. done.
Qed.

Lemma le_dec_enc_id n z : 0 <= z < 256 ^ Z.of_nat n -> le_dec (le_enc n z) = z.
Proof. intros. rewrite le_dec_enc. by apply Z.mod_small. Qed.

Lemma le_enc_dec bs : le_enc (length bs) (le_dec bs) = bs.
Proof.
  induction bs as [|b bs IH]; simpl; [done|].
  pose proof (b2z_range b). f_equal.
  - apply b2z_inj. rewrite b2z_z2b, Z.mul_comm, Z.mod_add by lia.
    by apply Z.mod_small.
  - replace (b2z b + 256 * le_dec bs) with (le_dec bs * 256 + b2z b) by lia.
    rewrite Z.div_add_l by lia. rewrite (Z.div_small (b2z b)) by lia.
    rewrite Z.add_0_r. done.
Qed.

Lemma le_dec_inj bs bs' :
  length bs = length bs' -> le_dec bs = le_dec bs' -> bs = bs'.
Proof.
  intros Hl H. rewrite <- (le_enc_dec bs), <- (le_enc_dec bs'), Hl, H. done.
Qed.

Lemma le_dec_app a b :
  le_dec (a ++ b) = le_dec a + 256 ^ Z.of_nat (length a) * le_dec b.
Proof.
  induction a as [|x a IH]; simpl length.
  - simpl. lia.
  - rewrite Nat2Z.inj_succ, Z.pow_succ_r by lia. simpl. rewrite IH. lia.
Qed.

Lemma le_dec_zeros n : le_dec (replicate n x00) = 0.
Proof. induction n; simpl; [done|]. rewrite IHn. done. Qed.

#[global] Arguments le_enc : simpl never.

(** The integer in the [n] bytes at position [off] of a buffer. *)
Definition le_at (bs : list byte) (off n : nat) : Z := le_dec (take n (drop off bs)).

Lemma le_at_range bs off n : 0 <= le_at bs off n < 256 ^ Z.of_nat n.
Proof.
  unfold le_at. pose proof (le_dec_range (take n (drop off bs))) as H.
  assert (length (take n (drop off bs)) <= n)%nat by (rewrite length_take; lia).
  pose proof (Z.pow_le_mono_r 256 (Z.of_nat (length (take n (drop off bs)))) (Z.of_nat n)).
  lia.
Qed.

(** ** Memory *)

Definition mem := Z -> byte.

(** Equality of memories is pointwise. *)
#[export] Instance mem_equiv : Equiv mem := fun m1 m2 => forall a, m1 a = m2 a.

#[export] Instance mem_equivalence : Equivalence (≡@{mem}).
Proof.
  split; [intros m a; done | intros m1 m2 H a; by rewrite (H a)
         | intros m1 m2 m3 H H' a; by rewrite (H a)].
Qed.

(** Both memories agree on [off, off + n). *)
Definition agree (m1 m2 : mem) (off n : Z) : Prop :=
  forall a, off <= a < off + n -> m1 a = m2 a.

(** [memcpy] out of the memory. *)
Definition mread (m : mem) (off count : Z) : list byte :=
  (fun i => m (off + i)) <$> seqZ 0 count.

(** [memcpy] into the memory. *)
Definition mwrite (m : mem) (off : Z) (bs : list byte) : mem :=
  let n := Z.of_nat (length bs) in
  fun a => if (off <=? a) && (a <? off + n)
           then nth (Z.to_nat (a - off)) bs x00 else m a.

(** [memset] to zero. *)
Definition mzero (m : mem) (off count : Z) : mem :=
  fun a => if (off <=? a) && (a <? off + count) then x00 else m a.

(** Integers in memory. *)
Definition get_le (n : nat) (m : mem) (off : Z) : Z := le_dec (mread m off (Z.of_nat n)).
Abbreviation get32 := (get_le 4).
Abbreviation get64 := (get_le 8).

Lemma length_mread m off n : length (mread m off n) = Z.to_nat n.
Proof. unfold mread. by rewrite length_fmap, length_seqZ. Qed.
#[export] Hint Rewrite length_mread : lens.

Lemma lookup_mread m off n (i : nat) :
  Z.of_nat i < n -> mread m off n !! i = Some (m (off + Z.of_nat i)).
Proof.
  intros Hi. unfold mread. rewrite list_lookup_fmap, lookup_seqZ_lt by lia. done.
Qed.

Lemma mread_agree m1 m2 off n : agree m1 m2 off n -> mread m1 off n = mread m2 off n.
Proof.
  intros H. unfold mread. apply map_ext_in. intros i Hi.
  apply H. apply list_elem_of_In, elem_of_seqZ in Hi. lia.
Qed.

Lemma get_le_agree k m1 m2 off :
  agree m1 m2 off (Z.of_nat k) -> get_le k m1 off = get_le k m2 off.
Proof. intros H. unfold get_le. by rewrite (mread_agree _ _ _ _ H). Qed.

#[export] Instance mread_proper : Proper ((≡) ==> eq ==> eq ==> eq) mread.
Proof. intros m1 m2 H ? ? -> ? ? ->. apply mread_agree. intros a _. apply H. Qed.

#[export] Instance get_le_proper k : Proper ((≡) ==> eq ==> eq) (get_le k).
Proof. intros m1 m2 H ? ? ->. unfold get_le. by rewrite H. Qed.

Lemma agree_refl m off n : agree m m off n.
Proof. done. Qed.
Lemma agree_sym m1 m2 off n : agree m1 m2 off n -> agree m2 m1 off n.
Proof. intros H a Ha. symmetry. auto. Qed.
Lemma agree_trans m1 m2 m3 off n :
  agree m1 m2 off n -> agree m2 m3 off n -> agree m1 m3 off n.
Proof. intros H H' a Ha. rewrite H by done. auto. Qed.
Lemma agree_sub m1 m2 off n off' n' :
  agree m1 m2 off n -> off <= off' -> off' + n' <= off + n -> agree m1 m2 off' n'.
Proof. intros H ? ? a Ha. apply H. lia. Qed.

#[export] Hint Resolve agree_refl : nvm.

(** *** Writes *)

Lemma mwrite_in m off bs a :
  off <= a < off + Z.of_nat (length bs) ->
  mwrite m off bs a = nth (Z.to_nat (a - off)) bs x00.
Proof. intros H. unfold mwrite. by repeat ztrue. Qed.

Lemma mwrite_out m off bs a :
  a < off \/ off + Z.of_nat (length bs) <= a -> mwrite m off bs a = m a.
Proof.
  intros H. unfold mwrite.
  destruct (Z.leb_spec off a), (Z.ltb_spec a (off + Z.of_nat (length bs))); simpl; auto; lia.
Qed.

Lemma mzero_in m off n a : off <= a < off + n -> mzero m off n a = x00.
Proof. intros H. unfold mzero. by repeat ztrue. Qed.

Lemma mzero_out m off n a : a < off \/ off + n <= a -> mzero m off n a = m a.
Proof.
  intros H. unfold mzero.
  destruct (Z.leb_spec off a), (Z.ltb_spec a (off + n)); simpl; auto; lia.
Qed.

#[export] Instance mwrite_proper : Proper ((≡) ==> eq ==> eq ==> (≡)) mwrite.
Proof. intros m1 m2 H ? ? -> ? ? -> a. unfold mwrite. case_match; auto. Qed.

#[export] Instance mzero_proper : Proper ((≡) ==> eq ==> eq ==> (≡)) mzero.
Proof. intros m1 m2 H ? ? -> ? ? -> a. unfold mzero. case_match; auto. Qed.

(** A write changes nothing outside its range. *)
Lemma mwrite_agree m off bs off' n' :
  off' + n' <= off \/ off + Z.of_nat (length bs) <= off' ->
  agree (mwrite m off bs) m off' n'.
Proof. intros H a Ha. apply mwrite_out. lia. Qed.

Lemma mzero_agree m off n off' n' :
  off' + n' <= off \/ off + n <= off' -> agree (mzero m off n) m off' n'.
Proof. intros H a Ha. apply mzero_out. lia. Qed.

Lemma mread_mwrite_out m off bs off' n' :
  off' + n' <= off \/ off + Z.of_nat (length bs) <= off' ->
  mread (mwrite m off bs) off' n' = mread m off' n'.
Proof. intros. by apply mread_agree, mwrite_agree. Qed.

Lemma get_le_mwrite_out k m off bs off' :
  off' + Z.of_nat k <= off \/ off + Z.of_nat (length bs) <= off' ->
  get_le k (mwrite m off bs) off' = get_le k m off'.
Proof. intros. by apply get_le_agree, mwrite_agree. Qed.

(** Reading inside a written range gives the written bytes. *)
Lemma mread_mwrite_sub m off bs (o : nat) n :
  0 <= n -> Z.of_nat o + n <= Z.of_nat (length bs) ->
  mread (mwrite m off bs) (off + Z.of_nat o) n = take (Z.to_nat n) (drop o bs).
Proof.
  intros Hn Ho. apply list_eq. intros i.
  destruct (decide (Z.of_nat i < n)) as [Hi|Hi].
  - rewrite lookup_mread by done. rewrite mwrite_in by lia.
    rewrite lookup_take_lt by lia. rewrite lookup_drop.
    replace (Z.to_nat (off + Z.of_nat o + Z.of_nat i - off)) with (o + i)%nat by lia.
    destruct (lookup_lt_is_Some_2 bs (o + i)) as [b Hb]; [lia|].
    rewrite nth_lookup, Hb. done.
  - rewrite !lookup_ge_None_2; [done| |]; len.
Qed.

Lemma mread_mwrite_in m off bs off' n :
  off <= off' -> 0 <= n -> off' + n <= off + Z.of_nat (length bs) ->
  mread (mwrite m off bs) off' n = take (Z.to_nat n) (drop (Z.to_nat (off' - off)) bs).
Proof.
  intros. rewrite <- mread_mwrite_sub with (m := m) (off := off) by lia.
  f_equal. lia.
Qed.

Lemma mread_mwrite_eq m off bs n :
  n = Z.of_nat (length bs) -> mread (mwrite m off bs) off n = bs.
Proof.
  intros ->. rewrite mread_mwrite_in by lia.
  rewrite Z.sub_diag. simpl. rewrite drop_0, Nat2Z.id. by apply firstn_all.
Qed.

Lemma get_le_mwrite_eq k m off z :
  get_le k (mwrite m off (le_enc k z)) off = z mod 256 ^ Z.of_nat k.
Proof. unfold get_le. rewrite mread_mwrite_eq by len. apply le_dec_enc. Qed.

Lemma mread_mzero m off n off' n' :
  off <= off' -> 0 <= n' -> off' + n' <= off + n ->
  mread (mzero m off n) off' n' = replicate (Z.to_nat n') x00.
Proof.
  intros. apply list_eq. intros i.
  destruct (decide (Z.of_nat i < n')) as [Hi|Hi].
  - rewrite lookup_mread by done. rewrite mzero_in by lia.
    symmetry. apply lookup_replicate_2. lia.
  - rewrite !lookup_ge_None_2; [done| |]; len.
Qed.

Lemma get_le_mzero k m off n off' :
  off <= off' -> off' + Z.of_nat k <= off + n -> get_le k (mzero m off n) off' = 0.
Proof. intros. unfold get_le. rewrite mread_mzero by lia. apply le_dec_zeros. Qed.

Lemma get_le_range k m off : 0 <= get_le k m off < 256 ^ Z.of_nat k.
Proof.
  unfold get_le. pose proof (le_dec_range (mread m off (Z.of_nat k))) as H.
  rewrite length_mread, Nat2Z.id in H. done.
Qed.

Lemma get32_range m off : 0 <= get32 m off < 2 ^ 32.
Proof. apply (get_le_range 4). Qed.

(** Two reads side by side are one read. *)
Lemma mread_app m off a b :
  0 <= a -> 0 <= b -> mread m off (a + b) = mread m off a ++ mread m (off + a) b.
Proof.
  intros. apply list_eq. intros i.
  destruct (decide (Z.of_nat i < a)); [|destruct (decide (Z.of_nat i < a + b))].
  - rewrite lookup_app_l by len. rewrite !lookup_mread by lia. done.
  - rewrite lookup_app_r by len. rewrite length_mread, !lookup_mread by lia.
    do 2 f_equal. lia.
  - rewrite !lookup_ge_None_2; [done| |]; len.
Qed.

(** A sub-range of a read. *)
Lemma mread_sub m off n (o : nat) k :
  0 <= k -> Z.of_nat o + k <= n ->
  take (Z.to_nat k) (drop o (mread m off n)) = mread m (off + Z.of_nat o) k.
Proof.
  intros. apply list_eq. intros i.
  destruct (decide (Z.of_nat i < k)) as [Hi|Hi].
  - rewrite lookup_take_lt, lookup_drop by lia.
    rewrite !lookup_mread by lia. f_equal. f_equal. lia.
  - rewrite !lookup_ge_None_2; [done| |]; len.
Qed.

Lemma le_at_mread m off n (o k : nat) :
  Z.of_nat o + Z.of_nat k <= n ->
  le_at (mread m off n) o k = get_le k m (off + Z.of_nat o).
Proof.
  intros. unfold le_at, get_le.
  rewrite <- (mread_sub m off n o (Z.of_nat k)) by lia. by rewrite Nat2Z.id.
Qed.

(** ** Power failure during a write

    A store reaches persistence in units of aligned 8-byte words: after a
    power failure each word of the range being written holds either its old
    or its new content. *)
Definition torn (m : mem) (off : Z) (bs : list byte) (m' : mem) : Prop :=
  forall w, agree m' m (8 * w) 8 \/ agree m' (mwrite m off bs) (8 * w) 8.

Lemma torn_none m off bs : torn m off bs m.
Proof. intros w. left. apply agree_refl. Qed.

Lemma torn_all m off bs : torn m off bs (mwrite m off bs).
Proof. intros w. right. apply agree_refl. Qed.

(** A torn write, like a whole one, changes nothing outside its range. *)
Lemma torn_out m off bs m' a :
  torn m off bs m' -> a < off \/ off + Z.of_nat (length bs) <= a -> m' a = m a.
Proof.
  intros Ht Ha. destruct (Ht (a / 8)) as [H|H]; rewrite (H a).
  - done.
  - pose proof (Z.div_mod a 8). pose proof (Z.mod_pos_bound a 8). lia.
  - by apply mwrite_out.
  - pose proof (Z.div_mod a 8). pose proof (Z.mod_pos_bound a 8). lia.
Qed.

Lemma torn_agree m off bs m' off' n' :
  torn m off bs m' -> off' + n' <= off \/ off + Z.of_nat (length bs) <= off' ->
  agree m' m off' n'.
Proof. intros Ht H a Ha. eapply torn_out; [done|lia]. Qed.

(** A write inside one aligned word is all or nothing. *)
Lemma torn_word m off bs m' :
  torn m off bs m' -> 0 < Z.of_nat (length bs) ->
  off mod 8 + Z.of_nat (length bs) <= 8 ->
  m' ≡ m \/ m' ≡ mwrite m off bs.
Proof.
  intros Ht H0 H8. pose proof (Z.div_mod off 8 ltac:(lia)) as Hd.
  pose proof (Z.mod_pos_bound off 8 ltac:(lia)) as Hm.
  destruct (Ht (off / 8)) as [H|H]; [left|right]; intros a.
  - destruct (decide (8 * (off / 8) <= a < 8 * (off / 8) + 8)); [by apply H|].
    eapply torn_out; [done|lia].
  - destruct (decide (8 * (off / 8) <= a < 8 * (off / 8) + 8)); [by apply H|].
    rewrite mwrite_out by lia. eapply torn_out; [done|lia].
Qed.

(** ** Fields of a packed buffer *)

Lemma le_at_enc k z off : off = 0%nat -> le_at (le_enc k z) off k = z mod 256 ^ Z.of_nat k.
Proof.
  intros ->. unfold le_at. rewrite drop_0, firstn_all2 by len. apply le_dec_enc.
Qed.

Lemma le_at_app_l a b off k :
  (off + k <= length a)%nat -> le_at (a ++ b) off k = le_at a off k.
Proof.
  intros H. unfold le_at. rewrite drop_app_le by lia. rewrite take_app_le by len. done.
Qed.

Lemma le_at_app_r a b off k :
  (length a <= off)%nat -> le_at (a ++ b) off k = le_at b (off - length a) k.
Proof. intros H. unfold le_at. by rewrite drop_app_ge by lia. Qed.

Definition slice (bs : list byte) (off k : nat) : list byte := take k (drop off bs).

Lemma slice_app_l a b off k :
  (off + k <= length a)%nat -> slice (a ++ b) off k = slice a off k.
Proof. intros H. unfold slice. rewrite drop_app_le by lia. rewrite take_app_le by len. done. Qed.

Lemma slice_app_r a b off k :
  (length a <= off)%nat -> slice (a ++ b) off k = slice b (off - length a) k.
Proof. intros H. unfold slice. by rewrite drop_app_ge by lia. Qed.

Lemma slice_all a off k : off = 0%nat -> k = length a -> slice a off k = a.
Proof. intros -> ->. unfold slice. rewrite drop_0. apply firstn_all. Qed.

Lemma length_slice bs off k : (off + k <= length bs)%nat -> length (slice bs off k) = k.
Proof. intros. unfold slice. len. Qed.

(** Read a field out of a concatenation of fields. *)
Ltac field_len :=
  rewrite ?length_app, ?length_le_enc, ?length_replicate;
  repeat match goal with H : 0 <= _ < _ |- _ => clear H end; lia.
Ltac field :=
  repeat first
    [ rewrite le_at_app_l by field_len | rewrite le_at_app_r by field_len
    | rewrite slice_app_l by field_len | rewrite slice_app_r by field_len ];
  first [ rewrite le_at_enc by field_len | rewrite slice_all by field_len | idtac ].
