(* ===== verification/Util.v ===== *)
(** Util: src/src/common/util.c and util.h.

    The Fletcher64 checksum that guards every on-media header, the common
    pool header with its validation and feature flags, the address hint for
    [mmap], the page rounding used before [mprotect]/[msync], and the
    creation and opening of pool files.  The host is little-endian, so the
    le32toh/htole32 conversions are the decodings of [Mem]. *)

From stdpp Require Import strings.
From S2P Require Import Prelude Mem.

(** ** Checksum *)

Section Checksum.

(** The buffer seen as [uint32_t *]. *)
Fixpoint words (bs : list byte) : list Z :=
  match bs with
  | b0 :: b1 :: b2 :: b3 :: bs => le_dec [b0; b1; b2; b3] :: words bs
  | _ => []
  end.

(** The loop of [util_checksum]: [off] is the byte offset of [p32], [csum]
    the one of [csump]. *)
Fixpoint csum_loop (ws : list Z) (off csum lo32 hi32 : Z) : Z * Z :=
  match ws with
  | [] => (lo32, hi32)
  | w :: ws =>
      if off =? csum then
        let hi32 := u32 (hi32 + lo32) in
        let hi32 := u32 (hi32 + lo32) in
        match ws with
        | [] => (lo32, hi32)
        | _ :: ws => csum_loop ws (off + 8) csum lo32 hi32
        end
      else
        let lo32 := u32 (lo32 + w) in
        csum_loop ws (off + 4) csum lo32 (u32 (hi32 + lo32))
  end.

(** The value computed: (uint64_t)hi32 << 32 | lo32. *)
Definition csum_value (bs : list byte) (csum : Z) : Z :=
  let '(lo32, hi32) := csum_loop (words bs) 0 csum 0 0 in
  Z.lor (Z.shiftl hi32 32) lo32.

(** Overwrite part of a buffer. *)
Definition splice (bs : list byte) (off : nat) (new : list byte) : list byte :=
  take off bs ++ new ++ drop (off + length new) bs.

(** Returns the result and the buffer. *)
Definition util_checksum (bs : list byte) (csum : Z) (insert : bool) : bool * list byte :=
  let v := csum_value bs csum in
  if insert then (true, splice bs (Z.to_nat csum) (le_enc 8 v))
  else (le_at bs (Z.to_nat csum) 8 =? v, bs).

End Checksum.

(** ** Zero test *)

Fixpoint util_is_zeroed (a : list byte) : bool :=
  match a with
  | [] => true
  | b :: a => if negb (b2z b =? 0) then false else util_is_zeroed a
  end.

(** ** Pool header *)

Definition POOL_HDR_SIG_LEN : nat := 8.
Definition POOL_HDR_UUID_LEN : nat := 16.
Definition POOL_HDR_SIZE : Z := 4096.

Record pool_hdr := {
  signature : list byte;
  major : Z;
  compat_features : Z;
  incompat_features : Z;
  ro_compat_features : Z;
  uuid : list byte;
  crtime : Z;
  unused : list byte;
  checksum : Z;
}.

(** The header as it lies in memory. *)
Definition pool_hdr_bytes (h : pool_hdr) : list byte :=
  signature h ++ le_enc 4 (major h) ++ le_enc 4 (compat_features h) ++
  le_enc 4 (incompat_features h) ++ le_enc 4 (ro_compat_features h) ++
  uuid h ++ le_enc 8 (crtime h) ++ unused h ++ le_enc 8 (checksum h).

Definition pool_hdr_of (bs : list byte) : pool_hdr := {|
  signature := slice bs 0 8;
  major := le_at bs 8 4;
  compat_features := le_at bs 12 4;
  incompat_features := le_at bs 16 4;
  ro_compat_features := le_at bs 20 4;
  uuid := slice bs 24 16;
  crtime := le_at bs 40 8;
  unused := slice bs 48 4040;
  checksum := le_at bs 4088 8;
|}.

(** [util_convert_hdr] on the bytes of a header: [None] when invalid. *)
Definition util_convert_hdr (hdr : list byte) : option pool_hdr :=
  let h := pool_hdr_of hdr in
  if major h =? 0 then None
  else if negb (fst (util_checksum hdr 4088 false)) then None
  else Some h.

(** ** Feature flags *)

Definition GET_NOT_MASKED_BITS (x mask : Z) : Z := Z.land x (u32 (Z.lnot mask)).

(** [inl EINVAL] is -1 with errno; [inr false] is 0 (read-only), [inr true] is 1. *)
Definition util_feature_check (h : pool_hdr) (incompat ro_compat compat : Z) : errno + bool :=
  if negb (GET_NOT_MASKED_BITS (incompat_features h) incompat =? 0) then inl EINVAL
  else if negb (GET_NOT_MASKED_BITS (ro_compat_features h) ro_compat =? 0) then inr false
  else inr true.

(** ** Address hint *)

Definition GIGABYTE : Z := 2 ^ 30.
Definition TERABYTE : Z := 2 ^ 40.
Definition UINTPTR_MAX : Z := 2 ^ 64 - 1.

(** The power-of-two form of [roundup], on [uintptr_t]. *)
Definition roundup_ptr (x y : Z) : Z := u64 (x + (y - 1)) / y * y.

(** The loop over the "lo-hi" lines of /proc/self/maps. *)
Fixpoint map_hint_loop (ranges : list (Z * Z)) (len raddr : Z) : Z :=
  match ranges with
  | [] => raddr
  | (lo, hi) :: ranges =>
      if (raddr <? lo) && (len <=? lo - raddr) then raddr
      else
        let raddr := if raddr <? hi then roundup_ptr hi GIGABYTE else raddr in
        if raddr =? 0 then raddr else map_hint_loop ranges len raddr
  end.

(** [ranges] is [None] when /proc/self/maps cannot be opened; 0 is NULL. *)
Definition util_map_hint (ranges : option (list (Z * Z))) (len : Z) : Z :=
  match ranges with
  | None => 0
  | Some ranges =>
      let raddr := map_hint_loop ranges len TERABYTE in
      if negb (raddr =? 0) && (UINTPTR_MAX - raddr <? len) then 0 else raddr
  end.

(** ** Page ranges *)

(** The address and length given to [mprotect] or [msync]. *)
Definition page_range (Pagesize addr len : Z) : Z * Z :=
  let len := u64 (len + Z.land addr (Pagesize - 1)) in
  let uptr := Z.land addr (u64 (Z.lnot (Pagesize - 1))) in
  (uptr, len).

Inductive prot := PROT_NONE | PROT_READ | PROT_READ_WRITE.

Section Ranges.
Context (Pagesize : Z).
(** The operating system's answer. *)
Context (mprotect : Z -> Z -> prot -> bool).

Definition util_range_ro (addr len : Z) : bool :=
  let '(uptr, len) := page_range Pagesize addr len in mprotect uptr len PROT_READ.
Definition util_range_rw (addr len : Z) : bool :=
  let '(uptr, len) := page_range Pagesize addr len in mprotect uptr len PROT_READ_WRITE.
Definition util_range_none (addr len : Z) : bool :=
  let '(uptr, len) := page_range Pagesize addr len in mprotect uptr len PROT_NONE.
End Ranges.

(** ** Pool files *)

Record file := { f_size : Z; f_bytes : mem }.

(** The file system, and whether [posix_fallocate] finds the space. *)
Record fsys := { files : gmap string file; space : Z }.

(** On success the descriptor, represented by the path it opens. *)
Definition util_pool_create (fs : fsys) (path : string) (size minsize : Z)
  : (errno + string) * fsys :=
  if size <? minsize then (inl EINVAL, fs)
  else
    match files fs !! path with
    | Some _ => (inl EEXIST, fs)
    | None =>
        let fs1 := {| files := <[path := {| f_size := 0; f_bytes := fun _ => x00 |}]> (files fs);
                      space := space fs |} in
        if space fs <? size then
          (* close, unlink *)
          (inl ENOSPC, {| files := delete path (files fs1); space := space fs |})
        else
          (inr path, {| files := <[path := {| f_size := size; f_bytes := fun _ => x00 |}]>
                                   (files fs1);
                        space := space fs - size |})
    end.

(** On success the descriptor and the size found. *)
Definition util_pool_open (fs : fsys) (path : string) (minsize : Z)
  : errno + (string * Z) :=
  match files fs !! path with
  | None => inl ENOENT
  | Some f => if f_size f <? minsize then inl EINVAL else inr (path, f_size f)
  end.

(** A file written back to the file system. *)
Definition fs_store (fs : fsys) (path : string) (m : mem) : fsys :=
  match files fs !! path with
  | Some f => {| files := <[path := {| f_size := f_size f; f_bytes := m |}]> (files fs); space := space fs |}
  | None => fs
  end.

(** ** Checksum: properties *)

Lemma length_splice bs off new :
  (off + length new <= length bs)%nat -> length (splice bs off new) = length bs.
Proof. intros. unfold splice. len. Qed.

Lemma le_at_splice bs off new k :
  k = length new -> (off + length new <= length bs)%nat ->
  le_at (splice bs off new) off k = le_dec new.
Proof.
  intros -> H. unfold le_at, splice.
  rewrite drop_app_length' by len. by rewrite take_app_length.
Qed.

(** Induction over a buffer read four bytes at a time. *)
Lemma chunk4_ind (P : list byte -> Prop) :
  (forall bs, (length bs < 4)%nat -> P bs) ->
  (forall b0 b1 b2 b3 bs, P bs -> P (b0 :: b1 :: b2 :: b3 :: bs)) ->
  forall bs, P bs.
Proof.
  intros Hs Hc bs. induction bs as [bs IH] using (induction_ltof1 _ (@length _)).
  unfold ltof in IH.
  destruct bs as [|b0 [|b1 [|b2 [|b3 bs]]]]; try (apply Hs; simpl; lia).
  apply Hc, IH. simpl. lia.
Qed.

Lemma words_app a b :
  (length a mod 4 = 0)%nat -> words (a ++ b) = words a ++ words b.
Proof.
  induction a as [a Ha|b0 b1 b2 b3 a IH] using chunk4_ind; intros Hm.
  - rewrite Nat.mod_small in Hm by done. by destruct a.
  - cbn [app words]. f_equal. apply IH.
    cbn [length] in Hm. rewrite <- (Nat.Div0.mod_add (length a) 1 4).
    replace (length a + 1 * 4)%nat with (S (S (S (S (length a))))) by lia. done.
Qed.

Lemma length_words bs : length (words bs) = (length bs / 4)%nat.
Proof.
  induction bs as [bs Hb|b0 b1 b2 b3 bs IH] using chunk4_ind.
  - rewrite Nat.div_small by done. destruct bs as [|? [|? [|? [|]]]]; simpl in *; lia.
  - cbn [words length]. rewrite IH.
    replace (S (S (S (S (length bs))))) with (length bs + 1 * 4)%nat by lia.
    rewrite Nat.div_add by lia. lia.
Qed.

Lemma words_range bs : Forall (fun w => 0 <= w < 2 ^ 32) (words bs).
Proof.
  induction bs as [bs Hb|b0 b1 b2 b3 bs IH] using chunk4_ind.
  - destruct bs as [|? [|? [|? [|]]]]; simpl in *; try lia; constructor.
  - constructor; [apply (le_dec_range [b0; b1; b2; b3])|done].
Qed.

(** *** The reference Fletcher64 *)

Fixpoint sumZ (ws : list Z) : Z :=
  match ws with
  | [] => 0
  | w :: ws => w + sumZ ws
  end.

(** Sum of the prefix sums: each word weighs the number of words from it on. *)
Fixpoint psumZ (ws : list Z) : Z :=
  match ws with
  | [] => 0
  | w :: ws => Z.of_nat (S (length ws)) * w + psumZ ws
  end.

Definition fletcher64 (ws : list Z) : Z := u32 (psumZ ws) * 2 ^ 32 + u32 (sumZ ws).

(** The words with the two of the checksum field read as zero. *)
Fixpoint zeroed (ws : list Z) (off csum : Z) : list Z :=
  match ws with
  | [] => []
  | w :: ws =>
      if off =? csum then
        match ws with [] => [0] | _ :: ws => 0 :: 0 :: zeroed ws (off + 8) csum end
      else w :: zeroed ws (off + 4) csum
  end.

Lemma u32_add_l a b : u32 (u32 a + b) = u32 (a + b).
Proof. unfold u32. by rewrite Zplus_mod_idemp_l. Qed.

Lemma length_zeroed ws off csum : length (zeroed ws off csum) = length ws.
Proof.
  revert off. induction ws as [ws IH] using (induction_ltof1 _ (@length _)).
  unfold ltof in IH. intros off. destruct ws as [|w ws]; [done|].
  cbn [zeroed]. destruct (off =? csum).
  - destruct ws; [done|]. cbn [length]. rewrite IH by (simpl; lia). done.
  - cbn [length]. rewrite IH by (simpl; lia). done.
Qed.

(** The loop in closed form, from any accumulators. *)
Lemma csum_loop_closed ws off csum lo hi :
  csum <> off + 4 * Z.of_nat (length ws) - 4 ->
  csum_loop ws off csum (u32 lo) (u32 hi) =
  (u32 (lo + sumZ (zeroed ws off csum)),
   u32 (hi + Z.of_nat (length ws) * lo + psumZ (zeroed ws off csum))).
Proof.
  revert off lo hi.
  induction ws as [ws IH] using (induction_ltof1 _ (@length _)); unfold ltof in IH.
  intros off lo hi Hf. destruct ws as [|w ws].
  { simpl. f_equal; f_equal; lia. }
  cbn [csum_loop zeroed]. destruct (Z.eqb_spec off csum) as [->|Hne].
  - destruct ws as [|w' ws]; [simpl in Hf; lia|].
    replace (u32 (u32 (u32 hi + u32 lo) + u32 lo)) with (u32 (hi + 2 * lo)).
    2: { rewrite !u32_add_l. unfold u32. rewrite Zplus_mod_idemp_r.
         rewrite (Z.add_comm (hi mod _)), <- Z.add_assoc, Zplus_mod_idemp_l.
         rewrite (Z.add_comm (hi mod _)), Z.add_assoc, Zplus_mod_idemp_r. f_equal. lia. }
    rewrite IH by (cbn [length] in *; lia).
    cbn [sumZ psumZ length]. f_equal; f_equal; lia.
  - rewrite u32_add_l.
    replace (u32 (u32 hi + u32 (lo + w))) with (u32 (hi + (lo + w))).
    2: { unfold u32. by rewrite !Zplus_mod_idemp_l, !Zplus_mod_idemp_r. }
    rewrite IH by (cbn [length] in *; lia).
    cbn [sumZ psumZ length]. rewrite length_zeroed. f_equal; f_equal; lia.
Qed.

(** Past the field nothing is zeroed. *)
Lemma zeroed_past ws off csum : csum < off -> zeroed ws off csum = ws.
Proof.
  revert off. induction ws as [|w ws IH]; intros off H; [done|].
  cbn [zeroed]. replace (off =? csum) with false by (symmetry; apply Z.eqb_neq; lia).
  by rewrite IH by lia.
Qed.

Lemma zeroed_app a b off csum :
  off + 4 * Z.of_nat (length a) <= csum ->
  zeroed (a ++ b) off csum = a ++ zeroed b (off + 4 * Z.of_nat (length a)) csum.
Proof.
  revert off. induction a as [|w a IH]; intros off H.
  - simpl. f_equal. lia.
  - cbn [length] in *. cbn [app zeroed].
    replace (off =? csum) with false by (symmetry; apply Z.eqb_neq; lia).
    rewrite IH by lia. do 3 f_equal. lia.
Qed.

(** A buffer around its checksum field. *)
Lemma splice_split bs off new :
  (off + length new <= length bs)%nat ->
  words (splice bs off new) = words (take off bs ++ new ++ drop (off + length new) bs).
Proof. done. Qed.

Definition zero8 : list byte := replicate 8 x00.

Lemma length_zero8 : length zero8 = 8%nat.
Proof. done. Qed.
#[export] Hint Rewrite length_zero8 : lens.

(** Zeroing the field of the words is zeroing it in the buffer. *)
Lemma words_zeroed bs csum :
  (csum mod 4 = 0)%nat -> (csum + 8 <= length bs)%nat ->
  zeroed (words bs) 0 (Z.of_nat csum) = words (splice bs csum zero8).
Proof.
  intros Hm Hl. unfold splice. change (length zero8) with 8%nat.
  rewrite <- (take_drop csum bs) at 1.
  assert (length (take csum bs) = csum) as Ht by len.
  rewrite !words_app by (rewrite Ht; done).
  assert (4 * Z.of_nat (length (words (take csum bs))) = Z.of_nat csum) as Hw.
  { rewrite length_words, Ht. pose proof (Nat.div_mod_eq csum 4). lia. }
  rewrite zeroed_app by lia. f_equal.
  rewrite (words_app zero8) by done. rewrite <- drop_drop.
  rewrite <- (take_drop 8 (drop csum bs)) at 1.
  assert (length (take 8 (drop csum bs)) = 8%nat) as H8 by len.
  rewrite words_app by (rewrite H8; done).
  destruct (take 8 (drop csum bs)) as [|b0 [|b1 [|b2 [|b3 [|b4 [|b5 [|b6 [|b7 [|]]]]]]]]];
    try discriminate H8.
  cbn [words app zeroed]. rewrite Hw, Z.eqb_refl.
  rewrite zeroed_past by lia. done.
Qed.

(** The reference: Fletcher64 of the buffer with its checksum field zero. *)
Lemma csum_value_spec bs csum :
  (csum mod 4 = 0)%nat -> (csum + 8 <= length bs)%nat ->
  csum_value bs (Z.of_nat csum) = fletcher64 (words (splice bs csum zero8)).
Proof.
  intros Hm Hl. unfold csum_value.
  assert (csum <> (0 + 4 * length (words bs) - 4)%nat) as Hne.
  { rewrite length_words. pose proof (Nat.div_mod_eq (length bs) 4).
    pose proof (Nat.mod_upper_bound (length bs) 4). lia. }
  change 0 with (u32 0) at 2 3. rewrite csum_loop_closed by lia.
  rewrite words_zeroed by done. unfold fletcher64.
  rewrite <- Z.add_nocarry_lor.
  - rewrite Z.shiftl_mul_pow2 by lia. do 3 f_equal; lia.
  - apply Z.bits_inj'. intros i Hi. rewrite Z.land_spec, Z.bits_0.
    destruct (decide (i < 32)).
    + by rewrite Z.shiftl_spec_low.
    + unfold u32 at 2. rewrite Z.mod_pow2_bits_high by lia. by rewrite andb_false_r.
Qed.

Lemma splice_app_l a b off new :
  (off + length new <= length a)%nat -> splice (a ++ b) off new = splice a off new ++ b.
Proof.
  intros H. unfold splice.
  rewrite take_app_le, drop_app_le by lia. by rewrite <- !app_assoc.
Qed.

Lemma splice_app_r a b off new :
  (length a <= off)%nat -> splice (a ++ b) off new = a ++ splice b (off - length a) new.
Proof.
  intros H. unfold splice. rewrite take_app_ge, drop_app_ge by lia.
  rewrite <- app_assoc. do 4 f_equal. lia.
Qed.

Lemma sumZ_app a b : sumZ (a ++ b) = sumZ a + sumZ b.
Proof. induction a; simpl; lia. Qed.

Lemma fletcher64_sum ws ws' :
  fletcher64 ws = fletcher64 ws' -> u32 (sumZ ws) = u32 (sumZ ws').
Proof.
  unfold fletcher64. intros H. pose proof (u32_range (sumZ ws)).
  pose proof (u32_range (sumZ ws')). lia.
Qed.

Lemma u32_sum_neq x y s : 0 <= x < 2 ^ 32 -> 0 <= y < 2 ^ 32 -> x <> y ->
  u32 (x + s) <> u32 (y + s).
Proof.
  intros Hx Hy Hn He. unfold u32 in He.
  assert ((x - y) mod 2 ^ 32 = 0) as Hd.
  { replace (x - y) with ((x + s) - (y + s)) by lia.
    rewrite Zminus_mod, He, Z.sub_diag. done. }
  apply Z.mod_divide in Hd as [k Hk]; [|lia]. nia.
Qed.

Lemma words_word w : length w = 4%nat -> words w = [le_dec w].
Proof. by destruct w as [|b0 [|b1 [|b2 [|b3 [|]]]]]. Qed.

Lemma words_mid a w b :
  (length a mod 4 = 0)%nat -> length w = 4%nat ->
  words (a ++ w ++ b) = words a ++ le_dec w :: words b.
Proof.
  intros Ha Hw. rewrite words_app by done. f_equal.
  rewrite words_app by (by rewrite Hw). by rewrite words_word.
Qed.

(** Changing one word outside the field changes the sum. *)
Lemma sum_mid_neq a w w' b :
  (length a mod 4 = 0)%nat -> length w = 4%nat -> length w' = 4%nat -> w <> w' ->
  fletcher64 (words (a ++ w ++ b)) <> fletcher64 (words (a ++ w' ++ b)).
Proof.
  intros Ha Hw Hw' Hn He. apply fletcher64_sum in He.
  rewrite !words_mid, !sumZ_app in He by done. cbn [sumZ] in He.
  rewrite !(Z.add_comm (sumZ (words a))), <- !Z.add_assoc in He.
  eapply u32_sum_neq; [..|exact He].
  - pose proof (le_dec_range w) as H. rewrite Hw in H. exact H.
  - pose proof (le_dec_range w') as H. rewrite Hw' in H. exact H.
  - intros E. apply Hn, le_dec_inj; [by rewrite Hw|done].
Qed.

(** The word compared is part of the field when it lies in it. *)
Lemma le_at_mid_neq a w w' b off :
  length w = 4%nat -> length w' = 4%nat -> w <> w' ->
  (off <= length a)%nat -> (length a + 4 <= off + 8)%nat ->
  le_at (a ++ w ++ b) off 8 <> le_at (a ++ w' ++ b) off 8.
Proof.
  intros Hw Hw' Hn H1 H2 He. apply Hn. unfold le_at in He.
  rewrite !drop_app_le in He by lia.
  apply le_dec_inj in He; [|len].
  assert (forall v, length v = 4%nat ->
    take 4 (drop (length a - off) (take 8 (drop off a ++ v ++ b))) = v) as Hv.
  { intros v Hv. rewrite take_app_ge by len. rewrite drop_app_length' by len.
    rewrite take_app_ge by len. rewrite take_app_length' by len. done. }
  rewrite <- (Hv w Hw), <- (Hv w' Hw'), He. done.
Qed.

Lemma splice_splice bs off new new' :
  length new = length new' -> (off + length new <= length bs)%nat ->
  splice (splice bs off new) off new' = splice bs off new'.
Proof.
  intros Hl H. unfold splice.
  rewrite (take_app_length' (take off bs)) by len. f_equal. f_equal.
  rewrite drop_app_ge by len. rewrite drop_app_ge by len.
  rewrite drop_drop. f_equal. len.
Qed.

Lemma fletcher64_range ws : 0 <= fletcher64 ws < 2 ^ 64.
Proof.
  unfold fletcher64. pose proof (u32_range (psumZ ws)). pose proof (u32_range (sumZ ws)). lia.
Qed.

Lemma csum_value_range bs csum :
  (csum mod 4 = 0)%nat -> (csum + 8 <= length bs)%nat ->
  0 <= csum_value bs (Z.of_nat csum) < 2 ^ 64.
Proof. intros. rewrite csum_value_spec by done. apply fletcher64_range. Qed.

Lemma checksum_inserted bs csum :
  (csum mod 4 = 0)%nat -> (csum + 8 <= length bs)%nat ->
  fst (util_checksum (splice bs csum (le_enc 8 (csum_value bs (Z.of_nat csum))))
         (Z.of_nat csum) false) = true.
Proof.
  intros Hm Hl. cbn [util_checksum fst]. rewrite Nat2Z.id. apply Z.eqb_eq.
  rewrite le_at_splice by len.
  rewrite (csum_value_spec (splice _ _ _)) by (rewrite ?length_splice by len; done).
  rewrite splice_splice by len. rewrite <- csum_value_spec by done.
  apply le_dec_enc_id. by apply csum_value_range.
Qed.

(** What [util_checksum] inserts is what it checks: after inserting, the
    buffer differs from the original only in the checksum field, and checking
    it succeeds. *)
Theorem util_checksum_roundtrip (bs : list byte) (csum : nat)
  (Halign : (csum mod 4 = 0)%nat) (Hfit : (csum + 8 <= length bs)%nat) :
  let bs' := snd (util_checksum bs (Z.of_nat csum) true) in
  length bs' = length bs /\
  take csum bs' = take csum bs /\ drop (csum + 8) bs' = drop (csum + 8) bs /\
  fst (util_checksum bs' (Z.of_nat csum) false) = true.
Proof.
  cbn [util_checksum fst snd]. rewrite Nat2Z.id.
  set (v := csum_value bs (Z.of_nat csum)).
  assert (length (splice bs csum (le_enc 8 v)) = length bs) as Hlen.
  { apply length_splice. len. }
  repeat split.
  - exact Hlen.
  - unfold splice. by rewrite take_app_length' by len.
  - unfold splice. rewrite app_assoc, drop_app_length' by len. done.
  - unfold v. pose proof (checksum_inserted bs csum Halign Hfit) as H.
    cbn [util_checksum fst] in H. by rewrite Nat2Z.id in H.
Qed.

(** Corruption is detected: when a buffer checks and one aligned 32-bit word of
    it is changed, in the checksum field or outside, the check fails. *)
Theorem util_checksum_detects (a w w' b : list byte) (csum : nat)
  (Ha : (length a mod 4 = 0)%nat) (Hw : length w = 4%nat) (Hw' : length w' = 4%nat)
  (Halign : (csum mod 4 = 0)%nat) (Hfit : (csum + 8 <= length (a ++ w ++ b))%nat)
  (Hvalid : fst (util_checksum (a ++ w ++ b) (Z.of_nat csum) false) = true)
  (Hdiff : w <> w') :
  fst (util_checksum (a ++ w' ++ b) (Z.of_nat csum) false) = false.
Proof.
  cbn [util_checksum fst] in *. rewrite Nat2Z.id in *.
  apply Z.eqb_eq in Hvalid. apply Z.eqb_neq. intros He.
  assert (csum + 8 <= length (a ++ w' ++ b))%nat as Hfit' by len.
  rewrite csum_value_spec in Hvalid, He by done.
  pose proof (Nat.div_mod_eq (length a) 4). pose proof (Nat.div_mod_eq csum 4).
  destruct (decide (csum + 8 <= length a)%nat) as [Hl|Hl].
  { rewrite !le_at_app_l in Hvalid, He by lia. rewrite Hvalid in He.
    rewrite !splice_app_l in He by done.
    eapply sum_mid_neq; [..|exact He]; try done. by rewrite length_splice. }
  destruct (decide (length a + 4 <= csum)%nat) as [Hr|Hr].
  { rewrite !(app_assoc a) in Hvalid, He.
    rewrite !le_at_app_r, !splice_app_r in Hvalid, He by len.
    rewrite !length_app, Hw, Hw' in *. rewrite Hvalid in He.
    rewrite <- !app_assoc in He. revert He. by apply sum_mid_neq. }
  eapply (le_at_mid_neq a w w' b csum); try done; [lia..|].
  rewrite Hvalid, He. f_equal. f_equal. unfold splice. change (length zero8) with 8%nat.
  rewrite !take_app_le, !app_assoc by lia. rewrite !(drop_app_ge (a ++ _)) by len.
  do 2 f_equal. len.
Qed.

(** ** Pool header: properties *)

(** The fields are in the range of their C types. *)
Record pool_hdr_wf (h : pool_hdr) : Prop := {
  wf_signature : length (signature h) = 8%nat;
  wf_major : 0 <= major h < 2 ^ 32;
  wf_compat : 0 <= compat_features h < 2 ^ 32;
  wf_incompat : 0 <= incompat_features h < 2 ^ 32;
  wf_ro_compat : 0 <= ro_compat_features h < 2 ^ 32;
  wf_uuid : length (uuid h) = 16%nat;
  wf_crtime : 0 <= crtime h < 2 ^ 64;
  wf_unused : length (unused h) = 4040%nat;
  wf_checksum : 0 <= checksum h < 2 ^ 64;
}.

Lemma length_pool_hdr_bytes h :
  pool_hdr_wf h -> length (pool_hdr_bytes h) = 4096%nat.
Proof. intros []. unfold pool_hdr_bytes. rewrite !length_app, !length_le_enc. lia. Qed.

Lemma pool_hdr_of_bytes h : pool_hdr_wf h -> pool_hdr_of (pool_hdr_bytes h) = h.
Proof.
  intros []. destruct h as [s ma c i r u t un ck]; simpl in *.
  unfold pool_hdr_of, pool_hdr_bytes; cbn [signature major compat_features incompat_features
    ro_compat_features uuid crtime unused checksum].
  f_equal. all: field. all: try done.
  all: try (by rewrite Z.mod_small).
Qed.

Definition set_checksum (h : pool_hdr) (v : Z) : pool_hdr := {|
  signature := signature h; major := major h; compat_features := compat_features h;
  incompat_features := incompat_features h; ro_compat_features := ro_compat_features h;
  uuid := uuid h; crtime := crtime h; unused := unused h; checksum := v |}.

Lemma splice_hdr h v :
  pool_hdr_wf h -> splice (pool_hdr_bytes h) 4088 (le_enc 8 v) = pool_hdr_bytes (set_checksum h v).
Proof.
  intros []. unfold splice, pool_hdr_bytes, set_checksum.
  cbn [signature major compat_features incompat_features ro_compat_features uuid crtime unused checksum].
  rewrite !app_assoc. rewrite take_app_length', drop_ge by field_len.
  by rewrite app_nil_r.
Qed.

Lemma convert_hdr_roundtrip (h : pool_hdr) (Hwf : pool_hdr_wf h) (Hmaj : major h <> 0) :
  exists v, util_convert_hdr (snd (util_checksum (pool_hdr_bytes h) 4088 true)) =
            Some (set_checksum h v).
Proof.
  pose proof (length_pool_hdr_bytes h Hwf) as Hl.
  assert ((4088 mod 4 = 0)%nat) as Hm by done.
  assert ((4088 + 8 <= length (pool_hdr_bytes h))%nat) as Hf by (rewrite Hl; lia).
  pose proof (checksum_inserted _ _ Hm Hf) as Hc.
  pose proof (csum_value_range _ _ Hm Hf) as Hr.
  change (Z.of_nat 4088) with 4088 in *.
  cbn [util_checksum snd]. change (Z.to_nat 4088) with 4088%nat.
  set (v := csum_value _ _) in *. exists v.
  assert (pool_hdr_wf (set_checksum h v)) as Hwf' by (destruct Hwf; split; assumption).
  unfold util_convert_hdr. rewrite Hc. rewrite (splice_hdr h v Hwf), (pool_hdr_of_bytes _ Hwf').
  cbn [set_checksum major negb]. apply Z.eqb_neq in Hmaj. rewrite Hmaj. reflexivity.
Qed.

(** A header written by the library is accepted: storing the checksum in a
    header with a non-zero major version gives bytes that [util_convert_hdr]
    converts back to exactly that header. *)
Theorem util_convert_hdr_roundtrip (h : pool_hdr) (Hwf : pool_hdr_wf h) (Hmaj : major h <> 0) :
  exists v, util_convert_hdr (snd (util_checksum (pool_hdr_bytes h) 4088 true)) =
            Some (set_checksum h v).
Proof. by apply convert_hdr_roundtrip. Qed.

(** ** Zero test, address hint, page ranges *)

Lemma util_is_zeroed_spec a : util_is_zeroed a = true <-> a = replicate (length a) x00.
Proof.
  induction a as [|b a IH]; simpl; [done|].
  destruct (Z.eqb_spec (b2z b) 0) as [Hb|Hb]; simpl.
  - change 0 with (b2z x00) in Hb. apply b2z_inj in Hb as ->. rewrite IH.
    split; [by intros <-|by intros [=]].
  - split; [done|]. intros [= E _]. by rewrite E in Hb.
Qed.

Lemma roundup_ptr_spec x :
  0 <= x < 2 ^ 64 ->
  roundup_ptr x GIGABYTE = 0 \/
  (x <= roundup_ptr x GIGABYTE < 2 ^ 64 /\ roundup_ptr x GIGABYTE mod GIGABYTE = 0).
Proof.
  intros Hx. unfold roundup_ptr, u64, GIGABYTE.
  rewrite Z.mod_mul by lia.
  destruct (decide (x + (2 ^ 30 - 1) < 2 ^ 64)) as [H|H].
  - right. rewrite (Z.mod_small (_ + _)) by lia.
    pose proof (Z.div_mod (x + (2 ^ 30 - 1)) (2 ^ 30) ltac:(lia)).
    pose proof (Z.mod_pos_bound (x + (2 ^ 30 - 1)) (2 ^ 30) ltac:(lia)). lia.
  - left. replace (x + (2 ^ 30 - 1)) with ((x + (2 ^ 30 - 1) - 2 ^ 64) + 1 * 2 ^ 64) by lia.
    rewrite Z.mod_add, Z.mod_small by lia. rewrite Z.div_small by lia. done.
Qed.

(** The lines of /proc/self/maps: ranges of the 64-bit space, in order. *)
Fixpoint maps_sorted (prev : Z) (ranges : list (Z * Z)) : Prop :=
  match ranges with
  | [] => True
  | (lo, hi) :: ranges => prev <= lo /\ lo < hi < 2 ^ 64 /\ maps_sorted hi ranges
  end.

Lemma maps_sorted_lo prev ranges lo hi :
  maps_sorted prev ranges -> (lo, hi) ∈ ranges -> prev <= lo.
Proof.
  revert prev. induction ranges as [|[l h] ranges IH]; intros prev Hs Hin.
  - by apply elem_of_nil in Hin.
  - simpl in Hs. apply elem_of_cons in Hin as [[= -> ->]|Hin]; [tauto|].
    destruct Hs as (? & ? & Hs). specialize (IH _ Hs Hin). lia.
Qed.

(** What the loop returns is clear of every range that follows it. *)
Lemma map_hint_loop_clear ranges len raddr prev r :
  0 <= len -> 0 < raddr < 2 ^ 64 -> raddr mod GIGABYTE = 0 -> maps_sorted prev ranges ->
  map_hint_loop ranges len raddr = r -> r <> 0 ->
  raddr <= r < 2 ^ 64 /\ r mod GIGABYTE = 0 /\
  forall lo hi, (lo, hi) ∈ ranges -> hi <= r \/ r + len <= lo.
Proof.
  revert raddr prev. induction ranges as [|[lo hi] ranges IH];
    intros raddr prev Hlen Hr Hg Hs E Hn; simpl in E.
  { subst r. split_and!; [lia..|done|]. intros ? ? H. by apply elem_of_nil in H. }
  destruct Hs as (Hp & Hlh & Hs).
  destruct ((raddr <? lo) && (len <=? lo - raddr)) eqn:Hfit.
  - bools. subst r. split_and!; [lia..|done|]. intros l h Hin. right.
    apply elem_of_cons in Hin as [[= -> ->]|Hin]; [lia|].
    pose proof (maps_sorted_lo _ _ _ _ Hs Hin). lia.
  - set (raddr' := if raddr <? hi then roundup_ptr hi GIGABYTE else raddr) in E.
    destruct (Z.eqb_spec raddr' 0) as [H0|H0]; [lia|].
    assert (raddr <= raddr' < 2 ^ 64 /\ hi <= raddr' /\ raddr' mod GIGABYTE = 0) as (Ha & Hb & Hc).
    { unfold raddr' in *. destruct (Z.ltb_spec raddr hi); [|lia].
      destruct (roundup_ptr_spec hi) as [?|[? ?]]; [lia|done|lia]. }
    destruct (IH raddr' hi Hlen ltac:(lia) Hc Hs E Hn) as (H1 & H2 & H3).
    split_and!; [lia..|done|]. intros l h Hin.
    apply elem_of_cons in Hin as [[= -> ->]|Hin]; [lia|]. by apply H3.
Qed.

(** The address hint is safe: for the sorted lines of /proc/self/maps, a
    non-NULL hint is at least 1TB, 1GB-aligned, inside the address space
    together with the whole length, and overlaps no mapped range. *)
Theorem util_map_hint_free (ranges : list (Z * Z)) (len : Z)
  (Hlen : 0 <= len) (Hs : maps_sorted 0 ranges) (Hr : util_map_hint (Some ranges) len <> 0) :
  let r := util_map_hint (Some ranges) len in
  TERABYTE <= r /\ r mod GIGABYTE = 0 /\ r + len < 2 ^ 64 /\
  forall lo hi, (lo, hi) ∈ ranges -> hi <= r \/ r + len <= lo.
Proof.
  cbv zeta. unfold util_map_hint in *.
  set (r := map_hint_loop ranges len TERABYTE) in *.
  destruct (Z.eqb_spec r 0) as [H0|H0]; [by rewrite H0 in Hr|]. cbn [negb andb] in *.
  destruct (Z.ltb_spec (UINTPTR_MAX - r) len) as [Ho|Ho]; [done|].
  destruct (map_hint_loop_clear ranges len TERABYTE 0 r) as (H1 & H2 & H3); try done.
  unfold UINTPTR_MAX in *. split_and!; [lia|done|lia|done].
Qed.

Lemma land_lnot_pow2 a k :
  0 <= k < 64 -> 0 <= a < 2 ^ 64 -> Z.land a (u64 (Z.lnot (2 ^ k - 1))) = a - a mod 2 ^ k.
Proof.
  intros Hk Ha.
  assert (a - a mod 2 ^ k = Z.ldiff a (Z.ones k)) as ->.
  { rewrite Z.ldiff_ones_r by lia. rewrite Z.shiftl_mul_pow2, Z.shiftr_div_pow2 by lia.
    pose proof (Z.div_mod a (2 ^ k) ltac:(lia)). lia. }
  apply Z.bits_inj'. intros i Hi. rewrite Z.land_spec, Z.ldiff_spec. unfold u64.
  destruct (decide (i < 64)).
  - rewrite Z.mod_pow2_bits_low by lia. rewrite Z.lnot_spec by lia.
    rewrite Z.ones_equiv, Z.sub_1_r. done.
  - rewrite Z.mod_pow2_bits_high by lia.
    assert (Z.testbit a i = false) as ->; [|done].
    rewrite <- (Z.mod_small a (2 ^ 64)) by lia. by apply Z.mod_pow2_bits_high; lia.
Qed.

Lemma page_range_spec (k addr len : Z)
  (Hk : 0 <= k < 64) (Ha : 0 <= addr) (Hl : 0 <= len) (He : addr + len < 2 ^ 64) :
  let '(uptr, l) := page_range (2 ^ k) addr len in
  uptr mod 2 ^ k = 0 /\ uptr <= addr < uptr + 2 ^ k /\ uptr + l = addr + len.
Proof.
  unfold page_range.
  replace (Z.land addr (2 ^ k - 1)) with (addr mod 2 ^ k).
  2: { rewrite <- Z.land_ones by lia. f_equal. rewrite Z.ones_equiv. lia. }
  rewrite land_lnot_pow2 by lia.
  assert (0 < 2 ^ k) by (apply Z.pow_pos_nonneg; lia).
  pose proof (Z.mod_pos_bound addr (2 ^ k) ltac:(lia)).
  pose proof (Z.mod_le addr (2 ^ k) ltac:(lia) ltac:(lia)).
  rewrite (u64_id (len + _)) by lia. split_and!; [|lia..].
  rewrite Zminus_mod_idemp_r, Z.sub_diag. by apply Z.mod_0_l; lia.
Qed.

(** The range given to mprotect/msync starts on a page, at most one page
    before the address, and ends exactly where the requested range ends. *)
Theorem page_range_covers (k addr len : Z)
  (Hk : 0 <= k < 64) (Ha : 0 <= addr) (Hl : 0 <= len) (He : addr + len < 2 ^ 64) :
  let '(uptr, l) := page_range (2 ^ k) addr len in
  uptr mod 2 ^ k = 0 /\ uptr <= addr < uptr + 2 ^ k /\ uptr + l = addr + len.
Proof. by apply page_range_spec. Qed.

(** ** Pool files: properties *)

(** Creating a pool file is all or nothing: on success a zero-filled file of
    the requested size exists that [util_pool_open] accepts; on failure no file
    was created, and in both cases every other file is as before. *)
Theorem util_pool_create_spec (fs : fsys) (path : string) (size minsize : Z) :
  let '(r, fs') := util_pool_create fs path size minsize in
  match r with
  | inr fd => fd = path /\ minsize <= size /\ files fs !! path = None /\
              util_pool_open fs' path minsize = inr (path, size) /\
              files fs' = <[path := {| f_size := size; f_bytes := fun _ => x00 |}]> (files fs)
  | inl e => files fs' = files fs
  end.
Proof.
  unfold util_pool_create, util_pool_open.
  destruct (Z.ltb_spec size minsize) as [H|H]; [done|].
  destruct (files fs !! path) as [f|] eqn:E; [done|].
  destruct (space fs <? size); cbn [files].
  - rewrite delete_insert_eq. by apply delete_id.
  - rewrite lookup_insert_eq. cbn [f_size]. ztrue.
    by rewrite insert_insert_eq.
Qed.
