(* ===== verification/BttLayout.v ===== *)
(** BttLayout: src/src/libpmemblk/btt_layout.h.

    The on-media structures of the BTT: the info block, the flog entry and
    the map entry, with their encodings and the constants of the layout. *)

From S2P Require Import Prelude Mem Util.

Definition BTT_ALIGNMENT : Z := 4096.
Definition BTTINFO_SIG_LEN : nat := 16.
Definition BTTINFO_UUID_LEN : nat := 16.

(** ** Info block *)

Record btt_info := {
  i_sig : list byte;
  i_parent_uuid : list byte;
  i_flags : Z;
  i_major : Z;
  i_minor : Z;
  i_external_lbasize : Z;
  i_external_nlba : Z;
  i_internal_lbasize : Z;
  i_internal_nlba : Z;
  i_nfree : Z;
  i_infosize : Z;
  i_nextoff : Z;
  i_dataoff : Z;
  i_mapoff : Z;
  i_flogoff : Z;
  i_infooff : Z;
  i_unused : list byte;
  i_checksum : Z;
}.

Definition BTT_INFO_SIZE : Z := 4096.
(** Offset of the checksum field. *)
Definition INFO_CSUM : Z := 4088.
(** Offset of the flags field. *)
Definition INFO_FLAGS : nat := 32.

(** The block as it lies on the media. *)
Definition btt_info_bytes (i : btt_info) : list byte :=
  i_sig i ++ i_parent_uuid i ++ le_enc 4 (i_flags i) ++
  le_enc 2 (i_major i) ++ le_enc 2 (i_minor i) ++
  le_enc 4 (i_external_lbasize i) ++ le_enc 4 (i_external_nlba i) ++
  le_enc 4 (i_internal_lbasize i) ++ le_enc 4 (i_internal_nlba i) ++
  le_enc 4 (i_nfree i) ++ le_enc 4 (i_infosize i) ++
  le_enc 8 (i_nextoff i) ++ le_enc 8 (i_dataoff i) ++ le_enc 8 (i_mapoff i) ++
  le_enc 8 (i_flogoff i) ++ le_enc 8 (i_infooff i) ++
  i_unused i ++ le_enc 8 (i_checksum i).

Definition btt_info_of (bs : list byte) : btt_info := {|
  i_sig := slice bs 0 16;
  i_parent_uuid := slice bs 16 16;
  i_flags := le_at bs 32 4;
  i_major := le_at bs 36 2;
  i_minor := le_at bs 38 2;
  i_external_lbasize := le_at bs 40 4;
  i_external_nlba := le_at bs 44 4;
  i_internal_lbasize := le_at bs 48 4;
  i_internal_nlba := le_at bs 52 4;
  i_nfree := le_at bs 56 4;
  i_infosize := le_at bs 60 4;
  i_nextoff := le_at bs 64 8;
  i_dataoff := le_at bs 72 8;
  i_mapoff := le_at bs 80 8;
  i_flogoff := le_at bs 88 8;
  i_infooff := le_at bs 96 8;
  i_unused := slice bs 104 3984;
  i_checksum := le_at bs 4088 8;
|}.

Definition BTTINFO_FLAG_ERROR : Z := 1.
Definition BTTINFO_FLAG_ERROR_MASK : Z := 1.
Definition BTTINFO_MAJOR_VERSION : Z := 1.
Definition BTTINFO_MINOR_VERSION : Z := 1.

(** ** Flog entries *)

Definition BTT_FLOG_PAIR_ALIGN : Z := 64.

Record btt_flog := { lba : Z; old_map : Z; new_map : Z; seq : Z }.

Definition BTT_FLOG_SIZE : Z := 16.

Definition flog_bytes (f : btt_flog) : list byte :=
  le_enc 4 (lba f) ++ le_enc 4 (old_map f) ++ le_enc 4 (new_map f) ++ le_enc 4 (seq f).

Definition flog_of (bs : list byte) : btt_flog := {|
  lba := le_at bs 0 4; old_map := le_at bs 4 4; new_map := le_at bs 8 4; seq := le_at bs 12 4 |}.

Definition Zflog : btt_flog := {| lba := 0; old_map := 0; new_map := 0; seq := 0 |}.

(** ** Map entries *)

Definition BTT_MAP_ENTRY_SIZE : Z := 4.
Definition BTT_MAP_ENTRY_ERROR : Z := 0x40000000.
Definition BTT_MAP_ENTRY_ZERO : Z := 0x80000000.
Definition BTT_MAP_ENTRY_NORMAL : Z := 0xC0000000.
Definition BTT_MAP_ENTRY_LBA_MASK : Z := 0x3fffffff.
Definition BTT_MAP_LOCK_ALIGN : Z := 64.

Definition BTT_MIN_SIZE : Z := 2 ^ 20 * 16.
Definition BTT_MAX_ARENA : Z := 2 ^ 39.
Definition BTT_MIN_LBA_SIZE : Z := 512.
Definition BTT_INTERNAL_LBA_ALIGNMENT : Z := 256.
Definition BTT_DEFAULT_NFREE : Z := 256.

(** The flag bits: map_entry & ~BTT_MAP_ENTRY_LBA_MASK. *)
Definition entry_flags (map_entry : Z) : Z :=
  Z.land map_entry (u32 (Z.lnot BTT_MAP_ENTRY_LBA_MASK)).
Definition entry_lba (map_entry : Z) : Z := Z.land map_entry BTT_MAP_ENTRY_LBA_MASK.

Definition map_entry_is_zero (map_entry : Z) : bool :=
  entry_flags map_entry =? BTT_MAP_ENTRY_ZERO.
Definition map_entry_is_error (map_entry : Z) : bool :=
  entry_flags map_entry =? BTT_MAP_ENTRY_ERROR.
Definition map_entry_is_initial (map_entry : Z) : bool :=
  entry_flags map_entry =? 0.
Definition map_entry_is_zero_or_initial (map_entry : Z) : bool :=
  let flags := entry_flags map_entry in (flags =? 0) || (flags =? BTT_MAP_ENTRY_ZERO).

(** *** Properties of map entries *)

Lemma entry_lba_mod e : entry_lba e = e mod 2 ^ 30.
Proof. unfold entry_lba, BTT_MAP_ENTRY_LBA_MASK. by rewrite <- Z.land_ones by lia. Qed.

Lemma entry_lba_range e : 0 <= entry_lba e < 2 ^ 30.
Proof. rewrite entry_lba_mod. apply Z.mod_pos_bound. lia. Qed.

Lemma entry_flags_div e : 0 <= e < 2 ^ 32 -> entry_flags e = e / 2 ^ 30 * 2 ^ 30.
Proof.
  intros He. unfold entry_flags.
  change (u32 (Z.lnot BTT_MAP_ENTRY_LBA_MASK)) with (Z.shiftl 3 30).
  rewrite <- Z.shiftr_div_pow2, <- Z.shiftl_mul_pow2 by lia.
  apply Z.bits_inj'. intros i Hi. rewrite Z.land_spec.
  destruct (decide (i < 30)).
  - rewrite !Z.shiftl_spec_low by lia. apply andb_false_r.
  - rewrite !Z.shiftl_spec_high, Z.shiftr_spec by lia.
    replace (i - 30 + 30) with i by lia.
    destruct (decide (i < 32)).
    + assert (i = 30 \/ i = 31) as [-> | ->] by lia; simpl; apply andb_true_r.
    + rewrite <- (Z.mod_small e (2 ^ 32)) by lia.
      by rewrite Z.mod_pow2_bits_high by lia.
Qed.

(** An entry is its flags and its block. *)
Lemma entry_split e : 0 <= e < 2 ^ 32 -> e = entry_flags e + entry_lba e.
Proof.
  intros He. rewrite entry_flags_div, entry_lba_mod by done.
  pose proof (Z.div_mod e (2 ^ 30) ltac:(lia)). lia.
Qed.

Lemma entry_flags_cases e : 0 <= e < 2 ^ 32 ->
  entry_flags e = 0 \/ entry_flags e = BTT_MAP_ENTRY_ERROR \/
  entry_flags e = BTT_MAP_ENTRY_ZERO \/ entry_flags e = BTT_MAP_ENTRY_NORMAL.
Proof.
  intros He. rewrite entry_flags_div by done.
  unfold BTT_MAP_ENTRY_ERROR, BTT_MAP_ENTRY_ZERO, BTT_MAP_ENTRY_NORMAL.
  assert (0 <= e / 2 ^ 30 < 4) as H.
  { split; [apply Z.div_pos; lia|apply Z.div_lt_upper_bound; lia]. }
  lia.
Qed.

(** Setting flags over a block number. *)
Lemma lor_flags f b : 0 <= f -> f mod 2 ^ 30 = 0 -> 0 <= b < 2 ^ 30 -> Z.lor b f = f + b.
Proof.
  intros Hf0 Hf Hb. rewrite Z.add_comm. symmetry. apply Z.add_nocarry_lor.
  apply Z.bits_inj'. intros i Hi. rewrite Z.land_spec, Z.bits_0.
  destruct (decide (i < 30)).
  - rewrite <- (Z.mod_pow2_bits_low f 30) by lia. rewrite Hf, Z.bits_0. apply andb_false_r.
  - rewrite <- (Z.mod_small b (2 ^ 30)) by lia. by rewrite Z.mod_pow2_bits_high by lia.
Qed.

(** ** The info block: encoding and checksum *)

Record btt_info_wf (i : btt_info) : Prop := {
  wf_sig : length (i_sig i) = 16%nat;
  wf_parent : length (i_parent_uuid i) = 16%nat;
  wf_flags : 0 <= i_flags i < 2 ^ 32;
  wf_imajor : 0 <= i_major i < 2 ^ 16;
  wf_iminor : 0 <= i_minor i < 2 ^ 16;
  wf_elbs : 0 <= i_external_lbasize i < 2 ^ 32;
  wf_ext : 0 <= i_external_nlba i < 2 ^ 32;
  wf_ilbs : 0 <= i_internal_lbasize i < 2 ^ 32;
  wf_int : 0 <= i_internal_nlba i < 2 ^ 32;
  wf_nfree : 0 <= i_nfree i < 2 ^ 32;
  wf_infosize : 0 <= i_infosize i < 2 ^ 32;
  wf_nextoff : 0 <= i_nextoff i < 2 ^ 64;
  wf_dataoff : 0 <= i_dataoff i < 2 ^ 64;
  wf_mapoff : 0 <= i_mapoff i < 2 ^ 64;
  wf_flogoff : 0 <= i_flogoff i < 2 ^ 64;
  wf_infooff : 0 <= i_infooff i < 2 ^ 64;
  wf_iunused : length (i_unused i) = 3984%nat;
  wf_csum : 0 <= i_checksum i < 2 ^ 64;
}.

Definition set_info_csum (i : btt_info) (v : Z) : btt_info := {|
  i_sig := i_sig i; i_parent_uuid := i_parent_uuid i; i_flags := i_flags i; i_major := i_major i;
  i_minor := i_minor i; i_external_lbasize := i_external_lbasize i;
  i_external_nlba := i_external_nlba i; i_internal_lbasize := i_internal_lbasize i;
  i_internal_nlba := i_internal_nlba i; i_nfree := i_nfree i; i_infosize := i_infosize i;
  i_nextoff := i_nextoff i; i_dataoff := i_dataoff i; i_mapoff := i_mapoff i;
  i_flogoff := i_flogoff i; i_infooff := i_infooff i; i_unused := i_unused i; i_checksum := v |}.

Lemma length_btt_info_bytes i : btt_info_wf i -> length (btt_info_bytes i) = 4096%nat.
Proof. intros []. unfold btt_info_bytes. rewrite !length_app, !length_le_enc. lia. Qed.

Lemma btt_info_of_bytes i : btt_info_wf i -> btt_info_of (btt_info_bytes i) = i.
Proof.
  intros []. destruct i. cbn [i_sig i_parent_uuid i_flags i_major i_minor i_external_lbasize
    i_external_nlba i_internal_lbasize i_internal_nlba i_nfree i_infosize i_nextoff i_dataoff
    i_mapoff i_flogoff i_infooff i_unused i_checksum] in *.
  unfold btt_info_of, btt_info_bytes. cbn [i_sig i_parent_uuid i_flags i_major i_minor i_external_lbasize
    i_external_nlba i_internal_lbasize i_internal_nlba i_nfree i_infosize i_nextoff i_dataoff
    i_mapoff i_flogoff i_infooff i_unused i_checksum].
  f_equal. all: field. all: try done. all: by rewrite Z.mod_small.
Qed.

Lemma splice_info i v :
  btt_info_wf i -> splice (btt_info_bytes i) 4088 (le_enc 8 v) = btt_info_bytes (set_info_csum i v).
Proof.
  intros []. unfold splice, btt_info_bytes, set_info_csum. cbn [i_sig i_parent_uuid i_flags i_major i_minor
    i_external_lbasize i_external_nlba i_internal_lbasize i_internal_nlba i_nfree i_infosize i_nextoff
    i_dataoff i_mapoff i_flogoff i_infooff i_unused i_checksum].
  rewrite !app_assoc. rewrite take_app_length', drop_ge by field_len. by rewrite app_nil_r.
Qed.

(** A block with its checksum inserted reads back, and checks. *)
Lemma info_checksum_roundtrip i :
  btt_info_wf i ->
  let bs := snd (util_checksum (btt_info_bytes i) INFO_CSUM true) in
  length bs = 4096%nat /\ fst (util_checksum bs INFO_CSUM false) = true /\
  exists v, btt_info_of bs = set_info_csum i v.
Proof.
  intros Hwf. pose proof (length_btt_info_bytes i Hwf) as Hl.
  assert ((4088 mod 4 = 0)%nat) as Hm by done.
  assert ((4088 + 8 <= length (btt_info_bytes i))%nat) as Hf by (rewrite Hl; lia).
  pose proof (checksum_inserted _ _ Hm Hf) as Hc. pose proof (csum_value_range _ _ Hm Hf) as Hr.
  unfold INFO_CSUM. change (Z.of_nat 4088) with 4088 in *.
  cbn [util_checksum snd]. change (Z.to_nat 4088) with 4088%nat.
  set (v := csum_value _ _) in *. cbv zeta. split_and!; [by rewrite length_splice|done|].
  exists v. rewrite splice_info by done. apply btt_info_of_bytes. destruct Hwf. by split.
Qed.
