(* ===== verification/Prog.v ===== *)
(** Prog: the namespace interface and the programs that use it.

    The BTT module does all its I/O through the [ns_callback] table
    (src/src/libpmemblk/btt.h).  [NsOps] is that table and [NsLaws] what the
    BTT relies on; [Blk] provides the instance.  A routine of the BTT is a
    [prog]: a tree of its visible actions (callbacks, allocation, atomic
    accesses to the shared run-time state, waiting on a lock or in a busy
    loop).  [run] executes a program alone and records its writes; the media
    a power failure can leave is computed from that record. *)

From S2P Require Import Prelude Mem.

(** ** The namespace *)

Class NsOps (N : Type) := {
  nsread : N -> Z -> Z -> Z -> errno + list byte;          (* lane count off *)
  nswrite : N -> Z -> list byte -> Z -> errno + N;         (* lane buf off *)
  nszero : N -> Z -> Z -> Z -> errno + N;                  (* lane count off *)
  nsmap : N -> Z -> Z -> Z -> errno + list byte;           (* lane len off *)
  ns_is_zeroed : N -> bool;
}.

(** What a namespace provides: a range of [ns_size] bytes, accessed in bounds
    without error; [nsmap] gives access to the whole range it is asked for. *)
Class NsLaws (N : Type) `{NsOps N} := {
  ns_size : N -> Z;
  ns_mem : N -> mem;
  nsread_ok : forall n lane count off,
    0 <= off -> 0 <= count -> off + count <= ns_size n ->
    nsread n lane count off = inr (mread (ns_mem n) off count);
  nswrite_ok : forall n lane bs off,
    0 <= off -> off + Z.of_nat (length bs) <= ns_size n ->
    exists n', nswrite n lane bs off = inr n' /\ ns_size n' = ns_size n /\
               ns_is_zeroed n' = ns_is_zeroed n /\ ns_mem n' ≡ mwrite (ns_mem n) off bs;
  nszero_ok : forall n lane count off,
    0 <= off -> 0 <= count -> off + count <= ns_size n ->
    exists n', nszero n lane count off = inr n' /\ ns_size n' = ns_size n /\
               ns_is_zeroed n' = ns_is_zeroed n /\ ns_mem n' ≡ mzero (ns_mem n) off count;
  nsmap_ok : forall n lane len off,
    0 <= off -> 0 <= len -> off + len < ns_size n ->
    nsmap n lane len off = inr (mread (ns_mem n) off len);
}.

(** ** Programs *)

(** What a C program must not do: undefined behaviour (an index out of bounds),
    waiting for ever, and, for the loops given fuel here, running out of it. *)
Inductive fault := Undefined | Blocked | OutOfFuel.

Section Prog.
Context {S : Type}.

Inductive prog (A : Type) : Type :=
| Ret (a : A)
| Throw (e : errno)
| Crash (f : fault)
| NsRead (lane count off : Z) (k : errno + list byte -> prog A)
| NsWrite (lane : Z) (bs : list byte) (off : Z) (k : errno + unit -> prog A)
| NsZero (lane count off : Z) (k : errno + unit -> prog A)
| NsMap (lane len off : Z) (k : errno + list byte -> prog A)
| NsIsZeroed (k : bool -> prog A)
| Malloc (size : Z) (k : bool -> prog A)
  (** wait until the guard holds, then update the run-time state atomically;
      the continuation receives the state before the update *)
| Step (guard : S -> bool) (upd : S -> S) (k : S -> prog A).

#[global] Arguments Ret {A}. #[global] Arguments Throw {A}. #[global] Arguments Crash {A}.
#[global] Arguments NsRead {A}. #[global] Arguments NsWrite {A}. #[global] Arguments NsZero {A}.
#[global] Arguments NsMap {A}. #[global] Arguments NsIsZeroed {A}. #[global] Arguments Malloc {A}.
#[global] Arguments Step {A}.

Fixpoint bind {A B} (p : prog A) (f : A -> prog B) : prog B :=
  match p with
  | Ret a => f a
  | Throw e => Throw e
  | Crash c => Crash c
  | NsRead l c o k => NsRead l c o (fun r => bind (k r) f)
  | NsWrite l b o k => NsWrite l b o (fun r => bind (k r) f)
  | NsZero l c o k => NsZero l c o (fun r => bind (k r) f)
  | NsMap l n o k => NsMap l n o (fun r => bind (k r) f)
  | NsIsZeroed k => NsIsZeroed (fun r => bind (k r) f)
  | Malloc n k => Malloc n (fun r => bind (k r) f)
  | Step g u k => Step g u (fun r => bind (k r) f)
  end.

(** Turn "return -1 with errno" of a callee into a value, to clean up after it. *)
Fixpoint catch {A} (p : prog A) : prog (errno + A) :=
  match p with
  | Ret a => Ret (inr a)
  | Throw e => Ret (inl e)
  | Crash c => Crash c
  | NsRead l c o k => NsRead l c o (fun r => catch (k r))
  | NsWrite l b o k => NsWrite l b o (fun r => catch (k r))
  | NsZero l c o k => NsZero l c o (fun r => catch (k r))
  | NsMap l n o k => NsMap l n o (fun r => catch (k r))
  | NsIsZeroed k => NsIsZeroed (fun r => catch (k r))
  | Malloc n k => Malloc n (fun r => catch (k r))
  | Step g u k => Step g u (fun r => catch (k r))
  end.

(** A result that is an error becomes "return -1". *)
Definition of_result {A} (r : errno + A) : prog A :=
  match r with inl e => Throw e | inr a => Ret a end.

Definition get : prog S := Step (fun _ => true) (fun s => s) (fun s => Ret s).
Definition modify (f : S -> S) : prog unit := Step (fun _ => true) f (fun _ => Ret tt).
Definition await (g : S -> bool) (f : S -> S) : prog unit := Step g f (fun _ => Ret tt).
Definition read_ns (lane count off : Z) : prog (list byte) := NsRead lane count off of_result.
Definition write_ns (lane : Z) (bs : list byte) (off : Z) : prog unit := NsWrite lane bs off of_result.
Definition zero_ns (lane count off : Z) : prog unit := NsZero lane count off of_result.
Definition map_ns (lane len off : Z) : prog (list byte) := NsMap lane len off of_result.
(** "if ((p = Malloc(size)) == NULL) return -1", errno set by malloc *)
Definition malloc (size : Z) : prog unit :=
  Malloc size (fun ok => if ok then Ret tt else Throw ENOMEM).
(** An access to an array element or a pointer that must be valid. *)
Definition deref {A} (o : option A) : prog A :=
  match o with Some a => Ret a | None => Crash Undefined end.
End Prog.

Arguments prog : clear implicits.

Declare Scope prog_scope.
Delimit Scope prog_scope with prog.
Notation "x <- p ;; q" := (bind p (fun x => q))
  (at level 90, p at level 89, right associativity) : prog_scope.
Notation "p ;;; q" := (bind p (fun _ => q)) (at level 90, right associativity) : prog_scope.
#[global] Open Scope prog_scope.

(** ** Running a program alone *)

Inductive outcome (A : Type) := Done (a : A) | Err (e : errno) | Fault (f : fault).
Arguments Done {A}. Arguments Err {A}. Arguments Fault {A}.

(** The durable writes a program performs, in order. *)
Inductive event := EvWrite (off : Z) (bs : list byte) | EvZero (off count : Z).

Record world (N S : Type) := { w_ns : N; w_st : S; w_log : list event }.
Arguments w_ns {N S}. Arguments w_st {N S}. Arguments w_log {N S}.
Arguments Build_world {N S}.

(** Whether the allocator (Malloc, which the user may replace) serves a size. *)
Class Allocator := malloc_ok : Z -> bool.

Section Run.
Context {N S : Type} `{NsOps N} `{Allocator}.

Definition set_ns (w : world N S) (n : N) (ev : event) : world N S :=
  {| w_ns := n; w_st := w_st w; w_log := w_log w ++ [ev] |}.
Definition set_st (w : world N S) (s : S) : world N S :=
  {| w_ns := w_ns w; w_st := s; w_log := w_log w |}.

Fixpoint run {A} (p : prog S A) (w : world N S) : outcome A * world N S :=
  match p with
  | Ret a => (Done a, w)
  | Throw e => (Err e, w)
  | Crash f => (Fault f, w)
  | NsRead l c o k => run (k (nsread (w_ns w) l c o)) w
  | NsWrite l b o k =>
      match nswrite (w_ns w) l b o with
      | inl e => run (k (inl e)) w
      | inr n => run (k (inr tt)) (set_ns w n (EvWrite o b))
      end
  | NsZero l c o k =>
      match nszero (w_ns w) l c o with
      | inl e => run (k (inl e)) w
      | inr n => run (k (inr tt)) (set_ns w n (EvZero o c))
      end
  | NsMap l n o k => run (k (nsmap (w_ns w) l n o)) w
  | NsIsZeroed k => run (k (ns_is_zeroed (w_ns w))) w
  | Malloc n k => run (k (malloc_ok n)) w
  | Step g u k =>
      if g (w_st w) then run (k (w_st w)) (set_st w (u (w_st w))) else (Fault Blocked, w)
  end.

Lemma run_bind {A B} (p : prog S A) (f : A -> prog S B) w :
  run (bind p f) w =
  match run p w with
  | (Done a, w') => run (f a) w'
  | (Err e, w') => (Err e, w')
  | (Fault c, w') => (Fault c, w')
  end.
Proof.
  revert w. induction p; intros w; simpl; auto.
  - destruct (nswrite _ _ _ _); auto.
  - destruct (nszero _ _ _ _); auto.
  - destruct (guard _); auto.
Qed.

Lemma run_catch {A} (p : prog S A) w :
  run (catch p) w =
  match run p w with
  | (Done a, w') => (Done (inr a), w')
  | (Err e, w') => (Done (inl e), w')
  | (Fault c, w') => (Fault c, w')
  end.
Proof.
  revert w. induction p; intros w; simpl; auto.
  - destruct (nswrite _ _ _ _); auto.
  - destruct (nszero _ _ _ _); auto.
  - destruct (guard _); auto.
Qed.

Lemma run_bind_done {A B} (p : prog S A) (f : A -> prog S B) w w' a :
  run p w = (Done a, w') -> run (bind p f) w = run (f a) w'.
Proof. intros E. by rewrite run_bind, E. Qed.

Lemma run_bind_err {A B} (p : prog S A) (f : A -> prog S B) w w' e :
  run p w = (Err e, w') -> run (bind p f) w = (Err e, w').
Proof. intros E. by rewrite run_bind, E. Qed.

Lemma run_get w : run get w = (Done (w_st w), w).
Proof. simpl. by destruct w. Qed.
Lemma run_modify f w : run (modify f) w = (Done tt, set_st w (f (w_st w))).
Proof. done. Qed.
End Run.

(** ** Power failure *)

Definition apply_event (m : mem) (ev : event) : mem :=
  match ev with
  | EvWrite off bs => mwrite m off bs
  | EvZero off n => mzero m off n
  end.

(** The media after a power failure during one event. *)
Definition torn_event (m : mem) (ev : event) (m' : mem) : Prop :=
  match ev with
  | EvWrite off bs => torn m off bs m'
  | EvZero off n => torn m off (replicate (Z.to_nat n) x00) m'
  end.

(** [crashed m evs m']: starting from the media [m], power fails somewhere in
    the sequence of writes [evs]; the writes before that point are durable and
    the one in flight is torn. *)
Inductive crashed : mem -> list event -> mem -> Prop :=
| crashed_done m m' : m' ≡ m -> crashed m [] m'
| crashed_now m ev evs m' : torn_event m ev m' -> crashed m (ev :: evs) m'
| crashed_later m ev evs m' : crashed (apply_event m ev) evs m' -> crashed m (ev :: evs) m'.

Definition apply_events (m : mem) (evs : list event) : mem := fold_left apply_event evs m.
