(* ===== verification/StateM.v ===== *)
(** StateM: a state monad with faults, for the code of libpmemobj.

    A routine takes the state and either commits a fault (undefined behaviour,
    waiting for ever, running out of fuel) or returns a value and a new state.
    The allocator reports failure through its return values, so there is no
    [errno] here. *)

From S2P Require Import Prelude Prog.

Definition M (S A : Type) : Type := S -> fault + (A * S).

Section StateM.
Context {S : Type}.

Definition ret {A} (a : A) : M S A := fun s => inr (a, s).
Definition fail {A} (f : fault) : M S A := fun _ => inl f.
Definition bindM {A B} (m : M S A) (k : A -> M S B) : M S B :=
  fun s => match m s with inl f => inl f | inr (a, s') => k a s' end.
Definition getM : M S S := fun s => inr (s, s).
Definition putM (s : S) : M S unit := fun _ => inr (tt, s).
Definition modM (f : S -> S) : M S unit := fun s => inr (tt, f s).
(** The use of a pointer or an index that must be valid. *)
Definition validM {A} (o : option A) : M S A := match o with Some a => ret a | None => fail Undefined end.

Lemma bindM_inr {A B} (m : M S A) (k : A -> M S B) s a s' :
  m s = inr (a, s') -> bindM m k s = k a s'.
Proof. unfold bindM. by intros ->. Qed.

Lemma bindM_assoc {A B C} (m : M S A) (k : A -> M S B) (h : B -> M S C) s :
  bindM (bindM m k) h s = bindM m (fun a => bindM (k a) h) s.
Proof. unfold bindM. by destruct (m s) as [|[??]]. Qed.
End StateM.

(** Run a routine on a part of the state. *)
Definition zoomM {S T A} (get : S -> T) (set : T -> S -> S) (m : M T A) : M S A :=
  fun s => match m (get s) with inl f => inl f | inr (a, t) => inr (a, set t s) end.

Declare Scope stateM_scope.
Delimit Scope stateM_scope with stateM.
Notation "x <- p ;; q" := (bindM p (fun x => q))
  (at level 90, p at level 89, right associativity) : stateM_scope.
Notation "p ;;; q" := (bindM p (fun _ => q)) (at level 90, right associativity) : stateM_scope.
(** Take the next step of a monadic goal or hypothesis whose result is known. *)
Ltac stepM H := erewrite bindM_inr by (exact H).

(** "for (i = ...; ...; ++i) f(i)" over the indexes of a list. *)
Fixpoint forM {S} (f : Z -> M S unit) (l : list Z) : M S unit :=
  match l with
  | [] => ret tt
  | i :: l => (bindM (f i) (fun _ => forM f l))
  end.

(** ** Total correctness

    [wp m Q s]: [m] runs from [s] without a fault and what it returns satisfies
    [Q]. *)

Definition wp {S A} (m : M S A) (Q : A -> S -> Prop) (s : S) : Prop :=
  match m s with inl _ => False | inr (a, s') => Q a s' end.

Section Wp.
Context {S : Type}.

Lemma wp_elim {A} (m : M S A) Q s : wp m Q s -> exists a s', m s = inr (a, s') /\ Q a s'.
Proof. unfold wp. destruct (m s) as [|[a s']]; [done|]. by exists a, s'. Qed.

Lemma wp_intro {A} (m : M S A) (Q : A -> S -> Prop) s a s' : m s = inr (a, s') -> Q a s' -> wp m Q s.
Proof. unfold wp. by intros ->. Qed.

Lemma wp_mono {A} (m : M S A) (P Q : A -> S -> Prop) s : wp m P s -> (forall a s', P a s' -> Q a s') -> wp m Q s.
Proof. unfold wp. destruct (m s) as [|[a s']]; auto. Qed.

Lemma wp_bind {A B} (m : M S A) (k : A -> M S B) Q s : wp m (fun a => wp (k a) Q) s -> wp (bindM m k) Q s.
Proof. unfold wp, bindM. by destruct (m s) as [|[a s']]. Qed.

(** The continuation after a step whose specification is known. *)
Lemma wp_seq {A B} (m : M S A) (k : A -> M S B) (P : A -> S -> Prop) Q s :
  wp m P s -> (forall a s', P a s' -> wp (k a) Q s') -> wp (bindM m k) Q s.
Proof. intros Hm Hk. apply wp_bind. by eapply wp_mono. Qed.

Lemma wp_ret {A} (a : A) (Q : A -> S -> Prop) s : Q a s -> wp (ret a) Q s.
Proof. done. Qed.
Lemma wp_getM (Q : S -> S -> Prop) s : Q s s -> wp getM Q s.
Proof. done. Qed.
Lemma wp_modM f (Q : unit -> S -> Prop) s : Q tt (f s) -> wp (modM f) Q s.
Proof. done. Qed.
Lemma wp_validM {A} (o : option A) a (Q : A -> S -> Prop) s : o = Some a -> Q a s -> wp (validM o) Q s.
Proof. by intros ->. Qed.

(** A loop keeps an invariant that knows how far it has come. *)
Lemma wp_forM (I : list Z -> S -> Prop) (f : Z -> M S unit) l (Q : unit -> S -> Prop) s :
  I l s -> (forall i l' s', i ∈ l -> I (i :: l') s' -> wp (f i) (fun _ => I l') s') ->
  (forall s', I [] s' -> Q tt s') -> wp (forM f l) Q s.
Proof.
  intros HI Hf HQ. assert (forall l', (forall i, i ∈ l' -> i ∈ l) -> forall s', I l' s' -> wp (forM f l') Q s') as HL; [|by apply HL].
  induction l' as [|i l' IH]; intros Hin s' HI'; cbn [forM]; [by apply wp_ret, HQ|].
  eapply wp_seq; [apply Hf; [apply Hin, elem_of_cons; by left|done]|].
  intros u s1 H1. apply IH; [|done]. intros j Hj. apply Hin, elem_of_cons. by right.
Qed.
End Wp.

(** Take the deterministic steps of a goal [wp m Q s]. *)
Ltac wp_pures :=
  repeat first
    [ apply wp_ret | apply wp_getM | apply wp_modM
    | apply wp_bind; first [apply wp_ret | apply wp_getM | apply wp_modM] ]; cbn beta.
