(* ===== verification/Vmem.v ===== *)
(** Vmem: mappings (src/src/common/util.c) and src/src/libvmem/vmem.c.

    The operating system is a record of functions and a state: the open
    descriptors, the names in directories, whether signals are blocked, the
    mappings, the addresses without access and the memory.  The allocator of a
    pool is another record of functions on the memory.  The files behind mappings
    are not written back: the one vmem_create makes has no name. *)

From stdpp Require Import strings.
From S2P Require Import Prelude Mem Util Prog StateM.

Open Scope stateM_scope.

(** ** The operating system *)

Record os := {
  os_fds : gmap Z file;         (* open descriptors *)
  os_names : gset string;       (* the names of the files made *)
  os_blocked : bool;            (* are signals blocked? *)
  os_maps : gmap Z Z;           (* mappings: the address and the length *)
  os_noacc : Z -> bool;         (* addresses that must not be touched *)
  os_mem : mem;
}.

Definition set_fds (o : os) (v : gmap Z file) : os :=
  {| os_fds := v; os_names := os_names o; os_blocked := os_blocked o; os_maps := os_maps o; os_noacc := os_noacc o; os_mem := os_mem o |}.
Definition set_names (o : os) (v : gset string) : os :=
  {| os_fds := os_fds o; os_names := v; os_blocked := os_blocked o; os_maps := os_maps o; os_noacc := os_noacc o; os_mem := os_mem o |}.
Definition set_blocked (o : os) (v : bool) : os :=
  {| os_fds := os_fds o; os_names := os_names o; os_blocked := v; os_maps := os_maps o; os_noacc := os_noacc o; os_mem := os_mem o |}.
Definition set_maps (o : os) (v : gmap Z Z) : os :=
  {| os_fds := os_fds o; os_names := os_names o; os_blocked := os_blocked o; os_maps := v; os_noacc := os_noacc o; os_mem := os_mem o |}.
Definition set_noacc (o : os) (v : Z -> bool) : os :=
  {| os_fds := os_fds o; os_names := os_names o; os_blocked := os_blocked o; os_maps := os_maps o; os_noacc := v; os_mem := os_mem o |}.
Definition set_mem (o : os) (v : mem) : os :=
  {| os_fds := os_fds o; os_names := os_names o; os_blocked := os_blocked o; os_maps := os_maps o; os_noacc := os_noacc o; os_mem := v |}.

(** What the kernel decides. *)
Record kernel := {
  k_maps : os -> option (list (Z * Z));             (* /proc/self/maps *)
  k_mkstemp : os -> string -> errno + (Z * string);
  k_fallocate : os -> Z -> Z -> option errno;
  k_fstat : os -> Z -> bool;
  k_mmap : os -> Z -> Z -> Z -> bool -> errno + Z;  (* hint, length, descriptor, private *)
  k_munmap : os -> Z -> Z -> bool;
  k_mprotect : os -> Z -> Z -> prot -> bool;
  k_pagesize : Z;
}.

Section System.
Context (k : kernel).

(** The file starts empty, under a name that is not taken. *)
Definition sys_mkstemp (template : string) : M os (errno + Z) :=
  o <- getM ;;
  match k_mkstemp k o template with
  | inl e => ret (inl e)
  | inr (fd, name) =>
      putM (set_names (set_fds o (<[fd := {| f_size := 0; f_bytes := fun _ => x00 |}]> (os_fds o))) ({[name]} ∪ os_names o)) ;;;
      ret (inr fd)
  end.
Definition sys_unlink (name : string) : M os unit := modM (fun o => set_names o (os_names o ∖ {[name]})).
(** The name mkstemp has put into the buffer. *)
Definition name_made (template : string) (o : os) : string :=
  match k_mkstemp k o template with inr (_, name) => name | inl _ => template end.
Definition sys_close (fd : Z) : M os unit := modM (fun o => set_fds o (delete fd (os_fds o))).
Definition sys_sigprocmask (v : bool) : M os unit := modM (fun o => set_blocked o v).

(** posix_fallocate returns its error. *)
Definition sys_fallocate (fd size : Z) : M os (option errno) :=
  o <- getM ;;
  match k_fallocate k o fd size with
  | Some e => ret (Some e)
  | None =>
      match os_fds o !! fd with
      | Some f => putM (set_fds o (<[fd := {| f_size := Z.max (f_size f) size; f_bytes := f_bytes f |}]> (os_fds o))) ;;; ret None
      | None => fail Undefined
      end
  end.

Definition sys_mmap (hint len fd : Z) (cow : bool) : M os (errno + Z) :=
  o <- getM ;;
  match k_mmap k o hint len fd cow, os_fds o !! fd with
  | inl e, _ => ret (inl e)
  | inr base, Some f =>
      let inside z := (base <=? z) && (z <? base + len) in
      putM {| os_fds := os_fds o; os_names := os_names o; os_blocked := os_blocked o;
              os_maps := <[base := len]> (os_maps o);
              os_noacc := fun z => if inside z then false else os_noacc o z;
              os_mem := fun z => if inside z then f_bytes f (z - base) else os_mem o z |} ;;;
      ret (inr base)
  | inr _, None => fail Undefined
  end.

(** A mapping is unmapped as a whole; parts are not modelled. *)
Definition sys_munmap (addr len : Z) : M os bool :=
  o <- getM ;;
  if k_munmap k o addr len then
    match os_maps o !! addr with
    | Some len' => if len =? len' then putM (set_maps o (delete addr (os_maps o))) ;;; ret true else fail Undefined
    | None => fail Undefined
    end
  else ret false.

(** mprotect acts on whole pages; it can take all access away or give it back. *)
Definition sys_mprotect (addr len : Z) (p : prot) : M os bool :=
  o <- getM ;;
  if k_mprotect k o addr len p then
    let none := match p with PROT_NONE => true | _ => false end in
    putM (set_noacc o (fun z => if (addr <=? z) && (z <? addr + roundup len (k_pagesize k)) then none else os_noacc o z)) ;;;
    ret true
  else ret false.

(** Loads and stores of the process. *)
Definition accessible (o : os) (addr len : Z) : bool := forallb (fun z => negb (os_noacc o z)) (seqZ addr len).
Definition load64 (addr : Z) : M os Z :=
  o <- getM ;; if accessible o addr 8 then ret (get64 (os_mem o) addr) else fail Undefined.
Definition load32 (addr : Z) : M os Z :=
  o <- getM ;; if accessible o addr 4 then ret (get32 (os_mem o) addr) else fail Undefined.
Definition store_bytes (addr : Z) (bs : list byte) : M os unit :=
  o <- getM ;;
  if accessible o addr (Z.of_nat (length bs)) then putM (set_mem o (mwrite (os_mem o) addr bs)) else fail Undefined.

(** ** util.c *)

Definition util_map (fd len : Z) (cow : bool) : M os (errno + Z) :=
  o <- getM ;;
  let addr := util_map_hint (k_maps k o) len in
  sys_mmap addr len fd cow.

Definition util_unmap (addr len : Z) : M os bool := sys_munmap addr len.

(** util_range_none and util_range_rw of Util, with their effect. *)
Definition util_range_none (addr len : Z) : M os bool :=
  let '(uptr, len) := page_range (k_pagesize k) addr len in sys_mprotect uptr len PROT_NONE.
Definition util_range_rw (addr len : Z) : M os bool :=
  let '(uptr, len) := page_range (k_pagesize k) addr len in sys_mprotect uptr len PROT_READ_WRITE.

Definition util_map_tmpfile (dir : string) (size : Z) : M os (errno + Z) :=
  let fullname := (dir ++ "/vmem.XXXXXX")%string in
  o <- getM ;;
  let oldset := os_blocked o in
  sys_sigprocmask true ;;;
  o <- getM ;;
  let made := name_made fullname o in
  fd <- sys_mkstemp fullname ;;
  match fd with
  | inl e => sys_sigprocmask oldset ;;; ret (inl e)
  | inr fd =>
      let err e := sys_sigprocmask oldset ;;; sys_close fd ;;; ret (inl e) in
      sys_unlink made ;;;
      sys_sigprocmask oldset ;;;
      r <- sys_fallocate fd size ;;
      match r with
      | Some e => err e
      | None =>
          base <- util_map fd size false ;;
          match base with
          | inl e => err e
          | inr base => sys_close fd ;;; ret (inr base)
          end
      end
  end.

(** pmem_map of libpmem: the whole of a file that is open. *)
Definition pmem_map (fd : Z) : M os (errno + Z) :=
  o <- getM ;;
  if k_fstat k o fd then
    match os_fds o !! fd with
    | Some stbuf => util_map fd (f_size stbuf) false
    | None => ret (inl EINVAL)
    end
  else ret (inl EINVAL).

(** ** vmem.c *)

Definition VMEM_HDR_SIG : list byte := [x56; x4d; x45; x4d; x20; x20; x20; x00].
Definition VMEM_MIN_POOL : Z := 1024 * 1024 * 14.

(** Offsets of the fields of [struct vmem] and its size. *)
Definition VMEM_ADDR_OFF : Z := 4096.
Definition VMEM_SIZE_OFF : Z := 4104.
Definition VMEM_MAPPED_OFF : Z := 4112.
Definition SIZEOF_VMEM : Z := 4120.

Definition Header_size : Z := u32 (roundup SIZEOF_VMEM (k_pagesize k)).

(** The embedded allocator: what each call does to the memory and returns, 0 for
    NULL. *)
Record jemalloc := {
  je_pool_create : mem -> Z -> Z -> bool -> option mem;
  je_pool_delete : mem -> Z -> mem;
  je_pool_check : mem -> Z -> Z;
  je_pool_malloc : mem -> Z -> Z -> Z * mem;
  je_pool_free : mem -> Z -> Z -> mem;
  je_pool_calloc : mem -> Z -> Z -> Z -> Z * mem;
  je_pool_ralloc : mem -> Z -> Z -> Z -> Z * mem;
  je_pool_aligned_alloc : mem -> Z -> Z -> Z -> Z * mem;
  je_pool_malloc_usable_size : mem -> Z -> Z -> Z;
}.

Context (je : jemalloc).

(** A call that changes the memory. *)
Definition je_call (call : mem -> Z * mem) : M os Z :=
  o <- getM ;; let '(r, m) := call (os_mem o) in putM (set_mem o m) ;;; ret r.

(** "store opaque info at beginning of mapped area" *)
Definition vmem_store_header (addr size : Z) (caller_mapped : bool) : M os unit :=
  store_bytes addr (replicate (Z.to_nat POOL_HDR_SIZE) x00) ;;;
  store_bytes addr VMEM_HDR_SIG ;;;
  store_bytes (addr + VMEM_ADDR_OFF) (le_enc 8 addr) ;;;
  store_bytes (addr + VMEM_SIZE_OFF) (le_enc 8 size) ;;;
  store_bytes (addr + VMEM_MAPPED_OFF) (le_enc 4 (if caller_mapped then 1 else 0)).

(** Whether je_vmem_pool_create has made the pool. *)
Definition vmem_pool_create (addr size : Z) (zeroed : bool) : M os bool :=
  o <- getM ;;
  match je_pool_create je (os_mem o) (u64 (addr + Header_size)) (u64 (size - Header_size)) zeroed with
  | None => ret false
  | Some m => putM (set_mem o m) ;;; ret true
  end.

(** Without an error number of its own the allocator's is left, here ENOMEM. *)
Definition vmem_create (dir : string) (size : Z) : M os (errno + Z) :=
  if size <? VMEM_MIN_POOL then ret (inl EINVAL)
  else
    let size := u64 (u64 (size + (k_pagesize k - 1)) / k_pagesize k * k_pagesize k) in
    r <- util_map_tmpfile dir size ;;
    match r with
    | inl e => ret (inl e)
    | inr addr =>
        vmem_store_header addr size false ;;;
        ok <- vmem_pool_create addr size true ;;
        if ok : bool then util_range_none addr POOL_HDR_SIZE ;;; ret (inr addr)
        else
          a <- load64 (addr + VMEM_ADDR_OFF) ;;
          s <- load64 (addr + VMEM_SIZE_OFF) ;;
          util_unmap a s ;;; ret (inl ENOMEM)
    end.

Definition vmem_create_in_region (addr size : Z) : M os (errno + Z) :=
  if negb (Z.land addr (k_pagesize k - 1) =? 0) then ret (inl EINVAL)
  else if size <? VMEM_MIN_POOL then ret (inl EINVAL)
  else
    vmem_store_header addr size true ;;;
    ok <- vmem_pool_create addr size false ;;
    if ok : bool then util_range_none addr POOL_HDR_SIZE ;;; ret (inr addr)
    else ret (inl ENOMEM).

Definition vmem_delete (vmp : Z) : M os unit :=
  modM (fun o => set_mem o (je_pool_delete je (os_mem o) (u64 (vmp + Header_size)))) ;;;
  a <- load64 (vmp + VMEM_ADDR_OFF) ;;
  util_range_rw a POOL_HDR_SIZE ;;;
  caller_mapped <- load32 (vmp + VMEM_MAPPED_OFF) ;;
  if caller_mapped =? 0 then
    a <- load64 (vmp + VMEM_ADDR_OFF) ;;
    s <- load64 (vmp + VMEM_SIZE_OFF) ;;
    util_unmap a s ;;; ret tt
  else ret tt.

Definition vmem_check (vmp : Z) : M os Z := o <- getM ;; ret (je_pool_check je (os_mem o) (u64 (vmp + Header_size))).
Definition vmem_malloc (vmp size : Z) : M os Z := je_call (fun m => je_pool_malloc je m (u64 (vmp + Header_size)) size).
Definition vmem_free (vmp ptr : Z) : M os unit :=
  modM (fun o => set_mem o (je_pool_free je (os_mem o) (u64 (vmp + Header_size)) ptr)).
Definition vmem_calloc (vmp nmemb size : Z) : M os Z :=
  je_call (fun m => je_pool_calloc je m (u64 (vmp + Header_size)) nmemb size).
Definition vmem_realloc (vmp ptr size : Z) : M os Z :=
  je_call (fun m => je_pool_ralloc je m (u64 (vmp + Header_size)) ptr size).
Definition vmem_aligned_alloc (vmp alignment size : Z) : M os Z :=
  je_call (fun m => je_pool_aligned_alloc je m (u64 (vmp + Header_size)) alignment size).
Definition vmem_malloc_usable_size (vmp ptr : Z) : M os Z :=
  o <- getM ;; ret (je_pool_malloc_usable_size je (os_mem o) (u64 (vmp + Header_size)) ptr).

(** The string with its NUL. *)
Definition vmem_strdup (vmp : Z) (s : list byte) : M os Z :=
  let str := s ++ [x00] in
  retaddr <- je_call (fun m => je_pool_malloc je m (u64 (vmp + Header_size)) (Z.of_nat (length str))) ;;
  if retaddr =? 0 then ret 0
  else store_bytes retaddr str ;;; ret retaddr.
End System.
