(* ===== verification/VmemSpec.v ===== *)
(** VmemSpec: a pool of libvmem is one mapping, made and taken back as a whole.

    On a system whose kernel hands out unused descriptors, names and addresses
    and maps no range of length 0, vmem_create either changes nothing the
    process can see, its memory apart, or adds exactly one mapping, whose header
    vmem_delete can read back. *)

From stdpp Require Import strings.
From S2P Require Import Prelude Mem Util Prog StateM Vmem.

Open Scope stateM_scope.

(** ** What the kernel and the allocator promise *)

Record kernel_ok (k : kernel) (j : Z) : Prop := {
  ko_page : k_pagesize k = 2 ^ j;
  ko_page_range : 12 <= j <= 21;
  ko_mkstemp o template fd name : k_mkstemp k o template = inr (fd, name) -> os_fds o !! fd = None /\ name ∉ os_names o;
  ko_mmap o hint len fd cow base : k_mmap k o hint len fd cow = inr base ->
    0 < len /\ 0 < base /\ base + len < 2 ^ 64 /\ base mod k_pagesize k = 0 /\ os_maps o !! base = None;
  ko_munmap o addr len : os_maps o !! addr = Some len -> k_munmap k o addr len = true;
}.

(** The allocator keeps to the region it was given. *)
Record jemalloc_ok (je : jemalloc) : Prop := {
  jo_create m addr size zeroed m' z : je_pool_create je m addr size zeroed = Some m' ->
    ~ (addr <= z < addr + size) -> m' z = m z;
  jo_delete m pool z : z < pool -> je_pool_delete je m pool z = m z;
}.

(** The header of a pool. *)
Record vmem_header (m : mem) (vmp size caller_mapped : Z) : Prop := {
  vh_sig : mread m vmp 8 = VMEM_HDR_SIG;
  vh_addr : get64 m (vmp + VMEM_ADDR_OFF) = vmp;
  vh_size : get64 m (vmp + VMEM_SIZE_OFF) = size;
  vh_mapped : get32 m (vmp + VMEM_MAPPED_OFF) = caller_mapped;
}.

(** The size of the mapping. *)
Definition pool_size (k : kernel) (size : Z) : Z := roundup size (k_pagesize k).

(** ** Steps *)

Definition open_to (o : os) (addr len : Z) : Prop := forall z, addr <= z < addr + len -> os_noacc o z = false.

Lemma accessible_open o addr len : open_to o addr len -> accessible o addr len = true.
Proof.
  intros H. unfold accessible. apply forallb_forall. intros z Hz. apply list_elem_of_In, elem_of_seqZ in Hz.
  by rewrite H.
Qed.

Lemma wp_store addr bs (Q : unit -> os -> Prop) o :
  open_to o addr (Z.of_nat (length bs)) -> Q tt (set_mem o (mwrite (os_mem o) addr bs)) -> wp (store_bytes addr bs) Q o.
Proof. intros Ha HQ. unfold store_bytes, wp, bindM, getM. by rewrite accessible_open. Qed.

Lemma wp_load64 addr (Q : Z -> os -> Prop) o : open_to o addr 8 -> Q (get64 (os_mem o) addr) o -> wp (load64 addr) Q o.
Proof. intros Ha HQ. unfold load64, wp, bindM, getM. by rewrite accessible_open. Qed.

Lemma wp_load32 addr (Q : Z -> os -> Prop) o : open_to o addr 4 -> Q (get32 (os_mem o) addr) o -> wp (load32 addr) Q o.
Proof. intros Ha HQ. unfold load32, wp, bindM, getM. by rewrite accessible_open. Qed.

Lemma vmem_header_agree m m' vmp size c : vmem_header m vmp size c -> agree m m' vmp SIZEOF_VMEM -> vmem_header m' vmp size c.
Proof.
  intros [H1 H2 H3 H4] Ha. unfold SIZEOF_VMEM in Ha.
  assert (forall n off, 0 <= off -> off + Z.of_nat n <= 4120 -> get_le n m' (vmp + off) = get_le n m (vmp + off)) as Hg.
  { intros n off H0 Hn. apply get_le_agree. intros z Hz. symmetry. apply Ha. lia. }
  unfold get64, get32 in *. split; unfold get64, get32, VMEM_ADDR_OFF, VMEM_SIZE_OFF, VMEM_MAPPED_OFF in *; rewrite ?Hg by lia; try done.
  rewrite <- H1. apply mread_agree. intros z Hz. symmetry. apply Ha. lia.
Qed.

Section Spec.
Context (k : kernel) (je : jemalloc) (j : Z) (Hk : kernel_ok k j) (Hje : jemalloc_ok je).

Lemma page_bounds : 4096 <= k_pagesize k <= 2 ^ 21.
Proof.
  rewrite (ko_page _ _ Hk). pose proof (ko_page_range _ _ Hk). change 4096 with (2 ^ 12).
  split; apply Z.pow_le_mono_r; lia.
Qed.

Lemma header_size_bounds : Header_size k = roundup SIZEOF_VMEM (k_pagesize k) /\ SIZEOF_VMEM <= Header_size k < 2 ^ 22.
Proof.
  pose proof page_bounds. unfold Header_size. pose proof (roundup_bounds SIZEOF_VMEM (k_pagesize k) ltac:(lia)).
  unfold SIZEOF_VMEM in *. rewrite u32_id by lia. lia.
Qed.

Lemma pool_size_bounds size : 0 <= size -> size <= pool_size k size < size + 2 ^ 21.
Proof. intros. pose proof page_bounds. unfold pool_size. pose proof (roundup_bounds size (k_pagesize k) ltac:(lia)). lia. Qed.

Lemma page_range_aligned addr : 0 <= addr -> addr + POOL_HDR_SIZE < 2 ^ 64 -> addr mod k_pagesize k = 0 ->
  page_range (k_pagesize k) addr POOL_HDR_SIZE = (addr, POOL_HDR_SIZE).
Proof.
  intros H0 Ha Hm. pose proof (ko_page_range _ _ Hk). rewrite (ko_page _ _ Hk) in *.
  pose proof (page_range_spec j addr POOL_HDR_SIZE ltac:(lia) H0 ltac:(done) Ha) as H1.
  destruct (page_range (2 ^ j) addr POOL_HDR_SIZE) as [u l]. destruct H1 as (Hu & Hb & He).
  assert (0 < 2 ^ j) by (apply Z.pow_pos_nonneg; lia).
  assert (u = addr) as ->; [|f_equal; lia].
  apply Z.div_exact in Hu, Hm; [|lia..]. generalize dependent (u / 2 ^ j). generalize dependent (addr / 2 ^ j).
  generalize dependent (2 ^ j). intros p. intros. assert (z = z0) by nia. lia.
Qed.

(** ** Mapping a file without a name *)

Definition inside (base len z : Z) : bool := (base <=? z) && (z <? base + len).

(** The state with the zeroed file mapped. *)
Definition with_map (o : os) (base len : Z) : os :=
  {| os_fds := os_fds o; os_names := os_names o; os_blocked := os_blocked o; os_maps := <[base := len]> (os_maps o);
     os_noacc := fun z => if inside base len z then false else os_noacc o z;
     os_mem := fun z => if inside base len z then x00 else os_mem o z |}.

Lemma wp_map_tmpfile dir size o :
  wp (util_map_tmpfile k dir size)
    (fun r o' => match r with
                 | inl _ => o' = o
                 | inr base => o' = with_map o base size /\ 0 < size /\ 0 < base /\ base + size < 2 ^ 64 /\
                     base mod k_pagesize k = 0 /\ os_maps o !! base = None
                 end) o.
Proof.
  unfold wp, util_map_tmpfile, sys_sigprocmask, sys_mkstemp, name_made, sys_unlink, sys_fallocate, sys_close, util_map, sys_mmap,
    bindM, modM, getM, putM, ret, fail. cbv zeta.
  destruct (k_mkstemp k (set_blocked o true) (dir ++ "/vmem.XXXXXX")) as [e|[fd name]] eqn:Em; [by destruct o|].
  destruct (ko_mkstemp _ _ Hk _ _ _ _ Em) as [Hfd Hname]. cbn [os_fds os_names set_blocked] in Hfd, Hname.
  cbn [os_fds os_names os_blocked os_maps os_noacc os_mem set_fds set_names set_blocked].
  assert (({[name]} ∪ os_names o) ∖ {[name]} = os_names o) as ->.
  { rewrite difference_union_distr_l_L, difference_diag_L, (left_id_L ∅ (∪)). apply difference_disjoint_L. set_solver. }
  destruct (k_fallocate _ _ _ _) as [e|].
  { cbn. rewrite delete_insert_id by done. by destruct o. }
  cbn [os_fds set_fds set_names set_blocked]. rewrite lookup_insert_eq.
  cbn [os_fds os_names os_blocked os_maps os_noacc os_mem set_fds set_names set_blocked f_size f_bytes].
  rewrite insert_insert_eq, lookup_insert_eq.
  destruct (k_mmap _ _ _ _ _ _) as [e|base] eqn:Ek; cbn.
  { rewrite delete_insert_id by done. by destruct o. }
  rewrite delete_insert_id by done. split; [done|]. exact (ko_mmap _ _ Hk _ _ _ _ _ _ Ek).
Qed.

(** ** The header *)

Lemma wp_store_header addr size (c : bool) o :
  0 <= addr < 2 ^ 64 -> 0 <= size < 2 ^ 64 -> open_to o addr SIZEOF_VMEM ->
  wp (vmem_store_header addr size c)
    (fun _ o' => o' = set_mem o (os_mem o') /\ vmem_header (os_mem o') addr size (if c then 1 else 0) /\
       forall z, ~ (addr <= z < addr + SIZEOF_VMEM) -> os_mem o' z = os_mem o z) o.
Proof.
  intros Ha Hs Ho. unfold SIZEOF_VMEM in *. unfold vmem_store_header.
  assert (Z.of_nat (length (replicate (Z.to_nat POOL_HDR_SIZE) x00)) = 4096) as Hrep
    by (rewrite length_replicate; unfold POOL_HDR_SIZE; lia).
  assert (length VMEM_HDR_SIG = 8%nat) as Hsig by done.
  assert (forall m (bs : list byte) off, 0 <= off -> off + Z.of_nat (length bs) <= 4120 -> open_to (set_mem o m) (addr + off) (Z.of_nat (length bs))) as Hopen.
  { intros m bs off H0 Hl z Hz. apply Ho. lia. }
  unfold VMEM_ADDR_OFF, VMEM_SIZE_OFF, VMEM_MAPPED_OFF.
  apply wp_bind, wp_store; [intros z Hz; apply Ho; lia|].
  apply wp_bind, wp_store; [intros z Hz; apply Ho; rewrite Hsig in Hz; lia|].
  do 2 (apply wp_bind, wp_store; [apply Hopen; len|]).
  apply wp_store; [apply Hopen; len|].
  cbn [os_mem set_mem]. unfold VMEM_ADDR_OFF, VMEM_SIZE_OFF, VMEM_MAPPED_OFF.
  split; [done|]. split.
  - split; unfold VMEM_ADDR_OFF, VMEM_SIZE_OFF, VMEM_MAPPED_OFF.
    + rewrite !mread_mwrite_out by (len; lia). by apply mread_mwrite_eq.
    + rewrite !get_le_mwrite_out by (len; lia). rewrite get_le_mwrite_eq. apply Z.mod_small. lia.
    + rewrite get_le_mwrite_out by (len; lia). rewrite get_le_mwrite_eq. apply Z.mod_small. lia.
    + rewrite get_le_mwrite_eq. by destruct c.
  - intros z Hz. rewrite !mwrite_out; [done|rewrite ?Hrep, ?Hsig; len..].
Qed.

(** The header page after an attempt to change its protection. *)
Lemma wp_protect addr p o :
  0 <= addr -> addr + POOL_HDR_SIZE < 2 ^ 64 -> addr mod k_pagesize k = 0 ->
  wp (let '(uptr, len) := page_range (k_pagesize k) addr POOL_HDR_SIZE in sys_mprotect k uptr len p)
    (fun ok o' => ok = k_mprotect k o addr POOL_HDR_SIZE p /\
       o' = (if ok : bool then set_noacc o (fun z => if inside addr (k_pagesize k) z
                                     then match p with PROT_NONE => true | _ => false end else os_noacc o z) else o)) o.
Proof.
  intros H0 Ha Hm. rewrite page_range_aligned by done. unfold sys_mprotect, wp, bindM, getM, putM, ret.
  assert (roundup POOL_HDR_SIZE (k_pagesize k) = k_pagesize k) as Hr.
  { pose proof page_bounds. unfold roundup, POOL_HDR_SIZE in *. 
    replace ((4096 + (k_pagesize k - 1)) / k_pagesize k) with 1; [lia|].
    apply Z.div_unique with (r := 4095); lia. }
  rewrite Hr. by destruct (k_mprotect _ _ _ _ _).
Qed.

(** ** Creating *)

(** From [o] to [o'] the process has got a pool of [sz] bytes at [addr] and
    nothing else. *)
Record pool_made (o o' : os) (addr sz : Z) : Prop := {
  pm_range : 0 < addr /\ addr + sz < 2 ^ 64 /\ addr mod k_pagesize k = 0;
  pm_maps : os_maps o !! addr = None /\ os_maps o' = <[addr := sz]> (os_maps o);
  pm_rest : os_fds o' = os_fds o /\ os_names o' = os_names o /\ os_blocked o' = os_blocked o;
  pm_header : vmem_header (os_mem o') addr sz 0;
  pm_heap : exists m0, je_pool_create je m0 (addr + Header_size k) (sz - Header_size k) true = Some (os_mem o') /\
    forall z, addr + Header_size k <= z < addr + sz -> m0 z = x00;
  pm_outside z : ~ (addr <= z < addr + sz) -> os_mem o' z = os_mem o z /\ os_noacc o' z = os_noacc o z;
  pm_open : open_to o' (addr + k_pagesize k) (sz - k_pagesize k);
  pm_guard : (forall o a l, k_mprotect k o a l PROT_NONE = true) ->
    forall z, addr <= z < addr + k_pagesize k -> os_noacc o' z = true;
}.

(** What the process sees of the system, its memory apart. *)
Definition visible (o : os) := (os_fds o, os_names o, os_blocked o, os_maps o).

(** Near 2^64 the rounding wraps, to nothing at all. *)
Lemma size_computed size : 0 <= size < 2 ^ 64 ->
  u64 (u64 (size + (k_pagesize k - 1)) / k_pagesize k * k_pagesize k) =
  if size + (k_pagesize k - 1) <? 2 ^ 64 then pool_size k size else 0.
Proof.
  intros Hs. pose proof page_bounds. destruct (Z.ltb_spec (size + (k_pagesize k - 1)) (2 ^ 64)) as [Hlt|Hge].
  - pose proof (roundup_bounds size (k_pagesize k) ltac:(lia)). unfold pool_size, roundup in *.
    pose proof (Z.mul_div_le (size + (k_pagesize k - 1)) (k_pagesize k) ltac:(lia)).
    rewrite (u64_id (size + _)) by lia. rewrite u64_id; lia.
  - unfold u64 at 2. rewrite <- (Z.mod_add _ (-1)), Z.mod_small by lia. rewrite Z.div_small by lia. done.
Qed.

(** What is left to do once the allocator has made its pool. *)
Lemma protected_pool o o1 addr sz m ok o2 :
  0 < addr -> addr + sz < 2 ^ 64 -> addr mod k_pagesize k = 0 -> os_maps o !! addr = None -> VMEM_MIN_POOL <= sz ->
  o1 = set_mem (with_map o addr sz) (os_mem o1) -> vmem_header (os_mem o1) addr sz 0 ->
  (forall z, ~ (addr <= z < addr + SIZEOF_VMEM) -> os_mem o1 z = os_mem (with_map o addr sz) z) ->
  je_pool_create je (os_mem o1) (addr + Header_size k) (sz - Header_size k) true = Some m ->
  ok = k_mprotect k (set_mem o1 m) addr POOL_HDR_SIZE PROT_NONE ->
  o2 = (if ok : bool then set_noacc (set_mem o1 m) (fun z => if inside addr (k_pagesize k) z then true else os_noacc o1 z)
        else set_mem o1 m) ->
  pool_made o o2 addr sz.
Proof.
  intros H0 Hend Hal Hmaps Hmin E1 Hhd Hout Ej Eok E2. unfold VMEM_MIN_POOL in Hmin. pose proof page_bounds as Hpg.
  destruct header_size_bounds as [_ Hh]. unfold SIZEOF_VMEM in Hh, Hout.
  assert (forall z, ~ (addr + Header_size k <= z < addr + sz) -> m z = os_mem o1 z) as Hje1.
  { intros z Hz. eapply (jo_create _ Hje); [exact Ej|lia]. }
  assert (os_mem o2 = m) as Em2 by (rewrite E2; by destruct ok).
  assert (os_fds o2 = os_fds o /\ os_names o2 = os_names o /\ os_blocked o2 = os_blocked o /\
    os_maps o2 = <[addr := sz]> (os_maps o)) as (E2f & E2n & E2b & E2m) by (rewrite E2; destruct ok; rewrite E1; done).
  assert (forall z, os_noacc o2 z = if ok && inside addr (k_pagesize k) z then true else if inside addr sz z then false else os_noacc o z) as Hna.
  { intros z. rewrite E2. destruct ok; rewrite E1; cbn; [by destruct (inside addr (k_pagesize k) z)|done]. }
  assert (forall l z, addr <= z < addr + l -> inside addr l z = true) as Hin.
  { intros l z Hz. unfold inside. by rewrite (proj2 (Z.leb_le _ _)), (proj2 (Z.ltb_lt _ _)) by lia. }
  assert (forall l z, ~ (addr <= z < addr + l) -> inside addr l z = false) as Hnin.
  { intros l z Hz. unfold inside. apply andb_false_iff. lia. }
  split; [done|done|done| | | | |].
  - rewrite Em2. eapply vmem_header_agree; [exact Hhd|]. intros z Hz. symmetry. apply Hje1. unfold SIZEOF_VMEM in Hz. lia.
  - exists (os_mem o1). rewrite Em2. split; [done|]. intros z Hz. rewrite Hout by lia. cbn [os_mem with_map].
    by rewrite Hin by lia.
  - intros z Hz. rewrite Em2, Hna, !Hnin, andb_false_r by lia. split; [|done]. rewrite Hje1, Hout by lia.
    cbn [os_mem with_map]. by rewrite Hnin.
  - intros z Hz. rewrite Hna, (Hnin (k_pagesize k)), andb_false_r by lia. by rewrite Hin by lia.
  - intros Hp z Hz. by rewrite Hna, Eok, Hp, Hin by lia.
Qed.

(** The steps after the mapping. *)
Lemma wp_create_mapped o addr sz :
  0 < addr -> addr + sz < 2 ^ 64 -> addr mod k_pagesize k = 0 -> os_maps o !! addr = None -> VMEM_MIN_POOL <= sz ->
  wp (vmem_store_header addr sz false ;;;
      ok <- vmem_pool_create k je addr sz true ;;
      if ok : bool then util_range_none k addr POOL_HDR_SIZE ;;; ret (inr addr)
      else
        a <- load64 (addr + VMEM_ADDR_OFF) ;;
        s <- load64 (addr + VMEM_SIZE_OFF) ;;
        util_unmap k a s ;;; ret (inl ENOMEM))
    (fun (r : errno + Z) o' =>
       match r with inl _ => visible o' = visible o | inr a => a = addr /\ pool_made o o' addr sz end)
    (with_map o addr sz).
Proof.
  intros H0 Hend Hal Hmaps Hmin. pose proof Hmin as Hmin'. unfold VMEM_MIN_POOL in Hmin'. pose proof page_bounds as Hpg.
  destruct header_size_bounds as [_ Hh]. unfold SIZEOF_VMEM in Hh.
  assert (open_to (with_map o addr sz) addr sz) as Hopen.
  { intros z Hz. cbn [os_noacc with_map]. unfold inside. by rewrite (proj2 (Z.leb_le _ _)), (proj2 (Z.ltb_lt _ _)) by lia. }
  eapply wp_seq; [apply wp_store_header; [lia|lia|intros z Hz; apply Hopen; unfold SIZEOF_VMEM in Hz; lia]|].
  intros [] o1 (E1 & Hhd & Hout). assert (open_to o1 addr sz) as Ho1 by (rewrite E1; exact Hopen).
  unfold vmem_pool_create. apply wp_bind, wp_bind, wp_getM. rewrite !u64_id by lia.
  destruct (je_pool_create je (os_mem o1) (addr + Header_size k) (sz - Header_size k) true) as [m|] eqn:Ej.
  - apply (wp_intro _ _ _ true (set_mem o1 m)); [done|]. cbv iota.
    eapply wp_seq; [unfold util_range_none; apply wp_protect; [lia|unfold POOL_HDR_SIZE; lia|done]|].
    intros ok o2 [Eok E2]. apply wp_ret. split; [done|]. by eapply protected_pool.
  - apply wp_ret. cbv iota.
    do 2 (apply wp_bind, wp_load64; [intros z Hz; apply Ho1; unfold VMEM_ADDR_OFF, VMEM_SIZE_OFF in Hz; lia|]).
    rewrite (vh_addr _ _ _ _ Hhd), (vh_size _ _ _ _ Hhd).
    assert (os_maps o1 !! addr = Some sz) as Hm1 by (rewrite E1; apply lookup_insert_eq).
    unfold util_unmap, sys_munmap, wp, bindM, getM. rewrite (ko_munmap _ _ Hk _ _ _ Hm1), Hm1, Z.eqb_refl. cbn.
    unfold visible. rewrite E1. cbn. by rewrite delete_insert_id.
Qed.

Lemma vmem_create_made (dir : string) (size : Z) (o : os) : 0 <= size < 2 ^ 64 ->
  exists r o', vmem_create k je dir size o = inr (r, o') /\
    match r with
    | inl e => visible o' = visible o /\ (size < VMEM_MIN_POOL -> e = EINVAL)
    | inr addr => VMEM_MIN_POOL <= size /\ pool_made o o' addr (pool_size k size)
    end.
Proof.
  intros Hsize. apply wp_elim. unfold vmem_create. destruct (Z.ltb_spec size VMEM_MIN_POOL) as [Hlt|Hge]; [by apply wp_ret|].
  rewrite size_computed by done. pose proof (pool_size_bounds size ltac:(lia)) as Hb.
  eapply wp_seq; [apply wp_map_tmpfile|]. intros [e|addr] o1 H1.
  - subst o1. apply wp_ret. split; [done|lia].
  - destruct H1 as (-> & Hpos & H0 & Hend & Hal & Hm). destruct (Z.ltb_spec (size + (k_pagesize k - 1)) (2 ^ 64)); [|lia].
    eapply wp_mono; [apply wp_create_mapped; (done || lia)|].
    intros [e|a] o2; [by split; [|lia]|]. intros [-> Hp]. by split.
Qed.


(** ** Deleting *)

Lemma wp_delete vmp sz c o :
  0 <= vmp -> vmp + SIZEOF_VMEM < 2 ^ 64 -> vmp + Header_size k < 2 ^ 64 -> vmp mod k_pagesize k = 0 ->
  vmem_header (os_mem o) vmp sz c -> open_to o (vmp + 4096) 24 -> (c = 0 -> os_maps o !! vmp = Some sz) ->
  wp (vmem_delete k je vmp)
    (fun _ o' => os_fds o' = os_fds o /\ os_names o' = os_names o /\ os_blocked o' = os_blocked o /\
       os_maps o' = if c =? 0 then delete vmp (os_maps o) else os_maps o) o.
Proof.
  intros H0 Hend Hh Hal Hhd Hopen Hm. pose proof page_bounds as Hpg. pose proof header_size_bounds as [_ Hs]. unfold SIZEOF_VMEM in *.
  unfold vmem_delete. apply wp_bind, wp_modM. rewrite u64_id by lia.
  set (o1 := set_mem o (je_pool_delete je (os_mem o) (vmp + Header_size k))).
  assert (vmem_header (os_mem o1) vmp sz c) as Hhd1.
  { eapply vmem_header_agree; [exact Hhd|]. intros z Hz. symmetry. apply (jo_delete _ Hje). unfold SIZEOF_VMEM in Hz. lia. }
  assert (open_to o1 (vmp + 4096) 24) as Ho1 by exact Hopen.
  apply wp_bind, wp_load64; [intros z Hz; apply Ho1; unfold VMEM_ADDR_OFF in Hz; lia|]. rewrite (vh_addr _ _ _ _ Hhd1).
  eapply wp_seq; [unfold util_range_rw; apply wp_protect; [lia|unfold POOL_HDR_SIZE; lia|done]|].
  intros ok o2 [_ E2].
  assert (os_mem o2 = os_mem o1) as Em by (rewrite E2; by destruct ok).
  assert (os_fds o2 = os_fds o /\ os_names o2 = os_names o /\ os_blocked o2 = os_blocked o /\ os_maps o2 = os_maps o) as (F1 & F2 & F3 & F4)
    by (rewrite E2; by destruct ok).
  assert (open_to o2 (vmp + 4096) 24) as Ho2.
  { intros z Hz. rewrite E2. destruct ok; [|by apply Ho1]. cbn [os_noacc set_noacc].
    destruct (inside vmp (k_pagesize k) z); [done|by apply Ho1]. }
  rewrite <- Em in Hhd1.
  apply wp_bind, wp_load32; [intros z Hz; apply Ho2; unfold VMEM_MAPPED_OFF in Hz; lia|]. rewrite (vh_mapped _ _ _ _ Hhd1).
  destruct (Z.eqb_spec c 0) as [->|Hc]; [|by apply wp_ret].
  do 2 (apply wp_bind, wp_load64; [intros z Hz; apply Ho2; unfold VMEM_ADDR_OFF, VMEM_SIZE_OFF in Hz; lia|]).
  rewrite (vh_addr _ _ _ _ Hhd1), (vh_size _ _ _ _ Hhd1).
  assert (os_maps o2 !! vmp = Some sz) as Hm2 by (rewrite F4; by apply Hm).
  unfold util_unmap, sys_munmap, wp, bindM, getM. rewrite (ko_munmap _ _ Hk _ _ _ Hm2), Hm2, Z.eqb_refl. cbn. by rewrite F4.
Qed.


(** With larger pages the page taken away from the program holds the address and
    the size of the mapping, and vmem_delete reads them there. *)
Theorem vmem_delete_faults (dir : string) (size addr : Z) (o o1 : os)
  (Hsize : 0 <= size < 2 ^ 64) (Hpage : 4096 < k_pagesize k)
  (Hprot : forall o a l, k_mprotect k o a l PROT_NONE = true)
  (Hcreate : vmem_create k je dir size o = inr (inr addr, o1)) :
  vmem_delete k je addr o1 = inl Undefined.
Proof.
  destruct (vmem_create_made dir size o Hsize) as (r & o' & E & Hr). rewrite Hcreate in E. injection E as <- <-.
  destruct Hr as [Hmin Hp]. unfold vmem_delete, load64, bindM, modM, getM, fail.
  assert (accessible (set_mem o1 (je_pool_delete je (os_mem o1) (u64 (addr + Header_size k)))) (addr + VMEM_ADDR_OFF) 8 = false) as ->; [|done].
  unfold accessible. change (seqZ (addr + VMEM_ADDR_OFF) 8) with (seqZ (addr + VMEM_ADDR_OFF) (Z.succ 7)).
  rewrite seqZ_cons by lia. cbn [forallb]. apply andb_false_iff. left.
  cbn [os_noacc set_mem]. by rewrite (pm_guard _ _ _ _ Hp Hprot) by (unfold VMEM_ADDR_OFF; lia).
Qed.

(** ** Regions of the caller *)

Lemma page_aligned addr : Z.land addr (k_pagesize k - 1) = addr mod k_pagesize k.
Proof.
  pose proof (ko_page_range _ _ Hk). rewrite (ko_page _ _ Hk).
  rewrite <- Z.land_ones by lia. f_equal. rewrite Z.ones_equiv. lia.
Qed.

(** vmem_create_in_region refuses an address inside a page and a region that is
    too small, and never maps or unmaps; a pool it makes says so, and vmem_delete
    leaves the region mapped. *)
Theorem vmem_region_exact (addr size : Z) (o : os)
  (Ha : 0 < addr /\ addr + size < 2 ^ 64) (Hsize : 0 <= size) (Hpage : k_pagesize k = 4096) (Hopen : open_to o addr size) :
  exists r o', vmem_create_in_region k je addr size o = inr (r, o') /\ visible o' = visible o /\
    match r with
    | inl e => (addr mod 4096 <> 0 \/ size < VMEM_MIN_POOL -> e = EINVAL /\ o' = o)
    | inr a => a = addr /\ addr mod 4096 = 0 /\ VMEM_MIN_POOL <= size /\ vmem_header (os_mem o') addr size 1 /\
        exists o3, vmem_delete k je addr o' = inr (tt, o3) /\ visible o3 = visible o
    end.
Proof.
  apply wp_elim. unfold vmem_create_in_region. rewrite page_aligned, Hpage.
  destruct (Z.eqb_spec (addr mod 4096) 0) as [Hal|Hal]; [|by apply wp_ret]. cbn [negb].
  destruct (Z.ltb_spec size VMEM_MIN_POOL) as [Hlt|Hge]; [by apply wp_ret|].
  pose proof Hge as Hge'. unfold VMEM_MIN_POOL in Hge'. destruct header_size_bounds as [_ Hh]. unfold SIZEOF_VMEM in Hh.
  eapply wp_seq; [apply wp_store_header; [lia|lia|intros z Hz; apply Hopen; unfold SIZEOF_VMEM in Hz; lia]|].
  intros [] o1 (E1 & Hhd & _). unfold vmem_pool_create. apply wp_bind, wp_bind, wp_getM. rewrite !u64_id by lia.
  destruct (je_pool_create je (os_mem o1) (addr + Header_size k) (size - Header_size k) false) as [m|] eqn:Ej.
  2: { apply wp_ret. cbv iota. apply wp_ret. rewrite E1. split; [done|]. lia. }
  apply (wp_intro _ _ _ true (set_mem o1 m)); [done|]. cbv iota.
  eapply wp_seq; [unfold util_range_none; apply wp_protect; [lia|unfold POOL_HDR_SIZE; lia|by rewrite Hpage]|].
  intros ok o2 [_ E2]. apply wp_ret.
  assert (visible o2 = visible o) as Hv by (unfold visible; rewrite E2; destruct ok; rewrite E1; done).
  assert (vmem_header (os_mem o2) addr size 1) as Hhd2.
  { eapply vmem_header_agree; [exact Hhd|]. intros z Hz. unfold SIZEOF_VMEM in Hz. symmetry. rewrite E2.
    destruct ok; cbn [os_mem set_noacc set_mem]; (eapply (jo_create _ Hje); [exact Ej|lia]). }
  split; [done|]. split_and!; [done|done|done|done|].
  assert (open_to o2 (addr + 4096) 24) as Hop2.
  { intros z Hz. rewrite E2, Hpage. destruct ok; rewrite E1; cbn [os_noacc set_noacc set_mem]; [|apply Hopen; lia].
    unfold inside. rewrite (proj2 (Z.ltb_ge z (addr + 4096))), andb_false_r by lia. apply Hopen. lia. }
  assert (wp (vmem_delete k je addr) (fun _ o' => os_fds o' = os_fds o2 /\ os_names o' = os_names o2 /\
    os_blocked o' = os_blocked o2 /\ os_maps o' = if 1 =? 0 then delete addr (os_maps o2) else os_maps o2) o2) as Hd.
  { eapply (wp_delete addr size 1); unfold SIZEOF_VMEM; try lia; try done. by rewrite Hpage. }
  apply wp_elim in Hd as ([] & o3 & E & F1 & F2 & F3 & F4). exists o3. split; [done|].
  rewrite <- Hv. unfold visible. by rewrite F1, F2, F3, F4.
Qed.

(** vmem_strdup: the copy, NUL included, where the allocator found room, or NULL. *)
Theorem vmem_strdup_copies (vmp : Z) (s : list byte) (o : os)
  (Hroom : forall r m, je_pool_malloc je (os_mem o) (u64 (vmp + Header_size k)) (Z.of_nat (length s) + 1) = (r, m) -> r <> 0 ->
    open_to o r (Z.of_nat (length s) + 1)) :
  exists r o', vmem_strdup k je vmp s o = inr (r, o') /\
    (r <> 0 -> mread (os_mem o') r (Z.of_nat (length s) + 1) = s ++ [x00]).
Proof.
  apply wp_elim. unfold vmem_strdup, je_call. cbv zeta.
  replace (Z.of_nat (length (s ++ [x00]))) with (Z.of_nat (length s) + 1) by len.
  destruct (je_pool_malloc _ _ _ _) as [r m] eqn:E. apply wp_bind, wp_bind, wp_getM. rewrite E.
  apply (wp_intro _ _ _ r (set_mem o m)); [done|]. destruct (Z.eqb_spec r 0) as [->|Hr]; [by apply wp_ret|].
  apply wp_bind, wp_store; [replace (Z.of_nat (length (s ++ [x00]))) with (Z.of_nat (length s) + 1) by len; by eapply Hroom|].
  apply wp_ret. intros _. cbn [os_mem set_mem]. apply mread_mwrite_eq. len.
Qed.
End Spec.
