(* ===== verification/Btt.v ===== *)
(** Btt: src/src/libpmemblk/btt.c.

    The run-time state of the BTT and its routines, one definition each, as
    programs over the namespace callbacks.  An arena is named by its index in
    the array [arenas]; a lane is an [int].  Mutexes are booleans of the state:
    locking waits until the boolean is false. *)

From S2P Require Import Prelude Mem Util BttLayout Prog.

(** ** Run-time state *)

Record flog_runtime := {
  flog : btt_flog;
  entries : Z * Z;
  next : Z;
}.

Record arena := {
  flags : Z;
  external_nlba : Z;
  internal_lbasize : Z;
  internal_nlba : Z;
  startoff : Z;
  dataoff : Z;
  mapoff : Z;
  flogoff : Z;
  nextoff : Z;
  flogs : list flog_runtime;
  rtt : list Z;
  map_locks : list bool;
  info_lock : bool;
}.

Record btt := {
  nlane : Z;
  layout_write_mutex : bool;
  laidout : bool;
  parent_uuid : list byte;
  rawsize : Z;
  lbasize : Z;
  nfree : Z;
  nlba : Z;
  narena : Z;
  arenas : list arena;
}.

(** *** Field updates *)

Definition set_flog (r : flog_runtime) (f : btt_flog) : flog_runtime :=
  {| flog := f; entries := entries r; next := next r |}.
Definition set_entries (r : flog_runtime) (e : Z * Z) : flog_runtime :=
  {| flog := flog r; entries := e; next := next r |}.
Definition set_next (r : flog_runtime) (n : Z) : flog_runtime :=
  {| flog := flog r; entries := entries r; next := n |}.

Definition set_flags (a : arena) (v : Z) : arena :=
  {| flags := v; external_nlba := external_nlba a; internal_lbasize := internal_lbasize a;
     internal_nlba := internal_nlba a; startoff := startoff a; dataoff := dataoff a;
     mapoff := mapoff a; flogoff := flogoff a; nextoff := nextoff a; flogs := flogs a;
     rtt := rtt a; map_locks := map_locks a; info_lock := info_lock a |}.
Definition set_flogs (a : arena) (v : list flog_runtime) : arena :=
  {| flags := flags a; external_nlba := external_nlba a; internal_lbasize := internal_lbasize a;
     internal_nlba := internal_nlba a; startoff := startoff a; dataoff := dataoff a;
     mapoff := mapoff a; flogoff := flogoff a; nextoff := nextoff a; flogs := v;
     rtt := rtt a; map_locks := map_locks a; info_lock := info_lock a |}.
Definition set_rtt (a : arena) (v : list Z) : arena :=
  {| flags := flags a; external_nlba := external_nlba a; internal_lbasize := internal_lbasize a;
     internal_nlba := internal_nlba a; startoff := startoff a; dataoff := dataoff a;
     mapoff := mapoff a; flogoff := flogoff a; nextoff := nextoff a; flogs := flogs a;
     rtt := v; map_locks := map_locks a; info_lock := info_lock a |}.
Definition set_map_locks (a : arena) (v : list bool) : arena :=
  {| flags := flags a; external_nlba := external_nlba a; internal_lbasize := internal_lbasize a;
     internal_nlba := internal_nlba a; startoff := startoff a; dataoff := dataoff a;
     mapoff := mapoff a; flogoff := flogoff a; nextoff := nextoff a; flogs := flogs a;
     rtt := rtt a; map_locks := v; info_lock := info_lock a |}.
Definition set_info_lock (a : arena) (v : bool) : arena :=
  {| flags := flags a; external_nlba := external_nlba a; internal_lbasize := internal_lbasize a;
     internal_nlba := internal_nlba a; startoff := startoff a; dataoff := dataoff a;
     mapoff := mapoff a; flogoff := flogoff a; nextoff := nextoff a; flogs := flogs a;
     rtt := rtt a; map_locks := map_locks a; info_lock := v |}.

Definition set_nlane (s : btt) (v : Z) : btt :=
  {| nlane := v; layout_write_mutex := layout_write_mutex s; laidout := laidout s;
     parent_uuid := parent_uuid s; rawsize := rawsize s; lbasize := lbasize s;
     nfree := nfree s; nlba := nlba s; narena := narena s; arenas := arenas s |}.
Definition set_layout_mutex (s : btt) (v : bool) : btt :=
  {| nlane := nlane s; layout_write_mutex := v; laidout := laidout s;
     parent_uuid := parent_uuid s; rawsize := rawsize s; lbasize := lbasize s;
     nfree := nfree s; nlba := nlba s; narena := narena s; arenas := arenas s |}.
Definition set_laidout (s : btt) (v : bool) : btt :=
  {| nlane := nlane s; layout_write_mutex := layout_write_mutex s; laidout := v;
     parent_uuid := parent_uuid s; rawsize := rawsize s; lbasize := lbasize s;
     nfree := nfree s; nlba := nlba s; narena := narena s; arenas := arenas s |}.
Definition set_nfree (s : btt) (v : Z) : btt :=
  {| nlane := nlane s; layout_write_mutex := layout_write_mutex s; laidout := laidout s;
     parent_uuid := parent_uuid s; rawsize := rawsize s; lbasize := lbasize s;
     nfree := v; nlba := nlba s; narena := narena s; arenas := arenas s |}.
Definition set_nlba (s : btt) (v : Z) : btt :=
  {| nlane := nlane s; layout_write_mutex := layout_write_mutex s; laidout := laidout s;
     parent_uuid := parent_uuid s; rawsize := rawsize s; lbasize := lbasize s;
     nfree := nfree s; nlba := v; narena := narena s; arenas := arenas s |}.
Definition set_narena (s : btt) (v : Z) : btt :=
  {| nlane := nlane s; layout_write_mutex := layout_write_mutex s; laidout := laidout s;
     parent_uuid := parent_uuid s; rawsize := rawsize s; lbasize := lbasize s;
     nfree := nfree s; nlba := nlba s; narena := v; arenas := arenas s |}.
Definition set_arenas (s : btt) (v : list arena) : btt :=
  {| nlane := nlane s; layout_write_mutex := layout_write_mutex s; laidout := laidout s;
     parent_uuid := parent_uuid s; rawsize := rawsize s; lbasize := lbasize s;
     nfree := nfree s; nlba := nlba s; narena := narena s; arenas := v |}.

Definition upd_arena (s : btt) (ai : nat) (f : arena -> arena) : btt :=
  set_arenas s (alter f ai (arenas s)).

(** The zeroed structures that [memset] leaves. *)
Definition zero_runtime : flog_runtime := {| flog := Zflog; entries := (0, 0); next := 0 |}.
Definition zero_arena : arena :=
  {| flags := 0; external_nlba := 0; internal_lbasize := 0; internal_nlba := 0;
     startoff := 0; dataoff := 0; mapoff := 0; flogoff := 0; nextoff := 0;
     flogs := []; rtt := []; map_locks := []; info_lock := false |}.
Definition zero_btt : btt :=
  {| nlane := 0; layout_write_mutex := false; laidout := false; parent_uuid := replicate 16 x00;
     rawsize := 0; lbasize := 0; nfree := 0; nlba := 0; narena := 0; arenas := [] |}.

(** sizeof on x86-64 *)
Definition SIZEOF_BTT : Z := 128.
Definition SIZEOF_ARENA : Z := 120.
Definition SIZEOF_FLOG_RUNTIME : Z := 40.
Definition SIZEOF_MUTEX : Z := 40.

(** An array indexed by a lane. *)
Definition at_lane {A} (l : list A) (lane : Z) : option A :=
  if lane <? 0 then None else l !! Z.to_nat lane.

Abbreviation prog := (Prog.prog btt).

Definition get_arena (ai : nat) : prog arena :=
  s <- get ;; deref (arenas s !! ai).
Definition mod_arena (ai : nat) (f : arena -> arena) : prog unit :=
  modify (fun s => upd_arena s ai f).
Definition get_flog (ai : nat) (lane : Z) : prog flog_runtime :=
  a <- get_arena ai ;; deref (at_lane (flogs a) lane).
Definition mod_flog (ai : nat) (i : nat) (f : flog_runtime -> flog_runtime) : prog unit :=
  mod_arena ai (fun a => set_flogs a (alter f i (flogs a))).
Definition write_rtt (ai : nat) (lane : Z) (v : Z) : prog unit :=
  a <- get_arena ai ;;
  _ <- deref (at_lane (rtt a) lane) ;;
  mod_arena ai (fun a => set_rtt a (<[Z.to_nat lane := v]> (rtt a))).

(** ** Sequence numbers and validation *)

Definition Sig : list byte :=
  [x42; x54; x54; x5f; x41; x52; x45; x4e; x41; x5f; x49; x4e; x46; x4f; x00; x00].

Definition NSEQ (seq : Z) : Z := nth (Z.to_nat (Z.land seq 3)) [0; 2; 3; 1] 0.

Definition invalid_lba (s : btt) (lba : Z) : bool := nlba s <=? lba.
(** "if (invalid_lba(bttp, lba)) return -1;" *)
Definition check_lba (lba : Z) : prog unit :=
  s <- get ;; if invalid_lba s lba then Throw EINVAL else Ret tt.

(** The info block in host byte order, or [None] when it is not valid. *)
Definition read_info (s : btt) (bs : list byte) : option btt_info :=
  let info := btt_info_of bs in
  if negb (bool_decide (i_sig info = Sig)) then None
  else if negb (bool_decide (i_parent_uuid info = parent_uuid s)) then None
  else if negb (fst (util_checksum bs INFO_CSUM false)) then None
  else if i_major info =? 0 then None
  else Some info.

(** ** Loading the flog *)

(** The entry of a pair that is current and the one to write next, or [None]
    when the sequence numbers are equal. *)
Definition flog_current (f0 f1 : btt_flog) : option (btt_flog * Z) :=
  if seq f0 =? seq f1 then None
  else if seq f0 =? 0 then Some (f1, 0)
  else if seq f1 =? 0 then Some (f0, 1)
  else if NSEQ (seq f0) =? seq f1 then Some (f1, 0)
  else Some (f0, 1).

Definition map_entry_offset (a : arena) (premap_lba : Z) : Z :=
  u64 (mapoff a + u32 (BTT_MAP_ENTRY_SIZE * premap_lba)).

(** The recovery step: complete the update the current flog entry describes. *)
Definition flog_recover (lane : Z) (ai : nat) (cur : btt_flog) : prog unit :=
  a <- get_arena ai ;;
  let map_entry_off := map_entry_offset a (lba cur) in
  bs <- read_ns lane 4 map_entry_off ;;
  let entry := le_dec bs in
  let entry := if map_entry_is_initial entry then Z.lor (lba cur) BTT_MAP_ENTRY_NORMAL else entry in
  if negb (new_map cur =? entry) && (old_map cur =? entry)
  then write_ns lane (le_enc 4 (new_map cur)) map_entry_off
  else Ret tt.

Definition read_flog_pair (lane : Z) (ai : nat) (flog_off : Z) (flognum : nat) : prog unit :=
  mod_flog ai flognum (fun r => set_entries r (flog_off, flog_off + BTT_FLOG_SIZE)) ;;;
  s <- get ;;
  if (lane <? 0) || (nfree s <=? lane) then Throw EINVAL
  else if flog_off =? 0 then Throw EINVAL
  else
    bs <- read_ns lane (2 * BTT_FLOG_SIZE) flog_off ;;
    let f0 := flog_of (slice bs 0 16) in
    let f1 := flog_of (slice bs 16 16) in
    check_lba (lba f0) ;;;
    check_lba (lba f1) ;;;
    match flog_current f0 f1 with
    | None => mod_arena ai (fun a => set_flags a (Z.lor (flags a) BTTINFO_FLAG_ERROR))
    | Some (cur, nxt) =>
        mod_flog ai flognum (fun r => set_next r nxt) ;;;
        mod_flog ai flognum (fun r => set_flog r cur) ;;;
        if old_map cur =? new_map cur then Ret tt
        else flog_recover lane ai cur
    end.

(** ** Updating the flog *)

Definition flog_update (lane : Z) (ai : nat) (lba old_map new_map : Z) : prog unit :=
  r <- get_flog ai lane ;;
  let new_seq := NSEQ (seq (flog r)) in
  let new_flog_off := if next r =? 0 then fst (entries r) else snd (entries r) in
  write_ns lane (le_enc 4 lba ++ le_enc 4 old_map) new_flog_off ;;;
  write_ns lane (le_enc 4 new_map ++ le_enc 4 new_seq) (new_flog_off + 8) ;;;
  mod_flog ai (Z.to_nat lane) (fun r =>
    set_flog (set_next r (1 - next r))
      {| lba := lba; old_map := old_map; new_map := new_map; seq := NSEQ (seq (flog r)) |}).

(** ** Arena flags *)

(** The body of [arena_setf] between lock and unlock. *)
Definition arena_setf_info (lane : Z) (arena_off setf : Z) : prog unit :=
  info <- read_ns lane BTT_INFO_SIZE arena_off ;;
  let infooff := i_infooff (btt_info_of info) in
  let info := splice info INFO_FLAGS (le_enc 4 (Z.lor (i_flags (btt_info_of info)) setf)) in
  let info := snd (util_checksum info INFO_CSUM true) in
  write_ns lane info arena_off ;;;
  write_ns lane info (u64 (arena_off + infooff)).

Definition arena_setf (lane : Z) (ai : nat) (setf : Z) : prog unit :=
  mod_arena ai (fun a => set_flags a (Z.lor (flags a) setf)) ;;;
  s <- get ;;
  if negb (laidout s) then Ret tt
  else
    a <- get_arena ai ;;
    await (fun s => match arenas s !! ai with Some a => negb (info_lock a) | None => true end)
          (fun s => upd_arena s ai (fun a => set_info_lock a true)) ;;;
    r <- catch (arena_setf_info lane (startoff a) setf) ;;
    mod_arena ai (fun a => set_info_lock a false) ;;;
    of_result r.

Definition set_arena_error (lane : Z) (ai : nat) : prog unit :=
  arena_setf lane ai BTTINFO_FLAG_ERROR.

(** ** Loading an arena *)

Fixpoint read_flogs_loop (lane : Z) (ai : nat) (flog_off : Z) (i n : nat) : prog unit :=
  match n with
  | O => Ret tt
  | S n =>
      r <- catch (read_flog_pair lane ai flog_off i) ;;
      match r with
      | inl e =>
          r' <- catch (set_arena_error lane ai) ;;
          Throw (match r' with inl e' => e' | inr _ => e end)
      | inr _ =>
          read_flogs_loop lane ai
            (flog_off + roundup (2 * BTT_FLOG_SIZE) BTT_FLOG_PAIR_ALIGN) (i + 1) n
      end
  end.

Definition read_flogs (lane : Z) (ai : nat) : prog unit :=
  s <- get ;;
  malloc (u64 (nfree s * SIZEOF_FLOG_RUNTIME)) ;;;
  mod_arena ai (fun a => set_flogs a (replicate (Z.to_nat (nfree s)) zero_runtime)) ;;;
  a <- get_arena ai ;;
  read_flogs_loop lane ai (flogoff a) 0 (Z.to_nat (nfree s)).

Definition build_rtt (ai : nat) : prog unit :=
  s <- get ;;
  malloc (u64 (nfree s * 4)) ;;;
  mod_arena ai (fun a => set_rtt a (replicate (Z.to_nat (nfree s)) BTT_MAP_ENTRY_ERROR)).

Definition build_map_locks (ai : nat) : prog unit :=
  s <- get ;;
  malloc (u64 (nfree s * SIZEOF_MUTEX)) ;;;
  mod_arena ai (fun a => set_map_locks a (replicate (Z.to_nat (nfree s)) false)).

(** The fields [read_arena] takes from the info block. *)
Definition arena_of_info (a : arena) (info : btt_info) (arena_off : Z) : arena :=
  {| flags := i_flags info; external_nlba := i_external_nlba info;
     internal_lbasize := i_internal_lbasize info; internal_nlba := i_internal_nlba info;
     startoff := arena_off; dataoff := u64 (arena_off + i_dataoff info);
     mapoff := u64 (arena_off + i_mapoff info); flogoff := u64 (arena_off + i_flogoff info);
     nextoff := u64 (arena_off + i_nextoff info);
     flogs := flogs a; rtt := rtt a; map_locks := map_locks a; info_lock := info_lock a |}.

Definition read_arena (lane arena_off : Z) (ai : nat) : prog unit :=
  bs <- read_ns lane BTT_INFO_SIZE arena_off ;;
  mod_arena ai (fun a => arena_of_info a (btt_info_of bs) arena_off) ;;;
  read_flogs lane ai ;;;
  build_rtt ai ;;;
  build_map_locks ai ;;;
  mod_arena ai (fun a => set_info_lock a false).

Fixpoint read_arenas_loop (lane arena_off : Z) (i n : nat) : prog unit :=
  match n with
  | O => Ret tt
  | S n =>
      read_arena lane arena_off i ;;;
      a <- get_arena i ;;
      read_arenas_loop lane (nextoff a) (i + 1) n
  end.

Definition read_arenas (lane narena : Z) : prog unit :=
  r <- catch (
    malloc (u64 (narena * SIZEOF_ARENA)) ;;;
    modify (fun s => set_arenas s (replicate (Z.to_nat narena) zero_arena)) ;;;
    read_arenas_loop lane 0 0 (Z.to_nat narena)) ;;
  match r with
  | inl e =>
      (* error clean up: the arenas and their tables are freed *)
      modify (fun s => set_arenas s []) ;;; Throw e
  | inr _ => modify (fun s => set_laidout s true)
  end.

(** ** Writing the layout *)

(** The number of arenas: the full ones, and one more for a large remainder. *)
Definition count_arenas (rawsize : Z) : Z :=
  rawsize / BTT_MAX_ARENA + (if BTT_MIN_SIZE <=? rawsize mod BTT_MAX_ARENA then 1 else 0).

(** [int flog_size], in two roundings. *)
Definition layout_flog_size (nfree : Z) : Z :=
  let flog_size := s32 (u64 (nfree * roundup (2 * BTT_FLOG_SIZE) BTT_FLOG_PAIR_ALIGN)) in
  s32 (roundup flog_size BTT_ALIGNMENT).

(** The internal block size: at least BTT_MIN_LBA_SIZE, aligned; [uint32_t]. *)
Definition layout_lbasize (lbasize : Z) : Z :=
  let l := if lbasize <? BTT_MIN_LBA_SIZE then BTT_MIN_LBA_SIZE else lbasize in
  u32 (l + (BTT_INTERNAL_LBA_ALIGNMENT - 1)) / BTT_INTERNAL_LBA_ALIGNMENT
    * BTT_INTERNAL_LBA_ALIGNMENT.

(** The data size of an arena before the map is taken off it. *)
Definition layout_datasize (arena_rawsize flog_size : Z) : Z :=
  u64 (u64 (arena_rawsize - 2 * BTT_INFO_SIZE) - flog_size).

Definition layout_internal_nlba (arena_datasize internal_lbasize : Z) : Z :=
  u64 (arena_datasize - BTT_ALIGNMENT) / u32 (internal_lbasize + BTT_MAP_ENTRY_SIZE).

Definition layout_mapsize (external_nlba : Z) : Z :=
  roundup (u64 (external_nlba * BTT_MAP_ENTRY_SIZE)) BTT_ALIGNMENT.

(** The info block of a new arena; [rest] is the raw size left after it. *)
Definition layout_info (s : btt) (internal_lbasize external_nlba internal_nlba
    arena_rawsize flog_size rest : Z) : btt_info :=
  let mapsize := layout_mapsize external_nlba in
  let nextoff := if BTT_MIN_SIZE <=? rest then arena_rawsize else 0 in
  let infooff := u64 (arena_rawsize - BTT_INFO_SIZE) in
  let flogoff := u64 (infooff - flog_size) in
  let mapoff := u64 (flogoff - mapsize) in
  {| i_sig := Sig; i_parent_uuid := parent_uuid s; i_flags := 0;
     i_major := BTTINFO_MAJOR_VERSION; i_minor := BTTINFO_MINOR_VERSION;
     i_external_lbasize := lbasize s; i_external_nlba := u32 external_nlba;
     i_internal_lbasize := internal_lbasize; i_internal_nlba := u32 internal_nlba;
     i_nfree := nfree s; i_infosize := BTT_INFO_SIZE; i_nextoff := nextoff;
     i_dataoff := BTT_INFO_SIZE; i_mapoff := mapoff; i_flogoff := flogoff;
     i_infooff := infooff; i_unused := replicate 3984 x00; i_checksum := 0 |}.

(** The initial flog: each pair an entry for one free block, then zeros. *)
Fixpoint write_flogs (lane flog_entry_off next_free_lba : Z) (n : nat) : prog unit :=
  match n with
  | O => Ret tt
  | S n =>
      let e := Z.lor next_free_lba BTT_MAP_ENTRY_ZERO in
      let flog := {| lba := 0; old_map := e; new_map := e; seq := 1 |} in
      write_ns lane (flog_bytes flog) flog_entry_off ;;;
      let flog_entry_off := flog_entry_off + BTT_FLOG_SIZE in
      write_ns lane (flog_bytes Zflog) flog_entry_off ;;;
      let flog_entry_off := roundup (flog_entry_off + BTT_FLOG_SIZE) BTT_FLOG_PAIR_ALIGN in
      write_flogs lane flog_entry_off (u32 (next_free_lba + 1)) n
  end.

(** The metadata of one arena: map, flog, and both info blocks. *)
Definition write_arena (lane arena_off : Z) (info : btt_info) (mapsize external_nlba : Z) : prog unit :=
  s <- get ;;
  zeroed <- NsIsZeroed (fun b => Ret b) ;;
  (if negb zeroed then zero_ns lane mapsize (i_mapoff info) else Ret tt) ;;;
  write_flogs lane (arena_off + i_flogoff info) (u32 external_nlba) (Z.to_nat (nfree s)) ;;;
  let bs := snd (util_checksum (btt_info_bytes info) INFO_CSUM true) in
  write_ns lane bs arena_off ;;;
  write_ns lane bs (arena_off + i_infooff info).

(** The loop over the arenas; returns [total_nlba]. *)
Fixpoint layout_loop (fuel : nat) (lane : Z) (write : bool) (internal_lbasize flog_size : Z)
    (rawsize arena_off total_nlba : Z) : prog Z :=
  if negb (BTT_MIN_SIZE <=? rawsize) then Ret total_nlba
  else match fuel with
  | O => Crash OutOfFuel
  | S fuel =>
      s <- get ;;
      let arena_rawsize := if BTT_MAX_ARENA <? rawsize then BTT_MAX_ARENA else rawsize in
      let rawsize := rawsize - arena_rawsize in
      let arena_datasize := layout_datasize arena_rawsize flog_size in
      let internal_nlba := layout_internal_nlba arena_datasize internal_lbasize in
      if internal_nlba <? u32 (2 * nfree s) then Throw EINVAL
      else
        let external_nlba := u64 (internal_nlba - nfree s) in
        let total_nlba := u64 (total_nlba + external_nlba) in
        if negb write then
          layout_loop fuel lane write internal_lbasize flog_size rawsize arena_off total_nlba
        else
          let info := layout_info s internal_lbasize external_nlba internal_nlba
                        arena_rawsize flog_size rawsize in
          write_arena lane arena_off info (layout_mapsize external_nlba) external_nlba ;;;
          layout_loop fuel lane write internal_lbasize flog_size rawsize
            (arena_off + i_nextoff info) total_nlba
  end.

(** Enough fuel: an iteration takes a full arena off [rawsize], or is the last. *)
Definition layout_fuel (rawsize : Z) : nat := Z.to_nat (rawsize / BTT_MAX_ARENA + 1).

Definition write_layout (lane : Z) (write : bool) : prog unit :=
  s <- get ;;
  let narena := s32 (count_arenas (rawsize s)) in
  modify (fun s => set_narena s narena) ;;;
  let flog_size := layout_flog_size (nfree s) in
  let internal_lbasize := layout_lbasize (lbasize s) in
  if internal_lbasize <? BTT_INTERNAL_LBA_ALIGNMENT then Throw EINVAL
  else
    total_nlba <- layout_loop (layout_fuel (rawsize s)) lane write internal_lbasize flog_size
                    (rawsize s) 0 0 ;;
    modify (fun s => set_nlba s total_nlba) ;;;
    if write then read_arenas lane narena else Ret tt.

(** ** Reading the layout *)

Definition UINT32_MAX : Z := 2 ^ 32 - 1.

(** What the loop of [read_layout] finds: no valid layout, or the number of
    arenas, the smallest nfree and the number of LBAs. *)
Inductive layout_found := NoLayout | Layout (narena smallest_nfree total_nlba : Z).

Fixpoint read_layout_loop (fuel : nat) (lane : Z)
    (rawsize arena_off narena smallest_nfree total_nlba : Z) : prog layout_found :=
  if negb (BTT_MIN_SIZE <=? rawsize) then Ret (Layout narena smallest_nfree total_nlba)
  else match fuel with
  | O => Crash OutOfFuel
  | S fuel =>
      let narena := narena + 1 in
      bs <- read_ns lane BTT_INFO_SIZE arena_off ;;
      s <- get ;;
      match read_info s bs with
      | None => Ret NoLayout
      | Some info =>
          if negb (i_external_lbasize info =? lbasize s) then Throw EINVAL
          else if i_nfree info =? 0 then Throw EINVAL
          else if i_external_nlba info =? 0 then Throw EINVAL
          else if negb (i_nextoff info =? 0) && negb (i_nextoff info =? BTT_MAX_ARENA)
          then Throw EINVAL
          else
            let smallest_nfree :=
              if i_nfree info <? smallest_nfree then i_nfree info else smallest_nfree in
            let total_nlba := u64 (total_nlba + i_external_nlba info) in
            let arena_off := arena_off + i_nextoff info in
            if i_nextoff info =? 0 then Ret (Layout narena smallest_nfree total_nlba)
            else if rawsize <? i_nextoff info then Throw EINVAL
            else read_layout_loop fuel lane (rawsize - i_nextoff info) arena_off
                   narena smallest_nfree total_nlba
      end
  end.

Definition read_layout (lane : Z) : prog unit :=
  modify (fun s => set_nfree s BTT_DEFAULT_NFREE) ;;;
  s <- get ;;
  r <- read_layout_loop (layout_fuel (rawsize s)) lane (rawsize s) 0 0 UINT32_MAX 0 ;;
  match r with
  | NoLayout => write_layout lane false
  | Layout narena smallest_nfree total_nlba =>
      modify (fun s => set_nlba (set_narena s narena) total_nlba) ;;;
      modify (fun s => if smallest_nfree <? nfree s then set_nfree s smallest_nfree else s) ;;;
      read_arenas lane narena
  end.

(** ** Looking up an LBA *)

Definition zero_block (s : btt) : list byte := replicate (Z.to_nat (lbasize s)) x00.

(** The arena of an external LBA and the pre-map LBA in it ([uint32_t]). *)
Fixpoint lba_to_arena_lba (ars : list arena) (i : nat) (lba : Z) : option (nat * Z) :=
  match ars with
  | [] => None
  | a :: ars =>
      if lba <? external_nlba a then Some (i, u32 lba)
      else lba_to_arena_lba ars (i + 1) (lba - external_nlba a)
  end.

(** ** Opening *)

Definition btt_fini : prog unit := modify (fun _ => zero_btt).

Definition btt_init (rawsize lbasize : Z) (parent_uuid : list byte) (maxlane : Z) : prog unit :=
  if rawsize <? BTT_MIN_SIZE then Throw EINVAL
  else
    malloc SIZEOF_BTT ;;;
    modify (fun _ =>
      {| nlane := 0; layout_write_mutex := false; laidout := false;
         parent_uuid := take BTTINFO_UUID_LEN parent_uuid;
         rawsize := rawsize; lbasize := lbasize; nfree := 0; nlba := 0; narena := 0;
         arenas := [] |}) ;;;
    r <- catch (read_layout 0) ;;
    match r with
    | inl e => btt_fini ;;; Throw e
    | inr _ =>
        modify (fun s => set_nlane s (s32 (nfree s))) ;;;
        modify (fun s => if negb (maxlane =? 0) && (maxlane <? nlane s)
                         then set_nlane s maxlane else s)
    end.

Definition btt_nlane (s : btt) : Z := nlane s.
Definition btt_nlba (s : btt) : Z := nlba s.

(** ** Reading a block *)

(** arenap->dataoff + entry * arenap->internal_lbasize: the product is taken in
    [uint32_t], as the operands are. *)
Definition data_block_offset (a : arena) (entry : Z) : Z :=
  u64 (dataoff a + u32 (entry * internal_lbasize a)).

(** The retry loop: the outcome is a block of zeros ([None]) or the entry whose
    block is now protected by the read tracking table. *)
Fixpoint read_retry (fuel : nat) (lane : Z) (ai : nat) (map_entry_off entry : Z) : prog (option Z) :=
  match fuel with
  | O => Crash OutOfFuel
  | S fuel =>
      if map_entry_is_error entry then Throw EIO
      else if map_entry_is_zero_or_initial entry then Ret None
      else
        write_rtt ai lane entry ;;;
        r <- catch (read_ns lane 4 map_entry_off) ;;
        match r with
        | inl e => write_rtt ai lane BTT_MAP_ENTRY_ERROR ;;; Throw e
        | inr bs =>
            let latest_entry := le_dec bs in
            if entry =? latest_entry then Ret (Some entry)
            else read_retry fuel lane ai map_entry_off latest_entry
        end
  end.

(** The contents of [buf] on success. *)
Definition btt_read (fuel : nat) (lane lba : Z) : prog (list byte) :=
  check_lba lba ;;;
  s <- get ;;
  if negb (laidout s) then Ret (zero_block s)
  else
    r <- deref (lba_to_arena_lba (arenas s) 0 lba) ;;
    let '(ai, premap_lba) := r in
    a <- get_arena ai ;;
    let map_entry_off := map_entry_offset a premap_lba in
    bs <- read_ns lane 4 map_entry_off ;;
    r <- read_retry fuel lane ai map_entry_off (le_dec bs) ;;
    match r with
    | None => Ret (zero_block s)
    | Some entry =>
        readret <- catch (read_ns lane (lbasize s) (data_block_offset a entry)) ;;
        write_rtt ai lane BTT_MAP_ENTRY_ERROR ;;;
        of_result readret
    end.

(** ** The map locks *)

Definition map_lock_num (s : btt) (premap_lba : Z) : nat :=
  Z.to_nat (u32 (premap_lba * BTT_MAP_ENTRY_SIZE) / BTT_MAP_LOCK_ALIGN mod nfree s).

Definition map_lock_free (ai n : nat) (s : btt) : bool :=
  match arenas s !! ai with
  | Some a => match map_locks a !! n with Some held => negb held | None => true end
  | None => true
  end.

Definition set_map_lock (ai n : nat) (v : bool) (s : btt) : btt :=
  upd_arena s ai (fun a => set_map_locks a (<[n := v]> (map_locks a))).

(** pthread_mutex_unlock (&arenap->map_locks[map_lock_num]) *)
Definition map_abort (lane : Z) (ai : nat) (premap_lba : Z) : prog unit :=
  s <- get ;; modify (set_map_lock ai (map_lock_num s premap_lba) false).

(** Take the lock and read the entry; an entry in the initial state is the
    pre-map LBA itself. *)
Definition map_lock (lane : Z) (ai : nat) (premap_lba : Z) : prog Z :=
  s <- get ;;
  a <- get_arena ai ;;
  let map_entry_off := map_entry_offset a premap_lba in
  let n := map_lock_num s premap_lba in
  _ <- deref (map_locks a !! n) ;;
  await (map_lock_free ai n) (set_map_lock ai n true) ;;;
  r <- catch (read_ns lane 4 map_entry_off) ;;
  match r with
  | inl e => map_abort lane ai premap_lba ;;; Throw e
  | inr bs =>
      let entry := le_dec bs in
      Ret (if map_entry_is_initial entry then Z.lor premap_lba BTT_MAP_ENTRY_NORMAL else entry)
  end.

(** Write the entry and drop the lock. *)
Definition map_unlock (lane : Z) (ai : nat) (entry premap_lba : Z) : prog unit :=
  a <- get_arena ai ;;
  r <- catch (write_ns lane (le_enc 4 entry) (map_entry_offset a premap_lba)) ;;
  s <- get ;;
  modify (set_map_lock ai (map_lock_num s premap_lba) false) ;;;
  of_result r.

(** ** Writing a block *)

(** "for (int i = 0; i < bttp->nlane; i++) while (arenap->rtt[i] == free_entry);" *)
Fixpoint wait_readers (ai : nat) (free_entry : Z) (i n : nat) : prog unit :=
  match n with
  | O => Ret tt
  | S n =>
      a <- get_arena ai ;;
      _ <- deref (rtt a !! i) ;;
      await (fun s => match arenas s !! ai with
                      | Some a => match rtt a !! i with Some v => negb (v =? free_entry) | None => true end
                      | None => true
                      end) (fun s => s) ;;;
      wait_readers ai free_entry (i + 1) n
  end.

(** The first write, or setting an error, writes the layout. *)
Definition ensure_layout (lane : Z) : prog unit :=
  s <- get ;;
  if laidout s then Ret tt
  else
    await (fun s => negb (layout_write_mutex s)) (fun s => set_layout_mutex s true) ;;;
    s <- get ;;
    r <- catch (if laidout s then Ret tt else write_layout lane true) ;;
    modify (fun s => set_layout_mutex s false) ;;;
    of_result r.

Definition arena_in_error (a : arena) : bool :=
  negb (Z.land (flags a) BTTINFO_FLAG_ERROR_MASK =? 0).

Definition btt_write (lane lba : Z) (buf : list byte) : prog unit :=
  check_lba lba ;;;
  ensure_layout lane ;;;
  s <- get ;;
  r <- deref (lba_to_arena_lba (arenas s) 0 lba) ;;
  let '(ai, premap_lba) := r in
  a <- get_arena ai ;;
  if arena_in_error a then Throw EIO
  else
    r <- get_flog ai lane ;;
    let free_entry := Z.lor (entry_lba (old_map (flog r))) BTT_MAP_ENTRY_NORMAL in
    wait_readers ai free_entry 0 (Z.to_nat (nlane s)) ;;;
    write_ns lane buf (data_block_offset a (entry_lba free_entry)) ;;;
    old_entry <- map_lock lane ai premap_lba ;;
    r <- catch (flog_update lane ai premap_lba old_entry free_entry) ;;
    match r with
    | inl e => map_abort lane ai premap_lba ;;; Throw e
    | inr _ =>
        r <- catch (map_unlock lane ai free_entry premap_lba) ;;
        match r with
        | inl _ => _ <- catch (set_arena_error lane ai) ;; Throw EIO
        | inr _ => Ret tt
        end
    end.

(** ** Setting the state of a block *)

Definition map_entry_setf (lane lba setf : Z) : prog unit :=
  check_lba lba ;;;
  s <- get ;;
  if negb (laidout s) && (setf =? BTT_MAP_ENTRY_ZERO) then Ret tt
  else
    ensure_layout lane ;;;
    s <- get ;;
    r <- deref (lba_to_arena_lba (arenas s) 0 lba) ;;
    let '(ai, premap_lba) := r in
    a <- get_arena ai ;;
    if arena_in_error a then Throw EIO
    else
      old_entry <- map_lock lane ai premap_lba ;;
      if (setf =? BTT_MAP_ENTRY_ZERO) && map_entry_is_zero_or_initial old_entry
      then map_abort lane ai premap_lba
      else map_unlock lane ai (Z.lor (entry_lba old_entry) setf) premap_lba.

Definition btt_set_zero (lane lba : Z) : prog unit := map_entry_setf lane lba BTT_MAP_ENTRY_ZERO.
Definition btt_set_error (lane lba : Z) : prog unit := map_entry_setf lane lba BTT_MAP_ENTRY_ERROR.

(** ** Checking *)

(** The scan of the map: the blocks it mentions so far, and whether all were
    distinct.  [mapped] holds what is left of the range last mapped. *)
Fixpoint check_map (ai : nat) (a : arena) (map_entry_off : Z) (mapped : list byte)
    (i n : nat) (bitmap : gset Z) (consistent : bool) : prog (gset Z * bool) :=
  match n with
  | O => Ret (bitmap, consistent)
  | S n =>
      mapped <- (match mapped with
                 | [] => map_ns 0 (u64 (u32 (external_nlba a - Z.of_nat i) * 4)) map_entry_off
                 | _ => Ret mapped
                 end) ;;
      _ <- deref (if (length mapped <? 4)%nat then None else Some tt) ;;
      let entry := le_dec (take 4 mapped) in
      let entry := if map_entry_is_initial entry then Z.of_nat i else entry_lba entry in
      if internal_nlba a <=? entry then Throw EINVAL
      else
        let dup := bool_decide (entry ∈ bitmap) in
        check_map ai a (map_entry_off + 4) (drop 4 mapped) (i + 1) n
          (if dup then bitmap else {[entry]} ∪ bitmap) (if dup then false else consistent)
  end.

(** The free blocks; [isset] and [setbit] beyond the bitmap are out of bounds. *)
Fixpoint check_flogs (bitmapsize : Z) (fs : list flog_runtime) (bitmap : gset Z) (consistent : bool)
  : prog (gset Z * bool) :=
  match fs with
  | [] => Ret (bitmap, consistent)
  | r :: fs =>
      let entry := entry_lba (old_map (flog r)) in
      _ <- deref (if bitmapsize <=? entry / 8 then None else Some tt) ;;
      let dup := bool_decide (entry ∈ bitmap) in
      check_flogs bitmapsize fs
        (if dup then bitmap else {[entry]} ∪ bitmap) (if dup then false else consistent)
  end.

(** Every block accounted for. *)
Fixpoint all_set (bitmap : gset Z) (i : Z) (n : nat) : bool :=
  match n with
  | O => true
  | S n => if bool_decide (i ∈ bitmap) then all_set bitmap (i + 1) n else false
  end.

Definition check_arena (ai : nat) : prog bool :=
  a <- get_arena ai ;;
  s <- get ;;
  let bitmapsize := u32 (internal_nlba a + 7) / 8 in
  malloc bitmapsize ;;;
  r <- check_map ai a (mapoff a) [] 0 (Z.to_nat (external_nlba a)) ∅ true ;;
  r <- check_flogs bitmapsize (take (Z.to_nat (nfree s)) (flogs a)) (fst r) (snd r) ;;
  Ret (snd r && all_set (fst r) 0 (Z.to_nat (internal_nlba a))).

(** "arenap" is not advanced in the loop: every iteration checks the first arena. *)
Fixpoint check_arenas (n : nat) (consistent : bool) : prog bool :=
  match n with
  | O => Ret consistent
  | S n =>
      retval <- check_arena 0 ;;
      check_arenas n (if retval then consistent else false)
  end.

Definition btt_check : prog bool :=
  s <- get ;;
  if negb (laidout s) then Ret true
  else check_arenas (Z.to_nat (narena s)) true.
