(* ===== verification/BttInv.v ===== *)
(** BttInv: the invariant of a BTT arena, on the media and at run time.

    An arena's blocks are partitioned: each pre-map LBA owns the block its map
    entry names, each lane owns the free block its flog names, and no block is
    owned twice.  The flog on the media must decode to the run-time flog.  The
    lemmas here are about memories only; [BttSpec] lifts them to the routines. *)

From S2P Require Import Prelude Mem Util BttLayout Prog Btt.

(** ** The pieces of an arena on the media *)

(** The map entry of a pre-map LBA, as stored and with the initial state read
    as the identity mapping. *)
Definition entry_at (m : mem) (a : arena) (i : Z) : Z := get32 m (mapoff a + 4 * i).
Definition eff_entry (i e : Z) : Z :=
  if map_entry_is_initial e then Z.lor i BTT_MAP_ENTRY_NORMAL else e.
Definition eff_at (m : mem) (a : arena) (i : Z) : Z := eff_entry i (entry_at m a i).

(** The block a pre-map LBA owns, and the free block a lane owns. *)
Definition blk_at (m : mem) (a : arena) (i : Z) : Z := entry_lba (eff_at m a i).
Definition free_blk (r : flog_runtime) : Z := entry_lba (old_map (flog r)).

Definition flog_pos (a : arena) (f : nat) : Z := flogoff a + 64 * Z.of_nat f.
Definition flog_at (m : mem) (off : Z) : btt_flog := flog_of (mread m off 16).

(** Offset of a block in the data area, when nothing wraps. *)
Definition blk_off (a : arena) (b : Z) : Z := dataoff a + b * internal_lbasize a.

(** The extent of an arena: from its info block to its backup. *)
Definition arena_end (a : arena) (nf : Z) : Z := flogoff a + 64 * nf + BTT_INFO_SIZE.

(** The geometry of an arena: the regions follow each other and nothing wraps. *)
Record geom_ok (nf lbs size : Z) (a : arena) : Prop := {
  g_start : 0 <= startoff a;
  g_data : startoff a + BTT_INFO_SIZE <= dataoff a;
  g_map : dataoff a + internal_nlba a * internal_lbasize a <= mapoff a;
  g_flog : mapoff a + 4 * external_nlba a <= flogoff a;
  g_end : arena_end a nf <= size;
  g_size : size < 2 ^ 63;
  g_ext : 0 <= external_nlba a <= internal_nlba a;
  g_int : internal_nlba a <= 2 ^ 30;
  g_lbs : 0 < lbs <= internal_lbasize a;
  g_align : internal_lbasize a mod 4 = 0;
  g_wrap : internal_nlba a * internal_lbasize a <= 2 ^ 32;
  g_nf : 0 < nf;
  g_flog8 : flogoff a mod 8 = 0;
  g_map4 : mapoff a mod 4 = 0;
}.

(** A flog pair on the media decodes to the run-time flog of its lane. *)
Record flog_inv (nl : Z) (m : mem) (a : arena) (f : nat) (r : flog_runtime) : Prop := {
  fi_entries : entries r = (flog_pos a f, flog_pos a f + BTT_FLOG_SIZE);
  fi_next : next r = 0 \/ next r = 1;
  fi_current : flog_current (flog_at m (flog_pos a f)) (flog_at m (flog_pos a f + 16))
               = Some (flog r, next r);
  fi_seq : seq (flog r) = 1 \/ seq (flog r) = 2 \/ seq (flog r) = 3;
  fi_lba : 0 <= lba (flog r) < external_nlba a;
  fi_lba0 : lba (flog_at m (flog_pos a f)) < nl;
  fi_lba1 : lba (flog_at m (flog_pos a f + 16)) < nl;
}.

(** Ownership: blocks in range, none owned twice. *)
Record owned (m : mem) (a : arena) (fs : list flog_runtime) : Prop := {
  o_blk : forall i, 0 <= i < external_nlba a -> blk_at m a i < internal_nlba a;
  o_free : forall f r, fs !! f = Some r -> free_blk r < internal_nlba a;
  o_blk_inj : forall i j, 0 <= i < external_nlba a -> 0 <= j < external_nlba a ->
                blk_at m a i = blk_at m a j -> i = j;
  o_free_inj : forall f g r q, fs !! f = Some r -> fs !! g = Some q ->
                free_blk r = free_blk q -> f = g;
  o_disj : forall i f r, 0 <= i < external_nlba a -> fs !! f = Some r ->
                blk_at m a i <> free_blk r;
}.

(** Nobody is inside the arena: no outstanding reads, no lock held. *)
Record quiet (nf : Z) (a : arena) : Prop := {
  q_rtt : rtt a = replicate (Z.to_nat nf) BTT_MAP_ENTRY_ERROR;
  q_locks : map_locks a = replicate (Z.to_nat nf) false;
  q_info : info_lock a = false;
}.

Record arena_inv (nf nl lbs size : Z) (m : mem) (a : arena) : Prop := {
  ai_geom : geom_ok nf lbs size a;
  ai_ext : external_nlba a <= nl;
  ai_len : Z.of_nat (length (flogs a)) = nf;
  ai_flog : forall f r, flogs a !! f = Some r -> flog_inv nl m a f r;
  ai_owned : owned m a (flogs a);
  ai_quiet : quiet nf a;
}.

(** ** What a block reads as *)

Inductive blkstate := BZero | BError | BData (bs : list byte).

Definition blk_state (m : mem) (a : arena) (lbs i : Z) : blkstate :=
  let e := entry_at m a i in
  if map_entry_is_error e then BError
  else if map_entry_is_zero_or_initial e then BZero
  else BData (mread m (data_block_offset a e) lbs).

(** ** Map entries *)

Lemma entry_at_range m a i : 0 <= entry_at m a i < 2 ^ 32.
Proof. apply get32_range. Qed.

Lemma eff_entry_range i e :
  0 <= i < 2 ^ 30 -> 0 <= e < 2 ^ 32 -> 2 ^ 30 <= eff_entry i e < 2 ^ 32.
Proof.
  intros Hi He. unfold eff_entry, map_entry_is_initial.
  pose proof (entry_split e He) as Hs. pose proof (entry_lba_range e) as Hl.
  destruct (Z.eqb_spec (entry_flags e) 0) as [H|H].
  - rewrite lor_flags; [unfold BTT_MAP_ENTRY_NORMAL; lia|easy|easy|done].
  - destruct (entry_flags_cases e He) as [?|[?|[?|?]]];
      unfold BTT_MAP_ENTRY_ERROR, BTT_MAP_ENTRY_ZERO, BTT_MAP_ENTRY_NORMAL in *; lia.
Qed.

(** Bits and blocks of an entry built from flags and a block. *)
Lemma entry_lba_lor b f :
  0 <= f -> f mod 2 ^ 30 = 0 -> 0 <= b < 2 ^ 30 -> entry_lba (Z.lor b f) = b.
Proof.
  intros Hf Hm Hb. rewrite lor_flags by done. rewrite entry_lba_mod.
  rewrite Zplus_mod, Hm, Z.add_0_l, Z.mod_mod by lia. by apply Z.mod_small.
Qed.

Lemma entry_flags_lor b f :
  0 <= f < 2 ^ 32 -> f mod 2 ^ 30 = 0 -> 0 <= b < 2 ^ 30 -> entry_flags (Z.lor b f) = f.
Proof.
  intros Hf Hm Hb. rewrite lor_flags by lia.
  pose proof (Z.div_mod f (2 ^ 30) ltac:(lia)) as Hd.
  assert (f / 2 ^ 30 < 4) by (apply Z.div_lt_upper_bound; lia).
  rewrite entry_flags_div by lia. rewrite Hd at 1. rewrite Hm, Z.add_0_r.
  rewrite (Z.mul_comm (2 ^ 30)), Z.div_add_l by lia.
  rewrite (Z.div_small b) by lia. lia.
Qed.

Lemma entry_lba_id b : 0 <= b < 2 ^ 30 -> entry_lba b = b.
Proof. intros. rewrite entry_lba_mod. by apply Z.mod_small. Qed.

Lemma entry_lba_idem e : entry_lba (entry_lba e) = entry_lba e.
Proof. apply entry_lba_id, entry_lba_range. Qed.

(** An entry made current by a write: block [b], normal. *)
Definition normal (b : Z) : Z := Z.lor b BTT_MAP_ENTRY_NORMAL.

Lemma normal_range b : 0 <= b < 2 ^ 30 -> 0 <= normal b < 2 ^ 32.
Proof.
  intros. unfold normal. rewrite lor_flags; [|easy|easy|done].
  unfold BTT_MAP_ENTRY_NORMAL. lia.
Qed.
Lemma normal_lba b : 0 <= b < 2 ^ 30 -> entry_lba (normal b) = b.
Proof. intros. by apply entry_lba_lor. Qed.
Lemma normal_flags b : 0 <= b < 2 ^ 30 -> entry_flags (normal b) = BTT_MAP_ENTRY_NORMAL.
Proof. intros. by apply entry_flags_lor. Qed.
Lemma normal_not_initial b : 0 <= b < 2 ^ 30 -> map_entry_is_initial (normal b) = false.
Proof. intros. unfold map_entry_is_initial. by rewrite normal_flags. Qed.
Lemma eff_entry_normal i b : 0 <= b < 2 ^ 30 -> eff_entry i (normal b) = normal b.
Proof. intros. unfold eff_entry. by rewrite normal_not_initial. Qed.

(** ** The data offsets: the flag bits vanish modulo 2^32 *)

Lemma data_block_offset_entry nf lbs size a e :
  geom_ok nf lbs size a -> 0 <= e < 2 ^ 32 -> entry_lba e < internal_nlba a ->
  data_block_offset a e = blk_off a (entry_lba e).
Proof.
  intros [] He Hb. pose proof (entry_lba_range e) as Hl. pose proof (entry_split e He) as Hs.
  unfold data_block_offset, blk_off.
  assert (entry_lba e * internal_lbasize a < 2 ^ 32) by nia.
  assert (u32 (e * internal_lbasize a) = entry_lba e * internal_lbasize a) as ->.
  { rewrite Hs at 1. rewrite entry_flags_div by done.
    apply Z.mod_divide in g_align0 as [k Hk]; [|lia]. rewrite Hk at 1.
    replace ((e / 2 ^ 30 * 2 ^ 30 + entry_lba e) * (k * 4))
      with (entry_lba e * (k * 4) + (e / 2 ^ 30 * k) * 2 ^ 32) by lia.
    rewrite u32_add_mult, <- Hk. apply u32_id. nia. }
  apply u64_id. unfold arena_end, BTT_INFO_SIZE in *. nia.
Qed.

(** ** Framing: the invariant depends only on the arena's own bytes *)

Definition same_arena (nf : Z) (a : arena) (m m' : mem) : Prop :=
  agree m m' (startoff a) (arena_end a nf - startoff a).

Lemma flog_at_agree m m' off : agree m m' off 16 -> flog_at m off = flog_at m' off.
Proof. intros H. unfold flog_at. by rewrite (mread_agree _ _ _ _ H). Qed.

(** Only the flog area matters to the flog, and only the map to the map. *)
Lemma flog_inv_agree nl m m' a f r :
  agree m m' (flog_pos a f) 32 -> flog_inv nl m a f r -> flog_inv nl m' a f r.
Proof.
  intros Ha []. assert (flog_at m' (flog_pos a f) = flog_at m (flog_pos a f)) as H0.
  { symmetry. apply flog_at_agree. eapply agree_sub; [done|lia..]. }
  assert (flog_at m' (flog_pos a f + 16) = flog_at m (flog_pos a f + 16)) as H1.
  { symmetry. apply flog_at_agree. eapply agree_sub; [done|lia..]. }
  split; rewrite ?H0, ?H1; done.
Qed.

Lemma entry_at_agree m m' a i :
  agree m m' (mapoff a + 4 * i) 4 -> entry_at m a i = entry_at m' a i.
Proof. intros H. by apply (get_le_agree 4). Qed.

Lemma blk_at_agree m m' a i :
  agree m m' (mapoff a + 4 * i) 4 -> blk_at m a i = blk_at m' a i.
Proof. intros H. unfold blk_at, eff_at. by rewrite (entry_at_agree _ _ _ _ H). Qed.

Lemma owned_agree m m' a fs :
  agree m m' (mapoff a) (4 * external_nlba a) -> owned m a fs -> owned m' a fs.
Proof.
  intros Ha []. assert (forall i, 0 <= i < external_nlba a -> blk_at m' a i = blk_at m a i) as H.
  { intros i Hi. symmetry. apply blk_at_agree. eapply agree_sub; [done|lia..]. }
  split; [| done | | done |].
  - intros i Hi. rewrite H by done. auto.
  - intros i j Hi Hj. rewrite !H by done. auto.
  - intros i f r Hi Hf. rewrite H by done. eauto.
Qed.

Lemma arena_inv_agree nf nl lbs size m m' a :
  same_arena nf a m m' -> arena_inv nf nl lbs size m a -> arena_inv nf nl lbs size m' a.
Proof.
  intros Hs []. pose proof ai_geom0 as [].
  unfold same_arena, arena_end, BTT_INFO_SIZE in *.
  assert (internal_nlba a * internal_lbasize a >= 0) by nia.
  split; try done.
  - intros f r Hf. eapply flog_inv_agree; [|by apply ai_flog0].
    apply lookup_lt_Some in Hf. unfold flog_pos. eapply agree_sub; [done|lia..].
  - eapply owned_agree; [|done]. eapply agree_sub; [done|lia..].
Qed.

Lemma blk_state_agree nf nl lbs size m m' a i :
  arena_inv nf nl lbs size m a -> same_arena nf a m m' -> 0 <= i < external_nlba a ->
  blk_state m' a lbs i = blk_state m a lbs i.
Proof.
  intros [] Hs Hi. pose proof ai_geom0 as []. unfold same_arena, arena_end, BTT_INFO_SIZE in *.
  assert (internal_nlba a * internal_lbasize a >= 0) by nia.
  unfold blk_state. rewrite <- (entry_at_agree m m') by (eapply agree_sub; [done|lia..]).
  pose proof (entry_at_range m a i) as He. set (e := entry_at m a i) in *.
  destruct (map_entry_is_error e) eqn:E1; [done|].
  destruct (map_entry_is_zero_or_initial e) eqn:E2; [done|].
  assert (entry_lba e < internal_nlba a) as Hb.
  { destruct ai_owned0. specialize (o_blk0 i Hi). unfold blk_at, eff_at, eff_entry in o_blk0.
    fold e in o_blk0. unfold map_entry_is_zero_or_initial in E2. cbv zeta in E2. bools.
    unfold map_entry_is_initial in o_blk0. apply Z.eqb_neq in H0. by rewrite H0 in o_blk0. }
  pose proof (entry_lba_range e).
  rewrite (data_block_offset_entry nf lbs size) by done. f_equal. symmetry.
  apply mread_agree. eapply agree_sub; [done|unfold blk_off; nia..].
Qed.

(** ** One write to a block

    The four durable writes of [btt_write], on the media. *)

Definition ev_data (a : arena) (fr : Z) (buf : list byte) : event :=
  EvWrite (blk_off a fr) buf.
Definition flog_slot (r : flog_runtime) : Z := if next r =? 0 then fst (entries r) else snd (entries r).
Definition ev_flog1 (r : flog_runtime) (x old : Z) : event :=
  EvWrite (flog_slot r) (le_enc 4 x ++ le_enc 4 old).
Definition ev_flog2 (r : flog_runtime) (new : Z) : event :=
  EvWrite (flog_slot r + 8) (le_enc 4 new ++ le_enc 4 (NSEQ (seq (flog r)))).
Definition ev_map (a : arena) (x e : Z) : event :=
  EvWrite (mapoff a + 4 * x) (le_enc 4 e).

(** The flog of the lane afterwards. *)
Definition flog_after (r : flog_runtime) (x old new : Z) : flog_runtime :=
  set_flog (set_next r (1 - next r))
    {| lba := x; old_map := old; new_map := new; seq := NSEQ (seq (flog r)) |}.

Lemma flog_slot_pos nl m a f r :
  flog_inv nl m a f r -> flog_slot r = flog_pos a f + 16 * next r.
Proof.
  intros []. unfold flog_slot, BTT_FLOG_SIZE in *. rewrite fi_entries0. cbn [fst snd].
  destruct fi_next0 as [-> | ->]; simpl; lia.
Qed.

Lemma NSEQ_cycle s : s = 1 \/ s = 2 \/ s = 3 ->
  (NSEQ s = 1 \/ NSEQ s = 2 \/ NSEQ s = 3) /\ NSEQ s <> s /\ NSEQ (NSEQ s) <> s.
Proof. intros [-> | [-> | ->]]; vm_compute; auto with lia. Qed.

(** The new entry wins over the old one, whichever slot it is written to. *)
Lemma flog_current_next c n :
  (seq c = 1 \/ seq c = 2 \/ seq c = 3) -> seq n = NSEQ (seq c) ->
  flog_current c n = Some (n, 0) /\ flog_current n c = Some (n, 1).
Proof.
  intros Hs Hn. destruct (NSEQ_cycle _ Hs) as (Hc & Hne & Hne2). unfold flog_current.
  rewrite Hn. split; repeat ztrue; done.
Qed.

(** Which entry is current depends on the sequence numbers alone. *)
Lemma flog_current_other0 f0 f1 g0 c :
  flog_current f0 f1 = Some (c, 0) -> seq g0 = seq f0 -> flog_current g0 f1 = Some (c, 0).
Proof. unfold flog_current. intros H ->. repeat case_match; congruence. Qed.

Lemma flog_current_other1 f0 f1 g1 c :
  flog_current f0 f1 = Some (c, 1) -> seq g1 = seq f1 -> flog_current f0 g1 = Some (c, 1).
Proof. unfold flog_current. intros H ->. repeat case_match; congruence. Qed.

(** The current entry is the one in the other slot. *)
Lemma flog_current_slot nl m a f r :
  flog_inv nl m a f r -> flog_at m (flog_pos a f + 16 * (1 - next r)) = flog r.
Proof.
  intros []. revert fi_current0. unfold flog_current.
  repeat case_match; intros [= <- <-]; f_equal; lia.
Qed.

(** [m'] differs from [m] at most in [off, off + n). *)
Definition only (m m' : mem) (off n : Z) : Prop :=
  forall a, a < off \/ off + n <= a -> m' a = m a.

Lemma only_agree m m' off n off' n' :
  only m m' off n -> off' + n' <= off \/ off + n <= off' -> agree m' m off' n'.
Proof. intros H Hd a Ha. apply H. lia. Qed.

Lemma only_mwrite m off bs : only m (mwrite m off bs) off (Z.of_nat (length bs)).
Proof. intros a Ha. by apply mwrite_out. Qed.

Lemma only_torn m off bs m' : torn m off bs m' -> only m m' off (Z.of_nat (length bs)).
Proof. intros H a Ha. by eapply torn_out. Qed.

Lemma only_equiv m m' m'' off n : only m m' off n -> m'' ≡ m' -> only m m'' off n.
Proof. intros H He a Ha. rewrite (He a). auto. Qed.

Lemma geom_regions nf lbs size a :
  geom_ok nf lbs size a ->
  0 <= startoff a /\ startoff a + 4096 <= mapoff a /\
  mapoff a + 4 * external_nlba a <= flogoff a /\ flogoff a + 64 * nf + 4096 <= size /\ 0 < nf /\
  0 <= external_nlba a <= 2 ^ 30 /\ size < 2 ^ 63.
Proof. intros []. unfold arena_end, BTT_INFO_SIZE in *. nia. Qed.

(** *** The two halves of a flog entry, seen from the flog alone *)

(** The first half: the slot keeps its sequence number, so the other entry
    stays current. *)
Lemma flog_half1 nl m m' a f r x old :
  flog_inv nl m a f r -> 0 <= x < nl -> 0 <= x < 2 ^ 32 -> 0 <= old < 2 ^ 32 ->
  m' ≡ apply_event m (ev_flog1 r x old) ->
  flog_inv nl m' a f r /\
  lba (flog_at m' (flog_slot r)) = x /\ old_map (flog_at m' (flog_slot r)) = old.
Proof.
  intros Hfi Hx Hx' Hold Hm.
  pose proof (flog_slot_pos _ _ _ _ _ Hfi) as Hs. pose proof (fi_next _ _ _ _ _ Hfi) as Hn.
  assert (only m m' (flog_slot r) 8) as Ho.
  { eapply only_equiv; [|exact Hm]. apply (only_mwrite m (flog_slot r)). }
  assert (flog_at m' (flog_slot r) =
    {| lba := x; old_map := old; new_map := new_map (flog_at m (flog_slot r));
       seq := seq (flog_at m (flog_slot r)) |}) as Hslot.
  { unfold flog_at at 1. rewrite Hm. unfold ev_flog1, apply_event. change 16 with (8 + 8).
    rewrite mread_app by lia. rewrite mread_mwrite_eq by len.
    rewrite mread_mwrite_out by len.
    unfold flog_at, flog_of. cbn [new_map seq].
    rewrite !le_at_mread by lia.
    f_equal; field; rewrite ?length_app, ?length_le_enc;
      first [by apply Z.mod_small | rewrite le_at_mread by lia; f_equal; lia]. }
  rewrite Hslot. split; [|done].
  assert (lba (flog_at m' (flog_slot r)) = x) as Hl by by rewrite Hslot.
  assert (seq (flog_at m' (flog_slot r)) = seq (flog_at m (flog_slot r))) as Hq by by rewrite Hslot.
  clear Hslot.
  assert (forall p, p = flog_pos a f + 16 * (1 - next r) -> flog_at m p = flog_at m' p) as Hk.
  { intros p ->. symmetry. apply flog_at_agree. eapply only_agree; [done|lia]. }
  destruct Hfi. rewrite Hs in *. destruct fi_next0 as [E|E]; rewrite E in *.
  - replace (flog_pos a f + 16 * 0) with (flog_pos a f) in * by lia.
    split; rewrite ?E; try done; try lia.
    + rewrite <- (Hk (flog_pos a f + 16)) by lia. by eapply flog_current_other0.
    + by rewrite <- (Hk (flog_pos a f + 16)) by lia.
  - replace (flog_pos a f + 16 * 1) with (flog_pos a f + 16) in * by lia.
    split; rewrite ?E; try done; try lia.
    + rewrite <- (Hk (flog_pos a f)) by lia. by eapply flog_current_other1.
    + by rewrite <- (Hk (flog_pos a f)) by lia.
Qed.

(** The second half over a first one in place. *)
Lemma flog_at_second m off new sq :
  0 <= new < 2 ^ 32 -> 0 <= sq < 2 ^ 32 ->
  flog_at (mwrite m (off + 8) (le_enc 4 new ++ le_enc 4 sq)) off =
  {| lba := lba (flog_at m off); old_map := old_map (flog_at m off); new_map := new; seq := sq |}.
Proof.
  intros. unfold flog_at at 1. change 16 with (8 + 8). rewrite mread_app by lia.
  rewrite mread_mwrite_out by len. rewrite mread_mwrite_eq by len.
  unfold flog_at, flog_of. cbn [lba old_map]. rewrite !(le_at_mread m off 16) by lia.
  assert (length (mread m off 8) = 8%nat) as Hl by (rewrite length_mread; lia).
  f_equal.
  1,2: rewrite le_at_app_l by lia; by rewrite le_at_mread by lia.
  all: rewrite le_at_app_r, Hl by lia; field; by rewrite Z.mod_small.
Qed.

(** The second half: the entry becomes current. *)
Lemma flog_half2 nl m m' a f r x old new :
  flog_inv nl m a f r -> lba (flog_at m (flog_slot r)) = x ->
  old_map (flog_at m (flog_slot r)) = old ->
  0 <= x < external_nlba a -> external_nlba a <= nl -> 0 <= new < 2 ^ 32 ->
  m' ≡ apply_event m (ev_flog2 r new) ->
  flog_inv nl m' a f (flog_after r x old new).
Proof.
  intros Hfi Hlx Hlo Hx He Hn32 Hm.
  pose proof (flog_slot_pos _ _ _ _ _ Hfi) as Hs. pose proof (fi_next _ _ _ _ _ Hfi) as Hn.
  pose proof (NSEQ_cycle _ (fi_seq _ _ _ _ _ Hfi)) as (Hcyc & _ & _).
  assert (only m m' (flog_slot r + 8) 8) as Ho.
  { eapply only_equiv; [|exact Hm]. apply (only_mwrite m (flog_slot r + 8)). }
  (* the slot written is the new entry, the other is the one current before *)
  assert (flog_at m' (flog_slot r) = flog (flog_after r x old new)) as Hslot.
  { unfold flog_at at 1. rewrite Hm. fold (flog_at (apply_event m (ev_flog2 r new)) (flog_slot r)).
    unfold ev_flog2, apply_event. rewrite flog_at_second by lia. by rewrite Hlx, Hlo. }
  assert (flog_at m' (flog_pos a f + 16 * (1 - next r)) = flog r) as Hcur.
  { rewrite <- (flog_current_slot nl m a f r Hfi). apply flog_at_agree.
    eapply only_agree; [done|]. lia. }
  pose proof (flog_current_next (flog r) (flog (flog_after r x old new))
    (fi_seq _ _ _ _ _ Hfi) eq_refl) as [Hc0 Hc1].
  pose proof (fi_lba _ _ _ _ _ Hfi) as Hl.
  assert (lba (flog (flog_after r x old new)) = x) as Hlx' by done.
  rewrite Hs in Hslot.
  split; try done; try (cbn; lia); try (apply Hfi).
  all: destruct Hn as [E|E]; rewrite E in *; cbn [next flog flog_after set_flog set_next];
    rewrite ?E; try lia.
  - replace (flog_pos a f + 16 * 0) with (flog_pos a f) in Hslot by lia.
    change (16 * (1 - 0)) with 16 in Hcur. rewrite Hslot, Hcur. done.
  - replace (flog_pos a f + 16 * (1 - 1)) with (flog_pos a f) in Hcur by lia.
    change (16 * 1) with 16 in Hslot. rewrite Hslot, Hcur. done.
  - replace (flog_pos a f + 16 * 0) with (flog_pos a f) in Hslot by lia. rewrite Hslot. lia.
  - replace (flog_pos a f + 16 * (1 - 1)) with (flog_pos a f) in Hcur by lia. rewrite Hcur. lia.
  - change (16 * (1 - 0)) with 16 in Hcur. rewrite Hcur. lia.
  - change (16 * 1) with 16 in Hslot. rewrite Hslot. lia.
Qed.

(** *** What follows from the geometry alone *)

Section Geometry.
Context (nf lbs size : Z) (a : arena).
Context (Hgeom : geom_ok nf lbs size a).

(** The data of a block lies inside the data area. *)
Lemma geom_blk_bounds b : 0 <= b < internal_nlba a ->
  startoff a + 4096 <= blk_off a b /\ blk_off a b + lbs <= mapoff a.
Proof. intros Hb. destruct Hgeom. unfold blk_off, BTT_INFO_SIZE in *. nia. Qed.

(** Different blocks do not overlap. *)
Lemma geom_blk_disj b c : 0 <= b -> 0 <= c -> b <> c ->
  blk_off a b + lbs <= blk_off a c \/ blk_off a c + lbs <= blk_off a b.
Proof. intros. destruct Hgeom. unfold blk_off. nia. Qed.

(** The normal entries of the map name blocks in range. *)
Lemma owned_entry_blk m fs i :
  owned m a fs -> 0 <= i < external_nlba a -> map_entry_is_initial (entry_at m a i) = false ->
  blk_at m a i = entry_lba (entry_at m a i) /\ entry_lba (entry_at m a i) < internal_nlba a.
Proof.
  intros Hown Hi Hf. pose proof (o_blk _ _ _ Hown i Hi) as Hb.
  unfold blk_at, eff_at, eff_entry in *. by rewrite Hf in *.
Qed.

(** A block state is unchanged by a write outside the map entry and the block. *)
Lemma blk_state_frame m m' fs off n i :
  owned m a fs -> only m m' off n -> 0 <= i < external_nlba a -> 0 <= n ->
  (off + n <= mapoff a + 4 * i \/ mapoff a + 4 * i + 4 <= off) ->
  (off + n <= blk_off a (blk_at m a i) \/ blk_off a (blk_at m a i) + lbs <= off) ->
  blk_state m' a lbs i = blk_state m a lbs i.
Proof.
  intros Hown Ho Hi Hn Hm Hb. unfold blk_state.
  rewrite (entry_at_agree m' m) by (eapply only_agree; [done|lia]).
  pose proof (entry_at_range m a i) as He. pose proof (owned_entry_blk m fs i Hown Hi) as Hblk.
  unfold map_entry_is_initial in Hblk.
  set (e := entry_at m a i) in *. destruct (map_entry_is_error e); [done|].
  destruct (map_entry_is_zero_or_initial e) eqn:E2; [done|].
  unfold map_entry_is_zero_or_initial in E2. cbv zeta in E2. bools.
  destruct Hblk as [Hblk Hlt]; [by apply Z.eqb_neq|].
  rewrite (data_block_offset_entry nf lbs size) by done.
  f_equal. apply mread_agree. rewrite Hblk in Hb. eapply only_agree; [done|lia].
Qed.

(** Ownership after the block of [x] and the free block of lane [f] are swapped. *)
Lemma owned_swap m m' fs f r x old new :
  owned m a fs -> fs !! f = Some r -> 0 <= x < external_nlba a ->
  old = eff_at m a x -> new = normal (free_blk r) ->
  entry_at m' a x = new ->
  (forall i, 0 <= i < external_nlba a -> i <> x -> entry_at m' a i = entry_at m a i) ->
  owned m' a (<[f := flog_after r x old new]> fs).
Proof.
  intros Hown Hf Hx Hold Hnew Hex Hei. pose proof Hown as [].
  pose proof (entry_lba_range (old_map (flog r))) as Hfr. fold (free_blk r) in Hfr.
  assert (blk_at m' a x = free_blk r) as Hbx.
  { unfold blk_at, eff_at. rewrite Hex, Hnew, eff_entry_normal by done. by apply normal_lba. }
  assert (forall i, 0 <= i < external_nlba a -> i <> x -> blk_at m' a i = blk_at m a i) as Hbi.
  { intros i Hi Hne. unfold blk_at, eff_at. by rewrite Hei. }
  assert (free_blk (flog_after r x old new) = blk_at m a x) as Hfx.
  { unfold free_blk, flog_after. cbn. by rewrite Hold. }
  assert (forall g q, <[f := flog_after r x old new]> fs !! g = Some q ->
    g = f /\ free_blk q = blk_at m a x \/ g <> f /\ fs !! g = Some q) as Hl.
  { intros g q Hq. destruct (decide (g = f)) as [->|Hne].
    - rewrite list_lookup_insert_eq in Hq by (by eapply lookup_lt_Some).
      injection Hq as <-. auto.
    - rewrite list_lookup_insert_ne in Hq by done. auto. }
  split.
  - intros i Hi. destruct (decide (i = x)) as [->|Hne]; [rewrite Hbx|rewrite Hbi]; eauto.
  - intros g q [[-> ->]|[Hne Hq]]%Hl; eauto.
  - intros i j Hi Hj. destruct (decide (i = x)) as [->|Hne], (decide (j = x)) as [->|Hne'];
      rewrite ?Hbx, ?Hbi by done; try done.
    + intros E. by destruct (o_disj0 j f r Hj Hf).
    + intros E. by destruct (o_disj0 i f r Hi Hf).
    + apply o_blk_inj0; done.
  - intros g h q p [[-> Eq]|[Hne Hq]]%Hl [[-> Ep]|[Hne' Hp]]%Hl; try done.
    + rewrite Eq. intros E. by destruct (o_disj0 x h p Hx Hp).
    + rewrite Ep. intros E. by destruct (o_disj0 x g q Hx Hq).
    + intros E. by eapply o_free_inj0.
  - intros i g q Hi [[-> Eq]|[Hne Hq]]%Hl.
    + rewrite Eq. destruct (decide (i = x)) as [->|Hne].
      * rewrite Hbx. intros E. by destruct (o_disj0 x f r Hx Hf).
      * rewrite Hbi by done. intros E. by apply o_blk_inj0 in E.
    + destruct (decide (i = x)) as [->|Hne'].
      * rewrite Hbx. intros E. eapply Hne. by eapply o_free_inj0.
      * rewrite Hbi by done. eauto.
Qed.
(** Setting a flag in the entry of [x] moves no block. *)
Lemma setf_entry m m' x setf :
  setf = BTT_MAP_ENTRY_ZERO \/ setf = BTT_MAP_ENTRY_ERROR ->
  entry_at m' a x = (Z.lor (entry_lba (eff_at m a x)) setf) mod 2 ^ 32 ->
  (forall i, 0 <= i < external_nlba a -> i <> x -> entry_at m' a i = entry_at m a i) ->
  (forall i, 0 <= i < external_nlba a -> blk_at m' a i = blk_at m a i) /\
  blk_state m' a lbs x = (if setf =? BTT_MAP_ENTRY_ZERO then BZero else BError).
Proof.
  intros Hs Hex Hei. set (e := Z.lor (entry_lba (eff_at m a x)) setf) in *.
  pose proof (entry_lba_range (eff_at m a x)) as Hb.
  assert (0 <= setf < 2 ^ 32 /\ setf mod 2 ^ 30 = 0 /\ 0 <= e < 2 ^ 32) as (Hsr & Hsm & Her).
  { unfold e. destruct Hs as [-> | ->]; (split; [done|split; [done|]]);
      (rewrite lor_flags; [|easy|easy|done]); unfold BTT_MAP_ENTRY_ZERO, BTT_MAP_ENTRY_ERROR; lia. }
  rewrite Z.mod_small in Hex by lia.
  assert (entry_flags e = setf) as Hfe by by apply entry_flags_lor.
  assert (entry_lba e = entry_lba (eff_at m a x)) as Hle by (apply entry_lba_lor; done || lia).
  split.
  - intros i Hi. destruct (decide (i = x)) as [->|Hne].
    + unfold blk_at, eff_at at 1. rewrite Hex. unfold eff_entry, map_entry_is_initial.
      rewrite Hfe. destruct Hs as [-> | ->]; done.
    + unfold blk_at, eff_at. by rewrite Hei.
  - unfold blk_state. rewrite Hex. unfold map_entry_is_error, map_entry_is_zero_or_initial.
    rewrite Hfe. destruct Hs as [-> | ->]; done.
Qed.

Lemma owned_same_blk m m' fs :
  (forall i, 0 <= i < external_nlba a -> blk_at m' a i = blk_at m a i) ->
  owned m a fs -> owned m' a fs.
Proof.
  intros Hbi []. split; try done.
  - intros i Hi. rewrite Hbi by done. auto.
  - intros i j Hi Hj. rewrite !Hbi by done. auto.
  - intros i g q Hi Hq. rewrite Hbi by done. eauto.
Qed.
End Geometry.

Section OneArena.
Context (nf nl lbs size : Z) (m : mem) (a : arena).
Context (Hinv : arena_inv nf nl lbs size m a).

Local Lemma geom : geom_ok nf lbs size a.
Proof. apply Hinv. Qed.

Lemma blk_off_bounds b : 0 <= b < internal_nlba a ->
  startoff a + 4096 <= blk_off a b /\ blk_off a b + lbs <= mapoff a.
Proof. eapply geom_blk_bounds, geom. Qed.

Lemma blk_off_disj b c : 0 <= b -> 0 <= c -> b <> c ->
  blk_off a b + lbs <= blk_off a c \/ blk_off a c + lbs <= blk_off a b.
Proof. eapply geom_blk_disj, geom. Qed.

Lemma regions :
  0 <= startoff a /\ startoff a + 4096 <= mapoff a /\
  mapoff a + 4 * external_nlba a <= flogoff a /\ flogoff a + 64 * nf + 4096 <= size /\ 0 < nf /\
  0 <= external_nlba a <= 2 ^ 30 /\ size < 2 ^ 63.
Proof. eapply geom_regions, geom. Qed.

Lemma entry_blk m0 i :
  owned m0 a (flogs a) -> 0 <= i < external_nlba a ->
  map_entry_is_initial (entry_at m0 a i) = false ->
  blk_at m0 a i = entry_lba (entry_at m0 a i) /\ entry_lba (entry_at m0 a i) < internal_nlba a.
Proof. apply owned_entry_blk. Qed.

Lemma blk_state_only m0 m' off n i :
  owned m0 a (flogs a) -> only m0 m' off n -> 0 <= i < external_nlba a -> 0 <= n ->
  (off + n <= mapoff a + 4 * i \/ mapoff a + 4 * i + 4 <= off) ->
  (off + n <= blk_off a (blk_at m0 a i) \/ blk_off a (blk_at m0 a i) + lbs <= off) ->
  blk_state m' a lbs i = blk_state m0 a lbs i.
Proof. apply (blk_state_frame nf lbs size), geom. Qed.

(** *** First write: the data of the free block *)
Lemma step_data f r m' :
  flogs a !! f = Some r -> only m m' (blk_off a (free_blk r)) lbs ->
  arena_inv nf nl lbs size m' a /\
  forall i, 0 <= i < external_nlba a -> blk_state m' a lbs i = blk_state m a lbs i.
Proof.
  intros Hf Ho. pose proof (o_free _ _ _ (ai_owned _ _ _ _ _ _ Hinv) f r Hf) as Hfr.
  pose proof (entry_lba_range (old_map (flog r))) as Hr. fold (free_blk r) in Hr.
  pose proof (blk_off_bounds (free_blk r) ltac:(lia)) as Hb. pose proof regions as Hg.
  pose proof (g_lbs _ _ _ _ geom) as Hl.
  split.
  - pose proof Hinv as []. split; try done.
    + intros g q Hq. eapply flog_inv_agree; [|by apply ai_flog0].
      apply agree_sym. eapply only_agree; [done|]. unfold flog_pos. lia.
    + eapply owned_agree; [|done]. apply agree_sym. eapply only_agree; [done|lia].
  - intros i Hi. eapply blk_state_only; try done; [apply Hinv|lia..|].
    pose proof (o_disj _ _ _ (ai_owned _ _ _ _ _ _ Hinv) i f r Hi Hf) as Hd.
    pose proof (blk_off_disj (free_blk r) (blk_at m a i) ltac:(lia)) as Hdd.
    pose proof (entry_lba_range (eff_at m a i)). unfold blk_at in *. lia.
Qed.

(** A write into the flog area leaves map, data and the other flogs alone. *)
Lemma flog_write_frame f m' off n :
  (f < length (flogs a))%nat -> only m m' off n -> 0 <= n ->
  flog_pos a f <= off -> off + n <= flog_pos a f + 32 ->
  owned m' a (flogs a) /\
  (forall g q, g <> f -> flogs a !! g = Some q -> flog_inv nl m' a g q) /\
  (forall i, 0 <= i < external_nlba a -> entry_at m' a i = entry_at m a i) /\
  forall i, 0 <= i < external_nlba a -> blk_state m' a lbs i = blk_state m a lbs i.
Proof.
  intros Hlen Ho Hn Hlo Hhi. pose proof regions as Hg. pose proof Hinv as [].
  unfold flog_pos in *. split_and!.
  - eapply owned_agree; [|done]. apply agree_sym. eapply only_agree; [done|lia].
  - intros g q Hne Hq. eapply flog_inv_agree; [|by apply ai_flog0].
    apply agree_sym. eapply only_agree; [done|]. unfold flog_pos.
    destruct (decide (g < f)%nat); lia.
  - intros i Hi. apply entry_at_agree. eapply only_agree; [done|lia].
  - intros i Hi. eapply blk_state_only; try done; [lia|].
    pose proof (o_blk _ _ _ ai_owned0 i Hi) as Hbi.
    pose proof (entry_lba_range (eff_at m a i)). fold (blk_at m a i) in *.
    pose proof (blk_off_bounds (blk_at m a i) ltac:(lia)). lia.
Qed.

(** *** Second write: the LBA and the old entry, in the unused slot *)
Lemma step_flog1 f r x old m' :
  flogs a !! f = Some r -> 0 <= x < nl -> 0 <= x < 2 ^ 32 -> 0 <= old < 2 ^ 32 ->
  m' ≡ apply_event m (ev_flog1 r x old) ->
  arena_inv nf nl lbs size m' a /\
  forall i, 0 <= i < external_nlba a -> blk_state m' a lbs i = blk_state m a lbs i.
Proof.
  intros Hf Hx Hx' Hold Hm. pose proof Hinv as []. pose proof (ai_flog0 f r Hf) as Hfi.
  pose proof (flog_slot_pos _ _ _ _ _ Hfi) as Hs. pose proof (fi_next _ _ _ _ _ Hfi) as Hn.
  assert (only m m' (flog_slot r) 8) as Ho.
  { eapply only_equiv; [|exact Hm]. apply (only_mwrite m (flog_slot r)). }
  destruct (flog_write_frame f m' (flog_slot r) 8) as (Hown & Hother & _ & Hst);
    [by eapply lookup_lt_Some|done|lia..|].
  split; [|exact Hst]. split; try done.
  intros g q Hq. destruct (decide (g = f)) as [->|Hne]; [|by apply Hother].
  replace q with r by congruence. by eapply flog_half1.
Qed.

(** *** Third write: the new entry and the sequence number make the flog current *)

(** The update of pre-map LBA [x] by lane [f] is committed in the flog of the
    media [m'], and its map entry is still the old one. *)
Record inflight (m' : mem) (f : nat) (r : flog_runtime) (x old new : Z) : Prop := {
  if_flog : flog_inv nl m' a f (flog_after r x old new);
  if_other : forall g q, g <> f -> flogs a !! g = Some q -> flog_inv nl m' a g q;
  if_owned : owned m' a (flogs a);
  if_lane : flogs a !! f = Some r;
  if_lba : 0 <= x < external_nlba a;
  if_old : old = eff_at m' a x;
  if_new : new = normal (free_blk r);
}.

Lemma step_flog2 f r x old new m' :
  flogs a !! f = Some r -> 0 <= x < external_nlba a -> old = eff_at m a x ->
  new = normal (free_blk r) ->
  m' ≡ apply_event (apply_event m (ev_flog1 r x old)) (ev_flog2 r new) ->
  inflight m' f r x old new /\
  (forall i, 0 <= i < external_nlba a -> entry_at m' a i = entry_at m a i) /\
  forall i, 0 <= i < external_nlba a -> blk_state m' a lbs i = blk_state m a lbs i.
Proof.
  intros Hf Hx Hold Hnew Hm. pose proof regions as Hg. pose proof (ai_ext _ _ _ _ _ _ Hinv) as He.
  pose proof (ai_flog _ _ _ _ _ _ Hinv f r Hf) as Hfi.
  pose proof (flog_slot_pos _ _ _ _ _ Hfi) as Hs. pose proof (fi_next _ _ _ _ _ Hfi) as Hn.
  pose proof (NSEQ_cycle _ (fi_seq _ _ _ _ _ Hfi)) as (Hcyc & _ & _).
  assert (0 <= old < 2 ^ 32) as Ho32.
  { rewrite Hold. pose proof (eff_entry_range x (entry_at m a x) ltac:(lia) (entry_at_range _ _ _)).
    unfold eff_at. lia. }
  assert (0 <= new < 2 ^ 32) as Hn32.
  { rewrite Hnew. apply normal_range, entry_lba_range. }
  assert (only m m' (flog_slot r) 16) as Ho.
  { intros z Hz. rewrite (Hm z). unfold ev_flog1, ev_flog2, apply_event.
    rewrite !mwrite_out by len. done. }
  destruct (flog_write_frame f m' (flog_slot r) 16) as (Hown & Hother & Hent & Hst);
    [by eapply lookup_lt_Some|done|lia..|].
  split; [|done]. split; try done.
  2: { unfold eff_at. by rewrite Hent. }
  destruct (flog_half1 nl m _ a f r x old Hfi ltac:(lia) ltac:(lia) Ho32 ltac:(reflexivity))
    as (Hfi1 & Hlx & Hlo).
  by eapply flog_half2.
Qed.

(** *** Fourth write: the map entry *)

(** A write to one map entry, seen from the other blocks. *)
Lemma map_write_frame m0 m' x e :
  owned m0 a (flogs a) -> 0 <= x < external_nlba a -> m' ≡ apply_event m0 (ev_map a x e) ->
  only m0 m' (mapoff a + 4 * x) 4 /\
  entry_at m' a x = e mod 2 ^ 32 /\
  (forall i, 0 <= i < external_nlba a -> i <> x ->
     entry_at m' a i = entry_at m0 a i /\ blk_state m' a lbs i = blk_state m0 a lbs i) /\
  (forall g q, flogs a !! g = Some q ->
     agree m0 m' (flog_pos a g) 32).
Proof.
  intros Hown Hx Hm. pose proof regions as Hg. pose proof (ai_len _ _ _ _ _ _ Hinv) as Hlen.
  assert (only m0 m' (mapoff a + 4 * x) 4) as Ho.
  { eapply only_equiv; [|exact Hm]. apply (only_mwrite m0 (mapoff a + 4 * x)). }
  split_and!; [done| | |].
  - unfold entry_at. rewrite Hm. apply (get_le_mwrite_eq 4).
  - intros i Hi Hne. split.
    + apply entry_at_agree. eapply only_agree; [done|lia].
    + eapply blk_state_only; try done; [lia..|].
      pose proof (o_blk _ _ _ Hown i Hi). pose proof (entry_lba_range (eff_at m0 a i)).
      fold (blk_at m0 a i) in *. pose proof (blk_off_bounds (blk_at m0 a i) ltac:(lia)). lia.
  - intros g q Hq. apply agree_sym. eapply only_agree; [done|].
    apply lookup_lt_Some in Hq. unfold flog_pos. lia.
Qed.

Lemma step_map m0 f r x old new m' :
  inflight m0 f r x old new -> m' ≡ apply_event m0 (ev_map a x new) ->
  arena_inv nf nl lbs size m' (set_flogs a (<[f := flog_after r x old new]> (flogs a))) /\
  blk_state m' a lbs x = BData (mread m0 (blk_off a (free_blk r)) lbs) /\
  forall i, 0 <= i < external_nlba a -> i <> x -> blk_state m' a lbs i = blk_state m0 a lbs i.
Proof.
  intros [] Hm. pose proof regions as Hg. pose proof geom as Hgeom.
  destruct (map_write_frame m0 m' x new if_owned0 if_lba0 Hm) as (Ho & Hex & Hei & Hfl).
  pose proof (entry_lba_range (old_map (flog r))) as Hfr. fold (free_blk r) in Hfr.
  pose proof (normal_range _ Hfr) as Hnr. rewrite Z.mod_small in Hex by (subst new; lia).
  split_and!.
  - destruct Hinv. split; [by destruct Hgeom|done| | | |by destruct ai_quiet0].
    + cbn [flogs set_flogs]. by rewrite length_insert.
    + intros g q Hq. cbn [flogs set_flogs] in Hq. apply (flog_inv_agree nl m0).
      * destruct (lookup_lt_is_Some_2 (flogs a) g) as [p Hp].
        { apply lookup_lt_Some in Hq. by rewrite length_insert in Hq. }
        exact (Hfl g p Hp).
      * destruct (decide (g = f)) as [->|Hne].
        -- rewrite list_lookup_insert_eq in Hq by (by eapply lookup_lt_Some).
           injection Hq as <-. by destruct if_flog0.
        -- rewrite list_lookup_insert_ne in Hq by done. destruct (if_other0 g q Hne Hq). by split.
    + assert (owned m' a (<[f := flog_after r x old new]> (flogs a))) as Hs; [|by destruct Hs].
      apply (owned_swap a m0); try done. intros i Hi Hne. by apply Hei.
  - unfold blk_state. rewrite Hex, if_new0.
    unfold map_entry_is_error, map_entry_is_zero_or_initial. rewrite normal_flags by done.
    cbn [orb Z.eqb]. f_equal.
    pose proof (o_free _ _ _ if_owned0 f r if_lane0) as Hfree.
    rewrite (data_block_offset_entry nf lbs size) by (rewrite ?normal_lba by done; done).
    rewrite normal_lba by done. apply mread_agree.
    pose proof (blk_off_bounds (free_blk r) ltac:(lia)). eapply only_agree; [done|lia].
  - intros i Hi Hne. by apply Hei.
Qed.

(** *** Setting the zero or error flag of a map entry *)

Lemma step_setf x setf m' :
  0 <= x < external_nlba a -> setf = BTT_MAP_ENTRY_ZERO \/ setf = BTT_MAP_ENTRY_ERROR ->
  m' ≡ apply_event m (ev_map a x (Z.lor (entry_lba (eff_at m a x)) setf)) ->
  arena_inv nf nl lbs size m' a /\
  blk_state m' a lbs x = (if setf =? BTT_MAP_ENTRY_ZERO then BZero else BError) /\
  forall i, 0 <= i < external_nlba a -> i <> x -> blk_state m' a lbs i = blk_state m a lbs i.
Proof.
  intros Hx Hs Hm. pose proof regions as Hg. pose proof Hinv as [].
  destruct (map_write_frame m m' x _ ai_owned0 Hx Hm) as (Ho & Hex & Hei & Hfl).
  destruct (setf_entry lbs a m m' x setf Hs Hex) as [Hbi Hst]; [intros i Hi Hne; by apply Hei|].
  split_and!; [|done|intros i Hi Hne; by apply Hei].
  split; try done; [|by eapply owned_same_blk].
  intros g q Hq. apply (flog_inv_agree nl m); eauto.
Qed.
End OneArena.

(** ** The four writes together *)

Definition write_events (a : arena) (r : flog_runtime) (x old : Z) (buf : list byte) : list event :=
  [ ev_data a (free_blk r) buf; ev_flog1 r x old; ev_flog2 r (normal (free_blk r));
    ev_map a x (normal (free_blk r)) ].

#[export] Instance apply_event_proper : Proper ((≡) ==> eq ==> (≡)) apply_event.
Proof. intros m1 m2 Hm ? [] ->; cbn; by rewrite Hm. Qed.

#[export] Instance apply_events_proper : Proper ((≡) ==> eq ==> (≡)) apply_events.
Proof.
  intros m1 m2 Hm ? evs ->. revert m1 m2 Hm. induction evs as [|ev evs IH]; intros m1 m2 Hm; [done|].
  cbn. apply IH. by rewrite Hm.
Qed.

Section OneWrite.
Context (nf nl lbs size : Z) (m : mem) (a : arena).
Context (Hinv : arena_inv nf nl lbs size m a).
Context (f : nat) (r : flog_runtime) (x old : Z) (buf : list byte).
Context (Hf : flogs a !! f = Some r) (Hx : 0 <= x < external_nlba a).
Context (Hold : old = eff_at m a x) (Hbuf : Z.of_nat (length buf) = lbs).

(** After the data, and after the first half of the flog entry, nothing has
    happened to the blocks. *)
Lemma after_data m1 :
  only m m1 (blk_off a (free_blk r)) lbs ->
  arena_inv nf nl lbs size m1 a /\
  (forall i, 0 <= i < external_nlba a -> blk_state m1 a lbs i = blk_state m a lbs i) /\
  old = eff_at m1 a x.
Proof.
  intros Ho. pose proof (regions _ _ _ _ _ _ Hinv) as Hg.
  destruct (step_data nf nl lbs size m a Hinv f r m1 Hf Ho) as [Hi Hs].
  split_and!; [done..|]. rewrite Hold. unfold eff_at. f_equal. symmetry. apply entry_at_agree.
  pose proof (o_free _ _ _ (ai_owned _ _ _ _ _ _ Hinv) f r Hf) as Hfr.
  pose proof (entry_lba_range (old_map (flog r))) as Hr. fold (free_blk r) in Hr.
  pose proof (blk_off_bounds _ _ _ _ _ _ Hinv (free_blk r) ltac:(lia)).
  eapply only_agree; [done|lia].
Qed.

Lemma old_range : 0 <= old < 2 ^ 32.
Proof.
  pose proof (regions _ _ _ _ _ _ Hinv) as Hg. rewrite Hold.
  pose proof (eff_entry_range x (entry_at m a x) ltac:(lia) (entry_at_range _ _ _)). unfold eff_at. lia.
Qed.

Lemma data_only m1 :
  m1 ≡ apply_event m (ev_data a (free_blk r) buf) -> only m m1 (blk_off a (free_blk r)) lbs.
Proof. intros Hm. eapply only_equiv; [|exact Hm]. rewrite <- Hbuf. apply only_mwrite. Qed.

(** The committed state, before the map is written. *)
Lemma after_flog m1 m3 :
  m1 ≡ apply_event m (ev_data a (free_blk r) buf) ->
  m3 ≡ apply_events m1 [ev_flog1 r x old; ev_flog2 r (normal (free_blk r))] ->
  inflight nl a m3 f r x old (normal (free_blk r)) /\
  (forall i, 0 <= i < external_nlba a -> blk_state m3 a lbs i = blk_state m a lbs i) /\
  mread m3 (blk_off a (free_blk r)) lbs = buf.
Proof.
  intros H1 H3. destruct (after_data m1 (data_only _ H1)) as (Hi & Hs & Ho).
  destruct (step_flog2 nf nl lbs size m1 a Hi f r x old _ m3 Hf Hx Ho eq_refl H3) as (Hif & _ & Hs3).
  split_and!; [done| |].
  - intros i Hx'. rewrite Hs3 by done. auto.
  - pose proof (regions _ _ _ _ _ _ Hinv) as Hg.
    pose proof (ai_flog _ _ _ _ _ _ Hinv f r Hf) as Hfi.
    pose proof (flog_slot_pos _ _ _ _ _ Hfi) as Hsl. pose proof (fi_next _ _ _ _ _ Hfi) as Hn.
    pose proof (o_free _ _ _ (ai_owned _ _ _ _ _ _ Hinv) f r Hf) as Hfr.
    pose proof (entry_lba_range (old_map (flog r))) as Hr. fold (free_blk r) in Hr.
    pose proof (blk_off_bounds _ _ _ _ _ _ Hinv (free_blk r) ltac:(lia)) as Hb.
    unfold flog_pos in Hsl. rewrite H3. cbn [apply_events fold_left apply_event ev_flog1 ev_flog2].
    rewrite !mread_mwrite_out by len. rewrite H1. cbn [apply_event ev_data].
    apply mread_mwrite_eq. lia.
Qed.

(** The state after all four writes. *)
Lemma after_write m4 :
  m4 ≡ apply_events m (write_events a r x old buf) ->
  arena_inv nf nl lbs size m4
    (set_flogs a (<[f := flog_after r x old (normal (free_blk r))]> (flogs a))) /\
  blk_state m4 a lbs x = BData buf /\
  forall i, 0 <= i < external_nlba a -> i <> x -> blk_state m4 a lbs i = blk_state m a lbs i.
Proof.
  intros Hm. destruct (after_flog _ _ ltac:(reflexivity) ltac:(reflexivity)) as (Hif & Hs & Hb).
  destruct (step_map nf nl lbs size m a Hinv _ f r x old _ m4 Hif Hm) as (Hi & Hx4 & Ho).
  split_and!; [done| |].
  - by rewrite Hx4, Hb.
  - intros i Hi' Hne. rewrite Ho by done. auto.
Qed.

(** Every write of the sequence stays inside the arena. *)
Lemma write_only m4 :
  m4 ≡ apply_events m (write_events a r x old buf) ->
  only m m4 (startoff a + BTT_INFO_SIZE) (flogoff a + 64 * nf - startoff a - BTT_INFO_SIZE).
Proof.
  intros Hm z Hz. pose proof (regions _ _ _ _ _ _ Hinv) as Hg.
  pose proof (ai_flog _ _ _ _ _ _ Hinv f r Hf) as Hfi.
  pose proof (flog_slot_pos _ _ _ _ _ Hfi) as Hsl. pose proof (fi_next _ _ _ _ _ Hfi) as Hn.
  pose proof (o_free _ _ _ (ai_owned _ _ _ _ _ _ Hinv) f r Hf) as Hfr.
  pose proof (entry_lba_range (old_map (flog r))) as Hr. fold (free_blk r) in Hr.
  pose proof (blk_off_bounds _ _ _ _ _ _ Hinv (free_blk r) ltac:(lia)) as Hb.
  pose proof (ai_len _ _ _ _ _ _ Hinv) as Hlen. pose proof (lookup_lt_Some _ _ _ Hf).
  unfold flog_pos, BTT_INFO_SIZE in *. rewrite (Hm z).
  cbn [apply_events fold_left apply_event ev_data ev_flog1 ev_flog2 ev_map write_events].
  rewrite !mwrite_out by len. done.
Qed.
End OneWrite.
