(* ===== verification/BttSpec.v ===== *)
(** BttSpec: what the block operations of the BTT promise, and that they do.

    The abstract device is an array of blocks, each zero, in error or holding
    data.  [btt_inv] is the invariant of an open BTT over its namespace; the
    theorems say that [btt_read], [btt_write], [btt_set_zero] and
    [btt_set_error], run on a lane of their own, do what the abstract
    operations do, on every branch, and preserve the invariant. *)

From S2P Require Import Prelude Mem Util BttLayout Prog Btt BttInv.

(** ** The abstract block device *)

Record device := {
  d_nlba : Z;
  d_ro : Z -> bool;            (* blocks whose arena refuses writes *)
  d_blocks : Z -> blkstate;
}.

Definition d_set (d : device) (lba : Z) (b : blkstate) : device :=
  {| d_nlba := d_nlba d; d_ro := d_ro d;
     d_blocks := fun l => if decide (l = lba) then b else d_blocks d l |}.

Definition spec_read (d : device) (lbs lba : Z) : errno + list byte :=
  if d_nlba d <=? lba then inl EINVAL
  else match d_blocks d lba with
       | BError => inl EIO
       | BZero => inr (replicate (Z.to_nat lbs) x00)
       | BData bs => inr bs
       end.

Definition spec_put (d : device) (lba : Z) (b : blkstate) : (errno + unit) * device :=
  if d_nlba d <=? lba then (inl EINVAL, d)
  else if d_ro d lba then (inl EIO, d)
  else (inr tt, d_set d lba b).

Definition outcome_of {A} (r : errno + A) : outcome A :=
  match r with inl e => Err e | inr a => Done a end.

(** ** The invariant of an open, laid-out BTT *)

Fixpoint ext_sum (ars : list arena) : Z :=
  match ars with
  | [] => 0
  | a :: ars => external_nlba a + ext_sum ars
  end.

Record btt_inv (size : Z) (s : btt) (m : mem) : Prop := {
  bi_laidout : laidout s = true;
  bi_mutex : layout_write_mutex s = false;
  bi_nlane : nlane s <= nfree s;
  bi_lbs : 0 < lbasize s;
  bi_nlba : nlba s = ext_sum (arenas s);
  bi_arena : forall i a, arenas s !! i = Some a ->
               arena_inv (nfree s) (nlba s) (lbasize s) size m a;
  bi_sep : forall i j a b, (i < j)%nat -> arenas s !! i = Some a -> arenas s !! j = Some b ->
             arena_end a (nfree s) <= startoff b;
}.

(** The device an open BTT implements. *)
Definition abs_block (s : btt) (m : mem) (lba : Z) : blkstate :=
  match lba_to_arena_lba (arenas s) 0 lba with
  | Some (i, x) =>
      match arenas s !! i with Some a => blk_state m a (lbasize s) x | None => BZero end
  | None => BZero
  end.

Definition abs_ro (s : btt) (lba : Z) : bool :=
  match lba_to_arena_lba (arenas s) 0 lba with
  | Some (i, _) => match arenas s !! i with Some a => arena_in_error a | None => false end
  | None => false
  end.

Definition implements (size : Z) (s : btt) (m : mem) (d : device) : Prop :=
  btt_inv size s m /\ d_nlba d = nlba s /\
  forall lba, 0 <= lba < nlba s -> d_ro d lba = abs_ro s lba /\ d_blocks d lba = abs_block s m lba.

(** Devices are compared on their blocks. *)
Lemma implements_ext size s m d d' :
  implements size s m d -> (forall l, 0 <= l < nlba s -> d_ro d' l = d_ro d l) ->
  (forall l, 0 <= l < nlba s -> d_blocks d' l = d_blocks d l) -> d_nlba d' = d_nlba d ->
  implements size s m d'.
Proof.
  intros (Hi & Hn & Ha) Hr Hb Hd. split_and!; [done|congruence|].
  intros l Hl. rewrite Hr, Hb by done. auto.
Qed.

(** A lane the caller may use. *)
Definition lane_ok (s : btt) (lane : Z) : Prop := 0 <= lane < nfree s.

(** ** Finding the arena of an LBA *)

Lemma lba_to_arena_lba_bound ars k lba i x :
  lba_to_arena_lba ars k lba = Some (i, x) -> (k <= i)%nat.
Proof.
  revert k lba. induction ars as [|a ars IH]; intros k lba H; [done|].
  cbn [lba_to_arena_lba] in H. case_match; [by injection H as <- _|].
  apply IH in H. lia.
Qed.

Lemma lba_to_arena_lba_some ars k lba :
  (forall i a, ars !! i = Some a -> 0 <= external_nlba a <= 2 ^ 30) ->
  0 <= lba < ext_sum ars ->
  exists i a x, lba_to_arena_lba ars k lba = Some ((k + i)%nat, x) /\ ars !! i = Some a /\
    0 <= x < external_nlba a /\ lba = ext_sum (take i ars) + x.
Proof.
  revert k lba. induction ars as [|a ars IH]; intros k lba Hx Hl; cbn [ext_sum] in Hl; [lia|].
  pose proof (Hx 0%nat a eq_refl) as Ha. cbn [lba_to_arena_lba].
  destruct (Z.ltb_spec lba (external_nlba a)) as [H|H].
  - exists 0%nat, a, lba. rewrite u32_id by lia. rewrite Nat.add_0_r.
    split_and!; [done|done|lia..|cbn; lia].
  - destruct (IH (k + 1)%nat (lba - external_nlba a)) as (i & b & x & E & Hb & Hr & Hs).
    + intros i b Hb. exact (Hx (S i) b Hb).
    + lia.
    + exists (S i), b, x. rewrite E. split_and!; [do 2 f_equal; lia|done|lia..|].
      cbn [take ext_sum]. lia.
Qed.

(** The lookup is injective: different LBAs, different entries. *)
Lemma lba_to_arena_lba_inj ars lba lba' i x :
  (forall i a, ars !! i = Some a -> 0 <= external_nlba a <= 2 ^ 30) ->
  0 <= lba < ext_sum ars -> 0 <= lba' < ext_sum ars ->
  lba_to_arena_lba ars 0 lba = Some (i, x) -> lba_to_arena_lba ars 0 lba' = Some (i, x) ->
  lba = lba'.
Proof.
  intros Hx Hl Hl' E E'.
  destruct (lba_to_arena_lba_some ars 0 lba Hx Hl) as (j & a & y & Ej & _ & _ & ->).
  destruct (lba_to_arena_lba_some ars 0 lba' Hx Hl') as (j' & a' & y' & Ej' & _ & _ & ->).
  rewrite E in Ej. rewrite E' in Ej'. simplify_eq. done.
Qed.

Lemma lba_to_arena_lba_alter ars k lba i a' :
  (forall a, ars !! i = Some a -> external_nlba a = external_nlba a') ->
  lba_to_arena_lba (<[i := a']> ars) k lba = lba_to_arena_lba ars k lba.
Proof.
  revert k lba i. induction ars as [|b ars IH]; intros k lba i H; [done|].
  destruct i as [|i]; cbn [insert list_insert lba_to_arena_lba].
  - by rewrite (H b eq_refl).
  - case_match; [done|]. by apply IH.
Qed.

Lemma ext_sum_insert ars i a' :
  (forall a, ars !! i = Some a -> external_nlba a = external_nlba a') ->
  ext_sum (<[i := a']> ars) = ext_sum ars.
Proof.
  revert i. induction ars as [|b ars IH]; intros i H; [done|].
  destruct i as [|i]; cbn [insert list_insert ext_sum].
  - by rewrite (H b eq_refl).
  - by rewrite IH.
Qed.

(** ** Running the primitives *)

Section Spec.
Context {N : Type} `{NsLaws N} `{Allocator}.

Abbreviation W := (Build_world (N := N) (S := btt)).

Definition put_arena (s : btt) (i : nat) (a : arena) : btt :=
  set_arenas s (<[i := a]> (arenas s)).

Lemma put_arena_same s i a : arenas s !! i = Some a -> put_arena s i a = s.
Proof. intros E. unfold put_arena. rewrite list_insert_id by done. by destruct s. Qed.

Lemma put_arena_put s i a b : put_arena (put_arena s i a) i b = put_arena s i b.
Proof. unfold put_arena, set_arenas. cbn. by rewrite list_insert_insert_eq. Qed.

Lemma lookup_put_arena s i a b : arenas s !! i = Some b -> arenas (put_arena s i a) !! i = Some a.
Proof. intros E. cbn [put_arena set_arenas arenas]. apply list_lookup_insert_eq. by eapply lookup_lt_Some. Qed.

Lemma upd_arena_put s i a f : arenas s !! i = Some a -> upd_arena s i f = put_arena s i (f a).
Proof.
  intros E. unfold upd_arena, put_arena. f_equal. by apply list_alter_insert.
Qed.

Lemma run_get_arena n s lg i a :
  arenas s !! i = Some a -> run (get_arena i) (W n s lg) = (Done a, W n s lg).
Proof. intros E. cbn. by rewrite E. Qed.

Lemma run_mod_arena n s lg i a f :
  arenas s !! i = Some a ->
  run (mod_arena i f) (W n s lg) = (Done tt, W n (put_arena s i (f a)) lg).
Proof. intros E. cbn. by rewrite (upd_arena_put _ _ a). Qed.

Lemma run_get_flog n s lg i a lane r :
  arenas s !! i = Some a -> 0 <= lane -> flogs a !! Z.to_nat lane = Some r ->
  run (get_flog i lane) (W n s lg) = (Done r, W n s lg).
Proof.
  intros E Hl Er. unfold get_flog. rewrite run_bind, (run_get_arena _ _ _ _ a) by done.
  unfold at_lane. ztrue. by rewrite Er.
Qed.

Lemma run_read_ns n s lg lane count off :
  0 <= off -> 0 <= count -> off + count <= ns_size n ->
  run (read_ns lane count off) (W n s lg) = (Done (mread (ns_mem n) off count), W n s lg).
Proof. intros. cbn. by rewrite nsread_ok. Qed.

(** Writing in bounds: the namespace afterwards. *)
Definition wrote (n n' : N) (ev : event) : Prop :=
  ns_size n' = ns_size n /\ ns_is_zeroed n' = ns_is_zeroed n /\
  ns_mem n' ≡ apply_event (ns_mem n) ev.

Lemma run_write_ns n s lg lane bs off :
  0 <= off -> off + Z.of_nat (length bs) <= ns_size n ->
  exists n', wrote n n' (EvWrite off bs) /\
    run (write_ns lane bs off) (W n s lg) = (Done tt, W n' s (lg ++ [EvWrite off bs])).
Proof.
  intros Ho Hb. destruct (nswrite_ok n lane bs off Ho Hb) as (n' & E & Hs & Hz & Hm).
  exists n'. split; [done|]. cbn. rewrite E. done.
Qed.

Lemma run_zero_ns n s lg lane count off :
  0 <= off -> 0 <= count -> off + count <= ns_size n ->
  exists n', wrote n n' (EvZero off count) /\
    run (zero_ns lane count off) (W n s lg) = (Done tt, W n' s (lg ++ [EvZero off count])).
Proof.
  intros Ho Hc Hb. destruct (nszero_ok n lane count off Ho Hc Hb) as (n' & E & Hs & Hz & Hm).
  exists n'. split; [done|]. cbn. rewrite E. done.
Qed.

(** ** Reading *)

Lemma map_entry_offset_id nf nl lbs size m a x :
  arena_inv nf nl lbs size m a -> 0 <= x < external_nlba a ->
  map_entry_offset a x = mapoff a + 4 * x.
Proof.
  intros Hinv Hx. pose proof (regions _ _ _ _ _ _ Hinv).
  unfold map_entry_offset, BTT_MAP_ENTRY_SIZE. rewrite u32_id, u64_id by lia. done.
Qed.

Lemma entry_read m a x : le_dec (mread m (mapoff a + 4 * x) 4) = entry_at m a x.
Proof. done. Qed.

Lemma run_read_entry nf nl lbs n s lg lane a x :
  arena_inv nf nl lbs (ns_size n) (ns_mem n) a -> 0 <= x < external_nlba a ->
  run (read_ns lane 4 (map_entry_offset a x)) (W n s lg) =
  (Done (mread (ns_mem n) (mapoff a + 4 * x) 4), W n s lg).
Proof.
  intros Hinv Hx. pose proof (regions _ _ _ _ _ _ Hinv).
  rewrite (map_entry_offset_id _ _ _ _ _ _ _ Hinv Hx). apply run_read_ns; lia.
Qed.

Lemma run_write_rtt n s lg i a lane v :
  arenas s !! i = Some a -> 0 <= lane < Z.of_nat (length (rtt a)) ->
  run (write_rtt i lane v) (W n s lg) =
  (Done tt, W n (put_arena s i (set_rtt a (<[Z.to_nat lane := v]> (rtt a)))) lg).
Proof.
  intros E Hl. unfold write_rtt. rewrite run_bind, (run_get_arena _ _ _ _ a) by done.
  rewrite run_bind. unfold at_lane. ztrue.
  destruct (lookup_lt_is_Some_2 (rtt a) (Z.to_nat lane)) as [z ->]; [lia|].
  cbn [deref run]. by rewrite (run_mod_arena _ _ _ _ a).
Qed.

(** A lane that leaves the read tracking table leaves it as it was. *)
Lemma rtt_reset nf a lane v :
  quiet nf a -> 0 <= lane < nf ->
  set_rtt (set_rtt a (<[Z.to_nat lane := v]> (rtt a)))
    (<[Z.to_nat lane := BTT_MAP_ENTRY_ERROR]> (<[Z.to_nat lane := v]> (rtt a))) = a.
Proof.
  intros [Hr _ _] Hl. rewrite list_insert_insert_eq.
  rewrite (list_insert_id (rtt a) (Z.to_nat lane) BTT_MAP_ENTRY_ERROR).
  2: { rewrite Hr. apply lookup_replicate_2. lia. }
  by destruct a.
Qed.

Lemma length_rtt nf a : quiet nf a -> 0 <= nf -> Z.of_nat (length (rtt a)) = nf.
Proof. intros [Hr _ _] ?. rewrite Hr. len. Qed.

Lemma length_map_locks nf a : quiet nf a -> 0 <= nf -> Z.of_nat (length (map_locks a)) = nf.
Proof. intros [_ Hr _] ?. rewrite Hr. len. Qed.

(** The body of [btt_read] once the arena is known. *)
Definition read_block (fuel : nat) (lane : Z) (s : btt) (i : nat) (a : arena) (x : Z)
  : prog (list byte) :=
  let map_entry_off := map_entry_offset a x in
  bs <- read_ns lane 4 map_entry_off ;;
  r <- read_retry fuel lane i map_entry_off (le_dec bs) ;;
  match r with
  | None => Ret (zero_block s)
  | Some entry =>
      readret <- catch (read_ns lane (lbasize s) (data_block_offset a entry)) ;;
      write_rtt i lane BTT_MAP_ENTRY_ERROR ;;;
      of_result readret
  end.

(** The block's state decides the outcome, and nothing changes. *)
Lemma run_read_block k n s lg lane i a x :
  arenas s !! i = Some a -> 0 < lbasize s ->
  arena_inv (nfree s) (nlba s) (lbasize s) (ns_size n) (ns_mem n) a ->
  lane_ok s lane -> 0 <= x < external_nlba a ->
  run (read_block (S k) lane s i a x) (W n s lg) =
  (match blk_state (ns_mem n) a (lbasize s) x with
   | BError => Err EIO | BZero => Done (zero_block s) | BData bs => Done bs
   end, W n s lg).
Proof.
  intros Ha Hlbs Hinv Hlane Hx. unfold lane_ok in Hlane.
  pose proof (ai_quiet _ _ _ _ _ _ Hinv) as Hq. pose proof (regions _ _ _ _ _ _ Hinv) as Hg.
  pose proof (length_rtt _ _ Hq ltac:(lia)) as Hlen.
  unfold read_block.
  rewrite run_bind, (run_read_entry (nfree s) (nlba s) (lbasize s)) by done.
  rewrite entry_read.
  rewrite run_bind. unfold blk_state.
  pose proof (entry_at_range (ns_mem n) a x) as He.
  pose proof (entry_blk a (ns_mem n) x (ai_owned _ _ _ _ _ _ Hinv) Hx) as Hblk.
  unfold map_entry_is_initial in Hblk. set (e := entry_at (ns_mem n) a x) in *.
  cbn [read_retry].
  destruct (map_entry_is_error e) eqn:E1; [done|].
  destruct (map_entry_is_zero_or_initial e) eqn:E2; [done|].
  unfold map_entry_is_zero_or_initial in E2. cbv zeta in E2. bools.
  destruct Hblk as [_ Hlt]; [by apply Z.eqb_neq|].
  rewrite run_bind, (run_write_rtt _ _ _ _ a) by (done || lia).
  set (a1 := set_rtt a _). rewrite run_bind, run_catch.
  rewrite (run_read_entry (nfree s) (nlba s) (lbasize s)) by done.
  cbv zeta. rewrite entry_read. fold e. rewrite Z.eqb_refl. cbn [run]. rewrite run_bind, run_catch.
  rewrite (data_block_offset_entry (nfree s) (lbasize s) (ns_size n)) by (done || apply Hinv).
  pose proof (entry_lba_range e).
  pose proof (blk_off_bounds _ _ _ _ _ _ Hinv (entry_lba e) ltac:(lia)) as Hb.
  rewrite run_read_ns by lia.
  rewrite run_bind, (run_write_rtt _ _ _ _ a1).
  2: { by apply lookup_put_arena with (b := a). }
  2: { unfold a1. cbn [rtt set_rtt]. rewrite length_insert. lia. }
  rewrite put_arena_put. unfold a1. cbn [rtt set_rtt].
  rewrite (rtt_reset (nfree s)) by done. by rewrite put_arena_same.
Qed.

Lemma run_check_lba n s lg lba :
  run (check_lba lba) (W n s lg) =
  (if nlba s <=? lba then Err EINVAL else Done tt, W n s lg).
Proof. unfold check_lba. rewrite run_bind, run_get. cbn [w_st]. unfold invalid_lba. by zcase. Qed.

(** The arena of an LBA of an open BTT. *)
Lemma inv_lookup size s m lba :
  btt_inv size s m -> 0 <= lba < nlba s ->
  exists i a x, lba_to_arena_lba (arenas s) 0 lba = Some (i, x) /\
    arenas s !! i = Some a /\ 0 <= x < external_nlba a /\ arena_inv (nfree s) (nlba s) (lbasize s) size m a.
Proof.
  intros Hinv Hl. destruct (lba_to_arena_lba_some (arenas s) 0 lba) as (i & a & x & E & Ha & Hx & _).
  - intros i a Ha. pose proof (regions _ _ _ _ _ _ (bi_arena _ _ _ Hinv i a Ha)). lia.
  - rewrite <- (bi_nlba _ _ _ Hinv). done.
  - exists i, a, x. split_and!; [done..|lia|lia|]. by eapply bi_arena.
Qed.

(** Different LBAs have different map entries. *)
Lemma inv_lookup_inj size s m l l' i x :
  btt_inv size s m -> 0 <= l < nlba s -> 0 <= l' < nlba s ->
  lba_to_arena_lba (arenas s) 0 l = Some (i, x) -> lba_to_arena_lba (arenas s) 0 l' = Some (i, x) ->
  l = l'.
Proof.
  intros [] Hl Hl'. apply lba_to_arena_lba_inj; [|by rewrite <- bi_nlba0..].
  intros j e He. pose proof (regions _ _ _ _ _ _ (bi_arena0 j e He)). lia.
Qed.

Lemma read_refines (k : nat) (n : N) (s : btt) (lg : list event) (d : device) (lane lba : Z)
  (Himp : implements (ns_size n) s (ns_mem n) d) (Hlane : lane_ok s lane) (Hlba : 0 <= lba) :
  run (btt_read (S k) lane lba) (W n s lg) =
  (outcome_of (spec_read d (lbasize s) lba), W n s lg).
Proof.
  destruct Himp as (Hinv & Hn & Habs). unfold btt_read, spec_read.
  rewrite run_bind, run_check_lba, Hn.
  destruct (Z.leb_spec (nlba s) lba) as [Hl|Hl]; [done|].
  destruct (Habs lba ltac:(lia)) as [_ ->].
  rewrite run_bind, run_get. cbn [w_st]. rewrite (bi_laidout _ _ _ Hinv). cbn [negb].
  destruct (inv_lookup _ _ _ lba Hinv ltac:(lia)) as (i & a & x & E & Ha & Hx & Hai).
  unfold abs_block. rewrite E, Ha. rewrite run_bind. cbn [deref run].
  rewrite run_bind, (run_get_arena _ _ _ _ a) by done.
  change (run _ _) with (run (read_block (S k) lane s i a x) (W n s lg)).
  rewrite run_read_block by (done || by eapply bi_lbs). by destruct (blk_state _ _ _ _).
Qed.

(** C4. [btt_read] implements reading a block of the device: EINVAL beyond the
    last LBA, EIO for a block in error, zeros for a zero block, the data
    otherwise; one pass of its retry loop is enough, and neither the media nor
    the run-time state changes. *)
Theorem btt_read_refines (k : nat) (n : N) (s : btt) (lg : list event) (d : device) (lane lba : Z)
  (Himp : implements (ns_size n) s (ns_mem n) d) (Hlane : lane_ok s lane) (Hlba : 0 <= lba) :
  run (btt_read (S k) lane lba) (W n s lg) =
  (outcome_of (spec_read d (lbasize s) lba), W n s lg).
Proof. by apply read_refines. Qed.

(** ** Writing *)

Lemma run_wait_readers n s lg i a e k c :
  arenas s !! i = Some a -> quiet (nfree s) a -> e <> BTT_MAP_ENTRY_ERROR ->
  (k + c <= Z.to_nat (nfree s))%nat ->
  run (wait_readers i e k c) (W n s lg) = (Done tt, W n s lg).
Proof.
  intros Ha Hq He. revert k. induction c as [|c IH]; intros k Hk; [done|].
  cbn [wait_readers]. rewrite run_bind, (run_get_arena _ _ _ _ a) by done.
  assert (rtt a !! k = Some BTT_MAP_ENTRY_ERROR) as Hr.
  { rewrite (q_rtt _ _ Hq). apply lookup_replicate_2. lia. }
  rewrite run_bind, Hr. cbn [deref run]. rewrite run_bind. unfold await. cbn [run w_st].
  rewrite Ha, Hr. apply not_eq_sym, Z.eqb_neq in He. rewrite He. cbn [negb].
  apply IH. lia.
Qed.

Lemma map_lock_num_bound s x : 0 < nfree s -> (map_lock_num s x < Z.to_nat (nfree s))%nat.
Proof.
  intros Hf. unfold map_lock_num.
  pose proof (Z.mod_pos_bound (u32 (x * BTT_MAP_ENTRY_SIZE) / BTT_MAP_LOCK_ALIGN) (nfree s) Hf). lia.
Qed.

Definition with_lock (s : btt) (a : arena) (x : Z) (v : bool) : arena :=
  set_map_locks a (<[map_lock_num s x := v]> (map_locks a)).

Lemma run_map_abort n s lg lane i a x :
  arenas s !! i = Some a ->
  run (map_abort lane i x) (W n s lg) = (Done tt, W n (put_arena s i (with_lock s a x false)) lg).
Proof.
  intros Ha. unfold map_abort. rewrite run_bind, run_get. cbn [w_st]. rewrite run_modify.
  unfold set_map_lock. by rewrite (upd_arena_put _ _ a).
Qed.

Lemma run_map_lock n s lg lane i a x :
  arenas s !! i = Some a ->
  arena_inv (nfree s) (nlba s) (lbasize s) (ns_size n) (ns_mem n) a ->
  0 <= x < external_nlba a ->
  run (map_lock lane i x) (W n s lg) =
  (Done (eff_at (ns_mem n) a x), W n (put_arena s i (with_lock s a x true)) lg).
Proof.
  intros Ha Hinv Hx. pose proof (ai_quiet _ _ _ _ _ _ Hinv) as Hq.
  pose proof (regions _ _ _ _ _ _ Hinv) as Hg.
  pose proof (map_lock_num_bound s x ltac:(lia)) as Hn.
  unfold map_lock. rewrite run_bind, run_get. cbn [w_st].
  rewrite run_bind, (run_get_arena _ _ _ _ a) by done.
  assert (map_locks a !! map_lock_num s x = Some false) as Hl.
  { rewrite (q_locks _ _ Hq). apply lookup_replicate_2. lia. }
  rewrite run_bind, Hl. cbn [deref run]. rewrite run_bind. unfold await. cbn [run w_st].
  unfold map_lock_free. rewrite Ha, Hl. cbn [negb run set_st w_ns w_log w_st].
  unfold set_map_lock. rewrite (upd_arena_put _ _ a) by done.
  rewrite run_bind, run_catch. change (set_st _ _) with (W n (put_arena s i (with_lock s a x true)) lg).
  rewrite (run_read_entry (nfree s) (nlba s) (lbasize s)) by done. rewrite entry_read. done.
Qed.

Lemma run_map_unlock n s lg lane i a e x :
  arenas s !! i = Some a -> 0 <= map_entry_offset a x -> map_entry_offset a x + 4 <= ns_size n ->
  exists n', wrote n n' (EvWrite (map_entry_offset a x) (le_enc 4 e)) /\
  run (map_unlock lane i e x) (W n s lg) =
  (Done tt, W n' (put_arena s i (with_lock s a x false))
              (lg ++ [EvWrite (map_entry_offset a x) (le_enc 4 e)])).
Proof.
  intros Ha H0' Hb. unfold map_unlock. rewrite run_bind, (run_get_arena _ _ _ _ a) by done.
  destruct (run_write_ns n s lg lane (le_enc 4 e) (map_entry_offset a x)) as (n' & Hw & E); [done|len|].
  exists n'. split; [done|]. rewrite run_bind, run_catch, E.
  rewrite run_bind, run_get. cbn [w_st]. rewrite run_bind, run_modify. cbn [of_result run set_st w_ns w_log w_st].
  unfold set_map_lock. by rewrite (upd_arena_put _ _ a).
Qed.

Lemma run_flog_update n s lg i a lane r x old new :
  arenas s !! i = Some a -> 0 <= lane -> flogs a !! Z.to_nat lane = Some r ->
  0 <= flog_slot r -> flog_slot r + 16 <= ns_size n ->
  exists n1 n2, wrote n n1 (ev_flog1 r x old) /\ wrote n1 n2 (ev_flog2 r new) /\
  run (flog_update lane i x old new) (W n s lg) =
  (Done tt, W n2 (put_arena s i (set_flogs a (<[Z.to_nat lane := flog_after r x old new]> (flogs a))))
              (lg ++ [ev_flog1 r x old; ev_flog2 r new])).
Proof.
  intros Ha Hl Hr Hs0 Hs1. unfold flog_update.
  rewrite run_bind, (run_get_flog _ _ _ _ a _ r) by done.
  cbv zeta. fold (flog_slot r).
  destruct (run_write_ns n s lg lane (le_enc 4 x ++ le_enc 4 old) (flog_slot r))
    as (n1 & Hw1 & E1); [done|len|].
  destruct (run_write_ns n1 s (lg ++ [ev_flog1 r x old]) lane
    (le_enc 4 new ++ le_enc 4 (NSEQ (seq (flog r)))) (flog_slot r + 8)) as (n2 & Hw2 & E2);
    [lia| |].
  { destruct Hw1 as [-> _]. rewrite length_app, !length_le_enc. lia. }
  exists n1, n2. split_and!; [done..|]. rewrite run_bind, E1.
  fold (ev_flog1 r x old). rewrite run_bind, E2.
  unfold mod_flog. rewrite (run_mod_arena _ _ _ _ a) by done.
  rewrite <- app_assoc. do 4 f_equal. unfold set_flogs. f_equal.
  by rewrite (list_alter_insert _ _ _ r).
Qed.

(** Several writes in a row. *)
Definition wrote_all (n n' : N) (evs : list event) : Prop :=
  ns_size n' = ns_size n /\ ns_is_zeroed n' = ns_is_zeroed n /\
  ns_mem n' ≡ apply_events (ns_mem n) evs.

Lemma wrote_all_nil n : wrote_all n n [].
Proof. by split_and!. Qed.

Lemma wrote_all_one n n' ev : wrote n n' ev -> wrote_all n n' [ev].
Proof. done. Qed.

Lemma wrote_all_app n n1 n2 e1 e2 :
  wrote_all n n1 e1 -> wrote_all n1 n2 e2 -> wrote_all n n2 (e1 ++ e2).
Proof.
  intros (S1 & Z1 & M1) (S2 & Z2 & M2). split_and!; [congruence..|].
  rewrite M2, M1. unfold apply_events. by rewrite fold_left_app.
Qed.

Lemma wrote_all_cons n n1 n2 e es : wrote n n1 e -> wrote_all n1 n2 es -> wrote_all n n2 (e :: es).
Proof. intros Hw Hr. exact (wrote_all_app n n1 n2 [e] es Hw Hr). Qed.

(** The body of [btt_write] once the arena is known. *)
Definition write_block (lane : Z) (buf : list byte) (s : btt) (i : nat) (x : Z) (a : arena) : prog unit :=
  r <- get_flog i lane ;;
  let free_entry := Z.lor (entry_lba (old_map (flog r))) BTT_MAP_ENTRY_NORMAL in
  wait_readers i free_entry 0 (Z.to_nat (nlane s)) ;;;
  write_ns lane buf (data_block_offset a (entry_lba free_entry)) ;;;
  old_entry <- map_lock lane i x ;;
  r <- catch (flog_update lane i x old_entry free_entry) ;;
  match r with
  | inl e => map_abort lane i x ;;; Throw e
  | inr _ =>
      r <- catch (map_unlock lane i free_entry x) ;;
      match r with
      | inl _ => _ <- catch (set_arena_error lane i) ;; Throw EIO
      | inr _ => Ret tt
      end
  end.

(** The arena after the write: the lane's flog is new, the lock is back. *)
Lemma lock_roundtrip s a x fl :
  quiet (nfree s) a -> 0 < nfree s ->
  with_lock s (set_flogs (with_lock s a x true) fl) x false = set_flogs a fl.
Proof.
  intros Hq Hn. unfold with_lock, set_flogs, set_map_locks. cbn. f_equal.
  rewrite list_insert_insert_eq. apply list_insert_id. rewrite (q_locks _ _ Hq).
  apply lookup_replicate_2. by apply map_lock_num_bound.
Qed.

Lemma run_write_block n s lg lane i a x buf r :
  arenas s !! i = Some a -> nlane s <= nfree s ->
  arena_inv (nfree s) (nlba s) (lbasize s) (ns_size n) (ns_mem n) a ->
  0 <= lane -> flogs a !! Z.to_nat lane = Some r -> 0 <= x < external_nlba a ->
  Z.of_nat (length buf) = lbasize s ->
  let old := eff_at (ns_mem n) a x in
  let evs := write_events a r x old buf in
  exists n', wrote_all n n' evs /\
  run (write_block lane buf s i x a) (W n s lg) =
  (Done tt, W n' (put_arena s i (set_flogs a
     (<[Z.to_nat lane := flog_after r x old (normal (free_blk r))]> (flogs a)))) (lg ++ evs)).
Proof.
  intros Ha Hnl Hinv Hlane Hr Hx Hbuf old evs. unfold evs, write_events.
  pose proof (ai_quiet _ _ _ _ _ _ Hinv) as Hq. pose proof (regions _ _ _ _ _ _ Hinv) as Hg.
  pose proof (o_free _ _ _ (ai_owned _ _ _ _ _ _ Hinv) _ r Hr) as Hfr.
  pose proof (entry_lba_range (old_map (flog r))) as Hfb. fold (free_blk r) in Hfb.
  pose proof (blk_off_bounds _ _ _ _ _ _ Hinv (free_blk r) ltac:(lia)) as Hb.
  pose proof (ai_flog _ _ _ _ _ _ Hinv _ r Hr) as Hfi.
  pose proof (flog_slot_pos _ _ _ _ _ Hfi) as Hsl. pose proof (fi_next _ _ _ _ _ Hfi) as Hnx.
  pose proof (ai_len _ _ _ _ _ _ Hinv) as Hlen. pose proof (lookup_lt_Some _ _ _ Hr) as Hlt.
  unfold flog_pos in Hsl.
  unfold write_block. rewrite run_bind, (run_get_flog _ _ _ _ a _ r) by done.
  cbv zeta. fold (free_blk r). fold (normal (free_blk r)).
  pose proof (normal_lba _ Hfb) as Hnb.
  rewrite run_bind, (run_wait_readers _ _ _ _ a) by
    (done || lia || (intros E; apply (f_equal entry_flags) in E; rewrite normal_flags in E; done)).
  rewrite Hnb. rewrite (data_block_offset_entry (nfree s) (lbasize s) (ns_size n)) by
    (done || apply Hinv || (rewrite entry_lba_id by done; lia) || lia).
  rewrite entry_lba_id by done.
  destruct (run_write_ns n s lg lane buf (blk_off a (free_blk r))) as (n1 & Hw1 & E1); [lia..|].
  rewrite run_bind, E1. fold (ev_data a (free_blk r) buf). fold (ev_data a (free_blk r) buf) in Hw1.
  assert (only (ns_mem n) (ns_mem n1) (blk_off a (free_blk r)) (lbasize s)) as Ho1.
  { destruct Hw1 as (_ & _ & Hm). by eapply data_only. }
  destruct (after_data _ _ _ _ _ _ Hinv _ r x old buf Hr Hx eq_refl _ Ho1) as (Hi1 & _ & Hold).
  pose proof Hw1 as (Hs1 & _ & _). rewrite <- Hs1 in Hi1.
  rewrite run_bind, (run_map_lock _ _ _ _ _ a) by done. rewrite <- Hold.
  set (s1 := put_arena s i _). set (a1 := with_lock s a x true).
  assert (arenas s1 !! i = Some a1) as Ha1 by by eapply lookup_put_arena.
  destruct (run_flog_update n1 s1 (lg ++ [ev_data a (free_blk r) buf]) i a1 lane r x old (normal (free_blk r)))
    as (n2 & n3 & Hw2 & Hw3 & E2); [done..|lia|lia|].
  rewrite run_bind, run_catch, E2.
  set (a2 := set_flogs a1 _). set (s2 := put_arena s1 i a2).
  assert (arenas s2 !! i = Some a2) as Ha2 by by eapply lookup_put_arena.
  assert (map_entry_offset a2 x = mapoff a + 4 * x) as Ho2.
  { exact (map_entry_offset_id _ _ _ _ _ a x Hinv Hx). }
  pose proof Hw2 as (Hs2 & _ & _). pose proof Hw3 as (Hs3 & _ & _).
  destruct (run_map_unlock n3 s2 ((lg ++ [ev_data a (free_blk r) buf]) ++
     [ev_flog1 r x old; ev_flog2 r (normal (free_blk r))]) lane i a2 (normal (free_blk r)) x)
    as (n4 & Hw4 & E4); [done|lia|lia|].
  rewrite run_bind, run_catch, E4. rewrite Ho2 in Hw4 |- *.
  fold (ev_map a x (normal (free_blk r))). fold (ev_map a x (normal (free_blk r))) in Hw4.
  exists n4. split.
  - repeat (eapply wrote_all_cons; [done|]). apply wrote_all_nil.
  - cbn [run]. rewrite <- !app_assoc.
    assert (with_lock s2 a2 x false = set_flogs a
      (<[Z.to_nat lane := flog_after r x old (normal (free_blk r))]> (flogs a))) as ->.
    { apply (lock_roundtrip s a x); [done|lia]. }
    unfold s2, s1. by rewrite !put_arena_put.
Qed.

(** ** The refinement of the writing operations *)

(** One arena of an open BTT is replaced by one of the same shape, the media
    changes inside it only, and one of its blocks gets a new state. *)
Lemma update_refines size s m m' d i a a' x lba b :
  implements size s m d -> arenas s !! i = Some a -> 0 <= lba < nlba s ->
  lba_to_arena_lba (arenas s) 0 lba = Some (i, x) ->
  external_nlba a' = external_nlba a -> startoff a' = startoff a -> flogoff a' = flogoff a ->
  flags a' = flags a ->
  arena_inv (nfree s) (nlba s) (lbasize s) size m' a' ->
  only m m' (startoff a) (arena_end a (nfree s) - startoff a) ->
  blk_state m' a' (lbasize s) x = b ->
  (forall j, 0 <= j < external_nlba a -> j <> x ->
     blk_state m' a' (lbasize s) j = blk_state m a (lbasize s) j) ->
  implements size (put_arena s i a') m' (d_set d lba b).
Proof.
  intros (Hinv & Hn & Habs) Ha Hlba E Hext Hst Hfl Hflags Hi Honly Hb Hj.
  pose proof Hinv as [].
  assert (forall c, arenas s !! i = Some c -> external_nlba c = external_nlba a') as He.
  { intros c Hc. by simplify_eq. }
  (* the other arenas are elsewhere *)
  assert (forall k c, k <> i -> arenas s !! k = Some c -> same_arena (nfree s) c m m') as Hsame.
  { intros k c Hne Hc. apply agree_sym. eapply only_agree; [done|].
    destruct (decide (k < i)%nat).
    - pose proof (bi_sep0 k i c a ltac:(lia) Hc Ha). lia.
    - pose proof (bi_sep0 i k a c ltac:(lia) Ha Hc). lia. }
  assert (forall k c, arenas (put_arena s i a') !! k = Some c ->
    k = i /\ c = a' \/ k <> i /\ arenas s !! k = Some c) as Hl.
  { intros k c Hc. cbn [put_arena set_arenas arenas] in Hc. destruct (decide (k = i)) as [->|Hne].
    - rewrite list_lookup_insert_eq in Hc by (by eapply lookup_lt_Some). injection Hc as <-. auto.
    - rewrite list_lookup_insert_ne in Hc by done. auto. }
  split_and!.
  - split; try done; cbn [put_arena set_arenas nlba nfree lbasize arenas].
    + by rewrite ext_sum_insert.
    + intros k c [[-> ->]|[Hne Hc]]%Hl; [done|]. eapply arena_inv_agree; [by eapply Hsame|eauto].
    + intros k k' c c' Hlt [[-> ->]|[Hne Hc]]%Hl [[-> ->]|[Hne' Hc']]%Hl; try lia;
        unfold arena_end; rewrite ?Hst, ?Hfl; eapply bi_sep0; eauto.
  - done.
  - intros l Hl'. cbn [put_arena set_arenas nlba] in Hl'. destruct (Habs l Hl') as [Hro Hbl].
    cbn [d_set d_ro d_blocks]. unfold abs_ro, abs_block.
    change (arenas (put_arena s i a')) with (<[i := a']> (arenas s)).
    rewrite lba_to_arena_lba_alter by done.
    destruct (inv_lookup _ _ _ l Hinv Hl') as (k & c & y & Ek & Hc & Hy & Hic).
    unfold abs_ro, abs_block in Hro, Hbl. rewrite Ek, Hc in Hro, Hbl. rewrite Ek.
    cbn [put_arena set_arenas lbasize].
    destruct (decide (k = i)) as [->|Hne].
    + rewrite list_lookup_insert_eq by (by eapply lookup_lt_Some). simplify_eq.
      split; [unfold arena_in_error in *; by rewrite Hro, Hflags|].
      destruct (decide (l = lba)) as [->|Hne].
      * by simplify_eq.
      * rewrite Hj; [done..|]. intros ->. apply Hne. by eapply inv_lookup_inj.
    + rewrite list_lookup_insert_ne, Hc by done. split; [done|].
      destruct (decide (l = lba)) as [->|Hne']; [congruence|].
      rewrite (blk_state_agree (nfree s) (nlba s) (lbasize s) size m m') by eauto. done.
Qed.

(** The parameters of the BTT that no block operation changes. *)
Definition same_btt (s s' : btt) : Prop :=
  nlane s' = nlane s /\ nfree s' = nfree s /\ lbasize s' = lbasize s /\ nlba s' = nlba s.

Lemma run_ensure_layout n s lg lane :
  laidout s = true -> run (ensure_layout lane) (W n s lg) = (Done tt, W n s lg).
Proof. intros Hl. unfold ensure_layout. rewrite run_bind, run_get. cbn [w_st]. by rewrite Hl. Qed.

Lemma inv_lane size s m i a lane :
  btt_inv size s m -> arenas s !! i = Some a -> lane_ok s lane ->
  exists r, flogs a !! Z.to_nat lane = Some r.
Proof.
  intros Hinv Ha Hl. unfold lane_ok in Hl. apply lookup_lt_is_Some_2.
  pose proof (ai_len _ _ _ _ _ _ (bi_arena _ _ _ Hinv i a Ha)). lia.
Qed.

Lemma write_refines (n : N) (s : btt) (lg : list event) (d : device) (lane lba : Z)
  (buf : list byte)
  (Himp : implements (ns_size n) s (ns_mem n) d) (Hlane : lane_ok s lane) (Hlba : 0 <= lba)
  (Hbuf : Z.of_nat (length buf) = lbasize s) :
  exists n' s' lg',
    run (btt_write lane lba buf) (W n s lg) =
    (outcome_of (fst (spec_put d lba (BData buf))), W n' s' lg') /\
    ns_size n' = ns_size n /\ same_btt s s' /\
    implements (ns_size n) s' (ns_mem n') (snd (spec_put d lba (BData buf))).
Proof.
  pose proof Himp as (Hinv & Hn & Habs). unfold btt_write, spec_put.
  rewrite run_bind, run_check_lba, Hn.
  destruct (Z.leb_spec (nlba s) lba) as [Hl|Hl]; [by exists n, s, lg|].
  rewrite run_bind, run_ensure_layout by apply Hinv.
  destruct (Habs lba ltac:(lia)) as [-> _].
  rewrite run_bind, run_get. cbn [w_st].
  destruct (inv_lookup _ _ _ lba Hinv ltac:(lia)) as (i & a & x & E & Ha & Hx & Hai).
  unfold abs_ro. rewrite E, Ha. rewrite run_bind. cbn [deref run].
  rewrite run_bind, (run_get_arena _ _ _ _ a) by done.
  destruct (arena_in_error a) eqn:Eerr; [by exists n, s, lg|].
  change (run _ (W n s lg)) with (run (write_block lane buf s i x a) (W n s lg)).
  destruct (inv_lane _ _ _ _ _ lane Hinv Ha Hlane) as [r Hr].
  destruct (run_write_block n s lg lane i a x buf r) as (n' & (Hsz & _ & Hm) & ->);
    try done; [by eapply bi_nlane|apply Hlane|].
  eexists _, _, _. split_and!; [done..|].
  destruct (after_write _ _ _ _ _ _ Hai _ r x _ buf Hr Hx eq_refl Hbuf _ Hm) as (Hi & Hb & Ho).
  eapply update_refines; try done.
  pose proof (write_only _ _ _ _ _ _ Hai _ r x _ buf Hr Hx Hbuf _ Hm) as Hw.
  intros z Hz. apply Hw. unfold arena_end, BTT_INFO_SIZE in *. lia.
Qed.

(** C2. [btt_write] implements writing a block of the device: EINVAL beyond the
    last LBA, EIO when the arena is flagged in error, and otherwise the block,
    and no other, holds the data; the invariant is preserved on every branch. *)
Theorem btt_write_refines (n : N) (s : btt) (lg : list event) (d : device) (lane lba : Z)
  (buf : list byte)
  (Himp : implements (ns_size n) s (ns_mem n) d) (Hlane : lane_ok s lane) (Hlba : 0 <= lba)
  (Hbuf : Z.of_nat (length buf) = lbasize s) :
  exists n' s' lg',
    run (btt_write lane lba buf) (W n s lg) =
    (outcome_of (fst (spec_put d lba (BData buf))), W n' s' lg') /\
    ns_size n' = ns_size n /\ same_btt s s' /\
    implements (ns_size n) s' (ns_mem n') (snd (spec_put d lba (BData buf))).
Proof. by apply write_refines. Qed.

(** The body of [map_entry_setf] once the arena is known. *)
Definition setf_block (lane setf : Z) (i : nat) (x : Z) : prog unit :=
  old_entry <- map_lock lane i x ;;
  if (setf =? BTT_MAP_ENTRY_ZERO) && map_entry_is_zero_or_initial old_entry
  then map_abort lane i x
  else map_unlock lane i (Z.lor (entry_lba old_entry) setf) x.

(** [with_lock] twice is the arena itself. *)
Lemma lock_unlock s a x :
  quiet (nfree s) a -> 0 < nfree s -> with_lock s (with_lock s a x true) x false = a.
Proof.
  intros Hq Hn. pose proof (lock_roundtrip s a x (flogs a) Hq Hn) as E.
  unfold with_lock, set_flogs, set_map_locks in *. cbn in *. rewrite E. by destruct a.
Qed.

Definition flag_state (setf : Z) : blkstate := if setf =? BTT_MAP_ENTRY_ZERO then BZero else BError.

Lemma eff_zero m a x :
  map_entry_is_zero_or_initial (eff_at m a x) = true -> 0 <= x < 2 ^ 30 ->
  map_entry_is_error (entry_at m a x) = false /\
  map_entry_is_zero_or_initial (entry_at m a x) = true.
Proof.
  unfold eff_at, eff_entry, map_entry_is_initial, map_entry_is_zero_or_initial, map_entry_is_error.
  intros Hz Hx. set (e := entry_at m a x) in *. cbv zeta in *.
  destruct (Z.eqb_spec (entry_flags e) 0) as [E|E].
  - rewrite E. done.
  - apply orb_true_iff in Hz as [Hz|Hz]; apply Z.eqb_eq in Hz; [done|]. rewrite Hz. done.
Qed.

Lemma run_setf_block n s lg lane setf i a x :
  arenas s !! i = Some a -> setf = BTT_MAP_ENTRY_ZERO \/ setf = BTT_MAP_ENTRY_ERROR ->
  arena_inv (nfree s) (nlba s) (lbasize s) (ns_size n) (ns_mem n) a ->
  0 <= x < external_nlba a ->
  exists n' lg', run (setf_block lane setf i x) (W n s lg) = (Done tt, W n' s lg') /\
  ns_size n' = ns_size n /\
  (ns_mem n' = ns_mem n /\ blk_state (ns_mem n) a (lbasize s) x = flag_state setf \/
   ns_mem n' ≡ apply_event (ns_mem n) (ev_map a x (Z.lor (entry_lba (eff_at (ns_mem n) a x)) setf))).
Proof.
  intros Ha Hsetf Hinv Hx. pose proof (regions _ _ _ _ _ _ Hinv) as Hg.
  pose proof (ai_quiet _ _ _ _ _ _ Hinv) as Hq.
  unfold setf_block. rewrite run_bind, (run_map_lock _ _ _ _ _ a) by done.
  set (a1 := with_lock s a x true). set (s1 := put_arena s i a1).
  assert (arenas s1 !! i = Some a1) as Ha1 by by eapply lookup_put_arena.
  assert (put_arena s1 i (with_lock s1 a1 x false) = s) as Hback.
  { unfold s1. rewrite put_arena_put. change (with_lock _ a1 x false) with (with_lock s a1 x false).
    unfold a1. rewrite lock_unlock by (done || lia). by apply put_arena_same. }
  destruct ((setf =? BTT_MAP_ENTRY_ZERO) && _) eqn:Ez.
  - apply andb_true_iff in Ez as [Es Ez]. apply eff_zero in Ez as [E1 E2]; [|lia].
    rewrite (run_map_abort _ _ _ _ _ a1) by done. rewrite Hback.
    eexists n, lg. split_and!; [done..|]. left. split; [done|].
    unfold blk_state, flag_state. by rewrite E1, E2, Es.
  - assert (map_entry_offset a1 x = mapoff a + 4 * x) as Ho
      by exact (map_entry_offset_id _ _ _ _ _ a x Hinv Hx).
    destruct (run_map_unlock n s1 lg lane i a1 (Z.lor (entry_lba (eff_at (ns_mem n) a x)) setf) x)
      as (n' & (Hs & _ & Hm) & ->); [done|lia..|].
    rewrite Hback. eexists _, _. split_and!; [done..|]. right. by rewrite Ho in Hm.
Qed.

(** Setting a block that already is in the state changes nothing. *)
Lemma d_set_same size s m d lba b :
  implements size s m d -> 0 <= lba < nlba s -> d_blocks d lba = b ->
  implements size s m (d_set d lba b).
Proof.
  intros (Hi & Hn & Ha) Hl Hb. split_and!; [done..|]. intros l Hl'.
  destruct (Ha l Hl') as [? ?]. cbn [d_set d_ro d_blocks].
  split; [done|]. by destruct (decide (l = lba)) as [->|]; [rewrite <- Hb|].
Qed.

Lemma setf_refines (n : N) (s : btt) (lg : list event) (d : device) (lane lba : Z)
  (Himp : implements (ns_size n) s (ns_mem n) d) (Hlba : 0 <= lba) (zero : bool) :
  let op := if zero then btt_set_zero lane lba else btt_set_error lane lba in
  let b := if zero then BZero else BError in
  exists n' lg',
    run op (W n s lg) = (outcome_of (fst (spec_put d lba b)), W n' s lg') /\
    ns_size n' = ns_size n /\
    implements (ns_size n) s (ns_mem n') (snd (spec_put d lba b)).
Proof.
  set (setf := if zero then BTT_MAP_ENTRY_ZERO else BTT_MAP_ENTRY_ERROR). cbv zeta.
  replace (if zero then btt_set_zero lane lba else btt_set_error lane lba)
    with (map_entry_setf lane lba setf) by (by destruct zero).
  replace (if zero then BZero else BError) with (flag_state setf) by (by destruct zero).
  assert (setf = BTT_MAP_ENTRY_ZERO \/ setf = BTT_MAP_ENTRY_ERROR) as Hsf
    by (unfold setf; destruct zero; auto).
  pose proof Himp as (Hinv & Hn & Habs). unfold map_entry_setf, spec_put.
  rewrite run_bind, run_check_lba, Hn.
  destruct (Z.leb_spec (nlba s) lba) as [Hl|Hl]; [by exists n, lg|].
  rewrite run_bind, run_get. cbn [w_st]. rewrite (bi_laidout _ _ _ Hinv). cbn [negb andb].
  rewrite run_bind, run_ensure_layout by apply Hinv.
  destruct (Habs lba ltac:(lia)) as [-> Hb].
  rewrite run_bind, run_get. cbn [w_st].
  destruct (inv_lookup _ _ _ lba Hinv ltac:(lia)) as (i & a & x & E & Ha & Hx & Hai).
  unfold abs_ro, abs_block in *. rewrite E, Ha in *. rewrite run_bind. cbn [deref run].
  rewrite run_bind, (run_get_arena _ _ _ _ a) by done.
  destruct (arena_in_error a) eqn:Eerr; [by exists n, lg|].
  change (run _ (W n s lg)) with (run (setf_block lane setf i x) (W n s lg)).
  destruct (run_setf_block n s lg lane setf i a x) as (n' & lg' & -> & Hsz & Hm); try done.
  exists n', lg'. split_and!; [done..|]. cbn [snd].
  destruct Hm as [[-> Hbs]|Hm]; [apply d_set_same; [done|lia|congruence]|].
  destruct (step_setf _ _ _ _ _ _ Hai x setf _ Hx Hsf Hm) as (Hi & Hbx & Ho).
  rewrite <- (put_arena_same s i a Ha). eapply update_refines; try done.
  pose proof (map_write_frame _ _ _ _ _ _ Hai _ _ x _ (ai_owned _ _ _ _ _ _ Hai) Hx Hm) as (Hon & _).
  pose proof (regions _ _ _ _ _ _ Hai).
  intros z Hz. apply Hon. unfold arena_end, BTT_INFO_SIZE in *. lia.
Qed.

(** [btt_set_zero] and [btt_set_error] implement setting the state of a block:
    EINVAL beyond the last LBA, EIO when the arena is flagged in error, and
    otherwise that block alone reads as zeros, or as an error, from then on;
    the invariant is preserved on every branch. *)
Theorem btt_setf_refines (n : N) (s : btt) (lg : list event) (d : device) (lane lba : Z)
  (Himp : implements (ns_size n) s (ns_mem n) d) (Hlba : 0 <= lba) (zero : bool) :
  let op := if zero then btt_set_zero lane lba else btt_set_error lane lba in
  let b := if zero then BZero else BError in
  exists n' lg',
    run op (W n s lg) = (outcome_of (fst (spec_put d lba b)), W n' s lg') /\
    ns_size n' = ns_size n /\
    implements (ns_size n) s (ns_mem n') (snd (spec_put d lba b)).
Proof. by apply setf_refines. Qed.
End Spec.
