(* ===== verification/BttConc.v ===== *)
(** BttConc: several lanes inside the BTT at once.

    btt.c lets every lane run one operation at a time and relies on its own
    protocol (the read tracking table, the map locks, the flogs) to keep the
    lanes apart.  A thread here is a program of [Btt] on a lane, and one
    callback, one atomic access to the run-time state or one passed wait is a
    step; the lanes are interleaved step by step.  The specification is a
    device whose operations take effect in one step between their call and
    their return. *)

From S2P Require Import Prelude Mem BttLayout Prog Btt BttInv BttSpec.

(** ** One step of a program *)

Section Step.
Context {N S : Type} `{NsOps N} `{Allocator}.

(** [None]: the program is over, or it waits. *)
Definition pstep {A} (p : Prog.prog S A) (n : N) (s : S) : option (Prog.prog S A * N * S) :=
  match p with
  | Ret _ | Throw _ | Crash _ => None
  | NsRead l c o k => Some (k (nsread n l c o), n, s)
  | NsWrite l b o k =>
      match nswrite n l b o with
      | inl e => Some (k (inl e), n, s)
      | inr n' => Some (k (inr tt), n', s)
      end
  | NsZero l c o k =>
      match nszero n l c o with
      | inl e => Some (k (inl e), n, s)
      | inr n' => Some (k (inr tt), n', s)
      end
  | NsMap l c o k => Some (k (nsmap n l c o), n, s)
  | NsIsZeroed k => Some (k (ns_is_zeroed n), n, s)
  | Malloc c k => Some (k (malloc_ok c), n, s)
  | Step g u k => if g s then Some (k s, n, u s) else None
  end.

(** Steps without interference, and where they end. *)
Inductive psteps {A} : Prog.prog S A -> N -> S -> Prog.prog S A -> N -> S -> Prop :=
| psteps_refl p n s : psteps p n s p n s
| psteps_step p n s p1 n1 s1 p2 n2 s2 :
    pstep p n s = Some (p1, n1, s1) -> psteps p1 n1 s1 p2 n2 s2 -> psteps p n s p2 n2 s2.

Definition prog_of_outcome {A} (o : outcome A) : option (Prog.prog S A) :=
  match o with
  | Done a => Some (Ret a)
  | Err e => Some (Throw e)
  | Fault Blocked => None
  | Fault f => Some (Crash f)
  end.

(** A program left alone takes the steps [run] makes it take. *)
Lemma run_psteps {A} (p : Prog.prog S A) (w w' : world N S) o q :
  run p w = (o, w') -> prog_of_outcome o = Some q ->
  psteps p (w_ns w) (w_st w) q (w_ns w') (w_st w').
Proof.
  revert w. induction p; intros w E Eq; cbn [run] in E.
  - injection E as <- <-. injection Eq as <-. constructor.
  - injection E as <- <-. injection Eq as <-. constructor.
  - injection E as <- <-. destruct f; [injection Eq as <-; constructor|done|injection Eq as <-; constructor].
  - eapply psteps_step; [done|]. by eapply H1.
  - destruct (nswrite _ _ _ _) eqn:Ew.
    + eapply psteps_step; [cbn; by rewrite Ew|]. by eapply H1.
    + eapply psteps_step; [cbn; by rewrite Ew|]. by eapply (H1 _ (set_ns w n _)).
  - destruct (nszero _ _ _ _) eqn:Ew.
    + eapply psteps_step; [cbn; by rewrite Ew|]. by eapply H1.
    + eapply psteps_step; [cbn; by rewrite Ew|]. by eapply (H1 _ (set_ns w n _)).
  - eapply psteps_step; [done|]. by eapply H1.
  - eapply psteps_step; [done|]. by eapply H1.
  - eapply psteps_step; [done|]. by eapply H1.
  - destruct (guard (w_st w)) eqn:Eg.
    + eapply psteps_step; [cbn; by rewrite Eg|]. by eapply (H1 _ (set_st w _)).
    + injection E as <- <-. done.
Qed.
End Step.

(** ** Calls *)

Inductive call :=
| CRead (lba : Z)
| CWrite (lba : Z) (buf : list byte)
| CSetZero (lba : Z)
| CSetError (lba : Z).

(** What a call returns: an errno, or the buffer, empty where there is none. *)
Definition result : Type := errno + list byte.

Definition no_buf (p : prog unit) : prog (list byte) := p ;;; Ret [].

(** The routine a call runs.  The retry loop of [btt_read] is given its fuel
    here: a lane that runs out of it is one that is still in the loop. *)
Definition prog_of (fuel : nat) (lane : Z) (c : call) : prog (list byte) :=
  match c with
  | CRead lba => btt_read fuel lane lba
  | CWrite lba buf => no_buf (btt_write lane lba buf)
  | CSetZero lba => no_buf (btt_set_zero lane lba)
  | CSetError lba => no_buf (btt_set_error lane lba)
  end.

Definition call_ok (lbs : Z) (c : call) : Prop :=
  match c with
  | CRead lba | CSetZero lba | CSetError lba => 0 <= lba
  | CWrite lba buf => 0 <= lba /\ Z.of_nat (length buf) = lbs
  end.

(** ** The lanes *)

(** A lane is free, or runs the program of a call. *)
Abbreviation thread := (option (call * prog (list byte))).

Inductive label :=
| LCall (lane : nat) (c : call)
| LRet (lane : nat) (r : result).

Section Lanes.
Context {N : Type} `{NsOps N} `{Allocator}.

Record config := { c_ns : N; c_st : btt; c_lanes : list thread }.

Definition result_of (p : prog (list byte)) : option result :=
  match p with Ret a => Some (inr a) | Throw e => Some (inl e) | _ => None end.

(** Calls that honour the contract of the interface: a free lane, a buffer of
    the block size. *)
Inductive cstep : config -> option label -> config -> Prop :=
| cstep_call c l op fuel :
    c_lanes c !! l = Some None -> call_ok (lbasize (c_st c)) op ->
    cstep c (Some (LCall l op))
      {| c_ns := c_ns c; c_st := c_st c;
         c_lanes := <[l := Some (op, prog_of fuel (Z.of_nat l) op)]> (c_lanes c) |}
| cstep_run c l op p p' n' s' :
    c_lanes c !! l = Some (Some (op, p)) -> pstep p (c_ns c) (c_st c) = Some (p', n', s') ->
    cstep c None {| c_ns := n'; c_st := s'; c_lanes := <[l := Some (op, p')]> (c_lanes c) |}
| cstep_ret c l op p r :
    c_lanes c !! l = Some (Some (op, p)) -> result_of p = Some r ->
    cstep c (Some (LRet l r))
      {| c_ns := c_ns c; c_st := c_st c; c_lanes := <[l := None]> (c_lanes c) |}.

Definition visible (o : option label) : list label :=
  match o with Some lb => [lb] | None => [] end.

Inductive csteps : config -> list label -> config -> Prop :=
| csteps_refl c : csteps c [] c
| csteps_step c o c1 tr c2 : cstep c o c1 -> csteps c1 tr c2 -> csteps c (visible o ++ tr) c2.

(** All the lanes of the BTT are free. *)
Definition idle_config (n : N) (s : btt) : config :=
  {| c_ns := n; c_st := s; c_lanes := replicate (Z.to_nat (nlane s)) None |}.
End Lanes.

Arguments config : clear implicits.

(** ** The specification *)

(** What a call does to the device, at once. *)
Definition spec_call (lbs : Z) (c : call) (d : device) : result * device :=
  let unit_of (p : (errno + unit) * device) :=
    (match fst p with inl e => inl e | inr _ => inr [] end, snd p) in
  match c with
  | CRead lba => (spec_read d lbs lba, d)
  | CWrite lba buf => unit_of (spec_put d lba (BData buf))
  | CSetZero lba => unit_of (spec_put d lba BZero)
  | CSetError lba => unit_of (spec_put d lba BError)
  end.

(** A lane of the specification: free, called but not yet in effect, in effect
    but not yet returned. *)
Inductive alane := AFree | ACalled (c : call) | ADone (r : result).

Record aconfig := { ac_dev : device; ac_lanes : list alane }.

Inductive astep (lbs : Z) : aconfig -> option label -> aconfig -> Prop :=
| astep_call d ls l c :
    ls !! l = Some AFree ->
    astep lbs {| ac_dev := d; ac_lanes := ls |} (Some (LCall l c))
      {| ac_dev := d; ac_lanes := <[l := ACalled c]> ls |}
| astep_effect d ls l c :
    ls !! l = Some (ACalled c) ->
    astep lbs {| ac_dev := d; ac_lanes := ls |} None
      {| ac_dev := snd (spec_call lbs c d); ac_lanes := <[l := ADone (fst (spec_call lbs c d))]> ls |}
| astep_ret d ls l r :
    ls !! l = Some (ADone r) ->
    astep lbs {| ac_dev := d; ac_lanes := ls |} (Some (LRet l r))
      {| ac_dev := d; ac_lanes := <[l := AFree]> ls |}.

Inductive asteps (lbs : Z) : aconfig -> list label -> aconfig -> Prop :=
| asteps_refl a : asteps lbs a [] a
| asteps_step a o a1 tr a2 :
    astep lbs a o a1 -> asteps lbs a1 tr a2 -> asteps lbs a (visible o ++ tr) a2.

Definition idle_spec (d : device) (nlane : Z) : aconfig :=
  {| ac_dev := d; ac_lanes := replicate (Z.to_nat nlane) AFree |}.

Lemma asteps_app lbs a a1 a2 t1 t2 :
  asteps lbs a t1 a1 -> asteps lbs a1 t2 a2 -> asteps lbs a (t1 ++ t2) a2.
Proof.
  intros H1 H2. induction H1; [done|]. rewrite <- app_assoc. eapply asteps_step; eauto.
Qed.
