(* ===== verification/BttConcInv.v ===== *)
(** BttConcInv: an arena with lanes inside it.

    Where each lane is ([phase]), what it then relies on, and the invariant
    that keeps the lanes apart: a lane's free block and flog are its own, a map
    entry changes only under its lock, and the block of a confirmed reader is
    not written.  One lemma per step of the protocol shows that the invariant
    is kept and what the step does to the blocks. *)

From stdpp Require Import functions.
From S2P Require Import Prelude Mem BttLayout Prog Btt BttInv.

(** ** Phases *)

(** [r] is the run-time flog of the lane when it entered, [x] the pre-map LBA,
    [old] the entry read under the lock, [buf] the data. *)
Inductive phase :=
| Idle
| Scan (r : flog_runtime) (k : nat)            (* the first [k] readers are no danger *)
| Data (r : flog_runtime) (buf : list byte)    (* the free block is written *)
| WLock (r : flog_runtime) (x : Z) (buf : list byte)
| WOld (r : flog_runtime) (x old : Z) (buf : list byte)
| WHalf (r : flog_runtime) (x old : Z) (buf : list byte)   (* half a flog entry *)
| WFlog (r : flog_runtime) (x old : Z) (buf : list byte)   (* the whole of it *)
| WSwap (r : flog_runtime) (x old : Z) (buf : list byte)   (* the run-time flog too *)
| SLock (x : Z)
| SOld (x old : Z)
| Rel (x : Z)                                  (* done but for the lock *)
| Pub (e : Z)                                  (* an entry in the read tracking table *)
| Prot (b : Z) (bs : list byte).               (* confirmed: block [b] reads as [bs] *)

(** The map entry a lane has locked. *)
Definition holds (p : phase) : option Z :=
  match p with
  | WLock _ x _ | WOld _ x _ _ | WHalf _ x _ _ | WFlog _ x _ _ | WSwap _ x _ _
  | SLock x | SOld x _ | Rel x => Some x
  | _ => None
  end.

(** The lane's slot of the read tracking table, while it is reading.  In the
    other phases the slot may hold an entry of an earlier read. *)
Definition rtt_claim (p : phase) : option Z :=
  match p with Pub e => Some e | Prot b _ => Some (normal b) | _ => None end.

(** The flog the lane entered with. *)
Definition entered (p : phase) : option flog_runtime :=
  match p with
  | Scan r _ | Data r _ | WLock r _ _ | WOld r _ _ _ | WHalf r _ _ _ | WFlog r _ _ _
  | WSwap r _ _ _ => Some r
  | _ => None
  end.

(** The flog as the run-time state has it, as ownership sees it, and as the
    media has it. *)
Definition mine (p : phase) : option flog_runtime :=
  match p with
  | WSwap r x old _ => Some (flog_after r x old (normal (free_blk r)))
  | _ => entered p
  end.
Definition eff (p : phase) (q : flog_runtime) : flog_runtime :=
  match p with WSwap r _ _ _ => r | _ => q end.
Definition med (p : phase) (q : flog_runtime) : flog_runtime :=
  match p with WFlog r x old _ => flog_after r x old (normal (free_blk r)) | _ => q end.

Definition eflogs (fs : list flog_runtime) (ph : nat -> phase) : list flog_runtime :=
  imap (fun l => eff (ph l)) fs.

(** What a lane relies on: the contents of a block, a map entry, the first half
    of its flog entry. *)
Definition blk_claim (p : phase) : option (Z * list byte) :=
  match p with
  | Data r buf | WLock r _ buf | WOld r _ _ buf | WHalf r _ _ buf | WFlog r _ _ buf
  | WSwap r _ _ buf => Some (free_blk r, buf)
  | Prot b bs => Some (b, bs)
  | _ => None
  end.
Definition eff_claim (p : phase) : option (Z * Z) :=
  match p with
  | WOld _ x old _ | WHalf _ x old _ | WFlog _ x old _ | WSwap _ x old _ | SOld x old => Some (x, old)
  | _ => None
  end.
Definition half_claim (p : phase) : option (flog_runtime * Z * Z) :=
  match p with WHalf r x old _ => Some (r, x, old) | _ => None end.

Lemma eff_claim_holds p x old : eff_claim p = Some (x, old) -> holds p = Some x.
Proof. destruct p; naive_solver. Qed.

Lemma half_claim_inv p r x old :
  half_claim p = Some (r, x, old) -> exists buf, p = WHalf r x old buf.
Proof. destruct p; naive_solver. Qed.

(** No writer that has passed a reader finds it on its free block. *)
Definition readers_ok (ph : nat -> phase) : Prop :=
  forall l r k j b bs, ph l = Scan r k -> ph j = Prot b bs -> b = free_blk r -> (k <= j)%nat.

(** ** What a write leaves alone *)

Section Frames.
Context (nf lbs size : Z) (a : arena) (Hgeom : geom_ok nf lbs size a).


Lemma data_frame m m' b :
  0 <= b < internal_nlba a -> only m m' (blk_off a b) lbs ->
  (forall l, Z.of_nat l < nf -> agree m m' (flog_pos a l) 32) /\
  agree m m' (mapoff a) (4 * external_nlba a) /\
  (forall c, 0 <= c < internal_nlba a -> c <> b -> agree m m' (blk_off a c) lbs).
Proof.
  intros Hb Ho. pose proof (geom_regions _ _ _ _ Hgeom) as Hg.
  pose proof (geom_blk_bounds _ _ _ _ Hgeom b Hb). unfold flog_pos.
  split_and!; intros; apply agree_sym; (eapply only_agree; [done|]); [lia|lia|].
  pose proof (geom_blk_disj _ _ _ _ Hgeom c b ltac:(lia) ltac:(lia) ltac:(done)). lia.
Qed.

Lemma flog_frame m m' l off n :
  Z.of_nat l < nf -> only m m' off n -> 0 <= n ->
  flog_pos a l <= off -> off + n <= flog_pos a l + 32 ->
  (forall j, Z.of_nat j < nf -> j <> l -> agree m m' (flog_pos a j) 32) /\
  agree m m' (mapoff a) (4 * external_nlba a) /\
  (forall c, 0 <= c < internal_nlba a -> agree m m' (blk_off a c) lbs).
Proof.
  intros Hl Ho Hn H1 H2. pose proof (geom_regions _ _ _ _ Hgeom) as Hg. unfold flog_pos in *.
  split_and!; intros; apply agree_sym; (eapply only_agree; [done|]); [lia|lia|].
  pose proof (geom_blk_bounds _ _ _ _ Hgeom c ltac:(lia)). lia.
Qed.

Lemma map_frame m m' x :
  0 <= x < external_nlba a -> only m m' (mapoff a + 4 * x) 4 ->
  (forall l, Z.of_nat l < nf -> agree m m' (flog_pos a l) 32) /\
  (forall y, 0 <= y < external_nlba a -> y <> x -> agree m m' (mapoff a + 4 * y) 4) /\
  (forall c, 0 <= c < internal_nlba a -> agree m m' (blk_off a c) lbs).
Proof.
  intros Hx Ho. pose proof (geom_regions _ _ _ _ Hgeom) as Hg. unfold flog_pos in *.
  split_and!; intros; apply agree_sym; (eapply only_agree; [done|]); [lia|lia|].
  pose proof (geom_blk_bounds _ _ _ _ Hgeom c ltac:(lia)). lia.
Qed.
End Frames.

(** ** The map locks *)

Section Locks.
Context (nf : Z) (lk : Z -> nat) (a : arena).

(** The map locks: the held ones are those of the lanes, one lane each. *)
Record locks_ok (L : list bool) (ph : nat -> phase) : Prop := {
  lo_len : Z.of_nat (length L) = nf;
  lo_held : forall n, L !! n = Some true -> exists l x, holds (ph l) = Some x /\ lk x = n;
  lo_lock : forall l x, holds (ph l) = Some x ->
    0 <= x < external_nlba a /\ L !! lk x = Some true;
  lo_excl : forall l l' x x', holds (ph l) = Some x -> holds (ph l') = Some x' ->
    lk x = lk x' -> l = l';
}.

Lemma locks_ok_ext L ph ph' : (forall l, ph' l = ph l) -> locks_ok L ph -> locks_ok L ph'.
Proof.
  intros He []. split; try done; intros; rewrite ?He in *; eauto.
  destruct (lo_held0 n ltac:(done)) as (l & x & ? & ?). exists l, x. by rewrite He.
Qed.

(** What may happen to the locks when a lane goes from [p] to [p']. *)
Inductive lock_step (L : list bool) : list bool -> phase -> phase -> Prop :=
| ls_keep p p' : holds p' = holds p -> lock_step L L p p'
| ls_take p p' x : holds p = None -> holds p' = Some x -> 0 <= x < external_nlba a ->
    L !! lk x = Some false -> lock_step L (<[lk x := true]> L) p p'
| ls_drop p p' x : holds p = Some x -> holds p' = None ->
    lock_step L (<[lk x := false]> L) p p'.

Lemma holds_upd (ph : nat -> phase) l p' j x :
  holds (<[l := p']> ph j) = Some x ->
  j = l /\ holds p' = Some x \/ j <> l /\ holds (ph j) = Some x.
Proof.
  destruct (decide (j = l)) as [->|Hne]; [rewrite fn_lookup_insert|rewrite fn_lookup_insert_ne by done]; auto.
Qed.

Lemma locks_ok_step L L' ph l p' :
  locks_ok L ph -> lock_step L L' (ph l) p' -> locks_ok L' (<[l := p']> ph).
Proof.
  intros Hi Hs. pose proof Hi as [].
  inversion Hs as [p q E|p q x Ep Eq Hx Ef|p q x Ep Eq]; subst.
  - assert (forall j, holds (<[l := p']> ph j) = holds (ph j)) as Hh.
    { intros j. destruct (decide (j = l)) as [->|?];
        [by rewrite fn_lookup_insert|by rewrite fn_lookup_insert_ne]. }
    split; try done; intros *; rewrite ?Hh; eauto.
    intros Hn. destruct (lo_held0 _ Hn) as (j & x & ? & ?). exists j, x. by rewrite Hh.
  - pose proof (lookup_lt_Some _ _ _ Ef) as Hlen.
    assert (forall j y, holds (ph j) = Some y -> lk y <> lk x) as Hfree.
    { intros j y Hy E. destruct (lo_lock0 j y Hy) as [_ Ht]. rewrite E in Ht. congruence. }
    split.
    + len.
    + intros n Hn. destruct (decide (n = lk x)) as [->|Hne].
      * exists l, x. by rewrite fn_lookup_insert.
      * rewrite list_lookup_insert_ne in Hn by done.
        destruct (lo_held0 n Hn) as (j & y & Hy & <-). exists j, y. split; [|done].
        rewrite fn_lookup_insert_ne; [done|]. intros <-. congruence.
    + intros j y [[-> Hy]|[Hne Hy]]%holds_upd.
      * rewrite Eq in Hy. injection Hy as <-. by rewrite list_lookup_insert_eq.
      * rewrite list_lookup_insert_ne by (apply not_eq_sym; eauto). by eapply lo_lock0.
    + intros j j' y y' [[-> Hy]|[Hne Hy]]%holds_upd [[-> Hy']|[Hne' Hy']]%holds_upd E; eauto.
      * rewrite Eq in Hy. injection Hy as <-. by destruct (Hfree _ _ Hy').
      * rewrite Eq in Hy'. injection Hy' as <-. by destruct (Hfree _ _ Hy).
  - destruct (lo_lock0 l x Ep) as [Hx Ht]. pose proof (lookup_lt_Some _ _ _ Ht) as Hlen.
    split.
    + len.
    + intros n Hn. destruct (decide (n = lk x)) as [->|Hne].
      * by rewrite list_lookup_insert_eq in Hn.
      * rewrite list_lookup_insert_ne in Hn by done.
        destruct (lo_held0 n Hn) as (j & y & Hy & <-). exists j, y. split; [|done].
        rewrite fn_lookup_insert_ne; [done|]. intros <-. congruence.
    + intros j y [[-> Hy]|[Hne Hy]]%holds_upd; [congruence|].
      rewrite list_lookup_insert_ne; [by eapply lo_lock0|]. intros E. destruct Hne. by eapply lo_excl0.
    + intros j j' y y' [[-> Hy]|[Hne Hy]]%holds_upd [[-> Hy']|[Hne' Hy']]%holds_upd E; eauto; congruence.
Qed.
End Locks.

(** ** The invariant *)

Section Arena.
Context (nf nl lbs size : Z) (nln : nat) (lk : Z -> nat) (a : arena).
Context (Hgeom : geom_ok nf lbs size a) (Hext : external_nlba a <= nl).
Context (Hnln : Z.of_nat nln <= nf).

Record claims (m : mem) (p : phase) : Prop := {
  cl_blk : forall b bs, blk_claim p = Some (b, bs) ->
    0 <= b < internal_nlba a /\ mread m (blk_off a b) lbs = bs;
  cl_eff : forall x old, eff_claim p = Some (x, old) -> eff_at m a x = old;
  cl_half : forall r x old, half_claim p = Some (r, x, old) ->
    lba (flog_at m (flog_slot r)) = x /\ old_map (flog_at m (flog_slot r)) = old;
}.

(** The invariant: [fs], [R] and [L] are the flogs, the read tracking table and
    the map locks of the arena, [ph] the phases of the lanes. *)
Record cinv (m : mem) (fs : list flog_runtime) (R : list Z) (L : list bool)
    (ph : nat -> phase) : Prop := {
  ci_fs : Z.of_nat (length fs) = nf;
  ci_R : Z.of_nat (length R) = nf;
  ci_lane : forall l, ph l <> Idle -> (l < nln)%nat;
  ci_rtt : forall l v, rtt_claim (ph l) = Some v -> R !! l = Some v;
  ci_locks : locks_ok nf lk a L ph;
  ci_flog : forall l q, fs !! l = Some q -> flog_inv nl m a l (med (ph l) q);
  ci_owned : owned m a (eflogs fs ph);
  ci_mine : forall l r, mine (ph l) = Some r -> fs !! l = Some r;
  ci_readers : readers_ok ph;
  ci_claims : forall l, claims m (ph l);
}.

(** *** Reading the invariant *)

Lemma eflogs_lookup fs ph l : eflogs fs ph !! l = eff (ph l) <$> fs !! l.
Proof. unfold eflogs. by rewrite list_lookup_imap. Qed.

(** The free block of a lane inside a write is the one it entered with. *)
Lemma cinv_entered m fs R L ph l r :
  cinv m fs R L ph -> entered (ph l) = Some r -> eflogs fs ph !! l = Some r.
Proof.
  intros Hi He. rewrite eflogs_lookup. pose proof (ci_mine _ _ _ _ _ Hi l) as Hm.
  destruct (ph l) eqn:E; try discriminate; injection He as ->; by erewrite Hm by done.
Qed.

Lemma cinv_free m fs R L ph l r :
  cinv m fs R L ph -> entered (ph l) = Some r -> 0 <= free_blk r < internal_nlba a.
Proof.
  intros Hi He. pose proof (o_free _ _ _ (ci_owned _ _ _ _ _ Hi) l r (cinv_entered _ _ _ _ _ _ _ Hi He)).
  pose proof (entry_lba_range (old_map (flog r))). unfold free_blk in *. lia.
Qed.

Lemma blk_at_nonneg m i : 0 <= blk_at m a i.
Proof. unfold blk_at. apply entry_lba_range. Qed.

Lemma owned_blk_bounds m fs i :
  owned m a fs -> 0 <= i < external_nlba a -> 0 <= blk_at m a i < internal_nlba a.
Proof. intros Hown Hi. split; [apply blk_at_nonneg|by eapply o_blk]. Qed.

Lemma claims_idle m p :
  blk_claim p = None -> eff_claim p = None -> half_claim p = None -> claims m p.
Proof. intros E1 E2 E3. split; congruence. Qed.

(** The phases matter only pointwise. *)
Lemma cinv_ext m fs R L ph ph' :
  (forall l, ph' l = ph l) -> cinv m fs R L ph -> cinv m fs R L ph'.
Proof.
  intros He []. assert (eflogs fs ph' = eflogs fs ph) as Hef.
  { apply list_eq. intros l. by rewrite !eflogs_lookup, He. }
  split; try done; intros; rewrite ?He, ?Hef in *; eauto.
  - by eapply locks_ok_ext.
  - intros l r k j b bs. rewrite !He. apply ci_readers0.
Qed.

(** The claims of a lane hold as long as the bytes they speak of stay. *)
Lemma claims_agree m m' fs R L ph l :
  cinv m fs R L ph ->
  (forall b bs, blk_claim (ph l) = Some (b, bs) -> 0 <= b < internal_nlba a ->
     agree m m' (blk_off a b) lbs) ->
  (forall x old, eff_claim (ph l) = Some (x, old) -> 0 <= x < external_nlba a ->
     agree m m' (mapoff a + 4 * x) 4) ->
  (half_claim (ph l) <> None -> agree m m' (flog_pos a l) 32) ->
  claims m' (ph l).
Proof.
  intros Hi Hb Hx Hf. destruct (ci_claims _ _ _ _ _ Hi l) as [Cb Ce Ch]. split.
  - intros b bs E. destruct (Cb b bs E) as [Hr <-]. split; [done|]. symmetry.
    apply mread_agree. by eapply Hb.
  - intros x old E. rewrite <- (Ce x old E).
    destruct (lo_lock _ _ _ _ _ (ci_locks _ _ _ _ _ Hi) l x (eff_claim_holds _ _ _ E)) as [Hr _].
    unfold eff_at. f_equal. symmetry. apply entry_at_agree. by eapply Hx.
  - intros r x old E. specialize (Ch r x old E). specialize (Hf ltac:(congruence)).
    destruct (half_claim_inv _ _ _ _ E) as [buf Ep].
    pose proof (ci_mine _ _ _ _ _ Hi l r ltac:(by rewrite Ep)) as Hq.
    pose proof (ci_flog _ _ _ _ _ Hi l r Hq) as Hfi. rewrite Ep in Hfi. cbn [med] in Hfi.
    pose proof (flog_slot_pos _ _ _ _ _ Hfi) as Hsl. pose proof (fi_next _ _ _ _ _ Hfi) as Hn.
    assert (flog_at m' (flog_slot r) = flog_at m (flog_slot r)) as ->; [|done].
    symmetry. apply flog_at_agree. eapply agree_sub; [exact Hf|lia..].
Qed.

(** The media matters only inside the arena. *)
Lemma cinv_agree m m' fs R L ph :
  same_arena nf a m m' -> cinv m fs R L ph -> cinv m' fs R L ph.
Proof.
  intros Hs Hi. pose proof (geom_regions _ _ _ _ Hgeom) as Hg. pose proof Hi as [].
  unfold same_arena, arena_end, BTT_INFO_SIZE in Hs.
  assert (forall l, Z.of_nat l < nf -> agree m m' (flog_pos a l) 32) as Hfl.
  { intros l Hl. unfold flog_pos. eapply agree_sub; [exact Hs|lia..]. }
  split; try done.
  - intros l q Hq. eapply flog_inv_agree; [|by eauto].
    apply Hfl. apply lookup_lt_Some in Hq. lia.
  - eapply owned_agree; [|done]. eapply agree_sub; [exact Hs|lia..].
  - intros l. eapply claims_agree; [done|..].
    + intros b bs _ Hb. pose proof (geom_blk_bounds _ _ _ _ Hgeom b Hb).
      eapply agree_sub; [exact Hs|lia..].
    + intros x old _ Hx. eapply agree_sub; [exact Hs|lia..].
    + intros Hh. apply Hfl. assert ((l < nln)%nat); [|lia].
      apply ci_lane0. intros E. by rewrite E in Hh.
Qed.

(** *** Steps of a lane *)

(** One lane goes to phase [p']; what has to be shown. *)
Lemma cinv_step m m' fs R R' L L' ph l p' :
  cinv m fs R L ph -> (l < nln)%nat ->
  length R' = length R -> (forall j, j <> l -> R' !! j = R !! j) ->
  (forall v, rtt_claim p' = Some v -> R' !! l = Some v) -> lock_step lk a L L' (ph l) p' ->
  (forall j q, j <> l -> fs !! j = Some q ->
     flog_inv nl m a j (med (ph j) q) -> flog_inv nl m' a j (med (ph j) q)) ->
  (forall q, fs !! l = Some q -> flog_inv nl m a l (med (ph l) q) -> flog_inv nl m' a l (med p' q)) ->
  owned m' a (eflogs fs (<[l := p']> ph)) ->
  (forall j, j <> l -> claims m (ph j) -> claims m' (ph j)) -> claims m' p' ->
  (forall r, mine p' = Some r -> fs !! l = Some r) ->
  readers_ok (<[l := p']> ph) ->
  cinv m' fs R' L' (<[l := p']> ph).
Proof.
  intros [] Hl HRl HR HRv HL Hother Hown Howned Hclaims Hcl Hmine Hread. split; try done.
  - len.
  - intros j Hj. destruct (decide (j = l)) as [->|Hne]; [done|].
    rewrite fn_lookup_insert_ne in Hj by done. auto.
  - intros j v. destruct (decide (j = l)) as [->|Hne].
    + rewrite fn_lookup_insert. auto.
    + rewrite fn_lookup_insert_ne, HR by done. auto.
  - by eapply locks_ok_step.
  - intros j q Hq. destruct (decide (j = l)) as [->|Hne].
    + rewrite fn_lookup_insert. auto.
    + rewrite fn_lookup_insert_ne by done. auto.
  - intros j r. destruct (decide (j = l)) as [->|Hne].
    + rewrite fn_lookup_insert. auto.
    + rewrite fn_lookup_insert_ne by done. auto.
  - intros j. destruct (decide (j = l)) as [->|Hne].
    + by rewrite fn_lookup_insert.
    + rewrite fn_lookup_insert_ne by done. auto.
Qed.
End Arena.
Arguments ci_fs {nf nl lbs nln lk a m fs R L ph}.
Arguments ci_R {nf nl lbs nln lk a m fs R L ph}.
Arguments ci_lane {nf nl lbs nln lk a m fs R L ph}.
Arguments ci_rtt {nf nl lbs nln lk a m fs R L ph}.
Arguments ci_locks {nf nl lbs nln lk a m fs R L ph}.
Arguments ci_flog {nf nl lbs nln lk a m fs R L ph}.
Arguments ci_owned {nf nl lbs nln lk a m fs R L ph}.
Arguments ci_mine {nf nl lbs nln lk a m fs R L ph}.
Arguments ci_readers {nf nl lbs nln lk a m fs R L ph}.
Arguments ci_claims {nf nl lbs nln lk a m fs R L ph}.
Arguments lo_len {nf lk a L ph}.
Arguments lo_held {nf lk a L ph}.
Arguments lo_lock {nf lk a L ph}.
Arguments lo_excl {nf lk a L ph}.
Arguments cl_blk {lbs a m p}.
Arguments cl_eff {lbs a m p}.
Arguments cl_half {lbs a m p}.
