(* ===== verification/BttConcStep.v ===== *)
(** BttConcStep: the steps of the protocol keep the invariant of the arena.

    One lemma per step of [btt_read], [btt_write] and [map_entry_setf]: the
    step moves the lane to its next phase, and leaves every block as it was,
    except the write of the map entry, which is where the operation takes
    effect. *)

From stdpp Require Import functions.
From S2P Require Import Prelude Mem BttLayout Prog Btt BttInv BttConcInv.

Section Steps.
Context (nf nl lbs size : Z) (nln : nat) (lk : Z -> nat) (a : arena).
Context (Hgeom : geom_ok nf lbs size a) (Hext : external_nlba a <= nl).
Context (Hnln : Z.of_nat nln <= nf).

Abbreviation cinv := (cinv nf nl lbs nln lk a).
Abbreviation claims := (claims lbs a).
Abbreviation lock_step := (lock_step lk a).

(** *** Side conditions *)

Lemma eflogs_keep fs ph l p' :
  (forall q, fs !! l = Some q -> eff p' q = eff (ph l) q) ->
  eflogs fs (<[l := p']> ph) = eflogs fs ph.
Proof.
  intros He. apply list_eq. intros j. rewrite !eflogs_lookup.
  destruct (decide (j = l)) as [->|Hne].
  - rewrite fn_lookup_insert. destruct (fs !! l) as [q|] eqn:E; [|done]. cbn. by rewrite He.
  - by rewrite fn_lookup_insert_ne.
Qed.

Lemma readers_upd (ph : nat -> phase) l p' :
  readers_ok ph ->
  (forall r k j b bs, p' = Scan r k -> ph j = Prot b bs -> b = free_blk r -> (k <= j)%nat) ->
  (forall b bs j r k, p' = Prot b bs -> ph j = Scan r k -> b = free_blk r -> (k <= l)%nat) ->
  readers_ok (<[l := p']> ph).
Proof.
  intros Hr Hs Hp i r k j b bs. destruct (decide (i = l)) as [->|Hi], (decide (j = l)) as [->|Hj];
    rewrite ?fn_lookup_insert, ?fn_lookup_insert_ne by done.
  - congruence.
  - apply Hs.
  - intros E E'. by eapply Hp.
  - apply Hr.
Qed.

(** A step that does not touch the media. *)
Lemma cinv_move m fs R R' L L' ph l p' :
  cinv m fs R L ph -> (l < nln)%nat ->
  length R' = length R -> (forall j, j <> l -> R' !! j = R !! j) ->
  (forall v, rtt_claim p' = Some v -> R' !! l = Some v) -> lock_step L L' (ph l) p' ->
  (forall q, eff p' q = eff (ph l) q /\ med p' q = med (ph l) q) ->
  claims m p' -> (forall r, mine p' = Some r -> fs !! l = Some r) ->
  readers_ok (<[l := p']> ph) ->
  cinv m fs R' L' (<[l := p']> ph).
Proof.
  intros Hi Hl HRl HR HRv HL He Hc Hm Hr. eapply cinv_step; try done.
  - intros q Hq. by rewrite (proj2 (He q)).
  - rewrite eflogs_keep; [by apply Hi|]. intros q _. apply He.
Qed.

(** *** Reading: publish, confirm, leave *)

Definition reading (p : phase) : Prop := p = Idle \/ exists e, p = Pub e.

Lemma step_pub m fs R L ph l e :
  cinv m fs R L ph -> (l < nln)%nat -> reading (ph l) ->
  cinv m fs (<[l := e]> R) L (<[l := Pub e]> ph).
Proof.
  intros Hi Hl Hp. pose proof (ci_R Hi). eapply cinv_move; try done.
  - by rewrite length_insert.
  - intros j ?. by rewrite list_lookup_insert_ne.
  - intros v [= <-]. apply list_lookup_insert_eq. lia.
  - constructor. by destruct Hp as [-> | [? ->]].
  - intros q. by destruct Hp as [-> | [? ->]].
  - by apply readers_upd; [apply Hi|..].
Qed.

Lemma step_confirm m fs R L ph l e x :
  cinv m fs R L ph -> ph l = Pub e -> 0 <= x < external_nlba a -> entry_at m a x = e ->
  map_entry_is_error e = false -> map_entry_is_zero_or_initial e = false ->
  cinv m fs R L (<[l := Prot (entry_lba e) (mread m (blk_off a (entry_lba e)) lbs)]> ph) /\
  blk_state m a lbs x = BData (mread m (blk_off a (entry_lba e)) lbs) /\
  data_block_offset a e = blk_off a (entry_lba e) /\ e = normal (entry_lba e) /\
  0 <= entry_lba e < internal_nlba a.
Proof.
  intros Hi Hp Hx He E1 E2. pose proof (ci_owned Hi) as Hown.
  pose proof (entry_at_range m a x) as Hr. pose proof (entry_lba_range e) as Hl.
  assert (l < nln)%nat as Hlane.
  { apply (ci_lane Hi). by rewrite Hp. }
  pose proof E2 as E2'. unfold map_entry_is_zero_or_initial in E2'. cbv zeta in E2'. bools.
  assert (map_entry_is_initial e = false) as Hni by by apply Z.eqb_neq.
  destruct (owned_entry_blk a m _ x Hown Hx) as [Hb Hlt]; [by rewrite He|].
  rewrite He in *. assert (e = normal (entry_lba e)) as Hnorm.
  { rewrite (entry_split e) at 1 by done. unfold map_entry_is_error in E1. bools.
    unfold normal. rewrite lor_flags by (done || lia).
    destruct (entry_flags_cases e Hr) as [?|[?|[?|?]]]; congruence. }
  split_and!; try done.
  - eapply cinv_move; try done.
    + intros v [= <-]. rewrite <- Hnorm. apply (ci_rtt Hi). by rewrite Hp.
    + constructor. by rewrite Hp.
    + intros q. by rewrite Hp.
    + split; [|done..]. intros b bs [= <- <-]. split; [lia|done].
    + apply readers_upd; [by apply Hi|done|].
      intros b bs j r k [= <- <-] Hj Hf. exfalso.
      assert (entered (ph j) = Some r) as Hent by by rewrite Hj.
      eapply (o_disj _ _ _ Hown x j r); [done| |congruence].
      by eapply cinv_entered.
  - unfold blk_state. rewrite He, E1, E2. f_equal.
    by rewrite (data_block_offset_entry nf lbs size).
  - by eapply data_block_offset_entry.
  - lia.
Qed.

(** A reader leaves, with its slot cleared or as it was. *)
Lemma step_leave m fs R R' L ph l :
  cinv m fs R L ph -> (l < nln)%nat -> (reading (ph l) \/ exists b bs, ph l = Prot b bs) ->
  R' = R \/ R' = <[l := BTT_MAP_ENTRY_ERROR]> R ->
  cinv m fs R' L (<[l := Idle]> ph).
Proof.
  intros Hi Hl Hp HR. eapply cinv_move; try done.
  - destruct HR as [-> | ->]; by rewrite ?length_insert.
  - intros j ?. destruct HR as [-> | ->]; by rewrite ?list_lookup_insert_ne.
  - constructor. by destruct Hp as [[-> | [? ->]] | (? & ? & ->)].
  - intros q. by destruct Hp as [[-> | [? ->]] | (? & ? & ->)].
  - by apply readers_upd; [apply Hi|..].
Qed.

(** *** Writing: the free block *)

Lemma step_enter m fs R L ph l r :
  cinv m fs R L ph -> (l < nln)%nat -> ph l = Idle -> fs !! l = Some r ->
  cinv m fs R L (<[l := Scan r 0]> ph).
Proof.
  intros Hi Hl Hp Hr. eapply cinv_move; try done.
  - constructor. by rewrite Hp.
  - intros q. by rewrite Hp.
  - by intros ? [= <-].
  - apply readers_upd; [by apply Hi|intros; simplify_eq; lia|done].
Qed.

Lemma step_scan m fs R L ph l r k :
  cinv m fs R L ph -> ph l = Scan r k -> R !! k <> Some (normal (free_blk r)) ->
  cinv m fs R L (<[l := Scan r (S k)]> ph).
Proof.
  intros Hi Hp Hk.
  assert (l < nln)%nat as Hl by (apply (ci_lane Hi); by rewrite Hp).
  eapply cinv_move; try done.
  - constructor. by rewrite Hp.
  - intros q. by rewrite Hp.
  - intros ? [= <-]. apply (ci_mine Hi). by rewrite Hp.
  - apply readers_upd; [by apply Hi| |done].
    intros r' k' j b bs [= <- <-] Hj Hb.
    pose proof (ci_readers Hi l r k j b bs Hp Hj Hb).
    destruct (decide (k = j)) as [->|]; [|lia]. exfalso. apply Hk.
    subst b. apply (ci_rtt Hi). by rewrite Hj.
Qed.

Lemma blk_claim_cases p b bs :
  blk_claim p = Some (b, bs) -> (exists r, entered p = Some r /\ b = free_blk r) \/ p = Prot b bs.
Proof. destruct p; intros E; simplify_eq/=; eauto. Qed.

(** A lane that has passed all the readers may write its free block. *)
Lemma other_block m fs R L ph l r j b bs :
  cinv m fs R L ph -> ph l = Scan r nln -> j <> l -> blk_claim (ph j) = Some (b, bs) ->
  b <> free_blk r.
Proof.
  intros Hi Hp Hj E. pose proof (ci_owned Hi) as Hown.
  assert (entered (ph l) = Some r) as Hent by by rewrite Hp.
  destruct (blk_claim_cases _ _ _ E) as [(r' & Hr' & ->) | Hprot].
  - intros Ef. apply Hj.
    eapply (o_free_inj _ _ _ Hown j l r' r); [by eapply cinv_entered..|done].
  - intros Ef. pose proof (ci_readers Hi l r nln j b bs Hp Hprot Ef).
    assert (j < nln)%nat; [|lia]. apply (ci_lane Hi). by rewrite Hprot.
Qed.

Lemma step_data_write m m' fs R L ph l r buf :
  cinv m fs R L ph -> ph l = Scan r nln -> Z.of_nat (length buf) = lbs ->
  m' ≡ apply_event m (ev_data a (free_blk r) buf) ->
  cinv m' fs R L (<[l := Data r buf]> ph) /\
  forall i, 0 <= i < external_nlba a -> blk_state m' a lbs i = blk_state m a lbs i.
Proof.
  intros Hi Hp Hbuf Hm. pose proof (ci_owned Hi) as Hown.
  assert (l < nln)%nat as Hl by (apply (ci_lane Hi); by rewrite Hp).
  assert (entered (ph l) = Some r) as Hent by by rewrite Hp.
  pose proof (cinv_free _ _ _ _ _ _ _ _ _ _ _ _ _ Hi Hent) as Hfree.
  assert (only m m' (blk_off a (free_blk r)) lbs) as Ho.
  { eapply only_equiv; [|exact Hm]. rewrite <- Hbuf. apply only_mwrite. }
  destruct (data_frame nf lbs size a Hgeom m m' _ Hfree Ho) as (Hfl & Hmap & Hblk).
  split.
  - eapply cinv_step; try done.
    + constructor. by rewrite Hp.
    + intros j q _ Hq. apply flog_inv_agree, Hfl. apply lookup_lt_Some in Hq.
      pose proof (ci_fs Hi). lia.
    + intros q Hq. rewrite Hp. apply flog_inv_agree, Hfl. lia.
    + rewrite eflogs_keep by (intros q _; by rewrite Hp). by eapply owned_agree.
    + intros j Hj _. eapply claims_agree; [done|..].
      * intros b bs E Hb. apply Hblk; [done|]. by eapply other_block.
      * intros x old E Hx. eapply agree_sub; [done|lia..].
      * intros Hh. apply Hfl. assert (j < nln)%nat; [|lia].
        apply (ci_lane Hi). intros E. by rewrite E in Hh.
    + split; [|done..]. intros b bs [= <- <-]. split; [done|]. rewrite Hm.
      apply mread_mwrite_eq. lia.
    + intros ? [= <-]. apply (ci_mine Hi). by rewrite Hp.
    + by apply readers_upd; [apply Hi|..].
  - intros i Hx. pose proof (geom_regions _ _ _ _ Hgeom) as Hg.
    pose proof (geom_blk_bounds _ _ _ _ Hgeom _ Hfree).
    pose proof (o_disj _ _ _ Hown i l r Hx ltac:(by eapply cinv_entered)) as Hd.
    pose proof (geom_blk_disj _ _ _ _ Hgeom (free_blk r) (blk_at m a i) ltac:(lia) (blk_at_nonneg _ _ _)).
    destruct Hgeom. eapply blk_state_frame; try done; lia.
Qed.

(** *** The map locks *)

Lemma step_take m fs R L ph l x p' :
  cinv m fs R L ph -> (l < nln)%nat -> 0 <= x < external_nlba a -> L !! lk x = Some false ->
  (exists r buf, ph l = Data r buf /\ p' = WLock r x buf) \/ ph l = Idle /\ p' = SLock x ->
  cinv m fs R (<[lk x := true]> L) (<[l := p']> ph).
Proof.
  intros Hi Hl Hx Hf Hp. eapply cinv_move; try done.
  - intros v. by destruct Hp as [(? & ? & ? & ->) | [? ->]].
  - eapply ls_take; [..|done|done]; (destruct Hp as [(? & ? & Ep & ->) | [Ep ->]]; by rewrite ?Ep).
  - intros q. (destruct Hp as [(? & ? & Ep & ->) | [Ep ->]]; by rewrite ?Ep).
  - destruct Hp as [(r & buf & E & ->) | [_ ->]]; [|done].
    pose proof (ci_claims Hi l) as Hc. rewrite E in Hc. split; [|done..].
    intros b bs. apply (cl_blk Hc).
  - intros q E. apply (ci_mine Hi). revert E. (destruct Hp as [(? & ? & Ep & ->) | [Ep ->]]; by rewrite ?Ep).
  - apply readers_upd; [apply Hi|..]; (destruct Hp as [(? & ? & Ep & ->) | [Ep ->]]; by rewrite ?Ep).
Qed.

Lemma step_drop m fs R L ph l x :
  cinv m fs R L ph -> ph l = Rel x ->
  cinv m fs R (<[lk x := false]> L) (<[l := Idle]> ph).
Proof.
  intros Hi Hp.
  assert (l < nln)%nat as Hl by (apply (ci_lane Hi); by rewrite Hp).
  eapply cinv_move; try done.
  - eapply ls_drop; [by rewrite Hp|done].
  - intros q. by rewrite Hp.
  - by apply readers_upd; [apply Hi|..].
Qed.

(** Reading the entry under the lock. *)
Lemma step_old m fs R L ph l x p' :
  cinv m fs R L ph -> 
  (exists r buf, ph l = WLock r x buf /\ p' = WOld r x (eff_at m a x) buf) \/
  ph l = SLock x /\ p' = SOld x (eff_at m a x) ->
  cinv m fs R L (<[l := p']> ph).
Proof.
  intros Hi Hp.
  assert (l < nln)%nat as Hl.
  { apply (ci_lane Hi). (destruct Hp as [(? & ? & Ep & ->) | [Ep ->]]; by rewrite ?Ep). }
  eapply cinv_move; try done.
  - intros v. by destruct Hp as [(? & ? & ? & ->) | [? ->]].
  - constructor; (destruct Hp as [(? & ? & Ep & ->) | [Ep ->]]; by rewrite ?Ep).
  - intros q. (destruct Hp as [(? & ? & Ep & ->) | [Ep ->]]; by rewrite ?Ep).
  - destruct Hp as [(r & buf & E & ->) | [E ->]].
    + pose proof (ci_claims Hi l) as Hc. rewrite E in Hc. split; [|by intros ? ? [= <- <-]|done].
      intros b bs. apply (cl_blk Hc).
    + split; [done|by intros ? ? [= <- <-]|done].
  - intros q E. apply (ci_mine Hi). revert E. (destruct Hp as [(? & ? & Ep & ->) | [Ep ->]]; by rewrite ?Ep).
  - apply readers_upd; [apply Hi|..]; (destruct Hp as [(? & ? & Ep & ->) | [Ep ->]]; by rewrite ?Ep).
Qed.

(** Nothing to do under the lock. *)
Lemma step_abort m fs R L ph l x old :
  cinv m fs R L ph -> ph l = SOld x old -> cinv m fs R L (<[l := Rel x]> ph).
Proof.
  intros Hi Hp.
  assert (l < nln)%nat as Hl by (apply (ci_lane Hi); by rewrite Hp).
  eapply cinv_move; try done.
  - constructor. by rewrite Hp.
  - intros q. by rewrite Hp.
  - by apply readers_upd; [apply Hi|..].
Qed.

(** *** Writing: the flog *)

Lemma old_claim_range m x old :
  0 <= x < external_nlba a -> eff_at m a x = old -> 0 <= old < 2 ^ 32.
Proof.
  intros Hx <-. pose proof (geom_regions _ _ _ _ Hgeom).
  pose proof (eff_entry_range x (entry_at m a x) ltac:(lia) (entry_at_range _ _ _)).
  unfold eff_at. lia.
Qed.

(** A write of lane [l] inside its flog pair, seen from the rest. *)
Lemma flog_write_rest m m' fs R L ph l off n :
  cinv m fs R L ph -> (l < nln)%nat -> only m m' off n -> 0 <= n ->
  flog_pos a l <= off -> off + n <= flog_pos a l + 32 ->
  (forall j q, j <> l -> fs !! j = Some q -> flog_inv nl m a j (med (ph j) q) ->
     flog_inv nl m' a j (med (ph j) q)) /\
  owned m' a (eflogs fs ph) /\
  (forall j, j <> l -> claims m (ph j) -> claims m' (ph j)) /\
  (forall c, 0 <= c < internal_nlba a -> agree m m' (blk_off a c) lbs) /\
  (forall x, 0 <= x < external_nlba a -> eff_at m' a x = eff_at m a x) /\
  (forall i, 0 <= i < external_nlba a -> blk_state m' a lbs i = blk_state m a lbs i).
Proof.
  intros Hi Hl Ho Hn H1 H2. pose proof (ci_owned Hi) as Hown.
  destruct (flog_frame nf lbs size a Hgeom m m' l off n ltac:(lia) Ho Hn H1 H2) as (Hfl & Hmap & Hblk).
  pose proof (geom_regions _ _ _ _ Hgeom) as Hg. split_and!.
  - intros j q Hj Hq. apply flog_inv_agree, Hfl; [|done].
    apply lookup_lt_Some in Hq. pose proof (ci_fs Hi). lia.
  - by eapply owned_agree.
  - intros j Hj _. eapply claims_agree; [done|..].
    + intros b bs _ Hb. by apply Hblk.
    + intros x old _ Hx. eapply agree_sub; [done|lia..].
    + intros Hh. apply Hfl; [|done]. assert (j < nln)%nat; [|lia].
      apply (ci_lane Hi). intros E. by rewrite E in Hh.
  - done.
  - intros x Hx. unfold eff_at. f_equal. symmetry. apply entry_at_agree.
    eapply agree_sub; [done|lia..].
  - intros i Hx. pose proof (geom_blk_bounds _ _ _ _ Hgeom _ (owned_blk_bounds _ _ _ _ Hown Hx)).
    unfold flog_pos in *. eapply blk_state_frame; try done; lia.
Qed.

(** The claims of a lane that stays in its write. *)
Lemma claims_writing m m' fs R L ph l r x old buf :
  cinv m fs R L ph -> blk_claim (ph l) = Some (free_blk r, buf) -> eff_claim (ph l) = Some (x, old) ->
  (forall c, 0 <= c < internal_nlba a -> agree m m' (blk_off a c) lbs) ->
  (forall x, 0 <= x < external_nlba a -> eff_at m' a x = eff_at m a x) ->
  forall p', blk_claim p' = Some (free_blk r, buf) -> eff_claim p' = Some (x, old) ->
  (forall r' x' old', half_claim p' = Some (r', x', old') ->
     lba (flog_at m' (flog_slot r')) = x' /\ old_map (flog_at m' (flog_slot r')) = old') ->
  claims m' p'.
Proof.
  intros Hi Eb Ee Hblk Heff p' Eb' Ee' Hh. destruct (ci_claims Hi l) as [Cb Ce _].
  destruct (Cb _ _ Eb) as [Hr Hc]. destruct (lo_lock (ci_locks Hi) l x (eff_claim_holds _ _ _ Ee)) as [Hx _].
  split; [| |done].
  - rewrite Eb'. intros b bs [= <- <-]. split; [done|]. rewrite <- Hc. symmetry.
    by apply mread_agree, Hblk.
  - rewrite Ee'. intros y o [= <- <-]. rewrite Heff by done. by apply Ce.
Qed.

Lemma step_half m m' fs R L ph l r x old buf :
  cinv m fs R L ph -> ph l = WOld r x old buf -> m' ≡ apply_event m (ev_flog1 r x old) ->
  cinv m' fs R L (<[l := WHalf r x old buf]> ph) /\
  forall i, 0 <= i < external_nlba a -> blk_state m' a lbs i = blk_state m a lbs i.
Proof.
  intros Hi Hp Hm.
  assert (l < nln)%nat as Hl by (apply (ci_lane Hi); by rewrite Hp).
  pose proof (ci_mine Hi l r ltac:(by rewrite Hp)) as Hr.
  pose proof (ci_flog Hi l r Hr) as Hfi. rewrite Hp in Hfi. cbn [med] in Hfi.
  destruct (lo_lock (ci_locks Hi) l x ltac:(by rewrite Hp)) as [Hx _].
  pose proof (cl_eff (ci_claims Hi l) x old ltac:(by rewrite Hp)) as He.
  pose proof (old_claim_range _ _ _ Hx He) as Hold. pose proof (geom_regions _ _ _ _ Hgeom) as Hg.
  destruct (flog_half1 nl m m' a l r x old) as (Hfi' & Hh); [done|lia|lia|done..|].
  pose proof (flog_slot_pos _ _ _ _ _ Hfi) as Hsl. pose proof (fi_next _ _ _ _ _ Hfi) as Hn.
  assert (only m m' (flog_slot r) 8) as Ho.
  { eapply only_equiv; [|exact Hm]. apply (only_mwrite m (flog_slot r)). }
  destruct (flog_write_rest _ _ _ _ _ _ _ _ _ Hi Hl Ho) as (Hfl & Hown & Hcl & Hblk & Heff & Hst);
    [lia..|].
  split; [|done]. eapply cinv_step; try done.
  - constructor. by rewrite Hp.
  - intros q Hq _. cbn [med]. congruence.
  - rewrite eflogs_keep; [done|]. intros q _. by rewrite Hp.
  - eapply claims_writing; try done; [by rewrite Hp..|]. by intros ? ? ? [= <- <- <-].
  - by intros ? [= <-].
  - by apply readers_upd; [apply Hi|..].
Qed.

Lemma step_whole m m' fs R L ph l r x old buf :
  cinv m fs R L ph -> ph l = WHalf r x old buf ->
  m' ≡ apply_event m (ev_flog2 r (normal (free_blk r))) ->
  cinv m' fs R L (<[l := WFlog r x old buf]> ph) /\
  forall i, 0 <= i < external_nlba a -> blk_state m' a lbs i = blk_state m a lbs i.
Proof.
  intros Hi Hp Hm.
  assert (l < nln)%nat as Hl by (apply (ci_lane Hi); by rewrite Hp).
  pose proof (ci_mine Hi l r ltac:(by rewrite Hp)) as Hr.
  pose proof (ci_flog Hi l r Hr) as Hfi. rewrite Hp in Hfi. cbn [med] in Hfi.
  destruct (lo_lock (ci_locks Hi) l x ltac:(by rewrite Hp)) as [Hx _].
  destruct (cl_half (ci_claims Hi l) r x old ltac:(by rewrite Hp)) as [Hhx Hho].
  pose proof (normal_range (free_blk r) (entry_lba_range _)) as Hnew.
  pose proof (flog_half2 nl m m' a l r x old _ Hfi Hhx Hho Hx Hext Hnew Hm) as Hfi'.
  pose proof (flog_slot_pos _ _ _ _ _ Hfi) as Hsl. pose proof (fi_next _ _ _ _ _ Hfi) as Hn.
  assert (only m m' (flog_slot r + 8) 8) as Ho.
  { eapply only_equiv; [|exact Hm]. apply (only_mwrite m (flog_slot r + 8)). }
  destruct (flog_write_rest _ _ _ _ _ _ _ _ _ Hi Hl Ho) as (Hfl & Hown & Hcl & Hblk & Heff & Hst);
    [lia..|].
  split; [|done]. eapply cinv_step; try done.
  - constructor. by rewrite Hp.
  - rewrite eflogs_keep; [done|]. intros q _. by rewrite Hp.
  - eapply claims_writing; try done; by rewrite Hp.
  - by intros ? [= <-].
  - by apply readers_upd; [apply Hi|..].
Qed.

(** The run-time flog follows the media. *)
Lemma step_swap m fs R L ph l r x old buf :
  cinv m fs R L ph -> ph l = WFlog r x old buf ->
  cinv m (<[l := flog_after r x old (normal (free_blk r))]> fs) R L
    (<[l := WSwap r x old buf]> ph).
Proof.
  intros Hi Hp.
  assert (l < nln)%nat as Hl by (apply (ci_lane Hi); by rewrite Hp).
  pose proof (ci_mine Hi l r ltac:(by rewrite Hp)) as Hr.
  pose proof (lookup_lt_Some _ _ _ Hr) as Hlen.
  assert (forall j, j <> l -> <[l := WSwap r x old buf]> ph j = ph j) as Hne.
  { intros j ?. by rewrite fn_lookup_insert_ne. }
  split; try done.
  - rewrite length_insert. apply Hi.
  - apply Hi.
  - intros j Hj. destruct (decide (j = l)) as [->|?]; [done|]. rewrite Hne in Hj by done. by apply (ci_lane Hi).
  - intros j v. destruct (decide (j = l)) as [->|?]; [by rewrite fn_lookup_insert|].
    rewrite Hne by done. apply (ci_rtt Hi).
  - eapply locks_ok_step; [apply Hi|]. constructor. by rewrite Hp.
  - intros j q Hq. destruct (decide (j = l)) as [->|?].
    + rewrite fn_lookup_insert. rewrite list_lookup_insert_eq in Hq by done. injection Hq as <-.
      pose proof (ci_flog Hi l r Hr) as Hfi. by rewrite Hp in Hfi.
    + rewrite Hne by done. rewrite list_lookup_insert_ne in Hq by done. by apply (ci_flog Hi).
  - replace (eflogs (<[l:=_]> fs) _) with (eflogs fs ph); [apply Hi|].
    apply list_eq. intros j. rewrite !eflogs_lookup. destruct (decide (j = l)) as [->|?].
    + rewrite fn_lookup_insert, list_lookup_insert_eq by done. by rewrite Hr, Hp.
    + by rewrite Hne, list_lookup_insert_ne by done.
  - intros j q. destruct (decide (j = l)) as [->|?].
    + rewrite fn_lookup_insert, list_lookup_insert_eq by done. done.
    + rewrite Hne, list_lookup_insert_ne by done. apply (ci_mine Hi).
  - by apply readers_upd; [apply Hi|..].
  - intros j. destruct (decide (j = l)) as [->|?]; [|rewrite Hne by done; apply Hi].
    rewrite fn_lookup_insert. pose proof (ci_claims Hi l) as Hc. rewrite Hp in Hc.
    destruct Hc. by split.
Qed.

(** *** Taking effect: the map entry *)

Lemma map_write_rest m m' fs R L ph l x e :
  cinv m fs R L ph -> holds (ph l) = Some x -> m' ≡ apply_event m (ev_map a x e) ->
  entry_at m' a x = e mod 2 ^ 32 /\
  (forall j q, fs !! j = Some q -> agree m m' (flog_pos a j) 32) /\
  (forall j, j <> l -> claims m (ph j) -> claims m' (ph j)) /\
  (forall c, 0 <= c < internal_nlba a -> agree m m' (blk_off a c) lbs) /\
  forall i, 0 <= i < external_nlba a -> i <> x ->
    entry_at m' a i = entry_at m a i /\ blk_state m' a lbs i = blk_state m a lbs i.
Proof.
  intros Hi Hh Hm. pose proof (ci_owned Hi) as Hown. pose proof (geom_regions _ _ _ _ Hgeom) as Hg.
  destruct (lo_lock (ci_locks Hi) l x Hh) as [Hx _].
  assert (only m m' (mapoff a + 4 * x) 4) as Ho.
  { eapply only_equiv; [|exact Hm]. apply (only_mwrite m (mapoff a + 4 * x)). }
  destruct (map_frame nf lbs size a Hgeom m m' x Hx Ho) as (Hfl & Hmap & Hblk).
  split_and!.
  - unfold entry_at. rewrite Hm. apply (get_le_mwrite_eq 4).
  - intros j q Hq. apply Hfl. apply lookup_lt_Some in Hq. pose proof (ci_fs Hi). lia.
  - intros j Hj _. eapply claims_agree; [done|..].
    + intros b bs _ Hb. by apply Hblk.
    + intros y old E Hy. apply Hmap; [done|]. intros ->. apply Hj.
      apply eff_claim_holds in E. by eapply (lo_excl (ci_locks Hi)).
    + intros Hh'. apply Hfl. assert (j < nln)%nat; [|lia].
      apply (ci_lane Hi). intros E. by rewrite E in Hh'.
  - done.
  - intros i Hxi Hne. split; [symmetry; by apply entry_at_agree, Hmap|].
    pose proof (geom_blk_bounds _ _ _ _ Hgeom _ (owned_blk_bounds _ _ _ _ Hown Hxi)).
    eapply blk_state_frame; try done; lia.
Qed.

Lemma step_effect m m' fs R L ph l r x old buf :
  cinv m fs R L ph -> ph l = WSwap r x old buf ->
  m' ≡ apply_event m (ev_map a x (normal (free_blk r))) ->
  cinv m' fs R L (<[l := Rel x]> ph) /\ blk_state m' a lbs x = BData buf /\
  forall i, 0 <= i < external_nlba a -> i <> x -> blk_state m' a lbs i = blk_state m a lbs i.
Proof.
  intros Hi Hp Hm.
  assert (l < nln)%nat as Hl by (apply (ci_lane Hi); by rewrite Hp).
  pose proof (ci_mine Hi l _ ltac:(by rewrite Hp)) as Hr.
  assert (entered (ph l) = Some r) as Hent by by rewrite Hp.
  pose proof (cinv_free _ _ _ _ _ _ _ _ _ _ _ _ _ Hi Hent) as Hfree.
  destruct (lo_lock (ci_locks Hi) l x ltac:(by rewrite Hp)) as [Hx _].
  pose proof (cl_eff (ci_claims Hi l) x old ltac:(by rewrite Hp)) as Hold.
  destruct (cl_blk (ci_claims Hi l) (free_blk r) buf ltac:(by rewrite Hp)) as [_ Hbuf].
  destruct (map_write_rest _ _ _ _ _ _ l x _ Hi ltac:(by rewrite Hp) Hm)
    as (Hex & Hfl & Hcl & Hblk & Hei).
  pose proof (normal_range (free_blk r) (entry_lba_range _)) as Hnr.
  pose proof (entry_lba_range (old_map (flog r))) as Hfb. fold (free_blk r) in Hfb.
  rewrite Z.mod_small in Hex by lia. split_and!.
  - eapply cinv_step; try done.
    + constructor. by rewrite Hp.
    + intros j q _ Hq. by apply flog_inv_agree, (Hfl j q).
    + intros q Hq. rewrite Hp. by apply flog_inv_agree, (Hfl l q).
    + replace (eflogs fs _) with
        (<[l := flog_after r x old (normal (free_blk r))]> (eflogs fs ph)).
      { eapply (owned_swap a m); try done; [apply Hi|by eapply cinv_entered|].
        intros i Hxi Hne. by apply Hei. }
      apply list_eq. intros j. destruct (decide (j = l)) as [->|?].
      * rewrite list_lookup_insert_eq, eflogs_lookup, fn_lookup_insert, Hr; [done|].
        unfold eflogs. rewrite length_imap. by eapply lookup_lt_Some.
      * by rewrite list_lookup_insert_ne, !eflogs_lookup, fn_lookup_insert_ne by done.
    + by apply readers_upd; [apply Hi|..].
  - unfold blk_state. rewrite Hex.
    unfold map_entry_is_error, map_entry_is_zero_or_initial. rewrite normal_flags by done.
    cbn [orb Z.eqb]. f_equal. rewrite (data_block_offset_entry nf lbs size) by
      (rewrite ?normal_lba by done; done || lia).
    rewrite normal_lba by done. rewrite <- Hbuf. symmetry. by apply mread_agree, Hblk.
  - intros i Hxi Hne. by apply Hei.
Qed.

Lemma step_flag m m' fs R L ph l x old setf :
  cinv m fs R L ph -> ph l = SOld x old ->
  setf = BTT_MAP_ENTRY_ZERO \/ setf = BTT_MAP_ENTRY_ERROR ->
  m' ≡ apply_event m (ev_map a x (Z.lor (entry_lba old) setf)) ->
  cinv m' fs R L (<[l := Rel x]> ph) /\
  blk_state m' a lbs x = (if setf =? BTT_MAP_ENTRY_ZERO then BZero else BError) /\
  forall i, 0 <= i < external_nlba a -> i <> x -> blk_state m' a lbs i = blk_state m a lbs i.
Proof.
  intros Hi Hp Hs Hm.
  assert (l < nln)%nat as Hl by (apply (ci_lane Hi); by rewrite Hp).
  pose proof (cl_eff (ci_claims Hi l) x old ltac:(by rewrite Hp)) as Hold.
  destruct (map_write_rest _ _ _ _ _ _ l x _ Hi ltac:(by rewrite Hp) Hm)
    as (Hex & Hfl & Hcl & Hblk & Hei).
  rewrite <- Hold in Hex.
  destruct (setf_entry lbs a m m' x setf Hs Hex) as [Hbi Hst]; [intros i Hxi Hne; by apply Hei|].
  split_and!; [|done|intros i Hxi Hne; by apply Hei].
  eapply cinv_step; try done.
  - constructor. by rewrite Hp.
  - intros j q _ Hq. by apply flog_inv_agree, (Hfl j q).
  - intros q Hq. rewrite Hp. by apply flog_inv_agree, (Hfl l q).
  - rewrite eflogs_keep by (intros q _; by rewrite Hp). eapply owned_same_blk; [done|apply Hi].
  - by apply readers_upd; [apply Hi|..].
Qed.
End Steps.
