(* ===== verification/BttConcState.v ===== *)
(** BttConcState: the BTT with lanes inside it.

    [ginv] is the invariant of the whole run-time state and the media while
    lanes are anywhere in the routines: the invariant of every arena, as that
    arena sees the lanes, and the device the media holds.  [ginv_move] turns a
    step of one lane in one arena into a step of the whole. *)

From stdpp Require Import functions.
From S2P Require Import Prelude Mem BttLayout Prog Btt BttInv BttSpec BttConc BttConcInv BttConcStep.

(** The phase of a lane, with the arena it is in. *)
Definition gphase : Type := nat * phase.

(** The phases as one arena sees them: lanes elsewhere are idle. *)
Definition local (i : nat) (G : list gphase) (l : nat) : phase :=
  match G !! l with
  | Some (j, p) => if decide (j = i) then p else Idle
  | None => Idle
  end.

(** An arena with its run-time tables replaced. *)
Definition dyn (a : arena) (fs : list flog_runtime) (R : list Z) (L : list bool) : arena :=
  set_map_locks (set_rtt (set_flogs a fs) R) L.

Section Conc.
Context {N : Type} `{NsLaws N} `{Allocator}.

(** The BTT as it was opened: what does not change while the lanes run. *)
Context (s0 : btt) (m0 : mem) (size : Z) (Hinv0 : btt_inv size s0 m0).

Definition nlanes : nat := Z.to_nat (nlane s0).
Definition lk (x : Z) : nat := map_lock_num s0 x.

Abbreviation arena_cinv := (cinv (nfree s0) (nlba s0) (lbasize s0) nlanes lk).

(** What the arenas have in common with those that were opened. *)
Record shape (s : btt) : Prop := {
  sh_st : s = set_arenas s0 (arenas s);
  sh_len : length (arenas s) = length (arenas s0);
  sh_arena : forall i a, arenas s0 !! i = Some a ->
    exists fs R L, arenas s !! i = Some (dyn a fs R L);
}.

(** The media holds the device. *)
Definition dev_ok (d : device) (m : mem) : Prop :=
  d_nlba d = nlba s0 /\
  forall lba, 0 <= lba < nlba s0 -> d_ro d lba = abs_ro s0 lba /\ d_blocks d lba = abs_block s0 m lba.

Record ginv (n : N) (s : btt) (d : device) (G : list gphase) : Prop := {
  gi_size : ns_size n = size;
  gi_lanes : length G = nlanes;
  gi_shape : shape s;
  gi_arena : forall i a fs R L, arenas s0 !! i = Some a -> arenas s !! i = Some (dyn a fs R L) ->
    arena_cinv a (ns_mem n) fs R L (local i G);
  gi_dev : dev_ok d (ns_mem n);
}.

(** *** The opened BTT *)

Lemma arena_geom i a : arenas s0 !! i = Some a ->
  geom_ok (nfree s0) (lbasize s0) size a /\ external_nlba a <= nlba s0.
Proof. intros Ha. destruct (bi_arena _ _ _ Hinv0 i a Ha). done. Qed.

Lemma arena_sep i j a b : arenas s0 !! i = Some a -> arenas s0 !! j = Some b -> i <> j ->
  arena_end a (nfree s0) <= startoff b \/ arena_end b (nfree s0) <= startoff a.
Proof.
  intros Ha Hb Hne. destruct (decide (i < j)%nat); [left|right];
    (eapply (bi_sep _ _ _ Hinv0); [|done|done]); lia.
Qed.

Lemma nlanes_le i a : arenas s0 !! i = Some a -> Z.of_nat nlanes <= nfree s0.
Proof.
  intros Ha. destruct (arena_geom i a Ha) as [Hg _]. pose proof (g_nf _ _ _ _ Hg).
  pose proof (bi_nlane _ _ _ Hinv0). unfold nlanes. lia.
Qed.

Lemma lk_bound i a : arenas s0 !! i = Some a -> forall x, Z.of_nat (lk x) < nfree s0.
Proof.
  intros Ha x. destruct (arena_geom i a Ha) as [Hg _]. pose proof (g_nf _ _ _ _ Hg).
  pose proof (map_lock_num_bound s0 x ltac:(lia)). unfold lk. lia.
Qed.

(** *** Looking up an LBA needs the shape only *)

Lemma lba_to_arena_ext ars ars' k lba :
  length ars' = length ars ->
  (forall i a, ars !! i = Some a -> exists b, ars' !! i = Some b /\ external_nlba b = external_nlba a) ->
  lba_to_arena_lba ars' k lba = lba_to_arena_lba ars k lba.
Proof.
  revert ars' k lba. induction ars as [|a ars IH]; intros [|a' ars'] k lba Hl He;
    cbn in Hl; try lia; [done|].
  cbn [lba_to_arena_lba]. destruct (He 0%nat a eq_refl) as (b & [= ->] & ->).
  rewrite IH; [done|lia|]. intros i c Hc. exact (He (S i) c Hc).
Qed.

Lemma shape_lookup s lba :
  shape s -> lba_to_arena_lba (arenas s) 0 lba = lba_to_arena_lba (arenas s0) 0 lba.
Proof.
  intros [_ Hl Ha]. apply lba_to_arena_ext; [done|]. intros i a E.
  destruct (Ha i a E) as (fs & R & L & ->). by eexists.
Qed.

Lemma shape_put s i a fs R L :
  shape s -> arenas s0 !! i = Some a -> shape (put_arena s i (dyn a fs R L)).
Proof.
  intros [Hs Hl Ha] Ei. assert (i < length (arenas s))%nat as Hlen.
  { rewrite Hl. by eapply lookup_lt_Some. }
  split.
  - rewrite Hs. done.
  - cbn. by rewrite length_insert.
  - intros j b E. cbn. destruct (decide (j = i)) as [->|Hne].
    + rewrite list_lookup_insert_eq by done. simplify_eq. eauto.
    + rewrite list_lookup_insert_ne by done. eauto.
Qed.

(** *** The device *)

Lemma dev_ok_frame d m m' :
  dev_ok d m -> (forall lba, 0 <= lba < nlba s0 -> abs_block s0 m' lba = abs_block s0 m lba) ->
  dev_ok d m'.
Proof. intros [Hn Hd] He. split; [done|]. intros l Hl. rewrite He by done. auto. Qed.

(** A write of a lane in arena [i]: the other arenas' blocks stay. *)
Lemma ginv_other n s d G i a m' j y b :
  ginv n s d G -> arenas s0 !! i = Some a ->
  only (ns_mem n) m' (startoff a) (arena_end a (nfree s0) - startoff a) ->
  arenas s0 !! j = Some b -> j <> i -> 0 <= y < external_nlba b ->
  blk_state m' b (lbasize s0) y = blk_state (ns_mem n) b (lbasize s0) y.
Proof.
  intros Hi Ha Ho Hb Hne Hy. destruct (arena_geom j b Hb) as [Hg _].
  destruct (sh_arena _ (gi_shape _ _ _ _ Hi) j b Hb) as (fs & R & L & Ej).
  pose proof (ci_owned (gi_arena _ _ _ _ Hi j b fs R L Hb Ej)) as Hown.
  pose proof (geom_blk_bounds _ _ _ _ Hg _ (owned_blk_bounds _ _ _ _ Hown Hy)).
  pose proof (geom_regions _ _ _ _ Hg) as Hr. destruct (arena_geom i a Ha) as [Hga _].
  pose proof (geom_regions _ _ _ _ Hga) as Hra.
  pose proof (arena_sep i j a b Ha Hb ltac:(congruence)) as Hsep.
  unfold arena_end, BTT_INFO_SIZE in *. eapply blk_state_frame; try done; lia.
Qed.

(** One block at most changes. *)
Lemma ginv_blocks n s d G i a m' :
  ginv n s d G -> arenas s0 !! i = Some a ->
  only (ns_mem n) m' (startoff a) (arena_end a (nfree s0) - startoff a) ->
  (forall y, 0 <= y < external_nlba a ->
     blk_state m' a (lbasize s0) y = blk_state (ns_mem n) a (lbasize s0) y) ->
  dev_ok d m'.
Proof.
  intros Hi Ha Ho Hy. eapply dev_ok_frame; [by apply Hi|]. intros l Hl. unfold abs_block.
  destruct (inv_lookup _ _ _ l Hinv0 Hl) as (k & c & y & Ek & Hc & Hyr & _). rewrite Ek, Hc.
  destruct (decide (k = i)) as [->|Hne]; [simplify_eq; by apply Hy|by apply (ginv_other n s d G i a m' k y c)].
Qed.

Lemma ginv_block_set n s d G i a m' x lba b :
  ginv n s d G -> arenas s0 !! i = Some a ->
  only (ns_mem n) m' (startoff a) (arena_end a (nfree s0) - startoff a) ->
  0 <= lba < nlba s0 -> lba_to_arena_lba (arenas s0) 0 lba = Some (i, x) ->
  blk_state m' a (lbasize s0) x = b ->
  (forall y, 0 <= y < external_nlba a -> y <> x ->
     blk_state m' a (lbasize s0) y = blk_state (ns_mem n) a (lbasize s0) y) ->
  dev_ok (d_set d lba b) m'.
Proof.
  intros Hi Ha Ho Hlba Ex Hb Hy. destruct (gi_dev _ _ _ _ Hi) as [Hn Hd].
  split; [done|]. intros l Hl. destruct (Hd l Hl) as [Hro Hbl]. split; [done|].
  cbn [d_set d_blocks]. unfold abs_block in *.
  destruct (inv_lookup _ _ _ l Hinv0 Hl) as (k & c & y & Ek & Hc & Hyr & _). rewrite Ek, Hc in *.
  destruct (decide (l = lba)) as [->|Hne]; [by simplify_eq|]. rewrite Hbl.
  destruct (decide (k = i)) as [->|Hne']; [|symmetry; by apply (ginv_other n s d G i a m' k y c)].
  simplify_eq. symmetry. apply Hy; [done|]. intros ->. apply Hne. by eapply inv_lookup_inj.
Qed.

(** *** One lane moves *)

Lemma local_same i (G : list gphase) l p' k :
  (l < length G)%nat -> local i (<[l := (i, p')]> G) k = <[l := p']> (local i G) k.
Proof.
  intros Hl. unfold local. destruct (decide (k = l)) as [->|Hne].
  - rewrite list_lookup_insert_eq, fn_lookup_insert by done. by destruct (decide (i = i)).
  - by rewrite list_lookup_insert_ne, fn_lookup_insert_ne by done.
Qed.

Lemma local_other i j (G : list gphase) l p p' j0 k :
  j <> i -> G !! l = Some (j0, p) -> (j0 = i \/ p = Idle) ->
  local j (<[l := (i, p')]> G) k = local j G k.
Proof.
  intros Hne Hl Hp. unfold local. destruct (decide (k = l)) as [->|Hk].
  - rewrite list_lookup_insert_eq by (by eapply lookup_lt_Some). rewrite Hl.
    destruct (decide (i = j)); [congruence|]. destruct (decide (j0 = j)) as [->|]; [|done].
    destruct Hp as [-> | ->]; [congruence|done].
  - by rewrite list_lookup_insert_ne by done.
Qed.

Lemma local_at i G l p : G !! l = Some (i, p) -> local i G l = p.
Proof. intros E. unfold local. rewrite E. by destruct (decide (i = i)). Qed.

Lemma local_enter i j G l p : G !! l = Some (j, p) -> (j = i \/ p = Idle) -> local i G l = p.
Proof. intros E Hp. unfold local. rewrite E. destruct (decide (j = i)) as [->|]; [done|]. by destruct Hp. Qed.

Lemma ginv_move n n' s d d' G i a l j p p' fs R L fs' R' L' :
  ginv n s d G -> arenas s0 !! i = Some a -> G !! l = Some (j, p) -> (j = i \/ p = Idle) ->
  arenas s !! i = Some (dyn a fs R L) ->
  arena_cinv a (ns_mem n') fs' R' L' (<[l := p']> (local i G)) ->
  ns_size n' = ns_size n ->
  only (ns_mem n) (ns_mem n') (startoff a) (arena_end a (nfree s0) - startoff a) ->
  dev_ok d' (ns_mem n') ->
  ginv n' (put_arena s i (dyn a fs' R' L')) d' (<[l := (i, p')]> G).
Proof.
  intros Hi Ha Hl Hp Es Hc Hsz Ho Hd. destruct Hi. split.
  - congruence.
  - by rewrite length_insert.
  - by apply shape_put.
  - intros k b fs2 R2 L2 Hb E. cbn in E. destruct (decide (k = i)) as [->|Hne].
    + rewrite list_lookup_insert_eq in E by (by eapply lookup_lt_Some). simplify_eq.
      eapply cinv_ext; [|done]. intros q. apply local_same. by eapply lookup_lt_Some.
    + rewrite list_lookup_insert_ne in E by done.
      eapply cinv_ext; [intros q; by eapply local_other|].
      destruct (arena_geom k b Hb) as [Hgb Hxb].
      eapply (cinv_agree _ _ _ _ _ _ _ Hgb (nlanes_le k b Hb)); [|by eapply gi_arena0].
      destruct (arena_geom i a Ha) as [Hga _].
      pose proof (geom_regions _ _ _ _ Hga) as Hra. pose proof (geom_regions _ _ _ _ Hgb) as Hrb.
      apply agree_sym. eapply only_agree; [done|].
      pose proof (arena_sep i k a b Ha Hb ltac:(congruence)) as Hsep.
      unfold arena_end, BTT_INFO_SIZE in *. lia.
  - done.
Qed.

(** The arena of an idle lane does not matter. *)
Lemma ginv_reindex n s d G l i j :
  ginv n s d G -> G !! l = Some (j, Idle) -> ginv n s d (<[l := (i, Idle)]> G).
Proof.
  intros [] Hl. split; [done|by rewrite length_insert|done| |done].
  intros k b fs R L Hb E. eapply cinv_ext; [|by eapply gi_arena0]. intros q. unfold local.
  destruct (decide (q = l)) as [->|Hne].
  - rewrite list_lookup_insert_eq by (by eapply lookup_lt_Some). rewrite Hl.
    by repeat case_decide.
  - by rewrite list_lookup_insert_ne.
Qed.
End Conc.
