(* ===== verification/BttConcWp.v ===== *)
(** BttConcWp: what a lane's program may do, and the rules to show it.

    [wp p Q g as]: from the phase [g] and the state [as] of its call, every
    step of [p] keeps the invariant, whatever the other lanes did in between,
    touches only the bytes its phase allows, moves the call at most once into
    effect, and waits only for something a lane will give; [Q] holds at the
    end.  There is one rule per primitive of [Prog]. *)

From stdpp Require Import functions.
From S2P Require Import Prelude Mem BttLayout Prog Btt BttInv BttSpec BttConc BttConcInv BttConcStep BttConcState.

Section Wp.
Context {N : Type} `{NsLaws N} `{Allocator}.
Context (s0 : btt) (m0 : mem) (size : Z) (Hinv0 : btt_inv size s0 m0).

Abbreviation ginv := (ginv s0 size).
Abbreviation nlanes := (nlanes s0).
Abbreviation lbs := (lbasize s0).
Abbreviation acinv := (cinv (nfree s0) (nlba s0) lbs nlanes (lk s0)).

(** Between two steps of the lane its call may take effect. *)
Inductive lin (d : device) : alane -> device -> alane -> Prop :=
| lin_none c : lin d c d c
| lin_effect c : lin d (ACalled c) (snd (spec_call lbs c d)) (ADone (fst (spec_call lbs c d))).

(** *** The bytes a phase allows *)

Definition is_entry (o c : Z) : Prop :=
  exists i a x, arenas s0 !! i = Some a /\ 0 <= x < external_nlba a /\ o = mapoff a + 4 * x /\ c = 4.

Definition may_read (g : gphase) (o c : Z) : Prop :=
  is_entry o c \/
  exists a b bs, arenas s0 !! g.1 = Some a /\ g.2 = Prot b bs /\ o = blk_off a b /\ c = lbs.

Definition may_write (g : gphase) (o c : Z) : Prop :=
  exists a, arenas s0 !! g.1 = Some a /\
  match g.2 with
  | Scan r k => k = nlanes /\ o = blk_off a (free_blk r) /\ c = lbs
  | WOld r _ _ _ => o = flog_slot r /\ c = 8
  | WHalf r _ _ _ => o = flog_slot r + 8 /\ c = 8
  | WSwap _ x _ _ | SOld x _ => o = mapoff a + 4 * x /\ c = 4
  | _ => False
  end.

(** *** What a lane may wait for *)

Definition lock_held (G : list gphase) : Prop :=
  exists j (g : gphase), G !! j = Some g /\ holds g.2 <> None.
Definition rtt_in_use (s : btt) : Prop :=
  exists i a k v, arenas s !! i = Some a /\ (k < nlanes)%nat /\ rtt a !! k = Some v /\
    v <> BTT_MAP_ENTRY_ERROR.

Section Lane.
Context (l : nat) (blocking : bool).

Definition waits (g : gphase) (s : btt) (G : list gphase) : Prop :=
  blocking = true /\ holds g.2 = None /\ (lock_held G \/ rtt_in_use s).

(** The invariant after the step, for some phase and device. *)
Definition steps_to (n : N) (s : btt) (d : device) (G : list gphase) (c : alane)
    (K : gphase -> alane -> Prop) : Prop :=
  exists d' g' c', lin d c d' c' /\ ginv n s d' (<[l := g']> G) /\ K g' c'.

Fixpoint wp {A} (p : prog A) (Q : errno + A -> gphase -> alane -> Prop)
    (g : gphase) (c : alane) : Prop :=
  match p with
  | Ret a => Q (inr a) g c
  | Throw e => Q (inl e) g c
  | Crash f => f = OutOfFuel
  | NsRead ln count off k =>
      may_read g off count /\
      forall n s d G, ginv n s d G -> G !! l = Some g ->
        steps_to n s d G c (wp (k (nsread n ln count off)) Q)
  | NsWrite ln bs off k =>
      may_write g off (Z.of_nat (length bs)) /\
      forall n s d G, ginv n s d G -> G !! l = Some g ->
        match nswrite n ln bs off with
        | inl e => steps_to n s d G c (wp (k (inl e)) Q)
        | inr n' => steps_to n' s d G c (wp (k (inr tt)) Q)
        end
  | NsZero _ _ _ _ | NsMap _ _ _ _ | NsIsZeroed _ | Malloc _ _ => False
  | Step gd u k =>
      forall n s d G, ginv n s d G -> G !! l = Some g ->
        if gd s then steps_to n (u s) d G c (wp (k s) Q) else waits g s G
  end.

(** *** Structural rules *)

Lemma steps_to_mono n s d G c (K K' : gphase -> alane -> Prop) :
  (forall g c, K g c -> K' g c) -> steps_to n s d G c K -> steps_to n s d G c K'.
Proof. intros HK (d' & g' & c' & ? & ? & ?). exists d', g', c'. auto. Qed.

(** The inductions on programs: what holds after a step holds by induction. *)
Ltac wp_step IH :=
  try done;
  repeat match goal with
  | Hw : may_read _ _ _ /\ _ |- _ => destruct Hw as [? Hw]; split; [done|]
  | Hw : may_write _ _ _ /\ _ |- _ => destruct Hw as [? Hw]; split; [done|]
  end;
  let n := fresh in let s := fresh in let d := fresh in let G := fresh in
  intros n s d G ? ?;
  match goal with Hw : forall n s d G, _ |- _ => specialize (Hw n s d G ltac:(done) ltac:(done)) end;
  repeat case_match; try done;
  (eapply steps_to_mono; [|eassumption]; intros ? ?; apply IH).

Lemma cwp_bind {A B} (p : prog A) (f : A -> prog B) Q g c :
  wp p (fun r g c => match r with inr a => wp (f a) Q g c | inl e => Q (inl e) g c end) g c ->
  wp (bind p f) Q g c.
Proof.
  revert g c. induction p as [a|e|f0|ln cn o k IH|ln b o k IH|ln cn o k IH|ln cn o k IH|k IH|sz k IH|gd u k IH];
    intros g c Hw; cbn [bind wp] in *; wp_step IH.
Qed.

Lemma wp_catch {A} (p : prog A) (Q : errno + (errno + A) -> gphase -> alane -> Prop) g c :
  wp p (fun r => Q (inr r)) g c -> wp (catch p) Q g c.
Proof.
  revert g c. induction p as [a|e|f0|ln cn o k IH|ln b o k IH|ln cn o k IH|ln cn o k IH|k IH|sz k IH|gd u k IH];
    intros g c Hw; cbn [catch wp] in *; wp_step IH.
Qed.

Lemma cwp_mono {A} (p : prog A) (Q Q' : errno + A -> gphase -> alane -> Prop) g c :
  (forall r g c, Q r g c -> Q' r g c) -> wp p Q g c -> wp p Q' g c.
Proof.
  intros HQ. revert g c.
  induction p as [a|e|f0|ln cn o k IH|ln b o k IH|ln cn o k IH|ln cn o k IH|k IH|sz k IH|gd u k IH];
    intros g c Hw; cbn [wp] in *; auto; wp_step IH.
Qed.

(** *** Steps that change nothing *)

Lemma steps_stay n s d G g c (K : gphase -> alane -> Prop) :
  ginv n s d G -> G !! l = Some g -> K g c -> steps_to n s d G c K.
Proof.
  intros Hi Hl HK. exists d, g, c. rewrite list_insert_id by done. split; [constructor|done].
Qed.

(** A call that has no effect on the device returns. *)
Lemma lin_done d op r : spec_call lbs op d = (r, d) -> lin d (ACalled op) d (ADone r).
Proof. intros E. pose proof (lin_effect d op) as Hlin. by rewrite E in Hlin. Qed.

Lemma steps_effect n s d G g op r (K : gphase -> alane -> Prop) :
  ginv n s d G -> G !! l = Some g -> spec_call lbs op d = (r, d) -> K g (ADone r) ->
  steps_to n s d G (ACalled op) K.
Proof.
  intros Hi Hl E HK. exists d, g, (ADone r). rewrite list_insert_id by done.
  split; [by apply lin_done|done].
Qed.

Lemma wp_get (Q : errno + btt -> gphase -> alane -> Prop) g c :
  (forall n s d G, ginv n s d G -> G !! l = Some g -> steps_to n s d G c (Q (inr s))) ->
  wp get Q g c.
Proof. intros HQ n s d G Hi Hl. cbn. by apply HQ. Qed.

Lemma wp_get_static (Q : errno + btt -> gphase -> alane -> Prop) g c :
  (forall s, shape s0 s -> Q (inr s) g c) -> wp get Q g c.
Proof.
  intros HQ. apply wp_get. intros n s d G Hi Hl. eapply steps_stay; [done..|]. apply HQ, Hi.
Qed.

Lemma wp_get_effect (Q : errno + btt -> gphase -> alane -> Prop) g op r :
  (forall n s d G, ginv n s d G -> spec_call lbs op d = (r, d)) ->
  (forall s, shape s0 s -> Q (inr s) g (ADone r)) -> wp get Q g (ACalled op).
Proof.
  intros Hop HQ. apply wp_get. intros n s d G Hi Hl.
  eapply steps_effect; [done..|by eapply Hop|]. apply HQ, Hi.
Qed.

Lemma wp_deref {A} (o : option A) x (Q : errno + A -> gphase -> alane -> Prop) g c :
  o = Some x -> Q (inr x) g c -> wp (deref o) Q g c.
Proof. by intros -> ?. Qed.

Lemma wp_of_result {A} (x : A) (Q : errno + A -> gphase -> alane -> Prop) g c :
  Q (inr x) g c -> wp (of_result (inr x)) Q g c.
Proof. done. Qed.

(** The tables of an arena have one slot per lane at least. *)
Lemma ginv_lengths n s d G i a :
  ginv n s d G -> arenas s0 !! i = Some a ->
  exists fs R L, arenas s !! i = Some (dyn a fs R L) /\
    Z.of_nat (length fs) = nfree s0 /\ Z.of_nat (length R) = nfree s0 /\
    Z.of_nat (length L) = nfree s0.
Proof.
  intros Hi Ha. destruct (sh_arena _ _ (gi_shape _ _ _ _ _ _ Hi) i a Ha) as (fs & R & L & E).
  pose proof (gi_arena _ _ _ _ _ _ Hi i a fs R L Ha E) as Hc.
  exists fs, R, L. split_and!; [done|apply (ci_fs Hc)|apply (ci_R Hc)|apply (lo_len (ci_locks Hc))].
Qed.

Lemma wp_get_arena i a (Q : errno + arena -> gphase -> alane -> Prop) g c :
  arenas s0 !! i = Some a ->
  (forall fs R L, Z.of_nat (length fs) = nfree s0 -> Z.of_nat (length R) = nfree s0 ->
     Z.of_nat (length L) = nfree s0 -> Q (inr (dyn a fs R L)) g c) ->
  wp (get_arena i) Q g c.
Proof.
  intros Ha HQ. apply cwp_bind, wp_get. intros n s d G Hi Hl.
  destruct (ginv_lengths n s d G i a Hi Ha) as (fs & R & L & E & Hf & HR & HL).
  eapply steps_stay; [done..|]. eapply wp_deref; [done|]. by apply HQ.
Qed.

(** *** Accesses to the namespace *)

Lemma wp_read_ns ln count off (Q : errno + list byte -> gphase -> alane -> Prop) g c :
  0 <= off -> 0 <= count -> off + count <= size -> may_read g off count ->
  (forall n s d G, ginv n s d G -> G !! l = Some g ->
     steps_to n s d G c (Q (inr (mread (ns_mem n) off count)))) ->
  wp (read_ns ln count off) Q g c.
Proof.
  intros Ho Hc Hb Hm HQ. split; [done|]. intros n s d G Hi Hl.
  rewrite nsread_ok by (rewrite ?(gi_size _ _ _ _ _ _ Hi); lia). by apply HQ.
Qed.

Lemma wp_write_ns ln bs off (Q : errno + unit -> gphase -> alane -> Prop) g c :
  0 <= off -> off + Z.of_nat (length bs) <= size -> may_write g off (Z.of_nat (length bs)) ->
  (forall n n' s d G, ginv n s d G -> G !! l = Some g -> wrote n n' (EvWrite off bs) ->
     steps_to n' s d G c (Q (inr tt))) ->
  wp (write_ns ln bs off) Q g c.
Proof.
  intros Ho Hb Hm HQ. split; [done|]. intros n s d G Hi Hl.
  destruct (nswrite_ok n ln bs off) as (n' & E & Hs & Hz & Hmem);
    [lia|rewrite (gi_size _ _ _ _ _ _ Hi); lia|].
  rewrite E. by eapply HQ.
Qed.

(** *** Steps inside one arena *)

(** What the lane sees of arena [i] when it is in it, or nowhere. *)
Lemma ginv_at n s d G i a j p :
  ginv n s d G -> arenas s0 !! i = Some a -> G !! l = Some (j, p) -> (j = i \/ p = Idle) ->
  (l < nlanes)%nat /\ local i G l = p /\
  exists fs R L, arenas s !! i = Some (dyn a fs R L) /\
    acinv a (ns_mem n) fs R L (local i G).
Proof.
  intros Hi Ha Hl Hp. split_and!.
  - rewrite <- (gi_lanes _ _ _ _ _ _ Hi). by eapply lookup_lt_Some.
  - by eapply local_enter.
  - destruct (ginv_lengths n s d G i a Hi Ha) as (fs & R & L & E & _).
    exists fs, R, L. split; [done|]. by eapply (gi_arena _ _ _ _ _ _ Hi).
Qed.

(** A step of the run-time state of the arena. *)
Lemma steps_arena n s d G i a j p p' fs R L fs' R' L' c (K : gphase -> alane -> Prop) :
  ginv n s d G -> arenas s0 !! i = Some a -> G !! l = Some (j, p) -> (j = i \/ p = Idle) ->
  arenas s !! i = Some (dyn a fs R L) ->
  acinv a (ns_mem n) fs' R' L' (<[l := p']> (local i G)) ->
  K (i, p') c -> steps_to n (put_arena s i (dyn a fs' R' L')) d G c K.
Proof.
  intros Hi Ha Hl Hp E Hc HK. exists d, (i, p'), c. split_and!; [constructor| |done].
  eapply ginv_move; try done. apply Hi.
Qed.

(** A step of the phase alone, with which the call may take effect. *)
Lemma steps_phase n s d G i a j p p' fs R L c c' (K : gphase -> alane -> Prop) :
  ginv n s d G -> arenas s0 !! i = Some a -> G !! l = Some (j, p) -> (j = i \/ p = Idle) ->
  arenas s !! i = Some (dyn a fs R L) ->
  acinv a (ns_mem n) fs R L (<[l := p']> (local i G)) ->
  lin d c d c' -> K (i, p') c' -> steps_to n s d G c K.
Proof.
  intros Hi Ha Hl Hp E Hc Hlin HK. exists d, (i, p'), c'. split_and!; [done| |done].
  rewrite <- (put_arena_same s i (dyn a fs R L)) by done.
  eapply ginv_move; try done. apply Hi.
Qed.

(** A write to the media that leaves every block as it was. *)
Lemma steps_write n n' s d G i a p p' fs R L c (K : gphase -> alane -> Prop) ev :
  ginv n s d G -> arenas s0 !! i = Some a -> G !! l = Some (i, p) ->
  arenas s !! i = Some (dyn a fs R L) -> wrote n n' ev ->
  only (ns_mem n) (ns_mem n') (startoff a) (arena_end a (nfree s0) - startoff a) ->
  acinv a (ns_mem n') fs R L (<[l := p']> (local i G)) /\
  (forall y, 0 <= y < external_nlba a ->
     blk_state (ns_mem n') a lbs y = blk_state (ns_mem n) a lbs y) ->
  K (i, p') c -> steps_to n' s d G c K.
Proof.
  intros Hi Ha Hl E (Hsz & _ & _) Ho [Hc Hy] HK. exists d, (i, p'), c. split_and!; [constructor| |done].
  rewrite <- (put_arena_same s i (dyn a fs R L)) by done.
  eapply ginv_move; try done; [by left|]. by eapply ginv_blocks.
Qed.

(** A write to the media that takes the call into effect on one block. *)
Lemma steps_effect_write n n' s d G i a p p' fs R L (K : gphase -> alane -> Prop) ev lba x b op r :
  ginv n s d G -> arenas s0 !! i = Some a -> G !! l = Some (i, p) ->
  arenas s !! i = Some (dyn a fs R L) -> wrote n n' ev ->
  only (ns_mem n) (ns_mem n') (startoff a) (arena_end a (nfree s0) - startoff a) ->
  0 <= lba < nlba s0 -> lba_to_arena_lba (arenas s0) 0 lba = Some (i, x) ->
  spec_call lbs op d = (r, d_set d lba b) ->
  acinv a (ns_mem n') fs R L (<[l := p']> (local i G)) /\
  blk_state (ns_mem n') a lbs x = b /\
  (forall y, 0 <= y < external_nlba a -> y <> x ->
     blk_state (ns_mem n') a lbs y = blk_state (ns_mem n) a lbs y) ->
  K (i, p') (ADone r) -> steps_to n' s d G (ACalled op) K.
Proof.
  intros Hi Ha Hl E (Hsz & _ & _) Ho Hlba Ex Hop (Hc & Hb & Hy) HK.
  exists (d_set d lba b), (i, p'), (ADone r). split_and!; [| |done].
  - pose proof (lin_effect d op) as Hlin. by rewrite Hop in Hlin.
  - rewrite <- (put_arena_same s i (dyn a fs R L)) by done.
    eapply ginv_move; try done; [by left|]. by eapply ginv_block_set.
Qed.

Lemma upd_arena_dyn s i a fs R L f fs' R' L' :
  arenas s !! i = Some (dyn a fs R L) -> f (dyn a fs R L) = dyn a fs' R' L' ->
  upd_arena s i f = put_arena s i (dyn a fs' R' L').
Proof. intros E Ef. rewrite (upd_arena_put _ _ (dyn a fs R L)) by done. by rewrite Ef. Qed.

(** Updating the run-time state of the arena under the invariant. *)
Lemma wp_mod_arena i a f j p p' (Q : errno + unit -> gphase -> alane -> Prop) c :
  arenas s0 !! i = Some a -> (j = i \/ p = Idle) ->
  (forall m fs R L ph, (l < nlanes)%nat -> ph l = p ->
     acinv a m fs R L ph ->
     exists fs' R' L', f (dyn a fs R L) = dyn a fs' R' L' /\
       acinv a m fs' R' L' (<[l := p']> ph)) ->
  Q (inr tt) (i, p') c -> wp (mod_arena i f) Q (j, p) c.
Proof.
  intros Ha Hp Hf HQ n s d G Hi Hl. cbn.
  destruct (ginv_at n s d G i a j p Hi Ha Hl Hp) as (Hlane & Hph & fs & R & L & E & Hc).
  destruct (Hf _ _ _ _ _ Hlane Hph Hc) as (fs' & R' & L' & Ef & Hc').
  rewrite (upd_arena_dyn s i a fs R L f fs' R' L') by done.
  by eapply steps_arena.
Qed.
End Lane.
End Wp.
