(* ===== verification/BttConcOps.v ===== *)
(** BttConcOps: the routines of the BTT under interference.

    Each routine, run on its lane with the other lanes at any point of theirs,
    takes its call into effect exactly once and returns what the device says;
    at its end the lane is out of the arena. *)

From stdpp Require Import functions.
From S2P Require Import Prelude Mem BttLayout Prog Btt BttInv BttSpec BttConc BttConcInv BttConcStep BttConcState BttConcWp.

Section Ops.
Context {N : Type} `{NsLaws N} `{Allocator}.
Context (s0 : btt) (m0 : mem) (size : Z) (Hinv0 : btt_inv size s0 m0).

Abbreviation ginv := (ginv s0 size).
Abbreviation nlanes := (nlanes s0).
Abbreviation lbs := (lbasize s0).
Abbreviation acinv := (cinv (nfree s0) (nlba s0) lbs nlanes (lk s0)).

(** The end of a routine: the lane has left, and the call has its result. *)
Definition finished {A} (f : A -> list byte) (r : errno + A) (g : gphase) (c : alane) : Prop :=
  g.2 = Idle /\ c = ADone (match r with inl e => inl e | inr a => inr (f a) end).

Section Lane.
Context (l : nat) (blocking : bool).

Abbreviation wp := (wp s0 size l blocking).

(** *** What the device answers *)

Lemma spec_read_beyond n s d G lba :
  ginv n s d G -> nlba s0 <= lba -> spec_call lbs (CRead lba) d = (inl EINVAL, d).
Proof.
  intros Hi Hl. cbn. unfold spec_read. rewrite (proj1 (gi_dev _ _ _ _ _ _ Hi)). by ztrue.
Qed.

(** The block an LBA names, as the media has it. *)
Lemma spec_read_at n s d G lba i a x :
  ginv n s d G -> 0 <= lba < nlba s0 -> lba_to_arena_lba (arenas s0) 0 lba = Some (i, x) ->
  arenas s0 !! i = Some a ->
  spec_call lbs (CRead lba) d =
  (match blk_state (ns_mem n) a lbs x with
   | BError => inl EIO
   | BZero => inr (replicate (Z.to_nat lbs) x00)
   | BData bs => inr bs
   end, d).
Proof.
  intros Hi Hl Ex Ha. cbn. unfold spec_read. destruct (gi_dev _ _ _ _ _ _ Hi) as [Hn Hd].
  rewrite Hn. ztrue. destruct (Hd lba Hl) as [_ ->]. unfold abs_block. by rewrite Ex, Ha.
Qed.

(** The entry decides for a block in error or zero. *)
Lemma blk_state_error m a x :
  map_entry_is_error (entry_at m a x) = true -> blk_state m a lbs x = BError.
Proof. intros E. unfold blk_state. by rewrite E. Qed.

Lemma blk_state_zero m a x :
  map_entry_is_error (entry_at m a x) = false ->
  map_entry_is_zero_or_initial (entry_at m a x) = true -> blk_state m a lbs x = BZero.
Proof. intros E1 E2. unfold blk_state. by rewrite E1, E2. Qed.

(** *** Reading *)

Section Read.
Context (lba : Z) (i : nat) (a : arena) (x : Z).
Context (Hlba : 0 <= lba < nlba s0) (Ex : lba_to_arena_lba (arenas s0) 0 lba = Some (i, x)).
Context (Ha : arenas s0 !! i = Some a) (Hx : 0 <= x < external_nlba a).

(** Reading an entry that is in error, or zero, is where the call takes effect. *)
Definition read_state (e : Z) : alane :=
  if map_entry_is_error e then ADone (inl EIO)
  else if map_entry_is_zero_or_initial e then ADone (inr (replicate (Z.to_nat lbs) x00))
  else ACalled (CRead lba).

Lemma lin_read n s d G :
  ginv n s d G ->
  lin s0 d (ACalled (CRead lba)) d (read_state (entry_at (ns_mem n) a x)).
Proof.
  intros Hi. pose proof (spec_read_at n s d G lba i a x Hi Hlba Ex Ha) as Hop. unfold read_state.
  destruct (map_entry_is_error (entry_at (ns_mem n) a x)) eqn:E1.
  - rewrite blk_state_error in Hop by done. by apply lin_done.
  - destruct (map_entry_is_zero_or_initial (entry_at (ns_mem n) a x)) eqn:E2; [|constructor].
    rewrite blk_state_zero in Hop by done. by apply lin_done.
Qed.

Lemma entry_bounds :
  map_entry_offset a x = mapoff a + 4 * x /\ 0 <= mapoff a + 4 * x /\ mapoff a + 4 * x + 4 <= size.
Proof.
  destruct (bi_arena _ _ _ Hinv0 i a Ha). destruct (arena_geom s0 m0 size Hinv0 i a Ha) as [Hg _].
  pose proof (geom_regions _ _ _ _ Hg).
  rewrite (map_entry_offset_id (nfree s0) (nlba s0) lbs size m0) by (done || by split). lia.
Qed.

Lemma entry_readable g : may_read s0 g (mapoff a + 4 * x) 4.
Proof. left. by exists i, a, x. Qed.

(** The first look at the entry. *)
Lemma wp_first_entry ln j (Q : errno + list byte -> gphase -> alane -> Prop) :
  (forall bs, 0 <= le_dec bs < 2 ^ 32 -> Q (inr bs) (i, Idle) (read_state (le_dec bs))) ->
  wp (read_ns ln 4 (map_entry_offset a x)) Q (j, Idle) (ACalled (CRead lba)).
Proof.
  intros HQ. destruct entry_bounds as (-> & H1' & H2').
  eapply wp_read_ns; [lia..|apply entry_readable|]. intros n s d G Hi Hl.
  eexists d, (i, Idle), _. split_and!; [by eapply lin_read|by eapply ginv_reindex|].
  apply HQ, (entry_at_range (ns_mem n) a x).
Qed.

(** Publishing the entry. *)
Lemma wp_publish e p (Q : errno + unit -> gphase -> alane -> Prop) c :
  reading p -> Q (inr tt) (i, Pub e) c -> (l < nlanes)%nat ->
  wp (write_rtt i (Z.of_nat l) e) Q (i, p) c.
Proof.
  intros Hp HQ Hlane. pose proof (nlanes_le s0 m0 size Hinv0 i a Ha) as Hn.
  apply cwp_bind. eapply (wp_get_arena s0 size l blocking i a); [done|]. intros fs R L _ HR _.
  apply cwp_bind. unfold at_lane. ztrue. rewrite Nat2Z.id.
  destruct (lookup_lt_is_Some_2 R l) as [v Ev]; [lia|]. eapply wp_deref; [exact Ev|].
  eapply (wp_mod_arena s0 m0 size Hinv0); [done|by left| |exact HQ].
  intros m fs' R' L' ph _ Hph Hc. exists fs', (<[l := e]> R'), L'. split; [done|].
  apply step_pub; [done..|by rewrite Hph].
Qed.

(** Reading the block of a confirmed entry, and leaving. *)
Lemma wp_read_data b bs :
  0 <= b < internal_nlba a -> (l < nlanes)%nat ->
  wp (readret <- catch (read_ns (Z.of_nat l) lbs (blk_off a b)) ;;
      write_rtt i (Z.of_nat l) BTT_MAP_ENTRY_ERROR ;;; of_result readret)
    (finished id) (i, Prot b bs) (ADone (inr bs)).
Proof.
  intros Hb Hlane. destruct (arena_geom s0 m0 size Hinv0 i a Ha) as [Hg _].
  pose proof (geom_blk_bounds _ _ _ _ Hg b Hb). pose proof (geom_regions _ _ _ _ Hg).
  pose proof (nlanes_le s0 m0 size Hinv0 i a Ha) as Hn. pose proof (g_lbs _ _ _ _ Hg).
  apply cwp_bind, wp_catch. eapply wp_read_ns; [lia..| |].
  { right. by exists a, b, bs. }
  intros n s d G Hi Hl.
  destruct (ginv_at s0 size l n s d G i a i (Prot b bs) Hi Ha Hl ltac:(by left))
    as (_ & Hph & fs & R & L & Es & Hc).
  destruct (cl_blk (ci_claims Hc l) b bs ltac:(by rewrite Hph)) as [_ ->].
  eapply steps_stay; [done..|].
  apply cwp_bind, cwp_bind. eapply (wp_get_arena s0 size l blocking i a); [done|]. intros fs1 R1 L1 _ HR _.
  apply cwp_bind. unfold at_lane. ztrue. rewrite Nat2Z.id.
  destruct (lookup_lt_is_Some_2 R1 l) as [v Ev]; [lia|]. eapply wp_deref; [exact Ev|].
  eapply (wp_mod_arena s0 m0 size Hinv0 _ _ _ _ _ _ _ Idle); [done|by left| |done].
  intros m fs' R' L' ph _ Hph' Hc'. eexists fs', _, L'. split; [done|].
  eapply step_leave; [done..|right; by eexists _, _|by right].
Qed.

(** The loop ends with the entry confirmed, or the call already in effect. *)
Lemma wp_read_retry (Q : errno + option Z -> gphase -> alane -> Prop) :
  (l < nlanes)%nat ->
  Q (inl EIO) (i, Idle) (ADone (inl EIO)) ->
  Q (inr None) (i, Idle) (ADone (inr (replicate (Z.to_nat lbs) x00))) ->
  (forall e bs, data_block_offset a e = blk_off a (entry_lba e) ->
     0 <= entry_lba e < internal_nlba a ->
     Q (inr (Some e)) (i, Prot (entry_lba e) bs) (ADone (inr bs))) ->
  forall fuel e p, 0 <= e < 2 ^ 32 -> reading p ->
  (map_entry_is_error e = true \/ map_entry_is_zero_or_initial e = true -> p = Idle) ->
  wp (read_retry fuel (Z.of_nat l) i (map_entry_offset a x) e) Q (i, p) (read_state e).
Proof.
  intros Hlane HE HZ HD. induction fuel as [|fuel IH]; intros e p He Hp Hidle; [done|].
  cbn [read_retry]. unfold read_state.
  destruct (map_entry_is_error e) eqn:E1; [rewrite Hidle by auto; exact HE|].
  destruct (map_entry_is_zero_or_initial e) eqn:E2; [rewrite Hidle by auto; exact HZ|].
  apply cwp_bind, (wp_publish e p); [done| |done].
  apply cwp_bind, wp_catch. destruct entry_bounds as (Eo & H1' & H2'). rewrite Eo.
  eapply wp_read_ns; [lia..|apply entry_readable|]. intros n s d G Hi Hl.
  set (bs := mread _ _ _). assert (le_dec bs = entry_at (ns_mem n) a x) as Ebs by done.
  cbv zeta. rewrite Ebs. pose proof (entry_at_range (ns_mem n) a x) as Hr.
  destruct (ginv_at s0 size l n s d G i a i (Pub e) Hi Ha Hl ltac:(by left))
    as (_ & Hph & fs & R & L & Es & Hc).
  destruct (arena_geom s0 m0 size Hinv0 i a Ha) as [Hg _].
  destruct (Z.eqb_spec e (entry_at (ns_mem n) a x)) as [Ee|Ene].
  - destruct (step_confirm _ _ _ _ _ _ _ Hg _ _ _ _ _ l e x Hc Hph Hx (eq_sym Ee) E1 E2)
      as (Hc' & Hst & Hoff & _ & Hb).
    pose proof (spec_read_at n s d G lba i a x Hi Hlba Ex Ha) as Hop. rewrite Hst in Hop.
    eapply (steps_phase s0 m0 size Hinv0); [done..|by left|done|exact Hc'|by apply lin_done|].
    by apply HD.
  - (* the entry has changed: try again, or leave with the call in effect *)
    specialize (IH (entry_at (ns_mem n) a x)). rewrite Eo in IH.
    pose proof (lin_read n s d G Hi) as Hlin.
    destruct (map_entry_is_error (entry_at (ns_mem n) a x) ||
              map_entry_is_zero_or_initial (entry_at (ns_mem n) a x)) eqn:E3.
    + eapply (steps_phase s0 m0 size Hinv0 _ _ _ _ _ _ _ _ _ Idle);
        [done..|by left|done| |exact Hlin|by apply IH; [|left|]].
      eapply step_leave; [done..|left; rewrite Hph; right; by eexists|by left].
    + apply orb_false_iff in E3 as [E3 E4].
      unfold read_state in IH. rewrite E3, E4 in IH.
      eapply steps_stay; [done..|]. apply IH; [done|right; by eexists|by intros [?|?]].
Qed.
End Read.

(** *** The LBA *)

(** A call beyond the last LBA takes effect at the check. *)
Lemma wp_check_lba lba op (Q : errno + unit -> gphase -> alane -> Prop) g :
  (forall n s d G, ginv n s d G -> nlba s0 <= lba -> spec_call lbs op d = (inl EINVAL, d)) ->
  (nlba s0 <= lba -> Q (inl EINVAL) g (ADone (inl EINVAL))) ->
  (lba < nlba s0 -> Q (inr tt) g (ACalled op)) ->
  wp (check_lba lba) Q g (ACalled op).
Proof.
  intros Hop HE HQ. apply cwp_bind. destruct (Z.le_gt_cases (nlba s0) lba) as [Hl|Hl].
  - apply (wp_get_effect s0 size l blocking _ _ _ (inl EINVAL)); [eauto|].
    intros s [-> _ _]. unfold invalid_lba. cbn [nlba set_arenas]. ztrue. by apply HE.
  - apply wp_get_static. intros s [-> _ _]. unfold invalid_lba. cbn [nlba set_arenas]. ztrue.
    by apply HQ.
Qed.

(** The rest of the prologue of every call: no step changes anything. *)
Lemma wp_find lba i x (Q : errno + nat * Z -> gphase -> alane -> Prop) g c s :
  shape s0 s -> lba_to_arena_lba (arenas s0) 0 lba = Some (i, x) ->
  Q (inr (i, x)) g c -> wp (deref (lba_to_arena_lba (arenas s) 0 lba)) Q g c.
Proof. intros Hs Ex HQ. eapply wp_deref; [|done]. by rewrite (shape_lookup s0 s lba Hs). Qed.

Lemma shape_fields s : shape s0 s ->
  laidout s = true /\ lbasize s = lbs /\ nlane s = nlane s0 /\ nfree s = nfree s0.
Proof. intros [-> _ _]. cbn. split; [apply Hinv0|done]. Qed.

Lemma btt_read_lane fuel lba j :
  0 <= lba -> (l < nlanes)%nat ->
  wp (btt_read fuel (Z.of_nat l) lba) (finished id) (j, Idle) (ACalled (CRead lba)).
Proof.
  intros Hpos Hlane. apply cwp_bind, wp_check_lba; [intros n s d G ??; by apply (spec_read_beyond n s d G)|done|].
  intros Hlt. apply cwp_bind, wp_get_static. intros s Hs.
  destruct (shape_fields s Hs) as (-> & Elbs & _). cbn [negb].
  destruct (inv_lookup _ _ _ lba Hinv0 ltac:(lia)) as (i & a & x & Ex & Ha & Hx & _).
  apply cwp_bind. eapply wp_find; [done..|].
  apply cwp_bind. eapply (wp_get_arena s0 size l blocking i a); [done|]. intros fs R L _ HR _.
  change (map_entry_offset (dyn a fs R L) x) with (map_entry_offset a x).
  change (data_block_offset (dyn a fs R L)) with (data_block_offset a).
  assert (0 <= lba < nlba s0) as Hlba by lia.
  apply cwp_bind, (wp_first_entry lba i a x Hlba Ex Ha Hx). intros bs Hbs.
  apply cwp_bind, (wp_read_retry lba i a x Hlba Ex Ha Hx); [done|done| | |done|by left|done].
  - unfold zero_block. by rewrite Elbs.
  - intros e data Hoff Hb. rewrite Elbs, Hoff. by eapply wp_read_data.
Qed.

(** *** The pieces of the writing routines *)

Section Write.
Context (i : nat) (a : arena) (x : Z).
Context (Ha : arenas s0 !! i = Some a) (Hx : 0 <= x < external_nlba a).
Context (Hlane : (l < nlanes)%nat) (Hblock : blocking = true).

Lemma arena_facts :
  geom_ok (nfree s0) lbs size a /\ external_nlba a <= nlba s0 /\ Z.of_nat nlanes <= nfree s0 /\
  map_entry_offset a x = mapoff a + 4 * x.
Proof.
  destruct (arena_geom s0 m0 size Hinv0 i a Ha) as [Hg He].
  split_and!; [done|done|by eapply nlanes_le|].
  destruct (entry_bounds i a x Ha Hx). done.
Qed.

(** A write inside the arena. *)
Lemma inside m m' off n :
  only m m' off n -> startoff a <= off -> off + n <= arena_end a (nfree s0) ->
  only m m' (startoff a) (arena_end a (nfree s0) - startoff a).
Proof. intros Ho H1' H2' z Hz. apply Ho. lia. Qed.

(** Waiting for the readers of the free block. *)
Lemma wp_wait_readers r (Q : errno + unit -> gphase -> alane -> Prop) c :
  Q (inr tt) (i, Scan r nlanes) c ->
  forall cnt k, (k + cnt)%nat = nlanes ->
  wp (wait_readers i (normal (free_blk r)) k cnt) Q (i, Scan r k) c.
Proof.
  intros HQ. induction cnt as [|cnt IH]; intros k Hk.
  { cbn. replace k with nlanes by lia. done. }
  destruct arena_facts as (Hg & _ & Hn & _). cbn [wait_readers].
  apply cwp_bind. eapply (wp_get_arena s0 size l blocking i a); [done|]. intros fs R L _ HR _.
  apply cwp_bind. destruct (lookup_lt_is_Some_2 R k) as [v Ev]; [lia|].
  eapply wp_deref; [exact Ev|]. apply cwp_bind. intros n s d G Hi Hl. cbn beta.
  destruct (ginv_at s0 size l n s d G i a i (Scan r k) Hi Ha Hl ltac:(by left))
    as (_ & Hph & fs' & R' & L' & Es & Hc).
  rewrite Es. change (rtt (dyn a fs' R' L')) with R'. pose proof (ci_R Hc) as HR'.
  destruct (lookup_lt_is_Some_2 R' k) as [w Ew]; [lia|]. rewrite Ew.
  destruct (Z.eqb_spec w (normal (free_blk r))) as [->|Hne]; cbn [negb].
  - (* a reader is on the block *)
    split_and!; [done|done|]. right. exists i, (dyn a fs' R' L'), k, (normal (free_blk r)).
    split_and!; [done|lia|done|]. intros E. apply (f_equal entry_flags) in E.
    rewrite normal_flags in E by apply entry_lba_range. done.
  - eapply (steps_phase s0 m0 size Hinv0 _ _ _ _ _ _ _ _ _ (Scan r (S k)));
      [done..|by left|done| |constructor|].
    + eapply step_scan; [done..|]. congruence.
    + replace (k + 1)%nat with (S k) by lia. apply IH. lia.
Qed.

(** Taking the map lock and reading the entry. *)
Definition taken (p : phase) : phase := match p with Data r buf => WLock r x buf | _ => SLock x end.
Definition looked (p : phase) (old : Z) : phase :=
  match p with Data r buf => WOld r x old buf | _ => SOld x old end.

Lemma wp_map_lock p (Q : errno + Z -> gphase -> alane -> Prop) j c :
  (j = i \/ p = Idle) -> (exists r buf, p = Data r buf) \/ p = Idle ->
  (forall old, Q (inr old) (i, looked p old) c) ->
  wp (map_lock (Z.of_nat l) i x) Q (j, p) c.
Proof.
  intros Hj Hp HQ. destruct arena_facts as (Hg & _ & Hn & Eo).
  destruct (entry_bounds i a x Ha Hx) as (_ & Hb1 & Hb2).
  apply cwp_bind, wp_get_static. intros s1 Hs1.
  apply cwp_bind. eapply (wp_get_arena s0 size l blocking i a); [done|]. intros fs R L _ _ HL.
  change (map_entry_offset (dyn a fs R L) x) with (map_entry_offset a x).
  destruct (shape_fields s1 Hs1) as (_ & _ & _ & Enf).
  assert (map_lock_num s1 x = lk s0 x) as -> by (unfold map_lock_num, lk, map_lock_num; by rewrite Enf).
  pose proof (lk_bound s0 m0 size Hinv0 i a Ha x) as Hlk.
  apply cwp_bind. destruct (lookup_lt_is_Some_2 L (lk s0 x)) as [v Ev]; [lia|].
  eapply wp_deref; [exact Ev|]. apply cwp_bind. intros n s d G Hi Hl. cbn beta.
  destruct (ginv_at s0 size l n s d G i a j p Hi Ha Hl Hj) as (_ & Hph & fs' & R' & L' & Es & Hc).
  unfold map_lock_free. rewrite Es. change (map_locks (dyn a fs' R' L')) with L'.
  pose proof (lo_len (ci_locks Hc)) as HL'.
  destruct (lookup_lt_is_Some_2 L' (lk s0 x)) as [held Eh]; [lia|]. rewrite Eh.
  destruct held; cbn [negb].
  { (* another lane holds it *)
    split_and!; [done|by destruct Hp as [(? & ? & ->) | ->]|]. left.
    destruct (lo_held (ci_locks Hc) _ Eh) as (k & y & Hy & _). unfold local in Hy.
    destruct (G !! k) as [[j' q]|] eqn:Ek; [|done]. exists k, (j', q). split; [done|].
    cbn. destruct (decide (j' = i)); [congruence|done]. }
  unfold set_map_lock.
  rewrite (upd_arena_dyn s i a fs' R' L' _ fs' R' (<[lk s0 x := true]> L')) by done.
  eapply (steps_arena s0 m0 size Hinv0 _ _ _ _ _ _ _ _ _ (taken p)); [done..| |].
  { eapply step_take; [done..|]. rewrite Hph.
    destruct Hp as [(r & buf & ->) | ->]; [left; by eexists _, _|by right]. }
  apply cwp_bind, wp_catch. rewrite Eo.
  eapply wp_read_ns; [lia..|eapply entry_readable; done|]. clear n s d G Hi Hl Hph Hc Es.
  intros n s d G Hi Hl.
  destruct (ginv_at s0 size l n s d G i a i (taken p) Hi Ha Hl ltac:(by left))
    as (_ & Hph & fs2 & R2 & L2 & Es & Hc).
  eapply (steps_phase s0 m0 size Hinv0 _ _ _ _ _ _ _ _ _ (looked p (eff_at (ns_mem n) a x)));
    [done..|by left|done| |constructor|].
  - eapply step_old; [done|]. rewrite Hph.
    destruct Hp as [(r & buf & ->) | ->]; [left; by eexists _, _|by right].
  - exact (HQ (eff_at (ns_mem n) a x)).
Qed.

(** Dropping it. *)
Lemma wp_drop (Q : errno + unit -> gphase -> alane -> Prop) c :
  Q (inr tt) (i, Idle) c ->
  forall s1, shape s0 s1 -> wp (modify (set_map_lock i (map_lock_num s1 x) false)) Q (i, Rel x) c.
Proof.
  intros HQ s1 Hs1. destruct (shape_fields s1 Hs1) as (_ & _ & _ & Enf).
  assert (map_lock_num s1 x = lk s0 x) as -> by (unfold map_lock_num, lk, map_lock_num; by rewrite Enf).
  eapply (wp_mod_arena s0 m0 size Hinv0 _ _ i a _ i (Rel x) Idle); [done|by left| |done].
  intros m fs R L ph _ Hph Hc. eexists fs, R, _. split; [done|]. by apply step_drop.
Qed.

(** Writing the entry, where the call takes effect, and dropping the lock. *)
Lemma wp_map_unlock p e b lba op (Q : errno + unit -> gphase -> alane -> Prop) :
  0 <= lba < nlba s0 -> lba_to_arena_lba (arenas s0) 0 lba = Some (i, x) ->
  (exists r old buf, p = WSwap r x old buf) \/ (exists old, p = SOld x old) ->
  (forall n s d G, ginv n s d G -> spec_call lbs op d = (inr [], d_set d lba b)) ->
  (forall m m' fs R L ph, acinv a m fs R L ph -> ph l = p -> m' ≡ apply_event m (ev_map a x e) ->
     acinv a m' fs R L (<[l := Rel x]> ph) /\ blk_state m' a lbs x = b /\
     forall y, 0 <= y < external_nlba a -> y <> x -> blk_state m' a lbs y = blk_state m a lbs y) ->
  Q (inr tt) (i, Idle) (ADone (inr [])) ->
  wp (map_unlock (Z.of_nat l) i e x) Q (i, p) (ACalled op).
Proof.
  intros Hlba Ex Hp Hop Hstep HQ. destruct arena_facts as (Hg & _ & Hn & Eo).
  destruct (entry_bounds i a x Ha Hx) as (_ & Hb1 & Hb2). pose proof (geom_regions _ _ _ _ Hg) as Hr.
  apply cwp_bind. eapply (wp_get_arena s0 size l blocking i a); [done|]. intros fs R L _ _ _.
  change (map_entry_offset (dyn a fs R L) x) with (map_entry_offset a x). rewrite Eo.
  apply cwp_bind, wp_catch. eapply wp_write_ns; [lia|rewrite length_le_enc; lia| |].
  { exists a. split; [done|]. rewrite length_le_enc.
    by destruct Hp as [(r & old & buf & ->) | (old & ->)]. }
  intros n n' s d G Hi Hl Hw. pose proof Hw as (_ & _ & Hm).
  destruct (ginv_at s0 size l n s d G i a i p Hi Ha Hl ltac:(by left))
    as (_ & Hph & fs' & R' & L' & Es & Hc).
  eapply (steps_effect_write s0 m0 size Hinv0); [done..| | | | |by eapply Hstep|].
  - eapply inside; [eapply only_equiv; [|exact Hm]; apply (only_mwrite _ (mapoff a + 4 * x))|..];
      rewrite ?length_le_enc; unfold arena_end, BTT_INFO_SIZE; lia.
  - done.
  - done.
  - by eapply Hop.
  - apply cwp_bind, wp_get_static. intros s1 Hs1. apply cwp_bind. by apply wp_drop.
Qed.

(** The two halves of the flog entry and the run-time flog. *)
Lemma wp_flog_update r old buf (Q : errno + unit -> gphase -> alane -> Prop) c :
  Q (inr tt) (i, WSwap r x old buf) c ->
  wp (flog_update (Z.of_nat l) i x old (normal (free_blk r))) Q (i, WOld r x old buf) c.
Proof.
  intros HQ. destruct arena_facts as (Hg & Hext & Hn & Eo). pose proof (geom_regions _ _ _ _ Hg) as Hr.
  assert (forall n s d G q, ginv n s d G -> G !! l = Some (i, q) -> mine q = Some r ->
    (med q r = r) -> 0 <= flog_slot r /\ flog_slot r + 16 <= size /\
    startoff a <= flog_slot r /\ flog_slot r + 16 <= arena_end a (nfree s0)) as Hslot.
  { intros n s d G q Hi Hl Hq Hmed.
    destruct (ginv_at s0 size l n s d G i a i q Hi Ha Hl ltac:(by left))
      as (_ & Hph & fs & R & L & Es & Hc).
    pose proof (ci_mine Hc l r ltac:(by rewrite Hph)) as Hf. pose proof (ci_flog Hc l r Hf) as Hfi.
    rewrite Hph, Hmed in Hfi. pose proof (flog_slot_pos _ _ _ _ _ Hfi) as Hsl.
    pose proof (fi_next _ _ _ _ _ Hfi) as Hnx.
    unfold flog_pos, arena_end, BTT_INFO_SIZE in *. lia. }
  (* the lane's flog is the one it entered with *)
  apply cwp_bind. unfold get_flog. apply cwp_bind, cwp_bind, wp_get. intros n s d G Hi Hl.
  destruct (Hslot n s d G _ Hi Hl eq_refl eq_refl) as (Hs1 & Hs2 & Hs3 & Hs4).
  destruct (ginv_at s0 size l n s d G i a i _ Hi Ha Hl ltac:(by left))
    as (_ & Hph & fs & R & L & Es & Hc).
  pose proof (ci_mine Hc l r ltac:(by rewrite Hph)) as Hf.
  eapply steps_stay; [done..|]. eapply wp_deref; [exact Es|].
  unfold at_lane. ztrue. rewrite Nat2Z.id. eapply wp_deref; [exact Hf|]. cbv zeta. fold (flog_slot r).
  clear n s d G Hi Hl fs R L Es Hph Hc Hf.
  (* the first half *)
  apply cwp_bind. eapply wp_write_ns; [lia|rewrite length_app, !length_le_enc; lia| |].
  { exists a. split; [done|]. by rewrite length_app, !length_le_enc. }
  intros n n1 s d G Hi Hl Hw. pose proof Hw as (_ & _ & Hm).
  destruct (ginv_at s0 size l n s d G i a i _ Hi Ha Hl ltac:(by left))
    as (_ & Hph & fs & R & L & Es & Hc).
  eapply (steps_write s0 m0 size Hinv0 _ _ _ _ _ _ _ _ _ (WHalf r x old buf)); [done..| | |].
  { eapply inside; [eapply only_equiv; [|exact Hm]; apply (only_mwrite _ (flog_slot r))|..];
      rewrite ?length_app, ?length_le_enc; lia. }
  { by eapply step_half. }
  clear n n1 s d G Hi Hl Hw Hm fs R L Es Hph Hc.
  (* the second half *)
  apply cwp_bind. eapply wp_write_ns; [lia|rewrite length_app, !length_le_enc; lia| |].
  { exists a. split; [done|]. by rewrite length_app, !length_le_enc. }
  intros n n1 s d G Hi Hl Hw. pose proof Hw as (_ & _ & Hm).
  destruct (ginv_at s0 size l n s d G i a i _ Hi Ha Hl ltac:(by left))
    as (_ & Hph & fs & R & L & Es & Hc).
  eapply (steps_write s0 m0 size Hinv0 _ _ _ _ _ _ _ _ _ (WFlog r x old buf)); [done..| | |].
  { eapply inside; [eapply only_equiv; [|exact Hm]; apply (only_mwrite _ (flog_slot r + 8))|..];
      rewrite ?length_app, ?length_le_enc; lia. }
  { by eapply step_whole. }
  clear n n1 s d G Hi Hl Hw Hm fs R L Es Hph Hc.
  (* the run-time flog *)
  unfold mod_flog.
  eapply (wp_mod_arena s0 m0 size Hinv0 _ _ i a _ i _ (WSwap r x old buf)); [done|by left| |done].
  intros m fs R L ph _ Hph Hc. pose proof (ci_mine Hc l r ltac:(by rewrite Hph)) as Hf.
  eexists _, R, L. split; [|by eapply step_swap].
  unfold dyn, set_map_locks, set_rtt, set_flogs. cbn. do 2 f_equal. by rewrite (list_alter_insert _ _ _ r).
Qed.

(** The lane's flog names a free block; from here the block is the lane's. *)
Lemma wp_enter j (Q : errno + flog_runtime -> gphase -> alane -> Prop) c :
  (forall r, free_blk r < internal_nlba a -> Q (inr r) (i, Scan r 0) c) ->
  wp (get_flog i (Z.of_nat l)) Q (j, Idle) c.
Proof.
  intros HQ. destruct arena_facts as (Hg & _ & Hn & _). apply cwp_bind, cwp_bind, wp_get.
  intros n s d G Hi Hl.
  destruct (ginv_at s0 size l n s d G i a j Idle Hi Ha Hl ltac:(by right))
    as (_ & Hph & fs & R & L & Es & Hc).
  pose proof (ci_fs Hc) as Hlen. destruct (lookup_lt_is_Some_2 fs l) as [r Hr]; [lia|].
  pose proof (step_enter _ _ _ _ _ _ _ _ _ _ _ l r Hc Hlane Hph Hr) as Hc'.
  eapply (steps_phase s0 m0 size Hinv0); [done..|by right|done|exact Hc'|constructor|].
  eapply wp_deref; [exact Es|]. unfold at_lane. ztrue. rewrite Nat2Z.id.
  eapply wp_deref; [exact Hr|]. apply HQ.
  eapply (cinv_free _ _ _ _ _ _ _ _ _ _ _ l r Hc'). by rewrite fn_lookup_insert.
Qed.

(** Writing the data into the free block. *)
Lemma wp_write_free r buf (Q : errno + unit -> gphase -> alane -> Prop) c :
  Z.of_nat (length buf) = lbs -> free_blk r < internal_nlba a -> Q (inr tt) (i, Data r buf) c ->
  wp (write_ns (Z.of_nat l) buf (data_block_offset a (entry_lba (normal (free_blk r)))))
    Q (i, Scan r nlanes) c.
Proof.
  intros Hbuf Hlt HQ. destruct arena_facts as (Hg & _ & Hn & _).
  pose proof (geom_regions _ _ _ _ Hg) as Hr.
  pose proof (entry_lba_range (old_map (flog r))) as Hfr. fold (free_blk r) in Hfr.
  pose proof (geom_blk_bounds _ _ _ _ Hg (free_blk r) ltac:(lia)) as Hb.
  rewrite normal_lba by done.
  assert (data_block_offset a (free_blk r) = blk_off a (free_blk r)) as ->.
  { rewrite (data_block_offset_entry (nfree s0) lbs size) by
      (done || (rewrite entry_lba_id by done; lia) || lia). by rewrite entry_lba_id. }
  eapply wp_write_ns; [lia|lia| |].
  { exists a. split; [done|]. by rewrite Hbuf. }
  intros n n' s d G Hi Hl Hw. pose proof Hw as (_ & _ & Hm).
  destruct (ginv_at s0 size l n s d G i a i _ Hi Ha Hl ltac:(by left))
    as (_ & Hph & fs & R & L & Es & Hc).
  eapply (steps_write s0 m0 size Hinv0 _ _ _ _ _ _ _ _ _ (Data r buf)); [done..| | |done].
  - eapply inside; [eapply only_equiv; [|exact Hm]; apply (only_mwrite _ (blk_off a (free_blk r)))|..];
      rewrite ?Hbuf; unfold arena_end, BTT_INFO_SIZE; lia.
  - by eapply step_data_write.
Qed.
End Write.

(** *** Writing a block *)

Lemma spec_put_beyond n s d G lba b :
  ginv n s d G -> nlba s0 <= lba -> spec_put d lba b = (inl EINVAL, d).
Proof.
  intros Hi Hl. unfold spec_put. rewrite (proj1 (gi_dev _ _ _ _ _ _ Hi)). by ztrue.
Qed.

Lemma spec_put_at n s d G lba b i a x :
  ginv n s d G -> 0 <= lba < nlba s0 -> lba_to_arena_lba (arenas s0) 0 lba = Some (i, x) ->
  arenas s0 !! i = Some a ->
  spec_put d lba b = if arena_in_error a then (inl EIO, d) else (inr tt, d_set d lba b).
Proof.
  intros Hi Hl Ex Ha. unfold spec_put. destruct (gi_dev _ _ _ _ _ _ Hi) as [Hn Hd].
  rewrite Hn. ztrue. destruct (Hd lba Hl) as [-> _]. unfold abs_ro. by rewrite Ex, Ha.
Qed.

Lemma wp_ensure_layout ln (Q : errno + unit -> gphase -> alane -> Prop) g c :
  Q (inr tt) g c -> wp (ensure_layout ln) Q g c.
Proof.
  intros HQ. apply cwp_bind, wp_get_static. intros s Hs.
  by destruct (shape_fields s Hs) as (-> & _).
Qed.

(** An arena in error refuses the call, which takes effect when that is seen. *)
Lemma wp_refused i a op (Q : errno + arena -> gphase -> alane -> Prop) g :
  arenas s0 !! i = Some a ->
  (forall n s d G, ginv n s d G -> spec_call lbs op d = (inl EIO, d)) ->
  (forall fs R L, Q (inr (dyn a fs R L)) g (ADone (inl EIO))) ->
  wp (get_arena i) Q g (ACalled op).
Proof.
  intros Ha Hop HQ. apply cwp_bind, (wp_get_effect s0 size l blocking _ _ _ (inl EIO)); [done|].
  intros s Hs. destruct (sh_arena _ _ Hs i a Ha) as (fs & R & L & E).
  eapply wp_deref; [exact E|]. apply HQ.
Qed.

Lemma btt_write_lane lba buf j :
  0 <= lba -> Z.of_nat (length buf) = lbs -> (l < nlanes)%nat -> blocking = true ->
  wp (btt_write (Z.of_nat l) lba buf) (finished (fun _ => [])) (j, Idle) (ACalled (CWrite lba buf)).
Proof.
  intros Hpos Hbuf Hlane Hblock. apply cwp_bind, wp_check_lba; [|done|].
  { intros n s d G Hi Hl. cbn. by rewrite (spec_put_beyond n s d G). }
  intros Hlt. assert (0 <= lba < nlba s0) as Hlba by lia.
  destruct (inv_lookup _ _ _ lba Hinv0 Hlba) as (i & a & x & Ex & Ha & Hx & _).
  assert (forall n s d G, ginv n s d G -> spec_call lbs (CWrite lba buf) d =
    if arena_in_error a then (inl EIO, d) else (inr [], d_set d lba (BData buf))) as Hop.
  { intros n s d G Hi. cbn. rewrite (spec_put_at n s d G lba _ i a x Hi Hlba Ex Ha).
    by destruct (arena_in_error a). }
  apply cwp_bind, wp_ensure_layout, cwp_bind, wp_get_static. intros s1 Hs1.
  destruct (shape_fields s1 Hs1) as (_ & _ & Enl & _). rewrite Enl.
  apply cwp_bind. eapply wp_find; [done..|]. apply cwp_bind.
  destruct (arena_in_error a) eqn:Eerr.
  { eapply wp_refused; [done|done|]. intros fs R L.
    change (arena_in_error (dyn a fs R L)) with (arena_in_error a). by rewrite Eerr. }
  eapply (wp_get_arena s0 size l blocking i a); [done|]. intros fs R L _ _ _.
  change (arena_in_error (dyn a fs R L)) with (arena_in_error a). rewrite Eerr.
  apply cwp_bind, (wp_enter i a x); [done..|]. intros r Hfree.
  fold (free_blk r). fold (normal (free_blk r)).
  apply cwp_bind, (wp_wait_readers i a x); [done..| |done].
  change (data_block_offset (dyn a fs R L)) with (data_block_offset a).
  apply cwp_bind, (wp_write_free i a x); [done..|].
  apply cwp_bind, (wp_map_lock i a x); [done..|by left|left; by eexists _, _|]. intros old.
  apply cwp_bind, wp_catch, (wp_flog_update i a x); [done..|].
  apply cwp_bind, wp_catch.
  eapply wp_map_unlock with (lba := lba) (b := BData buf);
    [done..|left; by eexists _, _, _|done| |done].
  intros m m' fs' R' L' ph Hc Hph Hm.
  destruct (arena_geom s0 m0 size Hinv0 i a Ha) as [Hg _].
  eapply step_effect; try done. by eapply nlanes_le.
Qed.

(** *** Setting a flag *)

Definition setf_call (setf lba : Z) : call :=
  if setf =? BTT_MAP_ENTRY_ZERO then CSetZero lba else CSetError lba.

Lemma spec_call_setf setf lba d :
  spec_call lbs (setf_call setf lba) d =
  (match fst (spec_put d lba (flag_state setf)) with inl e => inl e | inr _ => inr [] end,
   snd (spec_put d lba (flag_state setf))).
Proof. unfold setf_call, flag_state. by destruct (setf =? BTT_MAP_ENTRY_ZERO). Qed.

(** Nothing to do: the call takes effect before the lock is dropped. *)
Lemma wp_map_abort i a x old lba (Q : errno + unit -> gphase -> alane -> Prop) :
  arenas s0 !! i = Some a -> 0 <= x < external_nlba a -> 0 <= lba < nlba s0 ->
  lba_to_arena_lba (arenas s0) 0 lba = Some (i, x) -> arena_in_error a = false ->
  map_entry_is_zero_or_initial old = true ->
  Q (inr tt) (i, Idle) (ADone (inr [])) ->
  wp (map_abort (Z.of_nat l) i x) Q (i, SOld x old) (ACalled (CSetZero lba)).
Proof.
  intros Ha Hx Hlba Ex Eerr Hold HQ. apply cwp_bind, wp_get. intros n s d G Hi Hl.
  destruct (ginv_at s0 size l n s d G i a i _ Hi Ha Hl ltac:(by left))
    as (_ & Hph & fs & R & L & Es & Hc).
  destruct (arena_geom s0 m0 size Hinv0 i a Ha) as [Hg _]. pose proof (geom_regions _ _ _ _ Hg) as Hr.
  pose proof (cl_eff (ci_claims Hc l) x old ltac:(by rewrite Hph)) as He.
  rewrite <- He in Hold. apply eff_zero in Hold as [E1 E2]; [|lia].
  exists (d_set d lba BZero), (i, Rel x), (ADone (inr [])). split_and!.
  - pose proof (lin_effect s0 d (CSetZero lba)) as Hlin. cbn in Hlin.
    by rewrite (spec_put_at n s d G lba _ i a x Hi Hlba Ex Ha), Eerr in Hlin.
  - rewrite <- (put_arena_same s i (dyn a fs R L)) by done.
    eapply (ginv_move s0 m0 size Hinv0); try done; [by left|by eapply step_abort|].
    eapply (ginv_block_set s0 m0 size Hinv0 n s d G i a _ x); try done.
    by apply blk_state_zero.
  - eapply wp_drop; [done..|]. apply Hi.
Qed.

Lemma map_entry_setf_lane lba setf j :
  0 <= lba -> setf = BTT_MAP_ENTRY_ZERO \/ setf = BTT_MAP_ENTRY_ERROR ->
  (l < nlanes)%nat -> blocking = true ->
  wp (map_entry_setf (Z.of_nat l) lba setf) (finished (fun _ => [])) (j, Idle)
    (ACalled (setf_call setf lba)).
Proof.
  intros Hpos Hsetf Hlane Hblock. apply cwp_bind, wp_check_lba; [|done|].
  { intros n s d G Hi Hl. by rewrite spec_call_setf, (spec_put_beyond n s d G). }
  intros Hlt. assert (0 <= lba < nlba s0) as Hlba by lia.
  destruct (inv_lookup _ _ _ lba Hinv0 Hlba) as (i & a & x & Ex & Ha & Hx & _).
  assert (forall n s d G, ginv n s d G -> spec_call lbs (setf_call setf lba) d =
    if arena_in_error a then (inl EIO, d) else (inr [], d_set d lba (flag_state setf))) as Hop.
  { intros n s d G Hi. rewrite spec_call_setf, (spec_put_at n s d G lba _ i a x Hi Hlba Ex Ha).
    by destruct (arena_in_error a). }
  apply cwp_bind, wp_get_static. intros s1 Hs1.
  destruct (shape_fields s1 Hs1) as (-> & _). cbn [negb andb].
  apply cwp_bind, wp_ensure_layout, cwp_bind, wp_get_static. intros s2 Hs2.
  apply cwp_bind. eapply wp_find; [done..|]. apply cwp_bind.
  destruct (arena_in_error a) eqn:Eerr.
  { eapply wp_refused; [done|done|]. intros fs R L.
    change (arena_in_error (dyn a fs R L)) with (arena_in_error a). by rewrite Eerr. }
  eapply (wp_get_arena s0 size l blocking i a); [done|]. intros fs R L _ _ _.
  change (arena_in_error (dyn a fs R L)) with (arena_in_error a). rewrite Eerr.
  apply cwp_bind, (wp_map_lock i a x); [done..|by right|by right|]. intros old. cbn [looked].
  destruct ((setf =? BTT_MAP_ENTRY_ZERO) && _) eqn:Ez.
  - apply andb_true_iff in Ez as [Es Ez]. unfold setf_call. rewrite Es. by eapply wp_map_abort.
  - eapply wp_map_unlock with (lba := lba) (b := flag_state setf);
      [done..|right; by eexists|done| |done].
    intros m m' fs' R' L' ph Hc Hph Hm.
    destruct (arena_geom s0 m0 size Hinv0 i a Ha) as [Hg _].
    eapply step_flag; try done. by eapply nlanes_le.
Qed.

(** *** Every call *)

Lemma wp_no_buf (p : prog unit) g c :
  wp p (finished (fun _ => [])) g c -> wp (no_buf p) (finished id) g c.
Proof. intros Hp. apply cwp_bind. eapply cwp_mono; [|exact Hp]. by intros [e|[]] g' c' ?. Qed.
End Lane.

(** Reads never wait. *)
Definition may_block (op : call) : bool := match op with CRead _ => false | _ => true end.

Lemma prog_of_wp l fuel op j :
  call_ok lbs op -> (l < nlanes)%nat ->
  wp s0 size l (may_block op) (prog_of fuel (Z.of_nat l) op) (finished id) (j, Idle) (ACalled op).
Proof.
  intros Hok Hl. destruct op as [lba|lba buf|lba|lba]; cbn [prog_of may_block call_ok] in *.
  - by apply btt_read_lane.
  - destruct Hok as [? ?]. by apply wp_no_buf, btt_write_lane.
  - apply wp_no_buf. unfold btt_set_zero. change (CSetZero lba) with (setf_call BTT_MAP_ENTRY_ZERO lba).
    apply map_entry_setf_lane; auto.
  - apply wp_no_buf. unfold btt_set_error. change (CSetError lba) with (setf_call BTT_MAP_ENTRY_ERROR lba).
    apply map_entry_setf_lane; auto.
Qed.
End Ops.
