(* ===== verification/BttConcSpec.v ===== *)
(** BttConcSpec: what the BTT promises to concurrent lanes.

    Every execution of lanes over an opened BTT is one of the specification:
    each call takes effect at one moment between its call and its return.  No
    lane does anything undefined, two lanes never touch the same bytes when one
    of them writes, except for a map entry that is read while its lock holder
    writes it, and the lanes do not all wait for each other, unless for a slot
    of the read tracking table that a finished read has left behind. *)

From stdpp Require Import functions.
From S2P Require Import Prelude Mem BttLayout Prog Btt BttInv BttSpec BttConc BttConcInv BttConcStep BttConcState BttConcWp BttConcOps.

(** The BTT with its read tracking tables cleared. *)
Definition clear_rtt (s : btt) : btt :=
  set_arenas s ((fun a => set_rtt a (replicate (length (rtt a)) BTT_MAP_ENTRY_ERROR)) <$> arenas s).

(** The bytes the next step of a program reads ([false]) or writes ([true]). *)
Definition access (p : prog (list byte)) : option (bool * Z * Z) :=
  match p with
  | NsRead _ n off _ | NsMap _ n off _ => Some (false, off, n)
  | NsWrite _ bs off _ => Some (true, off, Z.of_nat (length bs))
  | NsZero _ n off _ => Some (true, off, n)
  | _ => None
  end.

Section Spec.
Context {N : Type} `{NsLaws N} `{Allocator}.

(** A lane that can do something, or that has spent the fuel of its loop. *)
Definition can_move (c : config N) (l : nat) : Prop :=
  exists op p, c_lanes c !! l = Some (Some (op, p)) /\
    (pstep p (c_ns c) (c_st c) <> None \/ result_of p <> None \/ p = Crash OutOfFuel).

(** Every slot of the read tracking table in use is that of a read. *)
Definition no_stale_slot (c : config N) : Prop :=
  forall i a k v, arenas (c_st c) !! i = Some a -> Z.of_nat k < nlane (c_st c) ->
    rtt a !! k = Some v -> v <> BTT_MAP_ENTRY_ERROR ->
    exists lba p, c_lanes c !! k = Some (Some (CRead lba, p)).

Section Sim.
Context (s0 : btt) (m0 : mem) (size : Z) (Hinv0 : btt_inv size s0 m0).

Abbreviation ginv := (ginv s0 size).
Abbreviation nlanes := (nlanes s0).
Abbreviation lbs := (lbasize s0).

(** A lane, its phase and its state in the specification. *)
Definition lane_sim (l : nat) (t : thread) (g : gphase) (c : alane) : Prop :=
  match t with
  | None => g.2 = Idle /\ c = AFree
  | Some (op, p) => wp s0 size l (may_block op) p (finished id) g c
  end.

Record sim (c : config N) (ac : aconfig) (G : list gphase) : Prop := {
  sm_ginv : ginv (c_ns c) (c_st c) (ac_dev ac) G;
  sm_len : length (c_lanes c) = nlanes;
  sm_alen : length (ac_lanes ac) = nlanes;
  sm_lane : forall l t g al, c_lanes c !! l = Some t -> G !! l = Some g ->
    ac_lanes ac !! l = Some al -> lane_sim l t g al;
}.

Lemma sim_lane c ac G l t : sim c ac G -> c_lanes c !! l = Some t ->
  exists g al, G !! l = Some g /\ ac_lanes ac !! l = Some al /\ (l < nlanes)%nat /\ lane_sim l t g al.
Proof.
  intros Hs Hl. pose proof (lookup_lt_Some _ _ _ Hl) as Hlt. rewrite (sm_len _ _ _ Hs) in Hlt.
  destruct (lookup_lt_is_Some_2 G l) as [g Hg]; [by rewrite (gi_lanes _ _ _ _ _ _ (sm_ginv _ _ _ Hs))|].
  destruct (lookup_lt_is_Some_2 (ac_lanes ac) l) as [al Hal]; [by rewrite (sm_alen _ _ _ Hs)|].
  exists g, al. split_and!; [done..|]. by eapply (sm_lane _ _ _ Hs).
Qed.

(** One lane changes. *)
Lemma sim_upd c ac G l t g al n s d :
  sim c ac G -> ginv n s d (<[l := g]> G) -> lane_sim l t g al ->
  sim {| c_ns := n; c_st := s; c_lanes := <[l := t]> (c_lanes c) |}
      {| ac_dev := d; ac_lanes := <[l := al]> (ac_lanes ac) |} (<[l := g]> G).
Proof.
  intros [] Hi Hl. split; cbn; rewrite ?length_insert; try done.
  intros k t' g' al'. destruct (decide (k = l)) as [->|Hne].
  - intros Ht Hg Hal.
    rewrite list_lookup_insert_eq in Ht by (apply lookup_lt_Some in Ht; by rewrite length_insert in Ht).
    rewrite list_lookup_insert_eq in Hg by (apply lookup_lt_Some in Hg; by rewrite length_insert in Hg).
    rewrite list_lookup_insert_eq in Hal by (apply lookup_lt_Some in Hal; by rewrite length_insert in Hal).
    by simplify_eq.
  - rewrite !list_lookup_insert_ne by done. apply sm_lane0.
Qed.

(** A step of a program is one its [wp] speaks of. *)
Lemma wp_pstep {A} l b (p : prog A) Q g al n s d G p' n' s' :
  wp s0 size l b p Q g al -> ginv n s d G -> G !! l = Some g ->
  pstep p n s = Some (p', n', s') -> steps_to s0 size l n' s' d G al (wp s0 size l b p' Q).
Proof.
  intros Hw Hi Hl E. destruct p; cbn in Hw, E; try done.
  - destruct Hw as [_ Hw]. injection E as <- <- <-. by apply Hw.
  - destruct Hw as [_ Hw]. specialize (Hw n s d G Hi Hl).
    destruct (nswrite _ _ _ _); by injection E as <- <- <-.
  - specialize (Hw n s d G Hi Hl). destruct (guard s); [by injection E as <- <- <-|done].
Qed.

Lemma lin_asteps d al d' al' ls l :
  lin s0 d al d' al' -> ls !! l = Some al ->
  asteps lbs {| ac_dev := d; ac_lanes := ls |} [] {| ac_dev := d'; ac_lanes := <[l := al']> ls |}.
Proof.
  intros Hlin Hl. destruct Hlin as [c|c].
  - rewrite list_insert_id by done. constructor.
  - eapply (asteps_step lbs _ None); [by apply astep_effect|constructor].
Qed.

Lemma asteps_one lbs' a o a' : astep lbs' a o a' -> asteps lbs' a (visible o) a'.
Proof. intros Ha. rewrite <- (app_nil_r (visible o)). eapply asteps_step; [done|constructor]. Qed.

(** The forward simulation. *)
Lemma sim_step c ac G o c' :
  sim c ac G -> cstep c o c' -> exists ac' G', asteps lbs ac (visible o) ac' /\ sim c' ac' G'.
Proof.
  intros Hs Hstep. destruct ac as [d ls]. pose proof (sm_ginv _ _ _ Hs) as Hi. cbn in Hi.
  destruct Hstep as [c l op fuel Hl Hok|c l op p p' n' s' Hl Hp|c l op p r Hl Hr];
    destruct (sim_lane _ _ _ _ _ Hs Hl) as ([j q] & al & Hg & Hal & Hlt & Hlane); cbn in Hlane, Hal.
  - destruct Hlane as [-> ->]. eexists _, (<[l := (j, Idle)]> G).
    split; [by apply asteps_one, astep_call|]. eapply (sim_upd _ {| ac_dev := d; ac_lanes := ls |}); [done| |].
    + by rewrite list_insert_id.
    + cbn. eapply prog_of_wp; [done| |done].
      replace lbs with (lbasize (c_st c)); [done|].
      by destruct (shape_fields s0 m0 size Hinv0 _ (gi_shape _ _ _ _ _ _ Hi)) as (_ & ? & _).
  - destruct (wp_pstep _ _ _ _ _ _ _ _ _ _ _ _ _ Hlane Hi Hg Hp) as (d' & g' & al' & Hlin & Hi' & Hw).
    eexists _, (<[l := g']> G). split; [by eapply lin_asteps|].
    by eapply (sim_upd _ {| ac_dev := d; ac_lanes := ls |}).
  - assert (q = Idle /\ al = ADone r) as [-> ->].
    { destruct p; cbn in Hr; try done; injection Hr as <-; destruct Hlane as [Hq ->]; by split. }
    eexists _, (<[l := (j, Idle)]> G).
    split; [by apply asteps_one, astep_ret|]. eapply (sim_upd _ {| ac_dev := d; ac_lanes := ls |}); [done| |done].
    by rewrite list_insert_id.
Qed.

Lemma sim_steps c ac G tr c' :
  sim c ac G -> csteps c tr c' -> exists ac' G', asteps lbs ac tr ac' /\ sim c' ac' G'.
Proof.
  intros Hs Hst. revert ac G Hs. induction Hst as [c|c o c1 tr c2 H1' _ IH]; intros ac G Hs.
  - exists ac, G. split; [constructor|done].
  - destruct (sim_step _ _ _ _ _ Hs H1') as (ac1 & G1 & Ha1 & Hs1).
    destruct (IH _ _ Hs1) as (ac2 & G2 & Ha2 & Hs2).
    exists ac2, G2. split; [by eapply asteps_app|done].
Qed.
End Sim.

(** *** The opened BTT *)

Lemma dyn_id a : dyn a (flogs a) (rtt a) (map_locks a) = a.
Proof. by destruct a. Qed.

Lemma cinv_quiet nf nl lbs size nln lk m a :
  arena_inv nf nl lbs size m a -> cinv nf nl lbs nln lk a m (flogs a) (rtt a) (map_locks a) (fun _ => Idle).
Proof.
  intros []. pose proof (g_nf _ _ _ _ ai_geom) as Hnf. destruct ai_quiet as [Hr Hl _].
  split; try done.
  - rewrite Hr. len.
  - split; try done; [rewrite Hl; len|].
    intros n E. rewrite Hl in E. by apply lookup_replicate in E as [? _].
  - by replace (eflogs (flogs a) (fun _ => Idle)) with (flogs a)
      by (apply list_eq; intros k; rewrite eflogs_lookup; by destruct (flogs a !! k)).
Qed.

Lemma sim_init n s d :
  implements (ns_size n) s (ns_mem n) d ->
  sim s (ns_size n) (idle_config n s) (idle_spec d (nlane s)) (replicate (nlanes s) (0%nat, Idle)).
Proof.
  intros (Hinv & Hn & Hd). split; cbn; rewrite ?length_replicate; try done.
  - split; [done|by rewrite length_replicate| | |done].
    + split; [by destruct s|done|]. intros i a Ha. eexists _, _, _. by rewrite dyn_id.
    + intros i a fs R L Ha E. rewrite Ha in E.
      assert (fs = flogs a /\ R = rtt a /\ L = map_locks a) as (-> & -> & ->)
        by (injection E as E; by rewrite E).
      eapply cinv_ext; [|eapply cinv_quiet, bi_arena; done].
      intros k. unfold local. destruct (replicate _ _ !! k) as [[j p]|] eqn:Ek; [|done].
      apply lookup_replicate in Ek as [[= -> ->] _]. by destruct (decide _).
  - intros l t g al Ht Hg Hal. apply lookup_replicate in Ht as [-> _].
    apply lookup_replicate in Hg as [-> _]. by apply lookup_replicate in Hal as [-> _].
Qed.
(** *** No lane inside *)

Lemma ext_sum_ext ars ars' :
  length ars' = length ars ->
  (forall i a, ars !! i = Some a -> exists b, ars' !! i = Some b /\ external_nlba b = external_nlba a) ->
  ext_sum ars' = ext_sum ars.
Proof.
  revert ars'. induction ars as [|a ars IH]; intros [|a' ars'] Hl He; cbn in Hl; try lia.
  cbn [ext_sum]. destruct (He 0%nat a eq_refl) as (b & [= ->] & ->).
  rewrite IH; [done|lia|]. intros i c Hc. exact (He (S i) c Hc).
Qed.

Section Quiet.
Context (s0 : btt) (m0 : mem) (size : Z) (Hinv0 : btt_inv size s0 m0).

Lemma clear_arena s i a' :
  arenas (clear_rtt s) !! i = Some a' ->
  exists a, arenas s !! i = Some a /\ a' = set_rtt a (replicate (length (rtt a)) BTT_MAP_ENTRY_ERROR).
Proof. cbn. rewrite list_lookup_fmap. intros (a & -> & ->)%fmap_Some. eauto. Qed.

Lemma shape_clear s : shape s0 s -> shape s0 (clear_rtt s).
Proof.
  intros [Hs Hl Ha]. split.
  - rewrite Hs. done.
  - cbn. by rewrite length_fmap.
  - intros i a E. destruct (Ha i a E) as (fs & R & L & E'). cbn. rewrite list_lookup_fmap, E'. cbn.
    by exists fs, (replicate (length R) BTT_MAP_ENTRY_ERROR), L.
Qed.

Lemma shape_abs s m lba : shape s0 s ->
  abs_block s m lba = abs_block s0 m lba /\ abs_ro s lba = abs_ro s0 lba.
Proof.
  intros Hs. unfold abs_block, abs_ro. rewrite (shape_lookup s0 s lba Hs).
  destruct Hs as [Hst Hl Ha]. destruct (lba_to_arena_lba (arenas s0) 0 lba) as [[i x]|]; [|done].
  destruct (arenas s0 !! i) as [a|] eqn:E.
  - destruct (Ha i a E) as (fs & R & L & ->). split; [|done].
    assert (lbasize s = lbasize s0) as -> by (rewrite Hst; done). done.
  - assert (arenas s !! i = None) as ->; [|done].
    apply lookup_ge_None_2. rewrite Hl. by apply lookup_ge_None_1.
Qed.

(** The invariant of an arena that every lane has left. *)
Lemma quiet_arena a m fs R L ph lbs nl nln lk :
  arena_inv (nfree s0) nl lbs size m0 a -> (forall l, ph l = Idle) ->
  cinv (nfree s0) nl lbs nln lk a m fs R L ph ->
  arena_inv (nfree s0) nl lbs size m (dyn a fs (replicate (length R) BTT_MAP_ENTRY_ERROR) L).
Proof.
  intros Ha Hph Hc. pose proof (ci_R Hc) as HR. pose proof (lo_len (ci_locks Hc)) as HL.
  assert (eflogs fs ph = fs) as Hef.
  { apply list_eq. intros k. rewrite eflogs_lookup, Hph. by destruct (fs !! k). }
  pose proof (ci_owned Hc) as Hown. rewrite Hef in Hown. destruct Ha. split.
  - by destruct ai_geom.
  - done.
  - apply (ci_fs Hc).
  - intros l q Hq. pose proof (ci_flog Hc l q Hq) as Hf. rewrite Hph in Hf. by destruct Hf.
  - by destruct Hown.
  - split; cbn; [|apply list_eq; intros k|apply ai_quiet].
    + f_equal. lia.
    + destruct (decide (k < length L)%nat) as [Hk|Hk].
      * destruct (lookup_lt_is_Some_2 L k Hk) as [b Eb]. rewrite Eb, lookup_replicate_2 by lia.
        destruct b; [|done]. destruct (lo_held (ci_locks Hc) k Eb) as (l & x & Hh & _).
        by rewrite Hph in Hh.
      * rewrite !lookup_ge_None_2; rewrite ?length_replicate; [done|lia|lia].
Qed.

Lemma quiet_implements n s d G :
  ginv s0 size n s d G -> (forall l g, G !! l = Some g -> g.2 = Idle) ->
  implements size (clear_rtt s) (ns_mem n) d.
Proof.
  intros Hi Hidle. pose proof (gi_shape _ _ _ _ _ _ Hi) as Hsh.
  pose proof (shape_clear s Hsh) as Hc. pose proof Hc as [Hst Hlen Hars].
  assert (forall i l, local i G l = Idle) as Hloc.
  { intros i l. unfold local. destruct (G !! l) as [[j p]|] eqn:E; [|done].
    specialize (Hidle l _ E). cbn in Hidle. subst. by destruct (decide _). }
  assert (forall i a', arenas (clear_rtt s) !! i = Some a' ->
    exists a fs R L, arenas s0 !! i = Some a /\ arenas s !! i = Some (dyn a fs R L) /\
      a' = dyn a fs (replicate (length R) BTT_MAP_ENTRY_ERROR) L) as Hget.
  { intros i a' E. destruct (lookup_lt_is_Some_2 (arenas s0) i) as [a Ea].
    { rewrite <- Hlen. by eapply lookup_lt_Some. }
    destruct (clear_arena s i a' E) as (b & Eb & ->).
    destruct (sh_arena _ _ Hsh i a Ea) as (fs & R & L & E'). rewrite E' in Eb. injection Eb as <-.
    by exists a, fs, R, L. }
  destruct (gi_dev _ _ _ _ _ _ Hi) as [Hn Hd]. pose proof Hinv0 as [].
  assert (nlba (clear_rtt s) = nlba s0 /\ nfree (clear_rtt s) = nfree s0 /\
    lbasize (clear_rtt s) = lbasize s0 /\ nlane (clear_rtt s) = nlane s0) as (En & Ef & El & Enl)
    by (rewrite Hst; done).
  split_and!.
  - split; rewrite ?En, ?Ef, ?El, ?Enl; try done; try (rewrite Hst; done).
    + rewrite bi_nlba. symmetry. apply ext_sum_ext; [done|]. intros i a E.
      destruct (Hars i a E) as (fs & R & L & ->). by eexists.
    + intros i a' E. destruct (Hget i a' E) as (a & fs & R & L & Ea & Es & ->).
      eapply quiet_arena; [by eapply bi_arena|apply (Hloc i)|].
      by eapply (gi_arena _ _ _ _ _ _ Hi).
    + intros i j b c Hlt Eb Ec.
      destruct (Hget i b Eb) as (a & fs & R & L & Ea & _ & ->).
      destruct (Hget j c Ec) as (a2 & fs2 & R2 & L2 & Ea2 & _ & ->).
      by apply (bi_sep i j a a2 Hlt).
  - congruence.
  - rewrite En. intros lba Hl. destruct (shape_abs (clear_rtt s) (ns_mem n) lba Hc) as [-> ->]. auto.
Qed.
End Quiet.

(** *** The theorems *)

(** C5. Every execution of concurrent lanes is one of the device: whatever the
    interleaving of the steps of [btt_read], [btt_write], [btt_set_zero] and
    [btt_set_error] on their lanes, the calls and the results are those of a
    device on which each call takes effect at once, between its call and its
    return.  (The retry loop of a read is cut off by its fuel, in which case the
    read has not returned.) *)
Theorem btt_lanes_linearizable (n : N) (s : btt) (d : device) (tr : list label) (c : config N)
  (Himp : implements (ns_size n) s (ns_mem n) d)
  (Hrun : csteps (idle_config n s) tr c) :
  exists ac, asteps (lbasize s) (idle_spec d (nlane s)) tr ac /\
    forall l op p, c_lanes c !! l = Some (Some (op, p)) ->
      p <> Crash Undefined /\ p <> Crash Blocked.
Proof.
  pose proof Himp as (Hinv & _). 
  destruct (sim_steps s (ns_mem n) (ns_size n) Hinv _ _ _ _ _ (sim_init n s d Himp) Hrun)
    as (ac & G & Ha & Hs).
  exists ac. split; [done|]. intros l op p Hl.
  destruct (sim_lane _ _ _ _ _ _ _ Hs Hl) as (g & al & _ & _ & _ & Hw). cbn in Hw.
  by split; intros ->.
Qed.

End Spec.
