(* ===== verification/BttConcSafe.v ===== *)
(** BttConcSafe: the lanes do not race, and do not deadlock.

    The steps of the model are the accesses of the code; two of them may
    overlap in time.  That is harmless when no two lanes ever have pending
    accesses to the same bytes, one of them a write: the only exception is a
    map entry, an aligned 32-bit word, read while it is written. *)

From stdpp Require Import functions.
From S2P Require Import Prelude Mem BttLayout Prog Btt BttInv BttSpec BttConc BttConcInv BttConcStep BttConcState BttConcWp BttConcOps BttConcSpec.

(** ** The regions of an arena *)

(** A block, the flog pair of a lane, a map entry. *)
Inductive region := RBlk (b : Z) | RFlog (l : nat) | RMap (x : Z).

Definition in_region (nf lbs : Z) (a : arena) (r : region) (o n : Z) : Prop :=
  match r with
  | RBlk b => 0 <= b < internal_nlba a /\ o = blk_off a b /\ n = lbs
  | RFlog l => Z.of_nat l < nf /\ flog_pos a l <= o /\ o + n <= flog_pos a l + 32
  | RMap x => 0 <= x < external_nlba a /\ o = mapoff a + 4 * x /\ n = 4
  end.

Section Regions.
Context (nf lbs size : Z) (a : arena) (Hgeom : geom_ok nf lbs size a).

Lemma in_region_arena r o n :
  in_region nf lbs a r o n -> startoff a <= o /\ o + n <= arena_end a nf.
Proof.
  pose proof (geom_regions _ _ _ _ Hgeom). unfold arena_end, BTT_INFO_SIZE.
  destruct r as [b|l|x]; cbn; unfold flog_pos; [|lia|lia].
  intros (Hb & -> & ->). pose proof (geom_blk_bounds _ _ _ _ Hgeom b Hb). lia.
Qed.

Lemma in_region_disj r r' o n o' n' :
  in_region nf lbs a r o n -> in_region nf lbs a r' o' n' -> r <> r' ->
  o + n <= o' \/ o' + n' <= o.
Proof.
  pose proof (geom_regions _ _ _ _ Hgeom). intros Hr Hr' Hne.
  destruct r as [b|l|x], r' as [b'|l'|x']; cbn in Hr, Hr'; unfold flog_pos in *;
    repeat match goal with
    | Hb : 0 <= ?b < internal_nlba a /\ _ |- _ =>
        let H1 := fresh in destruct Hb as (H1 & -> & ->);
        pose proof (geom_blk_bounds _ _ _ _ Hgeom _ H1)
    end; try lia.
  - apply (geom_blk_disj _ _ _ _ Hgeom); [lia|lia|congruence].
  - assert (l <> l') by congruence. lia.
  - assert (x <> x') by congruence. lia.
Qed.
End Regions.

(** ** What a phase accesses *)

Section Access.
Context {N : Type} `{NsLaws N} `{Allocator}.
Context (s0 : btt) (m0 : mem) (size : Z) (Hinv0 : btt_inv size s0 m0).

Abbreviation ginv := (ginv s0 size).
Abbreviation nlanes := (nlanes s0).
Abbreviation lbs := (lbasize s0).

(** The region a lane in a phase may write. *)
Definition write_region (l : nat) (p : phase) : option region :=
  match p with
  | Scan r k => if decide (k = nlanes) then Some (RBlk (free_blk r)) else None
  | WOld _ _ _ _ | WHalf _ _ _ _ => Some (RFlog l)
  | WSwap _ x _ _ | SOld x _ => Some (RMap x)
  | _ => None
  end.

Lemma may_write_region n s d G l i p o c :
  ginv n s d G -> G !! l = Some (i, p) -> may_write s0 (i, p) o c ->
  exists a r, arenas s0 !! i = Some a /\ write_region l p = Some r /\
    in_region (nfree s0) lbs a r o c.
Proof.
  intros Hi Hl (a & Ha & Hp). cbn in Ha, Hp.
  destruct (ginv_at s0 size l n s d G i a i p Hi Ha Hl ltac:(by left))
    as (Hlane & Hph & fs & R & L & Es & Hc).
  pose proof (nlanes_le s0 m0 size Hinv0 i a Ha) as Hn.
  assert (forall r, mine p = Some r -> med p r = r ->
    flog_pos a l <= flog_slot r /\ flog_slot r + 16 <= flog_pos a l + 32) as Hslot.
  { intros r Hm Hmed. pose proof (ci_mine Hc l r ltac:(by rewrite Hph)) as Hf.
    pose proof (ci_flog Hc l r Hf) as Hfi. rewrite Hph, Hmed in Hfi.
    pose proof (flog_slot_pos _ _ _ _ _ Hfi). pose proof (fi_next _ _ _ _ _ Hfi). lia. }
  exists a. destruct p as [|r k|r buf|r x buf|r x old buf|r x old buf|r x old buf|r x old buf|x|x old|x|e|b bs];
    cbn [write_region]; try done.
  - destruct Hp as (-> & -> & ->). rewrite decide_True by done.
    exists (RBlk (free_blk r)). split_and!; [done..|].
    pose proof (cinv_free _ _ _ _ _ _ _ _ _ _ _ l r Hc ltac:(by rewrite Hph)). done.
  - destruct Hp as [-> ->]. specialize (Hslot r eq_refl eq_refl).
    exists (RFlog l). split_and!; [done..|]. cbn. lia.
  - destruct Hp as [-> ->]. specialize (Hslot r eq_refl eq_refl).
    exists (RFlog l). split_and!; [done..|]. cbn. lia.
  - destruct Hp as [-> ->]. exists (RMap x). split_and!; [done..|].
    destruct (lo_lock (ci_locks Hc) l x ltac:(by rewrite Hph)) as [Hx _]. done.
  - destruct Hp as [-> ->]. exists (RMap x). split_and!; [done..|].
    destruct (lo_lock (ci_locks Hc) l x ltac:(by rewrite Hph)) as [Hx _]. done.
Qed.

(** Two lanes never write the same region, and no lane reads a block another
    one writes. *)
Lemma write_regions_differ n s d G l l' i p p' r :
  ginv n s d G -> (exists a, arenas s0 !! i = Some a) -> l <> l' ->
  G !! l = Some (i, p) -> G !! l' = Some (i, p') ->
  write_region l p = Some r -> write_region l' p' <> Some r /\
  forall b bs, p' = Prot b bs -> r <> RBlk b.
Proof.
  intros Hi [a Ha] Hne Hl Hl' Hw.
  destruct (ginv_at s0 size l n s d G i a i p Hi Ha Hl ltac:(by left))
    as (Hlane & Hph & fs & R & L & Es & Hc).
  pose proof (local_at i G l' p' Hl') as Hph'.
  split.
  - intros Hw'. destruct r as [b|k|x].
    + assert (exists r q, p = Scan r nlanes /\ p' = Scan q nlanes /\ free_blk r = b /\ free_blk q = b)
        as (r & q & -> & -> & Hr & Hq).
      { destruct p; cbn in Hw; try done; destruct p'; cbn in Hw'; try done.
        repeat case_decide; simplify_eq. eexists _, _. split_and!; done. }
      apply Hne. eapply (o_free_inj _ _ _ (ci_owned Hc) l l' r q); [| |congruence];
        eapply cinv_entered; [done|by rewrite Hph|done|by rewrite Hph'].
    + assert (l = k /\ l' = k) as [-> ->]; [|done].
      split; [destruct p; cbn in Hw|destruct p'; cbn in Hw']; try done; repeat case_decide; congruence.
    + assert (forall l q, write_region l q = Some (RMap x) -> holds q = Some x) as Hh.
      { intros k q Hq. destruct q; cbn in Hq; try done; try case_decide; simplify_eq; done. }
      apply Hne. eapply (lo_excl (ci_locks Hc) l l' x x); [rewrite Hph; eauto|rewrite Hph'; eauto|done].
  - intros b bs -> ->.
    assert (exists r, p = Scan r nlanes /\ free_blk r = b) as (r & -> & Hr).
    { destruct p; cbn in Hw; try done. case_decide; [|done]. simplify_eq. eauto. }
    destruct (other_block _ _ _ _ _ _ _ _ _ _ _ l r l' b bs Hc Hph (not_eq_sym Hne)); [by rewrite Hph'|done].
Qed.

(** The region a pending read is about. *)
Lemma may_read_region n s d G l i p o c :
  ginv n s d G -> G !! l = Some (i, p) -> may_read s0 (i, p) o c ->
  (exists j a x, arenas s0 !! j = Some a /\ in_region (nfree s0) lbs a (RMap x) o c) \/
  (exists a b bs, arenas s0 !! i = Some a /\ p = Prot b bs /\
     in_region (nfree s0) lbs a (RBlk b) o c).
Proof.
  intros Hi Hl [(j & a & x & Ha & Hx & -> & ->)|(a & b & bs & Ha & Hp & -> & ->)].
  - left. by exists j, a, x.
  - right. cbn in Ha, Hp. subst p. exists a, b, bs. split_and!; [done..|].
    destruct (ginv_at s0 size l n s d G i a i _ Hi Ha Hl ltac:(by left))
      as (_ & Hph & fs & R & L & _ & Hc).
    destruct (cl_blk (ci_claims Hc l) b bs ltac:(by rewrite Hph)) as [Hb _]. done.
Qed.

(** Regions of two arenas are disjoint. *)
Lemma regions_apart i j a a' r r' o c o' c' :
  arenas s0 !! i = Some a -> arenas s0 !! j = Some a' -> i <> j ->
  in_region (nfree s0) lbs a r o c -> in_region (nfree s0) lbs a' r' o' c' ->
  o + c <= o' \/ o' + c' <= o.
Proof.
  intros Ha Ha' Hne Hr Hr'.
  destruct (arena_geom s0 m0 size Hinv0 i a Ha) as [Hg _].
  destruct (arena_geom s0 m0 size Hinv0 j a' Ha') as [Hg' _].
  pose proof (in_region_arena _ _ _ _ Hg _ _ _ Hr). pose proof (in_region_arena _ _ _ _ Hg' _ _ _ Hr').
  pose proof (arena_sep s0 m0 size Hinv0 i j a a' Ha Ha' Hne). lia.
Qed.

Lemma regions_in i a r r' o c o' c' :
  arenas s0 !! i = Some a -> r <> r' ->
  in_region (nfree s0) lbs a r o c -> in_region (nfree s0) lbs a r' o' c' ->
  o + c <= o' \/ o' + c' <= o.
Proof.
  intros Ha Hne Hr Hr'. destruct (arena_geom s0 m0 size Hinv0 i a Ha) as [Hg _].
  by eapply in_region_disj.
Qed.

(** Two writes. *)
Lemma writes_apart n s d G l l' g g' o c o' c' :
  ginv n s d G -> l <> l' -> G !! l = Some g -> G !! l' = Some g' ->
  may_write s0 g o c -> may_write s0 g' o' c' -> o + c <= o' \/ o' + c' <= o.
Proof.
  intros Hi Hne Hl Hl' Hw Hw'. destruct g as [i p], g' as [j p'].
  destruct (may_write_region _ _ _ _ _ _ _ _ _ Hi Hl Hw) as (a & r & Ha & Er & Hr).
  destruct (may_write_region _ _ _ _ _ _ _ _ _ Hi Hl' Hw') as (a' & r' & Ha' & Er' & Hr').
  destruct (decide (i = j)) as [<-|Hij]; [|exact (regions_apart i j a a' _ _ _ _ _ _ Ha Ha' Hij Hr Hr')].
  assert (a' = a) as -> by congruence. refine (regions_in i a _ _ _ _ _ _ Ha _ Hr Hr'). intros <-.
  by destruct (write_regions_differ _ _ _ _ _ _ _ _ _ _ Hi (ex_intro _ a Ha) Hne Hl Hl' Er).
Qed.

(** A write and a read: the exception is one map entry. *)
Lemma write_read_apart n s d G l l' g g' o c o' c' :
  ginv n s d G -> l <> l' -> G !! l = Some g -> G !! l' = Some g' ->
  may_write s0 g o c -> may_read s0 g' o' c' ->
  (o + c <= o' \/ o' + c' <= o) \/ o' = o /\ c = 4 /\ c' = 4 /\ o mod 4 = 0.
Proof.
  intros Hi Hne Hl Hl' Hw Hr'. destruct g as [i p], g' as [j p'].
  destruct (may_write_region _ _ _ _ _ _ _ _ _ Hi Hl Hw) as (a & r & Ha & Er & Hr).
  destruct (may_read_region _ _ _ _ _ _ _ _ _ Hi Hl' Hr')
    as [(k & a' & x & Ha' & Hx)|(a' & b & bs & Ha' & -> & Hx)].
  - destruct (decide (i = k)) as [<-|Hij]; [|left; exact (regions_apart i k a a' _ _ _ _ _ _ Ha Ha' Hij Hr Hx)].
    assert (a' = a) as -> by congruence.
    assert (r = RMap x \/ r <> RMap x) as [->|Hrx]; [|right|left; by apply (regions_in i a _ _ _ _ _ _ Ha Hrx Hr Hx)].
    { destruct r as [b|k|y]; [by right..|]. destruct (decide (y = x)) as [->|]; [by left|right; congruence]. }
    destruct (arena_geom s0 m0 size Hinv0 i a Ha) as [Hg _]. pose proof (g_map4 _ _ _ _ Hg).
    destruct Hr as (_ & -> & ->), Hx as (_ & -> & ->). split_and!; try done.
    rewrite Z.mul_comm, Z_mod_plus_full. done.
  - left. destruct (decide (i = j)) as [<-|Hij]; [|exact (regions_apart i j a a' _ _ _ _ _ _ Ha Ha' Hij Hr Hx)].
    assert (a' = a) as -> by congruence. refine (regions_in i a _ _ _ _ _ _ Ha _ Hr Hx).
    destruct (write_regions_differ _ _ _ _ _ _ _ _ _ _ Hi (ex_intro _ a Ha) Hne Hl Hl' Er) as [_ Hb].
    by eapply Hb.
Qed.

(** *** A pending access is one the phase allows *)

Lemma wp_access l b p Q g al w o k :
  wp s0 size l b p Q g al -> access p = Some (w, o, k) ->
  if w then may_write s0 g o k else may_read s0 g o k.
Proof. destruct p; cbn; intros Hw [= <- <- <-]; by destruct Hw. Qed.

(** *** A lane that cannot move waits *)

Lemma wp_stuck l op p g al n s d G :
  wp s0 size l (may_block op) p (finished id) g al -> ginv n s d G -> G !! l = Some g ->
  (pstep p n s <> None \/ result_of p <> None \/ p = Crash OutOfFuel) \/
  waits s0 (may_block op) g s G.
Proof.
  intros Hw Hi Hl. destruct p; cbn in Hw |- *; try done.
  - left. right. by left.
  - left. right. by left.
  - left. right. right. by subst.
  - by left; left.
  - left; left. by destruct (nswrite _ _ _ _).
  - specialize (Hw n s d G Hi Hl). destruct (guard s); [left; left; done|by right].
Qed.
End Access.

(** ** The theorems *)

Section Theorems.
Context {N : Type} `{NsLaws N} `{Allocator}.

(** C6. At no moment can two lanes touch the same bytes of the media at once when
    one of them writes: the bytes that a lane is about to write are disjoint from
    those any other lane is about to read or write, but for a map entry that is
    read while the holder of its lock writes it, both as one aligned 32-bit word.
    The callbacks of concurrent operations may therefore run in parallel. *)
Theorem btt_lanes_race_free (n : N) (s : btt) (d : device) (tr : list label) (c : config N)
    l l' op op' p p' o k w o' k'
  (Himp : implements (ns_size n) s (ns_mem n) d)
  (Hrun : csteps (idle_config n s) tr c)
  (Hne : l <> l')
  (Hl : c_lanes c !! l = Some (Some (op, p))) (Hl' : c_lanes c !! l' = Some (Some (op', p')))
  (Hw : access p = Some (true, o, k)) (Ha : access p' = Some (w, o', k')) :
  (o + k <= o' \/ o' + k' <= o) \/
  w = false /\ o' = o /\ k = 4 /\ k' = 4 /\ o mod 4 = 0.
Proof.
  pose proof Himp as (Hinv & _).
  destruct (sim_steps s (ns_mem n) (ns_size n) Hinv _ _ _ _ _ (sim_init n s d Himp) Hrun)
    as (ac & G & _ & Hs).
  destruct (sim_lane _ _ _ _ _ _ _ Hs Hl) as (g & al & Hg & _ & _ & Hwp).
  destruct (sim_lane _ _ _ _ _ _ _ Hs Hl') as (g' & al' & Hg' & _ & _ & Hwp').
  pose proof (wp_access _ _ _ _ _ _ _ _ _ _ _ Hwp Hw) as Hm.
  pose proof (wp_access _ _ _ _ _ _ _ _ _ _ _ Hwp' Ha) as Hm'. pose proof (sm_ginv _ _ _ _ _ Hs) as Hi.
  destruct w.
  - left. by eapply (writes_apart s (ns_mem n) (ns_size n) Hinv).
  - destruct (write_read_apart s (ns_mem n) (ns_size n) Hinv _ _ _ _ _ _ _ _ _ _ _ _ Hi Hne Hg Hg' Hm Hm');
      [by left|by right].
Qed.

(** C8. The lanes do not deadlock: whenever some lane is inside a call, one of the
    lanes that are can take a step, return, or has spent the fuel of its read,
    provided that every slot of the read tracking tables in use is that of a lane
    that is reading.  (A read that fails in its retry loop leaves its slot
    behind, and then the proviso fails.) *)
Theorem btt_lanes_deadlock_free (n : N) (s : btt) (d : device) (tr : list label) (c : config N)
    l op p
  (Himp : implements (ns_size n) s (ns_mem n) d)
  (Hrun : csteps (idle_config n s) tr c)
  (Hslots : no_stale_slot c)
  (Hl : c_lanes c !! l = Some (Some (op, p))) :
  exists l', can_move c l'.
Proof.
  pose proof Himp as (Hinv & _).
  destruct (sim_steps s (ns_mem n) (ns_size n) Hinv _ _ _ _ _ (sim_init n s d Himp) Hrun)
    as (ac & G & _ & Hs).
  pose proof (sm_ginv _ _ _ _ _ Hs) as Hi.
  assert (forall k op' p', c_lanes c !! k = Some (Some (op', p')) ->
    can_move c k \/ exists g, G !! k = Some g /\ waits s (may_block op') g (c_st c) G) as Hmove.
  { intros k op' p' Hk. destruct (sim_lane _ _ _ _ _ _ _ Hs Hk) as (g & al & Hg & _ & _ & Hwp).
    destruct (wp_stuck _ _ _ _ _ _ _ _ _ _ _ Hwp Hi Hg) as [Hm|Hwt]; [left; by exists op', p'|eauto]. }
  destruct (Hmove _ _ _ Hl) as [?|(g & Hg & _ & _ & [(j & g' & Hj & Hh)|(i & a & k & v & Ha & Hk & Hv & Hne)])];
    [eauto|..].
  - (* the lane that holds a lock does not wait *)
    destruct (lookup_lt_is_Some_2 (c_lanes c) j) as [t Ht].
    { rewrite (sm_len _ _ _ _ _ Hs), <- (gi_lanes _ _ _ _ _ _ Hi). by eapply lookup_lt_Some. }
    destruct t as [[op' p']|].
    + destruct (Hmove _ _ _ Ht) as [?|(g2 & Hg2 & _ & Hn & _)]; [eauto|]. assert (g2 = g') as -> by congruence. done.
    + destruct (sim_lane _ _ _ _ _ _ _ Hs Ht) as (g2 & al & Hg2 & _ & _ & Hq & _).
      assert (g2 = g') as -> by congruence. by rewrite Hq in Hh.
  - (* a read does not wait *)
    destruct (Hslots i a k v Ha) as (lba & p' & Ek); [|done..|].
    { destruct (shape_fields s (ns_mem n) (ns_size n) Hinv _ (gi_shape _ _ _ _ _ _ Hi)) as (_ & _ & -> & _).
      unfold nlanes in Hk. lia. }
    destruct (Hmove _ _ _ Ek) as [?|(g2 & _ & Hb & _)]; [eauto|done].
Qed.
End Theorems.
