(* ===== verification/BttOpen.v ===== *)
(** BttOpen: opening a BTT whose layout is on the media.

    [btt_init] scans the info blocks, then loads each arena: the flog pairs are
    decoded and an update a flog describes but the map does not have yet is
    completed, and the run-time tables are rebuilt.  The lemmas say what this
    yields on a media whose arenas satisfy the invariant, and on one where a
    single update is in flight. *)

From S2P Require Import Prelude Mem Util BttLayout Prog Btt BttInv BttSpec.

(** ** Reading the flogs back *)

(** Completing the update a flog describes: nothing, unless the map still has
    the old entry. *)
Lemma recover_noop m a fs f r :
  owned m a fs -> fs !! f = Some r -> 0 <= lba (flog r) < external_nlba a ->
  eff_at m a (lba (flog r)) <> old_map (flog r).
Proof. intros Ho Hf Hl E. apply (o_disj _ _ _ Ho _ f r Hl Hf). unfold blk_at, free_blk. by rewrite E. Qed.

Section Reopen.
Context {N : Type} `{NsLaws N} `{Allocator}.
Abbreviation W := (Build_world (N := N) (S := btt)).

Lemma run_mod_flog (n : N) s lg i b k q f :
  arenas s !! i = Some b -> flogs b !! k = Some q ->
  run (mod_flog i k f) (W n s lg) =
  (Done tt, W n (put_arena s i (set_flogs b (<[k := f q]> (flogs b)))) lg).
Proof.
  intros Hb Hq. unfold mod_flog. rewrite (run_mod_arena _ _ _ _ b) by done.
  by rewrite (list_alter_insert _ _ _ q).
Qed.

Lemma flog_pair_slices m p :
  flog_of (slice (mread m p 32) 0 16) = flog_at m p /\
  flog_of (slice (mread m p 32) 16 16) = flog_at m (p + 16).
Proof.
  pose proof (mread_sub m p 32 0 16 ltac:(lia) ltac:(lia)) as E0.
  pose proof (mread_sub m p 32 16 16 ltac:(lia) ltac:(lia)) as E1.
  change (Z.to_nat 16) with 16%nat in *. rewrite Z.add_0_r in E0.
  unfold flog_at, slice. by rewrite E0, E1.
Qed.

(** What [flog_recover] does to the media. *)
Definition recovered (n n' : N) (a : arena) (r : flog_runtime) (evs : list event) : Prop :=
  (eff_at (ns_mem n) a (lba (flog r)) <> old_map (flog r) /\ n' = n /\ evs = []) \/
  (eff_at (ns_mem n) a (lba (flog r)) = old_map (flog r) /\ old_map (flog r) <> new_map (flog r) /\
   evs = [ev_map a (lba (flog r)) (new_map (flog r))] /\
   wrote n n' (ev_map a (lba (flog r)) (new_map (flog r)))).

(** The allocator serves every request. *)
Context (Halloc : forall z, malloc_ok z = true).

Lemma run_malloc (n : N) (s : btt) lg z : run (malloc z) (W n s lg) = (Done tt, W n s lg).
Proof. cbn. by rewrite Halloc. Qed.

Section Lane.
Context (lane : Z).

Lemma run_flog_recover nf lbs (n : N) s lg i a b r :
  geom_ok nf lbs (ns_size n) a -> arenas s !! i = Some b -> mapoff b = mapoff a ->
  0 <= lba (flog r) < external_nlba a -> old_map (flog r) <> new_map (flog r) ->
  exists n' evs, recovered n n' a r evs /\
  run (flog_recover lane i (flog r)) (W n s lg) = (Done tt, W n' s (lg ++ evs)).
Proof.
  intros Hg Hb Hmo Hl Hne. pose proof (geom_regions _ _ _ _ Hg) as Hr.
  unfold flog_recover. rewrite run_bind, (run_get_arena _ _ _ _ b) by done. cbv zeta.
  assert (map_entry_offset b (lba (flog r)) = mapoff a + 4 * lba (flog r)) as ->.
  { unfold map_entry_offset, BTT_MAP_ENTRY_SIZE. rewrite Hmo, u32_id, u64_id by lia. done. }
  rewrite run_bind, run_read_ns, entry_read by lia.
  change (if map_entry_is_initial _ then _ else _) with (eff_at (ns_mem n) a (lba (flog r))).
  destruct (Z.eqb_spec (old_map (flog r)) (eff_at (ns_mem n) a (lba (flog r)))) as [E|E].
  - rewrite <- E. replace (new_map (flog r) =? old_map (flog r)) with false
      by (symmetry; apply Z.eqb_neq; congruence). cbn [negb andb].
    destruct (run_write_ns n s lg lane (le_enc 4 (new_map (flog r))) (mapoff a + 4 * lba (flog r)))
      as (n' & Hw & ->); [lia|rewrite length_le_enc; lia|].
    eexists n', _. split; [|done]. right. by split_and!.
  - rewrite andb_false_r. exists n, []. rewrite app_nil_r. split; [|done]. left. by split_and!.
Qed.

Lemma run_read_flog_pair nf lbs (n : N) s lg i a b k q r :
  geom_ok nf lbs (ns_size n) a -> (Z.of_nat k < nf) -> arenas s !! i = Some b -> mapoff b = mapoff a ->
  flogs b !! k = Some q -> 0 <= lane < nfree s -> flog_inv (nlba s) (ns_mem n) a k r ->
  exists n' evs,
  (recovered n n' a r evs \/ old_map (flog r) = new_map (flog r) /\ n' = n /\ evs = []) /\
  run (read_flog_pair lane i (flog_pos a k) k) (W n s lg) =
  (Done tt, W n' (put_arena s i (set_flogs b (<[k := r]> (flogs b)))) (lg ++ evs)).
Proof.
  intros Hg Hk Hb Hmo Hq Hnf [] . pose proof (geom_regions _ _ _ _ Hg) as Hr.
  assert (0 < flog_pos a k /\ flog_pos a k + 32 <= ns_size n) as [Hp0 Hp1] by (unfold flog_pos; lia).
  unfold read_flog_pair. rewrite run_bind, (run_mod_flog _ _ _ _ b _ q) by done.
  set (b1 := set_flogs b _). set (s1 := put_arena s i b1).
  assert (arenas s1 !! i = Some b1) as Hb1 by by eapply lookup_put_arena.
  rewrite run_bind, run_get. cbn [w_st]. change (nfree s1) with (nfree s).
  replace ((lane <? 0) || (nfree s <=? lane)) with false by (symmetry; apply orb_false_iff; split; lia).
  replace (flog_pos a k =? 0) with false by (symmetry; apply Z.eqb_neq; lia).
  change (2 * BTT_FLOG_SIZE) with 32. rewrite run_bind, run_read_ns by lia.
  destruct (flog_pair_slices (ns_mem n) (flog_pos a k)) as [-> ->]. cbv zeta.
  rewrite run_bind, run_check_lba. change (nlba s1) with (nlba s).
  replace (nlba s <=? lba (flog_at (ns_mem n) (flog_pos a k))) with false by (symmetry; apply Z.leb_gt; lia).
  rewrite run_bind, run_check_lba. change (nlba s1) with (nlba s).
  replace (nlba s <=? lba (flog_at (ns_mem n) (flog_pos a k + 16))) with false
    by (symmetry; apply Z.leb_gt; lia).
  rewrite fi_current. pose proof (lookup_lt_Some _ _ _ Hq) as Hlt.
  rewrite run_bind, (run_mod_flog _ _ _ _ b1 _ (set_entries q (flog_pos a k, flog_pos a k + BTT_FLOG_SIZE)))
    by (done || by apply list_lookup_insert_eq).
  assert (k < length (flogs b1))%nat as Hlt1 by (unfold b1; cbn [flogs set_flogs]; by rewrite length_insert).
  set (b2 := set_flogs b1 _). set (s2 := put_arena s1 i b2).
  assert (arenas s2 !! i = Some b2) as Hb2 by by eapply lookup_put_arena.
  rewrite run_bind, (run_mod_flog _ _ _ _ b2 _
    (set_next (set_entries q (flog_pos a k, flog_pos a k + BTT_FLOG_SIZE)) (next r)))
    by (done || by apply list_lookup_insert_eq).
  replace (set_flogs b2 _) with (set_flogs b (<[k := r]> (flogs b))).
  2: { unfold b2, b1, set_flogs. cbn [flogs]. f_equal. rewrite !list_insert_insert_eq. f_equal.
       unfold set_flog, set_next, set_entries. cbn. rewrite <- fi_entries. by destruct r. }
  unfold s2, s1. rewrite !put_arena_put. set (b3 := set_flogs b _). set (s3 := put_arena s i b3).
  destruct (Z.eqb_spec (old_map (flog r)) (new_map (flog r))) as [E|E].
  - exists n, []. rewrite app_nil_r. split; [by right|done].
  - destruct (run_flog_recover nf lbs n s3 lg i a b3 r) as (n' & evs & Hrec & ->); try done.
    { by eapply lookup_put_arena. }
    exists n', evs. split; [by left|done].
Qed.

Lemma flog_pos_next a k : flog_pos a k + roundup (2 * BTT_FLOG_SIZE) BTT_FLOG_PAIR_ALIGN = flog_pos a (k + 1).
Proof. unfold flog_pos. change (roundup _ _) with 64. lia. Qed.

(** A flog whose update is complete is read without touching the media. *)
Lemma run_read_clean_pair nf lbs (n : N) s lg i a b fs k q r :
  geom_ok nf lbs (ns_size n) a -> Z.of_nat k < nf -> arenas s !! i = Some b -> mapoff b = mapoff a ->
  flogs b !! k = Some q -> 0 <= lane < nfree s -> flog_inv (nlba s) (ns_mem n) a k r ->
  owned (ns_mem n) a fs -> fs !! k = Some r ->
  run (read_flog_pair lane i (flog_pos a k) k) (W n s lg) =
  (Done tt, W n (put_arena s i (set_flogs b (<[k := r]> (flogs b)))) lg).
Proof.
  intros Hg Hk Hb Hmo Hq Hnf Hfi Hown Hr.
  destruct (run_read_flog_pair nf lbs n s lg i a b k q r) as (n' & evs & Hrec & ->); try done.
  destruct Hrec as [[(_ & -> & ->)|(E & _)]|(_ & -> & ->)]; try (by rewrite app_nil_r).
  exfalso. eapply recover_noop; try done. apply Hfi.
Qed.

Lemma run_loop_clean nf lbs a fs i c : forall k (n : N) s lg b,
  geom_ok nf lbs (ns_size n) a -> Z.of_nat (length fs) = nf -> arenas s !! i = Some b ->
  mapoff b = mapoff a -> length (flogs b) = length fs -> (k + c = length fs)%nat -> 0 <= lane < nfree s ->
  (forall g r, fs !! g = Some r -> flog_inv (nlba s) (ns_mem n) a g r) -> owned (ns_mem n) a fs ->
  (forall g, (g < k)%nat -> flogs b !! g = fs !! g) ->
  run (read_flogs_loop lane i (flog_pos a k) k c) (W n s lg) =
  (Done tt, W n (put_arena s i (set_flogs b fs)) lg).
Proof.
  induction c as [|c IH]; intros k n s lg b Hg Hnf Hb Hmo Hlen Hk Hpos Hfi Hown Hpre.
  - assert (flogs b = fs) as <-.
    { apply list_eq. intros j. destruct (decide (j < k)%nat); [auto|].
      by rewrite !lookup_ge_None_2 by lia. }
    cbn [read_flogs_loop run]. rewrite put_arena_same; [done|]. rewrite Hb. f_equal. by destruct b.
  - destruct (lookup_lt_is_Some_2 fs k) as [r Hr]; [lia|].
    destruct (lookup_lt_is_Some_2 (flogs b) k) as [q Hq]; [lia|].
    cbn [read_flogs_loop]. rewrite run_bind, run_catch.
    rewrite (run_read_clean_pair nf lbs n s lg i a b fs k q r) by (done || lia || auto).
    rewrite flog_pos_next. rewrite (IH _ _ _ _ (set_flogs b (<[k:=r]> (flogs b)))); try done.
    + by rewrite put_arena_put.
    + by eapply lookup_put_arena.
    + cbn [flogs set_flogs]. by rewrite length_insert.
    + lia.
    + intros g Hg'. cbn [flogs set_flogs]. destruct (decide (g = k)) as [->|Hne].
      * by rewrite list_lookup_insert_eq by lia.
      * rewrite list_lookup_insert_ne by done. apply Hpre. lia.
Qed.

Section Inflight.
Context (nf lbs size : Z) (m0 : mem) (a : arena) (s0 : btt).
Context (Hinv : arena_inv nf (nlba s0) lbs size m0 a).
Context (f : nat) (r : flog_runtime) (x old : Z).

Abbreviation new := (normal (free_blk r)).
Abbreviation fs' := (<[f := flog_after r x old new]> (flogs a)).

Lemma inflight_differs m : inflight (nlba s0) a m f r x old new -> old <> new.
Proof.
  intros [] E. apply (o_disj _ _ _ if_owned x f r if_lba if_lane).
  unfold blk_at. rewrite <- if_old, E. apply normal_lba, entry_lba_range.
Qed.

(** Reading the flogs of an arena with one committed update completes it. *)
Lemma run_loop_inflight i c : forall k (n : N) s lg b,
  inflight (nlba s0) a (ns_mem n) f r x old new -> ns_size n = size -> nlba s = nlba s0 ->
  arenas s !! i = Some b -> mapoff b = mapoff a -> length (flogs b) = length (flogs a) ->
  (k + c = length (flogs a))%nat -> (k <= f)%nat -> 0 <= lane < nfree s ->
  (forall g, (g < k)%nat -> flogs b !! g = flogs a !! g) ->
  exists n', wrote n n' (ev_map a x new) /\
  run (read_flogs_loop lane i (flog_pos a k) k c) (W n s lg) =
  (Done tt, W n' (put_arena s i (set_flogs b fs')) (lg ++ [ev_map a x new])).
Proof.
  pose proof (ai_len _ _ _ _ _ _ Hinv) as Hnf. pose proof (ai_geom _ _ _ _ _ _ Hinv) as Hg.
  induction c as [|c IH]; intros k n s lg b Hif Hsz Hnl Hb Hmo Hlen Hk Hkf Hpos Hpre;
    pose proof (inflight_differs _ Hif) as Hdiff; pose proof Hif as [];
    pose proof (lookup_lt_Some _ _ _ if_lane) as Hlt; [lia|].
  rewrite <- Hsz in Hg.
  destruct (lookup_lt_is_Some_2 (flogs b) k) as [q Hq]; [lia|].
  cbn [read_flogs_loop]. rewrite run_bind, run_catch.
  destruct (decide (k = f)) as [->|Hne].
  - clear IH. rewrite <- Hnl in if_flog.
    destruct (run_read_flog_pair nf lbs n s lg i a b f q (flog_after r x old new))
      as (n' & evs & Hrec & ->); [done|lia|done..|].
    destruct Hrec as [[(E & _)|(_ & _ & -> & Hw)]|(E & _)];
      [by destruct E; rewrite if_old| |by destruct Hdiff].
    exists n'. split; [done|]. pose proof Hw as (Hsz' & _ & Hm).
    destruct (step_map _ _ _ _ _ _ Hinv _ f r x old _ _ Hif Hm) as ([] & _ & _).
    rewrite flog_pos_next. rewrite (run_loop_clean nf lbs a fs' i _ _ _ _ _
      (set_flogs b (<[f := flog_after r x old new]> (flogs b)))); try done.
    + by rewrite put_arena_put.
    + by rewrite Hsz'.
    + by eapply lookup_put_arena.
    + cbn [flogs set_flogs]. by rewrite !length_insert.
    + rewrite length_insert. lia.
    + intros g p Hp. cbn [put_arena set_arenas nlba]. rewrite Hnl.
      destruct (ai_flog g p Hp). by split.
    + destruct ai_owned. by split.
    + intros g Hg'. cbn [flogs set_flogs]. destruct (decide (g = f)) as [->|Hne].
      * by rewrite !list_lookup_insert_eq by lia.
      * rewrite !list_lookup_insert_ne by done. apply Hpre. lia.
  - destruct (lookup_lt_is_Some_2 (flogs a) k) as [p Hp]; [lia|].
    pose proof (if_other k p Hne Hp) as Hfi. rewrite <- Hnl in Hfi.
    rewrite (run_read_clean_pair nf lbs n s lg i a b (flogs a) k q p) by (done || lia).
    rewrite flog_pos_next.
    destruct (IH (k + 1)%nat n (put_arena s i (set_flogs b (<[k := p]> (flogs b)))) lg
      (set_flogs b (<[k := p]> (flogs b)))) as (n' & Hw & ->); try done.
    + by eapply lookup_put_arena.
    + cbn [flogs set_flogs]. by rewrite length_insert.
    + lia.
    + lia.
    + intros g Hg'. cbn [flogs set_flogs]. destruct (decide (g = k)) as [->|Hne'].
      * by rewrite list_lookup_insert_eq by lia.
      * rewrite list_lookup_insert_ne by done. apply Hpre. lia.
    + exists n'. by rewrite put_arena_put.
Qed.
End Inflight.

(** ** Reading the arenas back *)

(** The info block on the media describes the arena [a] of the BTT [s]. *)
Record described (s : btt) (m : mem) (a : arena) (info : btt_info) : Prop := {
  ds_info : read_info s (mread m (startoff a) BTT_INFO_SIZE) = Some info;
  ds_arena : arena_of_info a info (startoff a) = a;
  ds_lbs : i_external_lbasize info = lbasize s;
  ds_nfree : i_nfree info = nfree s;
  ds_ext : i_external_nlba info <> 0;
}.

Lemma read_info_of s bs info : read_info s bs = Some info -> info = btt_info_of bs.
Proof. unfold read_info. repeat case_match; congruence. Qed.

Lemma described_agree s m m' a info :
  agree m' m (startoff a) BTT_INFO_SIZE -> described s m a info -> described s m' a info.
Proof. intros Ha []. split; try done. by rewrite (mread_agree _ _ _ _ Ha). Qed.

(** The arena when the loop over the flogs starts. *)
Definition blank (s : btt) (b : arena) (info : btt_info) (off : Z) : arena :=
  set_flogs (arena_of_info b info off) (replicate (Z.to_nat (nfree s)) zero_runtime).

(** [read_arena] around the loop over the flogs. *)
Lemma run_read_arena_with (n n' : N) s lg lg' i a b info fs :
  described s (ns_mem n) a info -> quiet (nfree s) a -> arenas s !! i = Some b ->
  0 <= startoff a -> startoff a + BTT_INFO_SIZE <= ns_size n ->
  let c := blank s b info (startoff a) in
  run (read_flogs_loop lane i (flogoff a) 0 (Z.to_nat (nfree s))) (W n (put_arena s i c) lg) =
  (Done tt, W n' (put_arena s i (set_flogs c fs)) lg') ->
  run (read_arena lane (startoff a) i) (W n s lg) = (Done tt, W n' (put_arena s i (set_flogs a fs)) lg').
Proof.
  intros [] [] Hb H0' H1' c Hloop. unfold read_arena, BTT_INFO_SIZE in *. rewrite run_bind, run_read_ns by lia.
  apply read_info_of in ds_info0. rewrite <- ds_info0.
  rewrite run_bind, (run_mod_arena _ _ _ _ b) by done.
  set (b1 := arena_of_info b info (startoff a)).
  assert (arena_of_info a info (startoff a) = a) as Ha by done.
  unfold read_flogs. rewrite run_bind, run_bind, run_get. cbn [w_st].
  change (nfree (put_arena s i b1)) with (nfree s).
  rewrite run_bind, run_malloc, run_bind, (run_mod_arena _ _ _ _ b1) by by eapply lookup_put_arena.
  rewrite put_arena_put. change (set_flogs b1 _) with c.
  rewrite run_bind, (run_get_arena _ _ _ _ c) by by eapply lookup_put_arena.
  replace (flogoff c) with (flogoff a) by (rewrite <- Ha; done).
  rewrite Hloop.
  set (s1 := put_arena s i _). unfold build_rtt, build_map_locks.
  assert (arenas s1 !! i = Some (set_flogs c fs)) as Hs1 by by eapply lookup_put_arena.
  rewrite run_bind, run_bind, run_get. cbn [w_st]. rewrite run_bind, run_malloc.
  rewrite (run_mod_arena _ _ _ _ (set_flogs c fs)) by done.
  rewrite run_bind, run_bind, run_get. cbn [w_st]. rewrite run_bind, run_malloc.
  rewrite (run_mod_arena _ _ _ _ (set_rtt (set_flogs c fs)
    (replicate (Z.to_nat (nfree s1)) BTT_MAP_ENTRY_ERROR))) by by eapply lookup_put_arena.
  rewrite (run_mod_arena _ _ _ _ (set_map_locks (set_rtt (set_flogs c fs)
    (replicate (Z.to_nat (nfree s1)) BTT_MAP_ENTRY_ERROR)) (replicate (Z.to_nat (nfree s1)) false)))
    by (eapply lookup_put_arena; by eapply lookup_put_arena).
  unfold s1. rewrite !put_arena_put. do 3 f_equal.
  transitivity (set_flogs (arena_of_info a info (startoff a)) fs); [|by rewrite Ha].
  unfold set_info_lock, set_map_locks, set_rtt, set_flogs, arena_of_info. cbn.
  by rewrite q_rtt, q_locks, q_info.
Qed.

Lemma blank_shape s b info a :
  arena_of_info a info (startoff a) = a ->
  mapoff (blank s b info (startoff a)) = mapoff a /\
  length (flogs (blank s b info (startoff a))) = Z.to_nat (nfree s).
Proof.
  intros Ha. split; [|unfold blank; cbn [flogs set_flogs]; len].
  transitivity (mapoff (arena_of_info a info (startoff a))); [done|by rewrite Ha].
Qed.

Lemma run_read_arena_clean (n : N) s lg i a b info :
  0 <= lane < nfree s ->
  described s (ns_mem n) a info -> arenas s !! i = Some b ->
  arena_inv (nfree s) (nlba s) (lbasize s) (ns_size n) (ns_mem n) a ->
  run (read_arena lane (startoff a) i) (W n s lg) = (Done tt, W n (put_arena s i a) lg).
Proof.
  intros Hlane Hd Hb Hinv. pose proof (regions _ _ _ _ _ _ Hinv) as Hg. pose proof Hinv as [].
  replace (put_arena s i a) with (put_arena s i (set_flogs a (flogs a))) by (f_equal; by destruct a).
  eapply run_read_arena_with; try done; unfold BTT_INFO_SIZE; [lia..|].
  destruct (blank_shape s b info a (ds_arena _ _ _ _ Hd)) as [Hc Hcf].
  set (c := blank s b info (startoff a)) in *.
  replace (flogoff a) with (flog_pos a 0) by (unfold flog_pos; lia).
  rewrite (run_loop_clean (nfree s) (lbasize s) a (flogs a) i _ _ _ _ _ c); try done; try lia.
  - by rewrite put_arena_put.
  - by eapply lookup_put_arena.
Qed.

Lemma run_read_arena_inflight (n : N) s lg i a b info m0 f r x old :
  0 <= lane < nfree s ->
  described s (ns_mem n) a info -> arenas s !! i = Some b ->
  arena_inv (nfree s) (nlba s) (lbasize s) (ns_size n) m0 a ->
  inflight (nlba s) a (ns_mem n) f r x old (normal (free_blk r)) ->
  exists n', wrote n n' (ev_map a x (normal (free_blk r))) /\
  run (read_arena lane (startoff a) i) (W n s lg) =
  (Done tt, W n' (put_arena s i
    (set_flogs a (<[f := flog_after r x old (normal (free_blk r))]> (flogs a))))
    (lg ++ [ev_map a x (normal (free_blk r))])).
Proof.
  intros Hlane Hd Hb Hinv Hif. pose proof (regions _ _ _ _ _ _ Hinv) as Hg. pose proof Hinv as [].
  destruct (blank_shape s b info a (ds_arena _ _ _ _ Hd)) as [Hc Hcf].
  set (c := blank s b info (startoff a)) in *.
  destruct (run_loop_inflight _ _ _ _ _ s Hinv f r x old i (Z.to_nat (nfree s)) 0 n
    (put_arena s i c) lg c) as (n' & Hw & E); try done; try lia; [by eapply lookup_put_arena|].
  exists n'. split; [done|].
  eapply run_read_arena_with; try done; unfold BTT_INFO_SIZE; [lia..|].
  replace (flogoff a) with (flog_pos a 0) by (unfold flog_pos; lia).
  fold c. rewrite E. by rewrite put_arena_put.
Qed.

(** Two run-time states that agree on what an info block is compared with. *)
Definition same_params (s s' : btt) : Prop :=
  parent_uuid s' = parent_uuid s /\ lbasize s' = lbasize s /\ nfree s' = nfree s.

Lemma read_info_params s s' bs : parent_uuid s' = parent_uuid s -> read_info s' bs = read_info s bs.
Proof. intros Hu. unfold read_info. by rewrite Hu. Qed.

Lemma described_params s s' m a info :
  same_params s s' -> described s m a info -> described s' m a info.
Proof.
  intros (Hu & Hl & Hf) [Hi Ha Hb Hn He].
  split; [by rewrite (read_info_params s)|exact Ha|by rewrite Hl|by rewrite Hf|exact He].
Qed.

(** The arenas follow each other on the media. *)
Definition linked (ars : list arena) : Prop :=
  forall j a b, ars !! j = Some a -> ars !! S j = Some b -> nextoff a = startoff b.

(** The arenas are all readable, and not in the middle of an update. *)
Definition loadable (s : btt) (n : N) (ars : list arena) : Prop :=
  forall j a, ars !! j = Some a ->
    (exists info, described s (ns_mem n) a info) /\
    arena_inv (nfree s) (nlba s) (lbasize s) (ns_size n) (ns_mem n) a.

Lemma loadable_put s n ars i a : loadable s n ars -> loadable (put_arena s i a) n ars.
Proof.
  intros Hl j b Hb. destruct (Hl j b Hb) as [[info Hd] Hi].
  split; [exists info; eapply described_params; [|done]; done|done].
Qed.

(** Putting the next arena of [ars] in place. *)
Lemma put_prefix (s : btt) ars k a :
  ars !! k = Some a -> length (arenas s) = length ars ->
  (forall j, (j < k)%nat -> arenas s !! j = ars !! j) ->
  forall j, (j < k + 1)%nat -> arenas (put_arena s k a) !! j = ars !! j.
Proof.
  intros Ha Hlen Hpre j Hj. cbn [put_arena set_arenas arenas].
  pose proof (lookup_lt_Some _ _ _ Ha). destruct (decide (j = k)) as [->|Hne].
  - by rewrite list_lookup_insert_eq by lia.
  - rewrite list_lookup_insert_ne by done. apply Hpre. lia.
Qed.

Lemma run_arenas_clean ars c : forall k off (n : N) s lg,
  0 <= lane < nfree s ->
  length (arenas s) = length ars -> (k + c = length ars)%nat -> linked ars ->
  (forall a, ars !! k = Some a -> off = startoff a) ->
  (forall j, (j < k)%nat -> arenas s !! j = ars !! j) -> loadable s n ars ->
  run (read_arenas_loop lane off k c) (W n s lg) = (Done tt, W n (set_arenas s ars) lg).
Proof.
  induction c as [|c IH]; intros k off n s lg Hlane Hlen Hk Hlink Hoff Hpre Hload.
  - assert (arenas s = ars) as <-; [|by destruct s].
    apply list_eq. intros j. destruct (decide (j < k)%nat); [auto|].
    by rewrite !lookup_ge_None_2 by lia.
  - destruct (lookup_lt_is_Some_2 ars k) as [a Ha]; [lia|].
    destruct (lookup_lt_is_Some_2 (arenas s) k) as [b Hb]; [lia|].
    destruct (Hload k a Ha) as [[info Hd] Hinv].
    cbn [read_arenas_loop]. rewrite (Hoff a Ha), run_bind.
    rewrite (run_read_arena_clean n s lg k a b info) by done.
    rewrite run_bind, (run_get_arena _ _ _ _ a) by by eapply lookup_put_arena.
    rewrite IH; try done.
    + cbn [put_arena set_arenas arenas]. by rewrite length_insert.
    + lia.
    + intros b' Hb'. rewrite Nat.add_1_r in Hb'. by apply (Hlink k).
    + by apply put_prefix.
    + by apply loadable_put.
Qed.

(** One arena is in the middle of an update: reading the arenas completes it. *)
Section OneInflight.
Context (ars : list arena) (f : nat) (r : flog_runtime) (x old : Z) (i : nat) (a : arena).
Context (Ha : ars !! i = Some a).

Abbreviation a' := (set_flogs a (<[f := flog_after r x old (normal (free_blk r))]> (flogs a))).
Abbreviation ev := (ev_map a x (normal (free_blk r))).

Record loadable_but (s : btt) (n : N) : Prop := {
  lb_described : forall j b, ars !! j = Some b -> exists info, described s (ns_mem n) b info;
  lb_inv : forall j b, j <> i -> ars !! j = Some b ->
    arena_inv (nfree s) (nlba s) (lbasize s) (ns_size n) (ns_mem n) b;
  lb_before : exists m0, arena_inv (nfree s) (nlba s) (lbasize s) (ns_size n) m0 a;
  lb_inflight : inflight (nlba s) a (ns_mem n) f r x old (normal (free_blk r));
  lb_sep : forall j k b c, (j < k)%nat -> ars !! j = Some b -> ars !! k = Some c ->
             arena_end b (nfree s) <= startoff c;
}.

Lemma loadable_but_put s n j b : loadable_but s n -> loadable_but (put_arena s j b) n.
Proof.
  intros []. split; try done. intros k c Hc. destruct (lb_described0 k c Hc) as [info Hd].
  exists info. by apply (described_params s).
Qed.

(** The map entry lies in its arena, away from the info blocks and the others. *)
Lemma ev_only s n n' : loadable_but s n -> wrote n n' ev ->
  only (ns_mem n) (ns_mem n') (startoff a + BTT_INFO_SIZE)
       (arena_end a (nfree s) - startoff a - BTT_INFO_SIZE).
Proof.
  intros [] (_ & _ & Hm) z Hz. destruct lb_before0 as [m0 Hinv].
  pose proof (regions _ _ _ _ _ _ Hinv) as Hg. destruct lb_inflight0.
  unfold arena_end, BTT_INFO_SIZE in *. rewrite (Hm z). cbn [apply_event ev_map].
  rewrite mwrite_out; [done|]. rewrite length_le_enc. lia.
Qed.

Lemma described_after s n n' j b info :
  loadable_but s n -> wrote n n' ev -> ars !! j = Some b ->
  described s (ns_mem n) b info -> described s (ns_mem n') b info.
Proof.
  intros Hl Hw Hb. apply described_agree. pose proof (ev_only s n n' Hl Hw) as Ho.
  destruct Hl. destruct lb_before0 as [m0 Hinv]. pose proof (regions _ _ _ _ _ _ Hinv) as Hg.
  eapply only_agree; [done|]. unfold arena_end, BTT_INFO_SIZE in *.
  destruct (decide (j = i)) as [->|Hne]; [simplify_eq; lia|].
  pose proof (regions _ _ _ _ _ _ (lb_inv0 j b Hne Hb)) as Hgb.
  destruct (decide (j < i)%nat).
  - pose proof (lb_sep0 j i b a ltac:(lia) Hb Ha). unfold arena_end, BTT_INFO_SIZE in *. lia.
  - pose proof (lb_sep0 i j a b ltac:(lia) Ha Hb). unfold arena_end, BTT_INFO_SIZE in *. lia.
Qed.

(** The arenas after the update is completed. *)
Lemma loadable_after s n n' :
  loadable_but s n -> wrote n n' ev -> loadable s n' (<[i := a']> ars).
Proof.
  intros Hl Hw j b Hb. pose proof (ev_only s n n' Hl Hw) as Ho. pose proof Hw as (Hsz & _ & Hm).
  pose proof Hl as []. destruct lb_before0 as [m0 Hinv].
  destruct (decide (j = i)) as [->|Hne].
  - rewrite list_lookup_insert_eq in Hb by (by eapply lookup_lt_Some). injection Hb as <-. split.
    + destruct (lb_described0 i a Ha) as [info Hd]. exists info.
      pose proof (described_after _ _ _ _ _ _ Hl Hw Ha Hd) as [].
      split; try done.
      transitivity (set_flogs (arena_of_info a info (startoff a)) (flogs a')); [done|by rewrite ds_arena0].
    + rewrite Hsz. by destruct (step_map _ _ _ _ _ _ Hinv _ f r x old _ _ lb_inflight0 Hm) as (? & _ & _).
  - rewrite list_lookup_insert_ne in Hb by done. split.
    + destruct (lb_described0 j b Hb) as [info Hd]. exists info. by eapply described_after.
    + rewrite Hsz. eapply arena_inv_agree; [|by eapply lb_inv0]. unfold same_arena.
      apply agree_sym. eapply only_agree; [done|].
      destruct (decide (j < i)%nat).
      * pose proof (lb_sep0 j i b a ltac:(lia) Hb Ha). unfold BTT_INFO_SIZE. lia.
      * pose proof (lb_sep0 i j a b ltac:(lia) Ha Hb). unfold BTT_INFO_SIZE. lia.
Qed.

Lemma run_arenas_inflight c : forall k off (n : N) s lg,
  0 <= lane < nfree s ->
  length (arenas s) = length ars -> (k + c = length ars)%nat -> linked ars -> (k <= i)%nat ->
  (forall b, ars !! k = Some b -> off = startoff b) ->
  (forall j, (j < k)%nat -> arenas s !! j = ars !! j) -> loadable_but s n ->
  exists n', wrote n n' ev /\
  run (read_arenas_loop lane off k c) (W n s lg) =
  (Done tt, W n' (set_arenas s (<[i := a']> ars)) (lg ++ [ev])).
Proof.
  induction c as [|c IH]; intros k off n s lg Hlane Hlen Hk Hlink Hki Hoff Hpre Hload;
    pose proof (lookup_lt_Some _ _ _ Ha) as Hlt; [lia|].
  destruct (lookup_lt_is_Some_2 (arenas s) k) as [b0 Hb0]; [lia|].
  cbn [read_arenas_loop]. rewrite run_bind.
  destruct (decide (k = i)) as [->|Hne].
  - pose proof Hload as []. destruct lb_before0 as [m0 Hinv].
    destruct (lb_described0 i a Ha) as [info Hd]. rewrite (Hoff a Ha).
    destruct (run_read_arena_inflight n s lg i a b0 info m0 f r x old) as (n' & Hw & ->); try done.
    exists n'. split; [done|].
    rewrite run_bind, (run_get_arena _ _ _ _ a') by by eapply lookup_put_arena.
    rewrite (run_arenas_clean (<[i := a']> ars)); try done.
    + cbn [put_arena set_arenas arenas]. by rewrite !length_insert.
    + rewrite length_insert. lia.
    + intros j b c' Hb Hc.
      assert (forall k e, <[i := a']> ars !! k = Some e -> exists e', ars !! k = Some e' /\
        nextoff e = nextoff e' /\ startoff e = startoff e') as Hl.
      { intros k e He. destruct (decide (k = i)) as [->|Hne].
        - rewrite list_lookup_insert_eq in He by done. injection He as <-. by exists a.
        - rewrite list_lookup_insert_ne in He by done. by exists e. }
      destruct (Hl _ _ Hb) as (? & ? & -> & _), (Hl _ _ Hc) as (? & ? & _ & ->). by eapply Hlink.
    + intros b Hb. rewrite Nat.add_1_r in Hb. rewrite list_lookup_insert_ne in Hb by lia.
      by apply (Hlink i a b).
    + apply put_prefix.
      * by rewrite list_lookup_insert_eq.
      * by rewrite length_insert.
      * intros j Hj. rewrite list_lookup_insert_ne by lia. auto.
    + apply loadable_put. by eapply loadable_after.
  - destruct (lookup_lt_is_Some_2 ars k) as [b Hb]; [lia|]. rewrite (Hoff b Hb).
    destruct (lb_described _ _ Hload k b Hb) as [info Hd].
    rewrite (run_read_arena_clean n s lg k b b0 info) by (done || by eapply lb_inv).
    rewrite run_bind, (run_get_arena _ _ _ _ b) by by eapply lookup_put_arena.
    destruct (IH (k + 1)%nat (nextoff b) n (put_arena s k b) lg) as (n' & Hw & ->); try done.
    + cbn [put_arena set_arenas arenas]. by rewrite length_insert.
    + lia.
    + lia.
    + intros c' Hc. rewrite Nat.add_1_r in Hc. by apply (Hlink k).
    + by apply put_prefix.
    + by apply loadable_but_put.
    + by exists n'.
Qed.
End OneInflight.

End Lane.

(** ** Reading the layout back *)

(** The info blocks of the media lead from one arena to the next: [off] and
    [raw] are the offset reached and the raw size left. *)
Fixpoint chain (s : btt) (m : mem) (off raw : Z) (ars : list arena) : Prop :=
  match ars with
  | [] => False
  | a :: ars =>
      startoff a = off /\ BTT_MIN_SIZE <= raw /\
      exists info, described s m a info /\
        match ars with
        | [] => i_nextoff info = 0
        | _ => i_nextoff info = BTT_MAX_ARENA /\ BTT_MAX_ARENA <= raw /\
               chain s m (off + BTT_MAX_ARENA) (raw - BTT_MAX_ARENA) ars
        end
  end.

Lemma chain_agree s m m' off raw ars :
  (forall j a, ars !! j = Some a -> agree m' m (startoff a) BTT_INFO_SIZE) ->
  chain s m off raw ars -> chain s m' off raw ars.
Proof.
  revert off raw. induction ars as [|a ars IH]; intros off raw Ha; [done|].
  intros (Hs & Hr & info & Hd & Hn). split_and!; [done..|]. exists info.
  split; [eapply described_agree; [by apply (Ha 0%nat)|done]|].
  destruct ars as [|b ars]; [done|]. destruct Hn as (? & ? & Hc). split_and!; [done..|].
  apply IH; [|done]. intros j c Hj. by apply (Ha (S j)).
Qed.

Lemma chain_params s s' m off raw ars :
  same_params s s' -> chain s m off raw ars -> chain s' m off raw ars.
Proof.
  intros Hp. revert off raw. induction ars as [|a ars IH]; intros off raw; [done|].
  intros (Hs & Hr & info & Hd & Hn). split_and!; [done..|]. exists info.
  split; [by apply (described_params s)|].
  destruct ars as [|b ars]; [done|]. destruct Hn as (? & ? & Hc). split_and!; [done..|]. by apply IH.
Qed.

Lemma chain_described s m off raw ars j a :
  chain s m off raw ars -> ars !! j = Some a -> exists info, described s m a info.
Proof.
  revert off raw j. induction ars as [|b ars IH]; intros off raw j; [done|].
  intros (_ & _ & info & Hd & Hn). destruct j as [|j]; [intros [= <-]; eauto|].
  intros Hj. destruct ars as [|c ars]; [done|]. destruct Hn as (_ & _ & Hc). by eapply IH.
Qed.

(** An arena with new flogs is described by the same info block. *)
Lemma chain_set_flogs s m off raw ars i a fs :
  ars !! i = Some a -> chain s m off raw ars -> chain s m off raw (<[i := set_flogs a fs]> ars).
Proof.
  revert off raw i. induction ars as [|b ars IH]; intros off raw i; [done|].
  intros Hi (Hs & Hr & info & Hd & Hn). destruct i as [|i]; cbn [insert list_insert].
  - injection Hi as ->. split_and!; [done..|]. exists info. split; [|done].
    destruct Hd. split; try done.
    transitivity (set_flogs (arena_of_info a info (startoff a)) fs); [done|by rewrite ds_arena0].
  - split_and!; [done..|]. exists info. split; [done|].
    destruct ars as [|c ars]; [done|]. destruct Hn as (? & ? & Hc).
    specialize (IH _ _ i Hi Hc). by destruct i.
Qed.

Lemma chain_length s m off raw ars :
  chain s m off raw ars -> Z.of_nat (length ars) <= raw / BTT_MAX_ARENA + 1.
Proof.
  revert off raw. induction ars as [|a ars IH]; intros off raw; [done|].
  intros (_ & Hr & info & _ & Hn). unfold BTT_MIN_SIZE, BTT_MAX_ARENA in *. destruct ars as [|b ars].
  - cbn. pose proof (Z.div_pos raw (2 ^ 39)). lia.
  - destruct Hn as (_ & Hm & Hc). apply IH in Hc. cbn [length] in *.
    replace raw with ((raw - 2 ^ 39) + 1 * 2 ^ 39) by lia. rewrite Z.div_add by lia. lia.
Qed.

Lemma described_next s m a info :
  described s m a info -> nextoff a = u64 (startoff a + i_nextoff info).
Proof. intros []. by rewrite <- ds_arena0. Qed.

Lemma chain_linked s m off raw ars :
  0 <= off -> off + raw < 2 ^ 64 -> chain s m off raw ars -> linked ars.
Proof.
  revert off raw. induction ars as [|a ars IH]; intros off raw H0' H1'; [done|].
  intros (Hs & Hr & info & Hd & Hn) j b c Hb Hc. destruct ars as [|d ars]; [by destruct j|].
  destruct Hn as (Hx & Hm & Hch). destruct j as [|j].
  - injection Hb as <-. injection Hc as <-. rewrite (described_next _ _ _ _ Hd), Hx, Hs.
    destruct Hch as (-> & _). apply u64_id. unfold BTT_MAX_ARENA in *. lia.
  - eapply (IH (off + BTT_MAX_ARENA) (raw - BTT_MAX_ARENA)); try done; unfold BTT_MAX_ARENA in *; lia.
Qed.

(** The scan of the info blocks finds the chain. *)
Lemma run_read_layout_loop (n : N) s s1 lg : parent_uuid s1 = parent_uuid s -> lbasize s1 = lbasize s ->
  0 < nfree s ->
  forall ars fuel off raw na sm tot,
  (length ars <= fuel)%nat -> chain s (ns_mem n) off raw ars ->
  0 <= off -> off + raw <= ns_size n -> 0 <= tot -> tot + ext_sum ars < 2 ^ 64 ->
  (forall j a, ars !! j = Some a -> 0 <= external_nlba a) ->
  run (read_layout_loop fuel 0 raw off na sm tot) (W n s1 lg) =
  (Done (Layout (na + Z.of_nat (length ars)) (Z.min (nfree s) sm) (tot + ext_sum ars)), W n s1 lg).
Proof.
  intros Hu Hlb Hnf. induction ars as [|a ars IH];
    intros fuel off raw na sm tot Hfuel Hc H0' H1' Ht Hsum Hpos; [done|].
  destruct Hc as (Hs & Hr & info & Hd & Hn). destruct fuel as [|fuel]; [cbn in Hfuel; lia|].
  cbn [length ext_sum] in *. pose proof (Hpos 0%nat a eq_refl) as Ha.
  assert (0 <= ext_sum ars) as Hsum0.
  { assert (forall j b, ars !! j = Some b -> 0 <= external_nlba b) as Hp by (intros j; apply (Hpos (S j))).
    clear -Hp. induction ars as [|b ars IH]; [done|]. cbn [ext_sum].
    pose proof (Hp 0%nat b eq_refl). specialize (IH (fun j => Hp (S j))). lia. }
  assert (i_external_nlba info = external_nlba a) as Hext.
  { destruct Hd. by rewrite <- ds_arena0. }
  cbn [read_layout_loop]. replace (negb (BTT_MIN_SIZE <=? raw)) with false
    by (symmetry; apply negb_false_iff, Z.leb_le; lia).
  unfold BTT_MIN_SIZE in *. rewrite run_bind, run_read_ns by (unfold BTT_INFO_SIZE; lia).
  rewrite run_bind, run_get. cbn [w_st]. rewrite (read_info_params s) by done.
  destruct Hd as [Hinfo _ Hlbs Hnfree Hext0]. rewrite Hs in Hinfo. rewrite Hinfo.
  rewrite Hlbs, Hlb, Z.eqb_refl, Hnfree. cbn [negb].
  replace (nfree s =? 0) with false by (symmetry; apply Z.eqb_neq; lia).
  apply Z.eqb_neq in Hext0. rewrite Hext0, Hext. cbv zeta.
  rewrite (u64_id (tot + external_nlba a)) by lia.
  assert ((if nfree s <? sm then nfree s else sm) = Z.min (nfree s) sm) as -> by (zcase; lia).
  destruct ars as [|b ars].
  - rewrite Hn. cbn [negb andb Z.eqb run ext_sum length]. do 3 f_equal. lia.
  - destruct Hn as (Hx & Hm & Hch). rewrite Hx. unfold BTT_MAX_ARENA in *. cbn [negb andb Z.eqb].
    rewrite (Z.eqb_refl (2 ^ 39)). cbn [negb andb].
    replace (2 ^ 39 =? 0) with false by done. replace (raw <? 2 ^ 39) with false by (symmetry; apply Z.ltb_ge; lia).
    cbn [negb andb]. rewrite IH; try done; try lia.
    + do 3 f_equal; cbn [length]; lia.
    + intros j c Hj. by apply (Hpos (S j)).
Qed.

(** ** Opening *)

(** The number of lanes [btt_init] settles on. *)
Definition lanes (nfree maxlane : Z) : Z :=
  if negb (maxlane =? 0) && (maxlane <? s32 nfree) then maxlane else s32 nfree.

Lemma lanes_le nf maxlane : 0 < nf <= 256 -> lanes nf maxlane <= nf.
Proof.
  intros Hn. unfold lanes. rewrite s32_id by lia.
  destruct (negb (maxlane =? 0)); cbn [andb]; [|lia]. zcase; lia.
Qed.

(** The run-time state [btt_init] builds. *)
Definition opened (s : btt) (maxlane : Z) (ars : list arena) : btt :=
  {| nlane := lanes (nfree s) maxlane; layout_write_mutex := false; laidout := true;
     parent_uuid := parent_uuid s; rawsize := rawsize s; lbasize := lbasize s; nfree := nfree s;
     nlba := nlba s; narena := Z.of_nat (length ars); arenas := ars |}.

(** The state when the arenas are about to be read. *)
Definition opening (s : btt) (na : nat) : btt :=
  {| nlane := 0; layout_write_mutex := false; laidout := false;
     parent_uuid := parent_uuid s; rawsize := rawsize s; lbasize := lbasize s; nfree := nfree s;
     nlba := nlba s; narena := Z.of_nat na; arenas := replicate na zero_arena |}.

(** What the info blocks say of the BTT [s]. *)
Record on_media (size : Z) (s : btt) (m : mem) : Prop := {
  om_chain : chain s m 0 (rawsize s) (arenas s);
  om_size : rawsize s = size;
  om_nfree : 0 < nfree s <= BTT_DEFAULT_NFREE;
  om_nlba : nlba s = ext_sum (arenas s) /\ nlba s < 2 ^ 64;
  om_ext : forall j a, arenas s !! j = Some a -> 0 <= external_nlba a;
}.

Lemma run_btt_init (n n' : N) s s0 lg lg' uuid maxlane ars' :
  on_media (ns_size n) s (ns_mem n) -> ns_size n < 2 ^ 63 -> take BTTINFO_UUID_LEN uuid = parent_uuid s ->
  length ars' = length (arenas s) ->
  run (read_arenas_loop 0 0 0 (length (arenas s))) (W n (opening s (length (arenas s))) lg) =
  (Done tt, W n' (set_arenas (opening s (length (arenas s))) ars') lg') ->
  run (btt_init (rawsize s) (lbasize s) uuid maxlane) (W n s0 lg) =
  (Done tt, W n' (opened s maxlane ars') lg').
Proof.
  intros [Hch Hsz Hnf [Hsum Hlt] Hpos] H63 Hu Hlen Hloop.
  assert (BTT_MIN_SIZE <= rawsize s) as Hmin by (destruct (arenas s); [done|apply Hch]).
  pose proof (chain_length _ _ _ _ _ Hch) as Hl.
  unfold btt_init, BTT_DEFAULT_NFREE in *. ztrue. rewrite run_bind, run_malloc, run_bind, run_modify.
  cbn [set_st w_ns w_st w_log]. rewrite run_bind, run_catch.
  unfold read_layout. rewrite run_bind, run_modify, run_bind, run_get. cbn [set_st w_ns w_st w_log].
  cbn [set_nfree rawsize]. rewrite run_bind, Hu.
  match goal with |- context [run (read_layout_loop _ _ _ _ _ _ _) ?w] =>
    change w with (W n (w_st w) (w_log w)) end.
  cbn [set_st w_ns w_st w_log].
  rewrite (run_read_layout_loop n s) with (ars := arenas s); try done; try lia.
  2: { unfold layout_fuel. lia. }
  rewrite run_bind, run_modify, run_bind, run_modify. cbn [set_st w_ns w_st w_log set_nlba set_narena nfree set_nfree].
  rewrite !Z.add_0_l, <- Hsum. rewrite Z.min_l by (unfold UINT32_MAX; lia).
  match goal with |- context [run (read_arenas 0 _) ?w] =>
    replace w with (W n (set_arenas (opening s (length (arenas s))) []) lg) end.
  2: { unfold opening, set_nfree, set_nlba, set_narena, set_arenas, set_st. cbn.
       unfold BTT_DEFAULT_NFREE. destruct (Z.ltb_spec (nfree s) 256); [done|]. do 2 f_equal. lia. }
  unfold read_arenas. rewrite run_bind, run_catch, run_bind, run_malloc, run_bind, run_modify.
  cbn [set_st w_ns w_st w_log]. rewrite Nat2Z.id.
  match goal with |- context [run (read_arenas_loop _ _ _ _) ?w] =>
    change w with (W n (opening s (length (arenas s))) lg) end.
  rewrite Hloop. rewrite run_modify.
  rewrite run_bind, !run_modify. unfold set_st. cbn [w_ns w_st w_log]. do 2 f_equal.
  unfold opened, lanes. rewrite Hlen. cbn. unfold set_nlane. cbn.
  by destruct (negb (maxlane =? 0) && (maxlane <? s32 (nfree s))).
Qed.

End Reopen.
