(* ===== verification/BttCrash.v ===== *)
(** BttCrash: power failure during a block write, and recovery.

    A write of the BTT is four writes to the media.  When power fails among
    them, or inside one, the media still decodes to the device before the
    write or to the one after it, and opening the BTT again ([btt_init], which
    reads the layout, the flogs and completes what they describe) yields a
    state that satisfies the invariant. *)

From S2P Require Import Prelude Mem Util BttLayout Prog Btt BttInv BttSpec BttOpen.

(** ** The media a power failure leaves *)

Lemma arena_inv_equiv nf nl lbs size m m' a :
  m' ≡ m -> arena_inv nf nl lbs size m a -> arena_inv nf nl lbs size m' a.
Proof. intros E. apply arena_inv_agree. intros z _. by rewrite (E z). Qed.

Lemma blk_state_equiv m m' a lbs i : m' ≡ m -> blk_state m' a lbs i = blk_state m a lbs i.
Proof.
  intros E. unfold blk_state. replace (entry_at m' a i) with (entry_at m a i).
  - repeat case_match; try done. by rewrite E.
  - unfold entry_at. by rewrite E.
Qed.

Lemma mod_add_small a b c : 0 < c -> a mod c = 0 -> 0 <= b < c -> (a + b) mod c = b.
Proof. intros Hc Ha Hb. rewrite Z.add_mod by lia. rewrite Ha, Z.add_0_l, Z.mod_mod by lia. by apply Z.mod_small. Qed.

(** The write of a map entry lies in one aligned word. *)
Lemma map_word nf lbs size a m x e m' :
  geom_ok nf lbs size a -> torn_event m (ev_map a x e) m' ->
  m' ≡ m \/ m' ≡ apply_event m (ev_map a x e).
Proof.
  intros Hgeom Ht. apply (torn_word m _ _ _ Ht); rewrite length_le_enc; [lia|].
  pose proof (g_map4 _ _ _ _ Hgeom) as H4. apply Z.mod_divide in H4 as [k Hk]; [|lia]. rewrite Hk.
  replace (k * 4 + 4 * x) with ((k + x) * 4) by lia.
  change 8 with (2 * 4) at 1. rewrite Zmult_mod_distr_r.
  pose proof (Z.mod_pos_bound (k + x) 2). lia.
Qed.

Section CrashWrite.
Context (nf nl lbs size : Z) (m : mem) (a : arena).
Context (Hinv : arena_inv nf nl lbs size m a).
Context (f : nat) (r : flog_runtime) (x old : Z) (buf : list byte).
Context (Hf : flogs a !! f = Some r) (Hx : 0 <= x < external_nlba a).
Context (Hold : old = eff_at m a x) (Hbuf : Z.of_nat (length buf) = lbs).

(** The three situations on the media: the write has not happened, it is
    committed in the flog but not in the map, or it is complete. *)
Inductive crash_state (m' : mem) : Prop :=
| crash_before :
    arena_inv nf nl lbs size m' a ->
    (forall i, 0 <= i < external_nlba a -> blk_state m' a lbs i = blk_state m a lbs i) ->
    crash_state m'
| crash_committed :
    inflight nl a m' f r x old (normal (free_blk r)) ->
    (forall i, 0 <= i < external_nlba a -> blk_state m' a lbs i = blk_state m a lbs i) ->
    mread m' (blk_off a (free_blk r)) lbs = buf ->
    crash_state m'
| crash_after :
    m' ≡ apply_events m (write_events a r x old buf) ->
    crash_state m'.

Lemma slot_mod8 : flog_slot r mod 8 = 0.
Proof.
  pose proof (ai_flog _ _ _ _ _ _ Hinv f r Hf) as Hfi. pose proof (g_flog8 _ _ _ _ (ai_geom _ _ _ _ _ _ Hinv)) as H8.
  rewrite (flog_slot_pos _ _ _ _ _ Hfi). unfold flog_pos.
  apply Z.mod_divide in H8 as [k Hk]; [|lia]. rewrite Hk.
  replace (k * 8 + 64 * Z.of_nat f + 16 * next r) with ((k + 8 * Z.of_nat f + 2 * next r) * 8) by lia.
  by rewrite Z.mod_mul by lia.
Qed.

Lemma crash_flog_word m0 off bs m' :
  torn m0 off bs m' -> off mod 8 = 0 -> length bs = 8%nat -> m' ≡ m0 \/ m' ≡ mwrite m0 off bs.
Proof. intros Ht Ho Hl. eapply torn_word; [done|lia|lia]. Qed.

Lemma crash_cases m' : crashed m (write_events a r x old buf) m' -> crash_state m'.
Proof.
  pose proof (ai_geom _ _ _ _ _ _ Hinv) as Hgeom. pose proof slot_mod8 as Hs8.
  pose proof (regions _ _ _ _ _ _ Hinv) as Hg. pose proof (ai_ext _ _ _ _ _ _ Hinv) as He.
  pose proof (old_range _ _ _ _ _ _ Hinv _ _ buf Hx Hold) as Hor.
  set (m1 := apply_event m (ev_data a (free_blk r) buf)).
  assert (only m m1 (blk_off a (free_blk r)) lbs) as Ho1 by by eapply data_only.
  destruct (after_data _ _ _ _ _ _ Hinv f r x old buf Hf Hx Hold m1 Ho1) as (Hi1 & Hb1 & _).
  assert (forall z, z ≡ m1 -> crash_state z) as C1.
  { intros z Hz. apply crash_before; [by eapply arena_inv_equiv|].
    intros i Hi. rewrite (blk_state_equiv m1) by done. auto. }
  set (m2 := apply_event m1 (ev_flog1 r x old)).
  assert (forall z, z ≡ m2 -> crash_state z) as C2.
  { intros z Hz. destruct (step_flog1 _ _ _ _ _ _ Hi1 f r x old z) as [Hi Hb]; try done; try lia.
    apply crash_before; [done|]. intros i Hxi. rewrite Hb by done. auto. }
  set (m3 := apply_event m2 (ev_flog2 r (normal (free_blk r)))).
  assert (forall z, z ≡ m3 -> crash_state z) as C3.
  { intros z Hz. destruct (after_flog _ _ _ _ _ _ Hinv f r x old buf Hf Hx Hold Hbuf m1 z)
      as (Hi & Hb & Hr); [done..|]. by apply crash_committed. }
  unfold write_events. intros Hc.
  inversion Hc as [|? ? ? ? Ht|? ? ? ? Hc1]; subst; clear Hc.
  { assert (only m m' (blk_off a (free_blk r)) lbs) as Ho by (rewrite <- Hbuf; by apply only_torn).
    destruct (after_data _ _ _ _ _ _ Hinv f r x old buf Hf Hx Hold m' Ho) as (? & ? & _).
    by apply crash_before. }
  inversion Hc1 as [|? ? ? ? Ht|? ? ? ? Hc2]; subst; clear Hc1.
  { destruct (crash_flog_word m1 _ _ _ Ht Hs8 eq_refl) as [E|E]; auto. }
  inversion Hc2 as [|? ? ? ? Ht|? ? ? ? Hc3]; subst; clear Hc2.
  { destruct (crash_flog_word m2 _ _ _ Ht) as [E|E]; auto.
    change 8 with (1 * 8) at 1. by rewrite Z.mod_add. }
  inversion Hc3 as [|? ? ? ? Ht|? ? ? ? Hc4]; subst; clear Hc3.
  { destruct (map_word _ _ _ _ m3 x _ _ Hgeom Ht) as [E|E]; [auto|by apply crash_after]. }
  inversion Hc4; subst. by apply crash_after.
Qed.
End CrashWrite.

Section Recovery.
Context {N : Type} `{NsLaws N} `{Allocator}.
Context (Halloc : forall z, malloc_ok z = true).
Abbreviation W := (Build_world (N := N) (S := btt)).

(** ** Media from which the device can be recovered *)

(** A write of [buf] to [lba] is committed in a flog of [m], starting from the
    device [d0] of a media [m0], and not yet in the map. *)
Record committed (size : Z) (s : btt) (m : mem) (d0 : device) (lba : Z) (buf : list byte)
    (i : nat) (a : arena) (f : nat) (r : flog_runtime) (x old : Z) (m0 : mem) : Prop := {
  c_impl : implements size s m0 d0;
  c_lba : 0 <= lba < nlba s;
  c_lookup : lba_to_arena_lba (arenas s) 0 lba = Some (i, x);
  c_arena : arenas s !! i = Some a;
  c_inflight : inflight (nlba s) a m f r x old (normal (free_blk r));
  c_only : only m0 m (startoff a + BTT_INFO_SIZE) (arena_end a (nfree s) - BTT_INFO_SIZE - startoff a - BTT_INFO_SIZE);
  c_same : forall j, 0 <= j < external_nlba a ->
             blk_state m a (lbasize s) j = blk_state m0 a (lbasize s) j;
  c_buf : mread m (blk_off a (free_blk r)) (lbasize s) = buf;
}.

(** Equal media. *)
Lemma inflight_equiv nl a m m' f r x old new :
  m' ≡ m -> inflight nl a m f r x old new -> inflight nl a m' f r x old new.
Proof.
  intros E []. assert (forall off n, agree m m' off n) as Ha by (intros off n z _; by rewrite (E z)).
  split; try done.
  - by eapply flog_inv_agree.
  - intros g q Hne Hq. eapply flog_inv_agree; eauto.
  - by eapply owned_agree.
  - rewrite if_old. unfold eff_at, entry_at. by rewrite E.
Qed.

Lemma committed_equiv size s m m' d0 lba buf i a f r x old m0 :
  m' ≡ m -> committed size s m d0 lba buf i a f r x old m0 ->
  committed size s m' d0 lba buf i a f r x old m0.
Proof.
  intros E []. split; try done.
  - by eapply inflight_equiv.
  - intros z Hz. rewrite (E z). auto.
  - intros j Hj. rewrite (blk_state_equiv m) by done. auto.
  - by rewrite E.
Qed.

(** The write of a map entry is all or nothing. *)
Lemma crashed_map_word nf nl lbs size m0 a m x e m' :
  arena_inv nf nl lbs size m0 a -> crashed m [ev_map a x e] m' ->
  m' ≡ m \/ m' ≡ apply_event m (ev_map a x e).
Proof.
  intros Hinv Hc. inversion Hc as [|? ? ? ? Ht|? ? ? ? Hc']; subst.
  - eapply map_word; [apply Hinv|done].
  - inversion Hc'; subst. by right.
Qed.

Inductive recoverable (size : Z) (s : btt) (m : mem) (d : device) : Prop :=
| rec_quiet : implements size s m d -> on_media size s m -> recoverable size s m d
| rec_committed d0 lba buf i a f r x old m0 :
    committed size s m d0 lba buf i a f r x old m0 -> on_media size s m ->
    d = d_set d0 lba (BData buf) -> recoverable size s m d.

Lemma opening_params s k : same_params s (opening s k).
Proof. done. Qed.

Lemma implements_opened size s m d maxlane :
  implements size s m d -> 0 < nfree s <= 256 -> implements size (opened s maxlane (arenas s)) m d.
Proof.
  intros ([] & Hn & Ha) Hf. split; [|done]. split; try done. by apply lanes_le.
Qed.

Lemma on_media_opened size s m maxlane :
  on_media size s m -> on_media size (opened s maxlane (arenas s)) m.
Proof. intros []. split; try done. by apply (chain_params s). Qed.

(** The info block of an arena is outside the working area of every arena. *)
Lemma info_outside size s m i j a b :
  btt_inv size s m -> arenas s !! i = Some a -> arenas s !! j = Some b ->
  startoff b + BTT_INFO_SIZE <= startoff a + BTT_INFO_SIZE \/
  arena_end a (nfree s) - BTT_INFO_SIZE <= startoff b.
Proof.
  intros Hinv Ha Hb. pose proof (regions _ _ _ _ _ _ (bi_arena _ _ _ Hinv i a Ha)) as Hga.
  pose proof (regions _ _ _ _ _ _ (bi_arena _ _ _ Hinv j b Hb)) as Hgb.
  unfold arena_end, BTT_INFO_SIZE in *.
  destruct (decide (j = i)) as [->|Hne]; [simplify_eq; lia|]. destruct (decide (j < i)%nat).
  - pose proof (bi_sep _ _ _ Hinv j i b a ltac:(lia) Hb Ha). unfold arena_end, BTT_INFO_SIZE in *. lia.
  - pose proof (bi_sep _ _ _ Hinv i j a b ltac:(lia) Ha Hb). unfold arena_end, BTT_INFO_SIZE in *. lia.
Qed.

(** The info blocks are not touched by a change inside the arenas. *)
Lemma on_media_agree size s m0 m m' i a :
  on_media size s m -> btt_inv size s m0 -> arenas s !! i = Some a ->
  only m m' (startoff a + BTT_INFO_SIZE) (arena_end a (nfree s) - BTT_INFO_SIZE - startoff a - BTT_INFO_SIZE) ->
  on_media size s m'.
Proof.
  intros [] Hinv Ha Ho. split; try done. apply (chain_agree s m); [|done].
  intros j b Hb. eapply only_agree; [done|].
  pose proof (info_outside _ _ _ i j a b Hinv Ha Hb). lia.
Qed.

Lemma on_media_put size s m i a fs :
  on_media size s m -> arenas s !! i = Some a -> on_media size (put_arena s i (set_flogs a fs)) m.
Proof.
  intros [Hc Hs Hn [Hsum Hlt] He] Ha. split; try done.
  - cbn [put_arena set_arenas arenas rawsize]. apply (chain_params s); [done|]. by apply chain_set_flogs.
  - cbn [put_arena set_arenas arenas nlba]. rewrite ext_sum_insert; [done|]. intros b Hb. by simplify_eq.
  - intros j b Hb. cbn [put_arena set_arenas arenas] in Hb. destruct (decide (j = i)) as [->|Hne].
    + rewrite list_lookup_insert_eq in Hb by (by eapply lookup_lt_Some). injection Hb as <-. by apply (He i a).
    + rewrite list_lookup_insert_ne in Hb by done. eauto.
Qed.

(** The committed write, once its map entry is written. *)
Lemma committed_complete size s m d0 lba buf i a f r x old m0 m' :
  committed size s m d0 lba buf i a f r x old m0 -> on_media size s m ->
  m' ≡ apply_event m (ev_map a x (normal (free_blk r))) ->
  let s' := put_arena s i (set_flogs a (<[f := flog_after r x old (normal (free_blk r))]> (flogs a))) in
  implements size s' m' (d_set d0 lba (BData buf)) /\ on_media size s' m'.
Proof.
  intros [] Hom Hm. pose proof c_impl0 as (Hinv & _ & _).
  pose proof (bi_arena _ _ _ Hinv i a c_arena0) as Hai. pose proof (regions _ _ _ _ _ _ Hai) as Hg.
  pose proof (if_lba _ _ _ _ _ _ _ _ c_inflight0) as Hx.
  destruct (step_map _ _ _ _ _ _ Hai _ f r x old _ m' c_inflight0 Hm) as (Hi & Hb & Ho).
  assert (only m m' (startoff a + BTT_INFO_SIZE)
    (arena_end a (nfree s) - BTT_INFO_SIZE - startoff a - BTT_INFO_SIZE)) as Honly.
  { intros z Hz. rewrite (Hm z). unfold arena_end, BTT_INFO_SIZE in *. cbn [apply_event ev_map].
    rewrite mwrite_out; [done|]. rewrite length_le_enc. lia. }
  assert (only m0 m' (startoff a + BTT_INFO_SIZE)
    (arena_end a (nfree s) - BTT_INFO_SIZE - startoff a - BTT_INFO_SIZE)) as Hon0.
  { intros z Hz. rewrite Honly by done. by apply c_only0. }
  cbv zeta. split.
  - eapply update_refines; try done.
    + intros z Hz. apply Hon0. unfold arena_end, BTT_INFO_SIZE in *. lia.
    + change (blk_state m' (set_flogs a _) (lbasize s) x) with (blk_state m' a (lbasize s) x).
      by rewrite Hb, c_buf0.
    + intros j Hj Hne. change (blk_state m' (set_flogs a _) (lbasize s) j) with (blk_state m' a (lbasize s) j).
      rewrite Ho by done. auto.
  - apply on_media_put; [|done]. by eapply on_media_agree.
Qed.

Lemma implements_equiv size s m m' d : m' ≡ m -> implements size s m d -> implements size s m' d.
Proof.
  intros E ([] & Hn & Ha). split_and!; [|done|].
  - split; try done. intros i a Hi. eapply arena_inv_equiv; eauto.
  - intros l Hl. destruct (Ha l Hl) as [Hr Hb]. split; [done|]. rewrite Hb. unfold abs_block.
    repeat case_match; try done. symmetry. by apply blk_state_equiv.
Qed.

Lemma on_media_equiv size s m m' : m' ≡ m -> on_media size s m -> on_media size s m'.
Proof. intros E []. split; try done. apply (chain_agree s m); [|done]. intros j a _ z _. apply E. Qed.

(** The size is that of a file: the geometry bounds it. *)
Lemma on_media_small size s m m0 :
  on_media size s m -> btt_inv size s m0 -> size < 2 ^ 63 /\ (exists a, arenas s !! 0%nat = Some a /\ startoff a = 0).
Proof.
  intros [Hc] Hinv. destruct (arenas s) as [|a ars] eqn:E; [done|].
  pose proof (regions _ _ _ _ _ _ (bi_arena _ _ _ Hinv 0%nat a ltac:(by rewrite E))) as Hg.
  split; [lia|]. exists a. split; [done|]. apply Hc.
Qed.

Lemma on_media_linked size s m m0 : on_media size s m -> btt_inv size s m0 -> linked (arenas s).
Proof.
  intros Hom Hinv. pose proof (on_media_small _ _ _ _ Hom Hinv) as [Hs _]. destruct Hom.
  eapply chain_linked; [| |done]; lia.
Qed.

(** The same pool, as far as the arguments of [btt_init] go. *)
Definition same_config (s s' : btt) : Prop :=
  rawsize s' = rawsize s /\ lbasize s' = lbasize s /\ parent_uuid s' = parent_uuid s.

(** Opening a recoverable media: the outcome, and that a power failure during
    the recovery leaves a media recoverable to the same device. *)
Lemma init_recovers (n : N) s s0 lg d uuid maxlane :
  recoverable (ns_size n) s (ns_mem n) d -> take BTTINFO_UUID_LEN uuid = parent_uuid s ->
  exists n' s' evs,
    run (btt_init (rawsize s) (lbasize s) uuid maxlane) (W n s0 lg) = (Done tt, W n' s' (lg ++ evs)) /\
    ns_size n' = ns_size n /\ same_config s s' /\ nfree s' = nfree s /\ nlane s' = lanes (nfree s) maxlane /\
    implements (ns_size n) s' (ns_mem n') d /\ on_media (ns_size n) s' (ns_mem n') /\
    forall m', crashed (ns_mem n) evs m' ->
      exists s'', same_config s s'' /\ recoverable (ns_size n) s'' m' d.
Proof.
  intros Hrec Hu. destruct Hrec as [Himp Hom|d0 lba buf i a f r x old m0 Hc Hom ->].
  - pose proof Himp as (Hinv & _). pose proof (on_media_small _ _ _ _ Hom Hinv) as (H63 & a0 & Ha0 & Hs0).
    pose proof (on_media_linked _ _ _ _ Hom Hinv) as Hlink. pose proof Hom as [Hch _ Hnf _ _].
    assert (run (read_arenas_loop 0 0 0 (length (arenas s))) (W n (opening s (length (arenas s))) lg) =
      (Done tt, W n (set_arenas (opening s (length (arenas s))) (arenas s)) lg)) as Hloop.
    { apply run_arenas_clean; try done.
      - cbn [opening nfree]. lia.
      - cbn. len.
      - intros b Hb. by simplify_eq.
      - intros j Hj. lia.
      - intros j b Hb. destruct (chain_described _ _ _ _ _ _ _ Hch Hb) as [info Hd].
        split; [exists info; by apply (described_params s)|]. exact (bi_arena _ _ _ Hinv j b Hb). }
    exists n, (opened s maxlane (arenas s)), []. rewrite app_nil_r. split_and!; try done.
    + by apply run_btt_init.
    + by apply implements_opened.
    + by apply on_media_opened.
    + intros m' Hcr. inversion Hcr as [? ? E| |]; subst. exists s. split; [done|].
      apply rec_quiet; [by eapply implements_equiv|by eapply on_media_equiv].
  - pose proof Hc as []. pose proof c_impl0 as (Hinv & _).
    pose proof (on_media_small _ _ _ _ Hom Hinv) as (H63 & a0 & Ha0 & Hs0).
    pose proof (on_media_linked _ _ _ _ Hom Hinv) as Hlink. pose proof Hom as [Hch _ Hnf _ _].
    set (a' := set_flogs a (<[f := flog_after r x old (normal (free_blk r))]> (flogs a))).
    set (ev := ev_map a x (normal (free_blk r))).
    assert (loadable_but (arenas s) f r x old i a (opening s (length (arenas s))) n) as Hlb.
    { split; try done.
      - intros j b Hb. destruct (chain_described _ _ _ _ _ _ _ Hch Hb) as [info Hd].
        exists info. by apply (described_params s).
      - intros j b Hne Hb. eapply arena_inv_agree; [|exact (bi_arena _ _ _ Hinv j b Hb)].
        unfold same_arena. apply agree_sym. eapply only_agree; [done|].
        change (nfree (opening _ _)) with (nfree s). unfold BTT_INFO_SIZE in *.
        destruct (decide (j < i)%nat).
        + pose proof (bi_sep _ _ _ Hinv j i b a ltac:(lia) Hb c_arena0). lia.
        + pose proof (bi_sep _ _ _ Hinv i j a b ltac:(lia) c_arena0 Hb). lia.
      - exists m0. exact (bi_arena _ _ _ Hinv i a c_arena0).
      - apply Hinv. }
    destruct (run_arenas_inflight Halloc 0 (arenas s) f r x old i a c_arena0 (length (arenas s)) 0 0 n
      (opening s (length (arenas s))) lg) as (n' & Hw & Hloop); try done; try lia.
    { cbn [opening nfree]. lia. }
    { cbn. len. }
    { intros b Hb. by simplify_eq. }
    pose proof Hw as (Hsz & _ & Hm).
    destruct (committed_complete _ _ _ _ _ _ _ _ _ _ _ _ _ _ Hc Hom Hm) as [Himp' Hom'].
    exists n', (opened s maxlane (<[i := a']> (arenas s))), [ev]. split_and!; try done.
    + apply run_btt_init; try done. by rewrite length_insert.
    + by apply (implements_opened _ (put_arena s i a')).
    + by apply (on_media_opened _ (put_arena s i a')).
    + intros m' Hcr. destruct (crashed_map_word _ _ _ _ _ _ _ x _ m' (bi_arena _ _ _ Hinv i a c_arena0) Hcr)
        as [E|E].
      * exists s. split; [done|]. eapply rec_committed; [|by eapply on_media_equiv|done].
        by eapply committed_equiv.
      * exists (put_arena s i a'). split; [done|]. apply rec_quiet.
        -- eapply (committed_complete _ _ _ _ _ _ _ _ _ _ _ _ _ _ Hc Hom E).
        -- eapply (committed_complete _ _ _ _ _ _ _ _ _ _ _ _ _ _ Hc Hom E).
Qed.

(** ** Power failure during a block write *)

(** The range of an event. *)
Definition event_in (off n : Z) (ev : event) : Prop :=
  match ev with
  | EvWrite o bs => off <= o /\ o + Z.of_nat (length bs) <= off + n
  | EvZero o c => off <= o /\ o + c <= off + n
  end.

Lemma crashed_only m evs m' off n :
  crashed m evs m' -> Forall (event_in off n) evs -> only m m' off n.
Proof.
  induction 1 as [m m' E|m ev evs m' Ht|m ev evs m' Hc IH]; intros Hf z Hz.
  - apply E.
  - apply Forall_cons in Hf as [Hin _]. destruct ev as [o bs|o c]; cbn in *.
    + eapply torn_out; [done|lia].
    + eapply torn_out; [done|]. rewrite length_replicate. lia.
  - apply Forall_cons in Hf as [Hin Hf]. rewrite (IH Hf z Hz).
    destruct ev as [o bs|o c]; cbn in *; [apply mwrite_out; lia|apply mzero_out; lia].
Qed.

Lemma write_events_in nf nl lbs size m a f r x old buf :
  arena_inv nf nl lbs size m a -> flogs a !! f = Some r -> 0 <= x < external_nlba a ->
  Z.of_nat (length buf) = lbs ->
  Forall (event_in (startoff a + BTT_INFO_SIZE)
    (arena_end a nf - BTT_INFO_SIZE - startoff a - BTT_INFO_SIZE)) (write_events a r x old buf).
Proof.
  intros Hinv Hf Hx Hbuf. pose proof (regions _ _ _ _ _ _ Hinv) as Hg.
  pose proof (ai_flog _ _ _ _ _ _ Hinv f r Hf) as Hfi.
  pose proof (flog_slot_pos _ _ _ _ _ Hfi) as Hsl. pose proof (fi_next _ _ _ _ _ Hfi) as Hn.
  pose proof (o_free _ _ _ (ai_owned _ _ _ _ _ _ Hinv) f r Hf) as Hfr.
  pose proof (entry_lba_range (old_map (flog r))) as Hr. fold (free_blk r) in Hr.
  pose proof (blk_off_bounds _ _ _ _ _ _ Hinv (free_blk r) ltac:(lia)) as Hb.
  pose proof (ai_len _ _ _ _ _ _ Hinv) as Hlen. pose proof (lookup_lt_Some _ _ _ Hf).
  unfold flog_pos, arena_end, BTT_INFO_SIZE in *. unfold write_events, ev_data, ev_flog1, ev_flog2, ev_map.
  repeat constructor; rewrite ?length_app, ?length_le_enc; lia.
Qed.

(** The log of [btt_write] on its three branches. *)
Lemma write_log (n : N) s d lane lba buf :
  implements (ns_size n) s (ns_mem n) d -> lane_ok s lane -> 0 <= lba ->
  Z.of_nat (length buf) = lbasize s ->
  let lg := w_log (snd (run (btt_write lane lba buf) (W n s []))) in
  lg = [] \/
  (exists i a x r, lba_to_arena_lba (arenas s) 0 lba = Some (i, x) /\ arenas s !! i = Some a /\
     0 <= x < external_nlba a /\ flogs a !! Z.to_nat lane = Some r /\ lba < nlba s /\ d_ro d lba = false /\
     lg = write_events a r x (eff_at (ns_mem n) a x) buf).
Proof.
  intros (Hinv & Hn & Habs) Hlane Hlba Hbuf. unfold btt_write.
  rewrite run_bind, run_check_lba.
  destruct (Z.leb_spec (nlba s) lba) as [Hl|Hl]; [by left|].
  rewrite run_bind, run_ensure_layout by apply Hinv. rewrite run_bind, run_get. cbn [w_st].
  destruct (inv_lookup _ _ _ lba Hinv ltac:(lia)) as (i & a & x & E & Ha & Hx & Hai).
  destruct (Habs lba ltac:(lia)) as [Hro _]. unfold abs_ro in Hro. rewrite E, Ha in Hro.
  rewrite E, run_bind. cbn [deref run].
  rewrite run_bind, (run_get_arena _ _ _ _ a) by done.
  destruct (arena_in_error a) eqn:Eerr; [by left|]. right.
  change (run _ (W n s [])) with (run (write_block lane buf s i x a) (W n s [])).
  destruct (inv_lane _ _ _ _ _ lane Hinv Ha Hlane) as [r Hr].
  destruct (run_write_block n s [] lane i a x buf r) as (n' & _ & ->);
    try done; [by eapply bi_nlane|apply Hlane|].
  exists i, a, x, r. split_and!; done || lia.
Qed.

Lemma write_crash (n : N) s d lane lba buf m' :
  implements (ns_size n) s (ns_mem n) d -> on_media (ns_size n) s (ns_mem n) ->
  lane_ok s lane -> 0 <= lba -> Z.of_nat (length buf) = lbasize s ->
  crashed (ns_mem n) (w_log (snd (run (btt_write lane lba buf) (W n s [])))) m' ->
  exists s' d', same_config s s' /\ recoverable (ns_size n) s' m' d' /\
    (d' = d \/ d' = snd (spec_put d lba (BData buf))).
Proof.
  intros Himp Hom Hlane Hlba Hbuf Hcr.
  destruct (write_log n s d lane lba buf Himp Hlane Hlba Hbuf)
    as [E|(i & a & x & r & E & Ha & Hx & Hr & Hl & Hro & Hlg)].
  { rewrite E in Hcr. inversion Hcr; subst. exists s, d. split_and!; [done| |by left].
    apply rec_quiet; [by eapply implements_equiv|by eapply on_media_equiv]. }
  rewrite Hlg in Hcr. pose proof Himp as (Hinv & Hn & Habs).
  pose proof (bi_arena _ _ _ Hinv i a Ha) as Hai.
  assert (snd (spec_put d lba (BData buf)) = d_set d lba (BData buf)) as ->.
  { unfold spec_put. rewrite Hn, Hro. by ztrue. }
  assert (only (ns_mem n) m' (startoff a + BTT_INFO_SIZE)
    (arena_end a (nfree s) - BTT_INFO_SIZE - startoff a - BTT_INFO_SIZE)) as Ho.
  { eapply crashed_only; [exact Hcr|]. by eapply write_events_in. }
  pose proof (crash_cases _ _ _ _ _ _ Hai _ r x _ buf Hr Hx eq_refl Hbuf m' Hcr) as [Hi Hb|Hif Hb Hrd|Hm].
  - exists s, d. split_and!; [done| |by left]. apply rec_quiet; [|by eapply on_media_agree].
    rewrite <- (put_arena_same s i a Ha).
    assert (d_blocks d lba = blk_state (ns_mem n) a (lbasize s) x) as Hbx.
    { destruct (Habs lba ltac:(lia)) as [_ ->]. unfold abs_block. by rewrite E, Ha. }
    apply (implements_ext _ _ _ (d_set d lba (blk_state (ns_mem n) a (lbasize s) x))).
    + eapply update_refines; try done; [|by auto|intros j Hj _; auto].
      intros z Hz. apply Ho. unfold BTT_INFO_SIZE in *. lia.
    + by intros l Hl'.
    + intros l Hl'. cbn [d_set d_blocks]. by destruct (decide (l = lba)) as [->|].
    + done.
  - exists s, (d_set d lba (BData buf)). split_and!; [done| |by right].
    eapply (rec_committed _ _ _ _ d lba buf i a _ r x _ (ns_mem n)); [|by eapply on_media_agree|done].
    split; try done.
  - exists (put_arena s i (set_flogs a (<[Z.to_nat lane :=
      flog_after r x (eff_at (ns_mem n) a x) (normal (free_blk r))]> (flogs a)))), (d_set d lba (BData buf)).
    split_and!; [done| |by right].
    destruct (after_write _ _ _ _ _ _ Hai _ r x _ buf Hr Hx eq_refl Hbuf _ Hm) as (Hi & Hb & Ho').
    apply rec_quiet; [|apply on_media_put; [by eapply on_media_agree|done]].
    eapply update_refines; try done. intros z Hz. apply Ho. unfold BTT_INFO_SIZE in *. lia.
Qed.

(** C1. A block write is atomic with respect to power failure: cut the power
    anywhere in [btt_write], torn writes included, open the BTT again on what
    is left, and [btt_init] succeeds with a state that satisfies the invariant
    and implements the device before the write or the one after it. *)
Theorem btt_write_crash_atomic (n n1 : N) (s s0 : btt) (d : device) (lane lba maxlane : Z)
  (buf uuid : list byte)
  (Himp : implements (ns_size n) s (ns_mem n) d) (Hom : on_media (ns_size n) s (ns_mem n))
  (Hlane : lane_ok s lane) (Hlba : 0 <= lba) (Hbuf : Z.of_nat (length buf) = lbasize s)
  (Huuid : take BTTINFO_UUID_LEN uuid = parent_uuid s)
  (Hsize : ns_size n1 = ns_size n)
  (Hcrash : crashed (ns_mem n) (w_log (snd (run (btt_write lane lba buf) (W n s [])))) (ns_mem n1)) :
  exists n2 s2 lg2 d',
    run (btt_init (rawsize s) (lbasize s) uuid maxlane) (W n1 s0 []) = (Done tt, W n2 s2 lg2) /\
    implements (ns_size n) s2 (ns_mem n2) d' /\ on_media (ns_size n) s2 (ns_mem n2) /\
    (d' = d \/ d' = snd (spec_put d lba (BData buf))).
Proof.
  destruct (write_crash n s d lane lba buf (ns_mem n1)) as (s' & d' & (Hr & Hl & Hu) & Hrec & Hd); try done.
  rewrite <- Hsize in Hrec. rewrite <- Hu in Huuid.
  destruct (init_recovers n1 s' s0 [] d' uuid maxlane Hrec Huuid)
    as (n2 & s2 & evs & E & _ & _ & _ & _ & Hi & Ho & _).
  exists n2, s2, evs, d'. rewrite <- Hr, <- Hl, <- Hsize. by split_and!.
Qed.

(** C13. Recovery is restartable: opening a media that holds at most one
    committed but incomplete block write succeeds and yields the device with
    that write complete, and if the power fails during the recovery the media
    left is again recoverable to the same device. *)
Theorem btt_init_restartable (n : N) (s s0 : btt) (lg : list event) (d : device)
  (uuid : list byte) (maxlane : Z)
  (Hrec : recoverable (ns_size n) s (ns_mem n) d)
  (Huuid : take BTTINFO_UUID_LEN uuid = parent_uuid s) :
  exists n' s' evs,
    run (btt_init (rawsize s) (lbasize s) uuid maxlane) (W n s0 lg) = (Done tt, W n' s' (lg ++ evs)) /\
    implements (ns_size n) s' (ns_mem n') d /\
    forall m', crashed (ns_mem n) evs m' ->
      exists s'', same_config s s'' /\ recoverable (ns_size n) s'' m' d.
Proof.
  destruct (init_recovers n s s0 lg d uuid maxlane Hrec Huuid) as (n' & s' & evs & E & _ & _ & _ & _ & Hi & _ & Hc).
  exists n', s', evs. by split_and!.
Qed.
End Recovery.
