(* ===== verification/BttFresh.v ===== *)
(** BttFresh: the layout [write_layout] creates.

    On a namespace of up to 4 GiB whose size is a multiple of 64, the layout is
    one arena.  Its geometry is well formed, the metadata written decodes to
    it, and the device it implements reads as zeros everywhere. *)

From S2P Require Import Prelude Mem Util BttLayout Prog Btt BttInv BttSpec BttOpen.

(** ** Geometry *)

(** The sizes for which one arena is laid out and offsets do not wrap. *)
Record lay_ok (raw lbs : Z) : Prop := {
  l_raw : BTT_MIN_SIZE <= raw <= 2 ^ 32;
  l_align : raw mod 64 = 0;
  l_lbs : 0 < lbs <= 2 ^ 32 - 512;
}.

Definition FLOG_SIZE : Z := layout_flog_size BTT_DEFAULT_NFREE.
Definition lay_int (raw lbs : Z) : Z := layout_internal_nlba (layout_datasize raw FLOG_SIZE) (layout_lbasize lbs).
Definition lay_ext (raw lbs : Z) : Z := u64 (lay_int raw lbs - BTT_DEFAULT_NFREE).

Lemma FLOG_SIZE_val : FLOG_SIZE = 16384.
Proof. done. Qed.

Lemma lay_lbasize lbs : 0 < lbs <= 2 ^ 32 - 512 ->
  512 <= layout_lbasize lbs < 2 ^ 32 - 4 /\ lbs <= layout_lbasize lbs /\
  layout_lbasize lbs mod 256 = 0.
Proof.
  intros Hl. unfold layout_lbasize, BTT_MIN_LBA_SIZE, BTT_INTERNAL_LBA_ALIGNMENT.
  set (l := if lbs <? 512 then 512 else lbs).
  assert (512 <= l <= 2 ^ 32 - 512 /\ lbs <= l) as Hb by (unfold l; zcase; lia).
  rewrite u32_id by lia. change (512 <= roundup l 256 < 2 ^ 32 - 4 /\ lbs <= roundup l 256 /\ roundup l 256 mod 256 = 0).
  pose proof (roundup_bounds l 256 ltac:(lia)). pose proof (roundup_mult l 256 ltac:(lia)). lia.
Qed.

Section Geometry.
Context (raw lbs : Z) (Hok : lay_ok raw lbs).
Abbreviation ilbs := (layout_lbasize lbs).
Abbreviation inl := (lay_int raw lbs).
Abbreviation ext := (lay_ext raw lbs).

Lemma lay_int_val : inl = (raw - 28672) / (ilbs + 4).
Proof.
  destruct Hok as [Hr Ha Hl]. destruct (lay_lbasize lbs Hl) as (Hi & _).
  unfold lay_int, layout_internal_nlba, layout_datasize, BTT_INFO_SIZE, BTT_ALIGNMENT, BTT_MAP_ENTRY_SIZE, BTT_MIN_SIZE in *.
  rewrite FLOG_SIZE_val, (u64_id (raw - 2 * 4096)), (u64_id (_ - 16384)), u64_id, u32_id by lia.
  f_equal. lia.
Qed.

Lemma lay_int_bound : 0 <= inl /\ inl * (ilbs + 4) <= raw - 28672.
Proof.
  rewrite lay_int_val. destruct Hok as [Hr Ha Hl]. destruct (lay_lbasize lbs Hl) as (Hi & _).
  unfold BTT_MIN_SIZE in *. split; [apply Z.div_pos; lia|].
  rewrite Z.mul_comm. apply Z.mul_div_le. lia.
Qed.

Context (Hbig : 512 <= inl).

Lemma lay_ext_val : ext = inl - 256 /\ 256 <= ext /\ inl <= 2 ^ 23.
Proof.
  pose proof lay_int_bound as [_ H]. destruct Hok as [Hr Ha Hl]. destruct (lay_lbasize lbs Hl) as (Hi & _).
  assert (inl <= 2 ^ 23) by nia. unfold lay_ext, BTT_DEFAULT_NFREE. rewrite u64_id by lia. lia.
Qed.

Lemma lay_mapsize : 4 * ext <= layout_mapsize ext < 4 * ext + 4096 /\ layout_mapsize ext mod 4096 = 0.
Proof.
  pose proof lay_ext_val as (He & He' & Hi). unfold layout_mapsize, BTT_MAP_ENTRY_SIZE, BTT_ALIGNMENT.
  rewrite u64_id by lia. pose proof (roundup_bounds (ext * 4) 4096 ltac:(lia)).
  pose proof (roundup_mult (ext * 4) 4096 ltac:(lia)). lia.
Qed.

(** The info block of the arena. *)
Definition lay_info (s : btt) : btt_info :=
  layout_info s ilbs ext inl raw FLOG_SIZE 0.

Lemma lay_info_offsets s :
  i_infooff (lay_info s) = raw - 4096 /\ i_flogoff (lay_info s) = raw - 20480 /\
  i_mapoff (lay_info s) = raw - 20480 - layout_mapsize ext /\ i_nextoff (lay_info s) = 0 /\
  i_external_nlba (lay_info s) = ext /\ i_internal_nlba (lay_info s) = inl /\
  4096 + inl * ilbs <= i_mapoff (lay_info s).
Proof.
  pose proof lay_mapsize as [Hm _]. pose proof lay_ext_val as (He & He' & Hi).
  pose proof lay_int_bound as [_ H]. destruct Hok as [Hr Ha Hl]. destruct (lay_lbasize lbs Hl) as (Hil & _).
  unfold lay_info, layout_info, BTT_MIN_SIZE, BTT_INFO_SIZE in *.
  cbn [i_infooff i_flogoff i_mapoff i_nextoff i_external_nlba i_internal_nlba]. rewrite FLOG_SIZE_val.
  change (2 ^ 20 * 16 <=? 0) with false.
  rewrite !(u64_id (raw - 4096)) by lia. rewrite !(u64_id (raw - 4096 - 16384)) by lia.
  rewrite (u64_id (_ - layout_mapsize ext)) by lia. rewrite !u32_id by lia. lia.
Qed.

(** The arena, as it is loaded. *)
Definition lay_flog (k : nat) : flog_runtime :=
  {| flog := {| lba := 0; old_map := Z.lor (ext + Z.of_nat k) BTT_MAP_ENTRY_ZERO;
                new_map := Z.lor (ext + Z.of_nat k) BTT_MAP_ENTRY_ZERO; seq := 1 |};
     entries := (raw - 20480 + 64 * Z.of_nat k, raw - 20480 + 64 * Z.of_nat k + BTT_FLOG_SIZE);
     next := 1 |}.

Definition lay_arena (s : btt) : arena :=
  arena_of_info {| flags := 0; external_nlba := 0; internal_lbasize := 0; internal_nlba := 0;
     startoff := 0; dataoff := 0; mapoff := 0; flogoff := 0; nextoff := 0;
     flogs := lay_flog <$> List.seq 0 256; rtt := replicate 256 BTT_MAP_ENTRY_ERROR;
     map_locks := replicate 256 false; info_lock := false |} (lay_info s) 0.

Lemma lay_arena_fields s :
  let a := lay_arena s in
  startoff a = 0 /\ dataoff a = 4096 /\ mapoff a = raw - 20480 - layout_mapsize ext /\
  flogoff a = raw - 20480 /\ external_nlba a = ext /\ internal_nlba a = inl /\ internal_lbasize a = ilbs /\
  flags a = 0 /\ nextoff a = 0.
Proof.
  pose proof (lay_info_offsets s) as (_ & Hf & Hm & Hn & He & Hi & Hd).
  pose proof lay_int_bound as [? ?]. pose proof lay_mapsize as [Hmb _]. pose proof lay_ext_val as (? & ? & ?).
  destruct Hok as [Hr Ha Hl]. destruct (lay_lbasize lbs Hl) as (Hil & _). unfold BTT_MIN_SIZE in *.
  unfold lay_arena, arena_of_info. cbn [startoff dataoff mapoff flogoff external_nlba internal_nlba internal_lbasize flags nextoff].
  rewrite Hf, Hm, Hn, He, Hi. change (i_dataoff (lay_info s)) with BTT_INFO_SIZE. unfold BTT_INFO_SIZE.
  rewrite !u64_id by nia. split_and!; try done; lia.
Qed.

Lemma lay_geom s : geom_ok 256 lbs raw (lay_arena s).
Proof.
  pose proof (lay_arena_fields s) as (Es & Ed & Em & Ef & Ee & Ei & El & _ & _).
  pose proof (lay_info_offsets s) as (_ & _ & Hm & _ & _ & _ & Hd).
  pose proof lay_int_bound as [? ?]. pose proof lay_mapsize as [Hmb Hmm]. pose proof lay_ext_val as (? & ? & ?).
  destruct Hok as [Hr Ha Hl]. destruct (lay_lbasize lbs Hl) as (Hil & Hll & Hlm). unfold BTT_MIN_SIZE in *.
  split; unfold arena_end, BTT_INFO_SIZE; rewrite ?Es, ?Ed, ?Em, ?Ef, ?Ee, ?Ei, ?El; try nia.
  - apply Z.mod_divide in Hlm as [k ->]; [|lia]. replace (k * 256) with (k * 64 * 4) by lia. by apply Z.mod_mul.
  - apply Z.mod_divide in Ha as [k ->]; [|lia].
    replace (k * 64 - 20480) with ((k * 8 - 2560) * 8) by lia. by apply Z.mod_mul.
  - apply Z.mod_divide in Ha as [k ->]; [|lia]. apply Z.mod_divide in Hmm as [j ->]; [|lia].
    replace (k * 64 - 20480 - j * 4096) with ((k * 16 - 5120 - j * 1024) * 4) by lia. by apply Z.mod_mul.
Qed.

(** ** The metadata on the media *)

Record fresh_media (m : mem) : Prop := {
  fm_map : forall z, raw - 20480 - layout_mapsize ext <= z < raw - 20480 -> m z = x00;
  fm_flog : forall k, (k < 256)%nat ->
    flog_at m (raw - 20480 + 64 * Z.of_nat k) = flog (lay_flog k) /\
    flog_at m (raw - 20480 + 64 * Z.of_nat k + 16) = Zflog;
}.

Lemma lay_lookup s k r : flogs (lay_arena s) !! k = Some r -> (k < 256)%nat /\ r = lay_flog k.
Proof.
  cbn [lay_arena arena_of_info flogs]. rewrite list_lookup_fmap. intros Hr.
  destruct (List.seq 0 256 !! k) as [j|] eqn:E; [|done]. apply lookup_seq in E as [-> ?].
  cbn in Hr. by injection Hr as <-.
Qed.

Lemma lay_free k : (k < 256)%nat -> free_blk (lay_flog k) = ext + Z.of_nat k.
Proof.
  intros Hk. pose proof lay_ext_val as (? & ? & ?). unfold free_blk. cbn [flog lay_flog old_map].
  apply entry_lba_lor; [done|done|lia].
Qed.

(** Every map entry of a fresh arena is in the initial state. *)
Lemma lay_entry s m i : fresh_media m -> 0 <= i < ext -> entry_at m (lay_arena s) i = 0.
Proof.
  intros [] Hi. pose proof (lay_arena_fields s) as (_ & _ & Em & _). pose proof lay_mapsize as [? _].
  unfold entry_at, get_le. rewrite Em.
  replace (mread m _ _) with (replicate 4 x00); [apply le_dec_zeros|].
  symmetry. apply list_eq. intros j. destruct (decide (j < 4)%nat).
  - rewrite lookup_mread by lia. rewrite fm_map0 by lia. symmetry. by apply lookup_replicate_2.
  - rewrite !lookup_ge_None_2; [done| |]; len.
Qed.

Lemma lay_blk s m i : fresh_media m -> 0 <= i < ext -> blk_at m (lay_arena s) i = i.
Proof.
  intros Hm Hi. pose proof lay_ext_val as (? & ? & ?). unfold blk_at, eff_at. rewrite lay_entry by done.
  apply normal_lba. lia.
Qed.

(** The invariant of a fresh arena. *)
Lemma lay_arena_inv s m : fresh_media m -> arena_inv 256 ext lbs raw m (lay_arena s).
Proof.
  intros Hm. pose proof (lay_arena_fields s) as (Es & Ed & Em & Ef & Ee & Ei & El & _ & _).
  pose proof lay_ext_val as (Hext & ? & ?). split.
  - apply lay_geom.
  - lia.
  - done.
  - intros k r Hr. apply lay_lookup in Hr as [Hk ->]. destruct (fm_flog _ Hm k Hk) as [F0 F1].
    unfold flog_pos, BTT_FLOG_SIZE in *.
    split; unfold flog_pos, BTT_FLOG_SIZE; rewrite ?Ef, ?F0, ?F1, ?Ee; cbn [next flog lay_flog seq lba Zflog];
      try done; try lia; auto.
  - split; rewrite ?Ee, ?Ei.
    + intros i Hi. rewrite lay_blk by done. lia.
    + intros k r Hr. apply lay_lookup in Hr as [Hk ->]. rewrite lay_free by done. lia.
    + intros i j Hi Hj. by rewrite !lay_blk by done.
    + intros k j r q Hr Hq. apply lay_lookup in Hr as [Hk ->]. apply lay_lookup in Hq as [Hj ->].
      rewrite !lay_free by done. lia.
    + intros i k r Hi Hr. apply lay_lookup in Hr as [Hk ->]. rewrite lay_blk, lay_free by done. lia.
  - by split.
Qed.

Lemma lay_blk_state s m i : fresh_media m -> 0 <= i < ext -> blk_state m (lay_arena s) lbs i = BZero.
Proof. intros Hm Hi. unfold blk_state. by rewrite lay_entry. Qed.
End Geometry.

(** ** Running the layout *)

Section Layout.
Context {N : Type} `{NsLaws N} `{Allocator}.
Abbreviation W := (Build_world (N := N) (S := btt)).

Lemma flog_at_bytes m off f :
  0 <= lba f < 2 ^ 32 -> 0 <= old_map f < 2 ^ 32 -> 0 <= new_map f < 2 ^ 32 -> 0 <= seq f < 2 ^ 32 ->
  flog_at (mwrite m off (flog_bytes f)) off = f.
Proof.
  intros. unfold flog_at. rewrite mread_mwrite_eq by (unfold flog_bytes; len).
  destruct f as [fl fo fn fs]. cbn [lba old_map new_map seq] in *. unfold flog_of, flog_bytes.
  cbn [lba old_map new_map seq]. f_equal; field; by rewrite Z.mod_small.
Qed.

Lemma length_flog_bytes f : length (flog_bytes f) = 16%nat.
Proof. unfold flog_bytes. len. Qed.

Definition fresh_flog (e : Z) : btt_flog :=
  {| lba := 0; old_map := Z.lor e BTT_MAP_ENTRY_ZERO; new_map := Z.lor e BTT_MAP_ENTRY_ZERO; seq := 1 |}.

Lemma zero_entry_range e : 0 <= e < 2 ^ 30 -> 0 <= Z.lor e BTT_MAP_ENTRY_ZERO < 2 ^ 32.
Proof. intros He. rewrite lor_flags; [|easy|easy|done]. unfold BTT_MAP_ENTRY_ZERO. lia. Qed.

Lemma run_write_flogs lane base first c : forall k (n : N) s lg,
  0 <= base -> base mod 64 = 0 -> base + 64 * Z.of_nat (k + c) <= ns_size n ->
  0 <= first -> first + Z.of_nat (k + c) < 2 ^ 30 ->
  exists n' evs,
    run (write_flogs lane (base + 64 * Z.of_nat k) (first + Z.of_nat k) c) (W n s lg) =
    (Done tt, W n' s (lg ++ evs)) /\
    ns_size n' = ns_size n /\
    only (ns_mem n) (ns_mem n') (base + 64 * Z.of_nat k) (64 * Z.of_nat c) /\
    forall j, (k <= j < k + c)%nat ->
      flog_at (ns_mem n') (base + 64 * Z.of_nat j) = fresh_flog (first + Z.of_nat j) /\
      flog_at (ns_mem n') (base + 64 * Z.of_nat j + 16) = Zflog.
Proof.
  induction c as [|c IH]; intros k n s lg H0' Ha Hb Hf0 Hf.
  - exists n, []. rewrite app_nil_r. split_and!; [done..|]. intros j Hj. lia.
  - cbn [write_flogs]. set (p := base + 64 * Z.of_nat k).
    change {| lba := 0; old_map := _; new_map := _; seq := 1 |} with (fresh_flog (first + Z.of_nat k)).
    destruct (run_write_ns n s lg lane (flog_bytes (fresh_flog (first + Z.of_nat k))) p)
      as (n1 & (Hs1 & _ & Hm1) & E1); [lia|rewrite length_flog_bytes; lia|].
    rewrite run_bind, E1.
    destruct (run_write_ns n1 s (lg ++ [EvWrite p (flog_bytes (fresh_flog (first + Z.of_nat k)))]) lane
      (flog_bytes Zflog) (p + 16)) as (n2 & (Hs2 & _ & Hm2) & E2); [lia|rewrite length_flog_bytes; lia|].
    unfold BTT_FLOG_SIZE. rewrite run_bind, E2.
    assert (roundup (p + 16 + 16) BTT_FLOG_PAIR_ALIGN = base + 64 * Z.of_nat (k + 1)) as ->.
    { unfold p, BTT_FLOG_PAIR_ALIGN, roundup. apply Z.mod_divide in Ha as [q ->]; [|lia].
      replace (q * 64 + 64 * Z.of_nat k + 16 + 16 + (64 - 1)) with ((q + Z.of_nat k + 1) * 64 + 31) by lia.
      rewrite Z.div_add_l by lia. change (31 / 64) with 0. lia. }
    replace (u32 (first + Z.of_nat k + 1)) with (first + Z.of_nat (k + 1)) by (rewrite u32_id; lia).
    destruct (IH (k + 1)%nat n2 s ((lg ++ [EvWrite p (flog_bytes (fresh_flog (first + Z.of_nat k)))]) ++
      [EvWrite (p + 16) (flog_bytes Zflog)])) as (n3 & evs & E3 & Hs3 & Ho3 & Hf3);
      try done; try (rewrite ?Hs2, ?Hs1; lia).
    rewrite E3. eexists n3, (_ :: _ :: evs). split_and!.
    + do 2 f_equal. rewrite <- !app_assoc. done.
    + congruence.
    + intros z Hz. rewrite (Ho3 z) by lia. rewrite (Hm2 z). cbn [apply_event].
      rewrite mwrite_out by (rewrite length_flog_bytes; lia). rewrite (Hm1 z). cbn [apply_event].
      rewrite mwrite_out by (rewrite length_flog_bytes; lia). done.
    + intros j Hj. destruct (decide (j = k)) as [->|Hne]; [|apply Hf3; lia].
      fold p. rewrite !(flog_at_agree (ns_mem n3) (ns_mem n2)) by (eapply only_agree; [done|lia]).
      pose proof (zero_entry_range (first + Z.of_nat k) ltac:(lia)).
      assert (forall z, flog_at (ns_mem n2) z = flog_at (mwrite (ns_mem n1) (p + 16) (flog_bytes Zflog)) z) as F2
        by (intros z; unfold flog_at; by rewrite Hm2).
      assert (forall z, flog_at (ns_mem n1) z =
        flog_at (mwrite (ns_mem n) p (flog_bytes (fresh_flog (first + Z.of_nat k)))) z) as F1
        by (intros z; unfold flog_at; by rewrite Hm1).
      split.
      * rewrite F2. transitivity (flog_at (ns_mem n1) p).
        -- apply flog_at_agree, mwrite_agree. lia.
        -- rewrite F1. apply flog_at_bytes; cbn; lia.
      * rewrite F2. apply flog_at_bytes; cbn; lia.
Qed.

(** A run-time state that is ready to lay out one arena. *)
Record layable (size : Z) (s : btt) : Prop := {
  y_lay : lay_ok (rawsize s) (lbasize s);
  y_big : 512 <= lay_int (rawsize s) (lbasize s);
  y_size : rawsize s = size;
  y_nfree : nfree s = BTT_DEFAULT_NFREE;
  y_uuid : length (parent_uuid s) = 16%nat;
}.

Lemma lay_info_wf s : layable (rawsize s) s -> btt_info_wf (lay_info (rawsize s) (lbasize s) s).
Proof.
  intros [Hl Hb _ Hn Hu]. pose proof (lay_info_offsets _ _ Hl Hb s) as (E1 & E2 & E3 & E4 & E5 & E6 & E7).
  pose proof (lay_ext_val _ _ Hl Hb) as (? & ? & ?). pose proof (lay_mapsize _ _ Hl Hb) as [? _].
  destruct Hl as [Hr _ Hlb]. destruct (lay_lbasize _ Hlb) as (? & _). unfold BTT_MIN_SIZE in *.
  assert (0 <= lay_int (rawsize s) (lbasize s) * layout_lbasize (lbasize s)) by nia.
  split; rewrite ?E1, ?E2, ?E3, ?E4, ?E5, ?E6; try (cbn; done || lia); try lia.
  - change (0 <= nfree s < 2 ^ 32). rewrite Hn. unfold BTT_DEFAULT_NFREE. lia.
Qed.

(** The map is zero already when the namespace says it is zeroed. *)
Definition zeroed_ok (n : N) : Prop :=
  ns_is_zeroed n = true -> forall z, 0 <= z < ns_size n -> ns_mem n z = x00.

Section WriteArena.
Context (s : btt) (lane : Z).
Abbreviation raw := (rawsize s).
Abbreviation lbs := (lbasize s).
Abbreviation info := (lay_info raw lbs s).

Lemma run_write_arena (n : N) lg :
  layable (ns_size n) s -> zeroed_ok n ->
  exists n' evs,
    run (write_arena lane 0 info (layout_mapsize (lay_ext raw lbs)) (lay_ext raw lbs)) (W n s lg) =
    (Done tt, W n' s (lg ++ evs)) /\
    ns_size n' = ns_size n /\ fresh_media raw lbs (ns_mem n') /\
    mread (ns_mem n') 0 BTT_INFO_SIZE = snd (util_checksum (btt_info_bytes info) INFO_CSUM true).
Proof.
  intros Hy Hz. pose proof Hy as [Hl Hb Hsz Hn Hu]. rewrite <- Hsz in Hy.
  pose proof (lay_info_offsets _ _ Hl Hb s) as (E1 & E2 & E3 & E4 & E5 & E6 & E7).
  pose proof (lay_ext_val _ _ Hl Hb) as (X1 & X2 & X3). pose proof (lay_mapsize _ _ Hl Hb) as [M1 M2].
  pose proof (info_checksum_roundtrip info (lay_info_wf s Hy)) as (Hlen & _ & _).
  pose proof Hl as [Hr Ha Hlb]. destruct (lay_lbasize _ Hlb) as (L1 & _). unfold BTT_MIN_SIZE in *.
  assert (0 <= lay_int raw lbs * layout_lbasize lbs) as Hmul by nia.
  unfold write_arena. rewrite run_bind, run_get. cbn [w_st]. rewrite run_bind. cbn [run w_ns].
  set (bs := snd (util_checksum _ _ true)) in *.
  (* the map *)
  assert (exists n1 ev1, run (if negb (ns_is_zeroed n) then zero_ns lane (layout_mapsize (lay_ext raw lbs)) (i_mapoff info)
      else Ret tt) (W n s lg) = (Done tt, W n1 s (lg ++ ev1)) /\ ns_size n1 = ns_size n /\
      forall z, raw - 20480 - layout_mapsize (lay_ext raw lbs) <= z < raw - 20480 -> ns_mem n1 z = x00)
    as (n1 & ev1 & R1 & S1 & Z1).
  { destruct (ns_is_zeroed n) eqn:Ez; cbn [negb].
    - exists n, []. rewrite app_nil_r. split_and!; [done..|]. intros z Hzz. apply Hz; [done|lia].
    - destruct (run_zero_ns n s lg lane (layout_mapsize (lay_ext raw lbs)) (i_mapoff info))
        as (n1 & (Hs1 & _ & Hm1) & R1); [lia..|].
      eexists n1, _. split_and!; [done..|]. intros z Hzz. rewrite (Hm1 z). apply mzero_in. lia. }
  rewrite run_bind, R1.
  (* the flogs *)
  destruct (run_write_flogs lane (raw - 20480) (lay_ext raw lbs) 256 0 n1 s (lg ++ ev1))
    as (n2 & ev2 & R2 & S2 & O2 & F2); [lia| |lia..|].
  { apply Z.mod_divide in Ha as [q Hq]; [|lia]. rewrite Hq.
    replace (q * 64 - 20480) with ((q - 320) * 64) by lia. by apply Z.mod_mul. }
  rewrite E2, Hn, Z.add_0_l. rewrite (u32_id (lay_ext raw lbs)) by lia.
  rewrite Z.mul_0_r, !Z.add_0_r in R2. rewrite run_bind. change (Z.to_nat BTT_DEFAULT_NFREE) with 256%nat. rewrite R2.
  (* the info blocks *)
  destruct (run_write_ns n2 s ((lg ++ ev1) ++ ev2) lane bs 0) as (n3 & (S3 & _ & M3) & R3); [lia..|].
  rewrite run_bind, R3, E1, Z.add_0_l.
  destruct (run_write_ns n3 s (((lg ++ ev1) ++ ev2) ++ [EvWrite 0 bs]) lane bs (raw - 4096))
    as (n4 & (S4 & _ & M4) & R4); [lia..|].
  assert (only (ns_mem n2) (ns_mem n3) 0 4096) as O3.
  { intros z Hzz. rewrite (M3 z). apply mwrite_out. lia. }
  assert (only (ns_mem n3) (ns_mem n4) (raw - 4096) 4096) as O4.
  { intros z Hzz. rewrite (M4 z). apply mwrite_out. lia. }
  rewrite R4. eexists n4, (ev1 ++ ev2 ++ [_] ++ [_]). split_and!.
  - do 2 f_equal. by rewrite <- !app_assoc.
  - congruence.
  - split.
    + intros z Hzz. rewrite (O4 z), (O3 z), (O2 z) by lia. by apply Z1.
    + intros k Hk. destruct (F2 k ltac:(lia)) as [Fa Fb].
      rewrite !(flog_at_agree (ns_mem n4) (ns_mem n2)); [done|..];
        (eapply agree_trans; eapply only_agree; [exact O4|lia|exact O3|lia]).
  - rewrite (mread_agree _ (ns_mem n3)) by (eapply only_agree; [exact O4|unfold BTT_INFO_SIZE; lia]).
    rewrite M3. apply mread_mwrite_eq. by rewrite Hlen.
Qed.
End WriteArena.

(** ** The layout as a whole *)

(** The state after the layout is written and loaded. *)
Definition laid (s : btt) : btt :=
  let ext := lay_ext (rawsize s) (lbasize s) in
  set_laidout (set_arenas (set_nlba (set_narena s 1) ext) [lay_arena (rawsize s) (lbasize s) s]) true.

Definition zero_device (nlba : Z) : device :=
  {| d_nlba := nlba; d_ro := fun _ => false; d_blocks := fun _ => BZero |}.

Lemma lay_described s m :
  layable (rawsize s) s ->
  mread m 0 BTT_INFO_SIZE =
    snd (util_checksum (btt_info_bytes (lay_info (rawsize s) (lbasize s) s)) INFO_CSUM true) ->
  exists info, described s m (lay_arena (rawsize s) (lbasize s) s) info /\ i_nextoff info = 0.
Proof.
  intros Hy Hr. pose proof Hy as [Hl Hb _ Hn Hu].
  pose proof (info_checksum_roundtrip _ (lay_info_wf s Hy)) as (_ & Hc & v & Hv). cbv zeta in *.
  rewrite <- Hr in Hc, Hv. pose proof (lay_info_offsets _ _ Hl Hb s) as (_ & _ & _ & E4 & E5 & _ & _).
  pose proof (lay_ext_val _ _ Hl Hb) as (_ & X2 & _).
  exists (set_info_csum (lay_info (rawsize s) (lbasize s) s) v). split; [|done].
  split; [|reflexivity..|].
  - change (startoff (lay_arena (rawsize s) (lbasize s) s)) with 0.
    unfold read_info. rewrite Hv, Hc. cbn [set_info_csum i_sig i_parent_uuid i_major lay_info layout_info].
    rewrite !bool_decide_true by done. done.
  - cbn [set_info_csum i_external_nlba]. rewrite E5. lia.
Qed.

Lemma laid_implements s m :
  layable (rawsize s) s -> nlane s <= nfree s -> layout_write_mutex s = false ->
  fresh_media (rawsize s) (lbasize s) m ->
  implements (rawsize s) (laid s) m (zero_device (lay_ext (rawsize s) (lbasize s))).
Proof.
  intros Hy Hnl Hmx Hf. pose proof Hy as [Hl Hb _ Hn Hu].
  pose proof (lay_arena_fields _ _ Hl Hb s) as (Es & Ed & Em & Ef & Ee & _ & _ & Efl & _).
  pose proof (lay_arena_inv _ _ Hl Hb s m Hf) as Hinv. pose proof (l_lbs _ _ Hl) as Hlb.
  split_and!; [|done|].
  - split; try done; cbn [laid set_laidout set_arenas set_nlba set_narena lbasize nlba arenas nfree].
    + lia.
    + cbn [ext_sum]. rewrite Ee. lia.
    + intros i a Ha. rewrite Hn. destruct i; [injection Ha as <-; done|done].
    + intros i j a b Hlt Ha Hb'. destruct i, j; try lia; done.
  - intros lba Hlba. unfold abs_ro, abs_block.
    cbn [laid set_laidout set_arenas set_nlba set_narena lbasize nlba arenas] in *.
    cbn [lba_to_arena_lba]. rewrite Ee. destruct (Z.ltb_spec lba (lay_ext (rawsize s) (lbasize s))); [|lia].
    pose proof (lay_ext_val _ _ Hl Hb) as (? & ? & ?). rewrite u32_id by lia. cbn [lookup list_lookup].
    split; [unfold arena_in_error; by rewrite Efl|]. symmetry. by apply lay_blk_state.
Qed.

Lemma laid_on_media s m :
  layable (rawsize s) s ->
  mread m 0 BTT_INFO_SIZE =
    snd (util_checksum (btt_info_bytes (lay_info (rawsize s) (lbasize s) s)) INFO_CSUM true) ->
  on_media (rawsize s) (laid s) m.
Proof.
  intros Hy Hr. pose proof Hy as [Hl Hb _ Hn Hu]. destruct (lay_described s m Hy Hr) as (info & Hd & Hx).
  pose proof (lay_arena_fields _ _ Hl Hb s) as (Es & _ & _ & _ & Ee & _).
  pose proof (lay_ext_val _ _ Hl Hb) as (? & ? & ?).
  split; cbn [laid set_laidout set_arenas set_nlba set_narena rawsize nfree nlba arenas ext_sum]; try done.
  - split_and!; [done|apply Hl|]. exists info. split; [|done].
    by apply (described_params s).
  - rewrite Hn. done.
  - rewrite Ee. lia.
  - intros j a Ha. destruct j; [injection Ha as <-; rewrite Ee; lia|done].
Qed.

Lemma layout_single raw lbs : lay_ok raw lbs ->
  s32 (count_arenas raw) = 1 /\ layout_fuel raw = 1%nat /\ (BTT_MAX_ARENA <? raw) = false.
Proof.
  intros [Hr _ _]. unfold count_arenas, layout_fuel, BTT_MIN_SIZE, BTT_MAX_ARENA in *.
  rewrite Z.div_small, Z.mod_small by lia. split_and!; [by ztrue|done|lia].
Qed.

Context (Halloc : forall z, malloc_ok z = true).

(** Writing the layout and loading it. *)
Lemma run_write_layout (n : N) s lg lane :
  layable (ns_size n) s -> zeroed_ok n -> 0 <= lane < nfree s -> arenas s = [] ->
  exists n' evs,
    run (write_layout lane true) (W n s lg) = (Done tt, W n' (laid s) (lg ++ evs)) /\
    ns_size n' = ns_size n /\ fresh_media (rawsize s) (lbasize s) (ns_mem n') /\
    mread (ns_mem n') 0 BTT_INFO_SIZE =
      snd (util_checksum (btt_info_bytes (lay_info (rawsize s) (lbasize s) s)) INFO_CSUM true).
Proof.
  intros Hy Hz Hlane Hars. pose proof Hy as [Hl Hb Hsz Hn Hu].
  destruct (layout_single _ _ Hl) as (C1 & C2 & C3).
  pose proof Hl as [Hr Ha Hlb]. destruct (lay_lbasize _ Hlb) as (L1 & _).
  pose proof (lay_ext_val _ _ Hl Hb) as (X1 & X2 & X3).
  unfold write_layout. rewrite run_bind, run_get. cbn [w_st]. rewrite C1, C2.
  rewrite run_bind, run_modify. unfold BTT_INTERNAL_LBA_ALIGNMENT. cbv zeta.
  replace (layout_lbasize (lbasize s) <? 256) with false by (symmetry; apply Z.ltb_ge; lia).
  rewrite run_bind, Hn. fold FLOG_SIZE. cbn [layout_loop].
  replace (negb (BTT_MIN_SIZE <=? rawsize s)) with false by (symmetry; apply negb_false_iff, Z.leb_le; lia).
  rewrite run_bind, run_get. unfold set_st. cbn [w_st w_ns w_log]. set (s1 := set_narena s 1). rewrite C3.
  change (layout_internal_nlba _ _) with (lay_int (rawsize s) (lbasize s)).
  change (nfree s1) with (nfree s). rewrite Hn.
  change (u32 (2 * BTT_DEFAULT_NFREE)) with 512.
  replace (lay_int (rawsize s) (lbasize s) <? 512) with false by (symmetry; apply Z.ltb_ge; lia).
  fold (lay_ext (rawsize s) (lbasize s)). cbn [negb]. rewrite Z.sub_diag.
  change (layout_info s1 _ _ _ _ _ 0) with (lay_info (rawsize s1) (lbasize s1) s1).
  change (lay_ext (rawsize s) (lbasize s)) with (lay_ext (rawsize s1) (lbasize s1)).
  assert (layable (ns_size n) s1) as Hy1 by by split.
  destruct (run_write_arena s1 lane n lg Hy1 Hz) as (n' & evs & R & S' & F & I).
  rewrite run_bind, R. change (negb (BTT_MIN_SIZE <=? 0)) with true. cbn [run].
  rewrite run_bind, run_modify. unfold set_st. cbn [w_st w_ns w_log].
  change (lay_ext (rawsize s1) (lbasize s1)) with (lay_ext (rawsize s) (lbasize s)) in *.
  rewrite Z.add_0_l, (u64_id (lay_ext _ _)) by lia.
  exists n', evs. split_and!; [|done..].
  unfold read_arenas. rewrite run_bind, run_catch, run_bind, (run_malloc Halloc), run_bind, run_modify.
  unfold set_st. cbn [w_st w_ns w_log]. change (Z.to_nat 1) with 1%nat.
  set (s2 := set_arenas _ _).
  assert (layable (rawsize s) s) as Hy' by (rewrite Hsz; done).
  destruct (lay_described s (ns_mem n') Hy' I) as (info & Hd & _).
  rewrite (run_arenas_clean Halloc lane [lay_arena (rawsize s) (lbasize s) s]); try done.
  - intros a E. by injection E as <-.
  - intros j Hj. lia.
  - intros j a E. destruct j; [|done]. injection E as <-. split.
    + exists info. by apply (described_params s).
    + change (nfree s2) with (nfree s). rewrite Hn, S', <- Hsz. by apply lay_arena_inv.
Qed.

(** ** A device that was never written *)

(** The run-time state [btt_init] leaves when it finds no layout. *)
Record unlaid (size : Z) (s : btt) : Prop := {
  u_layable : layable size s;
  u_laidout : laidout s = false;
  u_mutex : layout_write_mutex s = false;
  u_arenas : arenas s = [];
  u_nlba : nlba s = lay_ext (rawsize s) (lbasize s);
  u_nlane : nlane s <= nfree s;
}.

Lemma run_layout_dry (n : N) s lg lane :
  lay_ok (rawsize s) (lbasize s) -> nfree s = BTT_DEFAULT_NFREE ->
  run (write_layout lane false) (W n s lg) =
  (if lay_int (rawsize s) (lbasize s) <? 512
   then (Err EINVAL, W n (set_narena s 1) lg)
   else (Done tt, W n (set_nlba (set_narena s 1) (lay_ext (rawsize s) (lbasize s))) lg)).
Proof.
  intros Hl Hn. destruct (layout_single _ _ Hl) as (C1 & C2 & C3).
  pose proof Hl as [Hr Ha Hlb]. destruct (lay_lbasize _ Hlb) as (L1 & _).
  unfold write_layout. rewrite run_bind, run_get. cbn [w_st]. rewrite C1, C2.
  rewrite run_bind, run_modify. unfold BTT_INTERNAL_LBA_ALIGNMENT. cbv zeta.
  replace (layout_lbasize (lbasize s) <? 256) with false by (symmetry; apply Z.ltb_ge; lia).
  rewrite run_bind, Hn. fold FLOG_SIZE. cbn [layout_loop].
  replace (negb (BTT_MIN_SIZE <=? rawsize s)) with false by (symmetry; apply negb_false_iff, Z.leb_le; lia).
  rewrite run_bind, run_get. unfold set_st. cbn [w_st w_ns w_log]. set (s1 := set_narena s 1). rewrite C3.
  change (layout_internal_nlba _ _) with (lay_int (rawsize s) (lbasize s)).
  change (nfree s1) with (nfree s). rewrite Hn. change (u32 (2 * BTT_DEFAULT_NFREE)) with 512.
  destruct (Z.ltb_spec (lay_int (rawsize s) (lbasize s)) 512) as [Hsm|Hbg]; [done|].
  fold (lay_ext (rawsize s) (lbasize s)). cbn [negb]. rewrite Z.sub_diag.
  change (negb (BTT_MIN_SIZE <=? 0)) with true. cbn [run]. rewrite run_bind, run_modify.
  unfold set_st. cbn [w_st w_ns w_log]. pose proof (lay_ext_val _ _ Hl Hbg) as (X1 & X2 & X3).
  by rewrite Z.add_0_l, (u64_id (lay_ext _ _)) by lia.
Qed.

(** The arguments of [btt_init] on a namespace without a layout. *)
Definition init_state (raw lbs : Z) (uuid : list byte) : btt :=
  {| nlane := 0; layout_write_mutex := false; laidout := false;
     parent_uuid := take BTTINFO_UUID_LEN uuid; rawsize := raw; lbasize := lbs;
     nfree := BTT_DEFAULT_NFREE; nlba := 0; narena := 0; arenas := [] |}.

Definition init_unlaid (raw lbs : Z) (uuid : list byte) (maxlane : Z) : btt :=
  {| nlane := lanes BTT_DEFAULT_NFREE maxlane; layout_write_mutex := false; laidout := false;
     parent_uuid := take BTTINFO_UUID_LEN uuid; rawsize := raw; lbasize := lbs;
     nfree := BTT_DEFAULT_NFREE; nlba := lay_ext raw lbs; narena := 1; arenas := [] |}.

Lemma init_unlaid_ok raw lbs uuid maxlane :
  lay_ok raw lbs -> 512 <= lay_int raw lbs -> (16 <= length uuid)%nat ->
  unlaid raw (init_unlaid raw lbs uuid maxlane).
Proof.
  intros Hl Hb Hu. split; try done; [split; try done|].
  - cbn [init_unlaid parent_uuid]. unfold BTTINFO_UUID_LEN. len.
  - by apply lanes_le.
Qed.

Lemma run_init_fresh (n : N) s0 lg raw lbs uuid maxlane :
  lay_ok raw lbs -> raw = ns_size n ->
  read_info (init_state raw lbs uuid) (mread (ns_mem n) 0 BTT_INFO_SIZE) = None ->
  run (btt_init raw lbs uuid maxlane) (W n s0 lg) =
  if lay_int raw lbs <? 512 then (Err EINVAL, W n zero_btt lg)
  else (Done tt, W n (init_unlaid raw lbs uuid maxlane) lg).
Proof.
  intros Hl Hsz Hno. pose proof Hl as [Hr _ _]. destruct (layout_single _ _ Hl) as (_ & C2 & _).
  unfold btt_init. replace (raw <? BTT_MIN_SIZE) with false by (symmetry; apply Z.ltb_ge; lia).
  rewrite run_bind, (run_malloc Halloc), run_bind, run_modify, run_bind, run_catch.
  unfold read_layout. rewrite run_bind, run_modify, run_bind, run_get, run_bind.
  match goal with |- context [run (read_layout_loop _ _ _ _ _ _ _) ?w] =>
    change w with (W n (init_state raw lbs uuid) lg) end.
  cbn [w_st init_state rawsize]. rewrite C2. cbn [read_layout_loop].
  replace (negb (BTT_MIN_SIZE <=? raw)) with false by (symmetry; apply negb_false_iff, Z.leb_le; lia).
  unfold BTT_MIN_SIZE in *. rewrite run_bind, run_read_ns by (unfold BTT_INFO_SIZE; lia).
  rewrite run_bind, run_get. cbn [w_st]. rewrite Hno. cbn [run].
  rewrite run_layout_dry by done. cbn [init_state rawsize lbasize].
  destruct (Z.ltb_spec (lay_int raw lbs) 512) as [Hsm|Hbg]; [done|].
  rewrite run_bind, !run_modify. unfold set_st. cbn [w_st w_ns w_log]. do 2 f_equal.
  unfold init_unlaid, lanes. cbn [nlane nfree set_nlane set_nlba set_narena init_state].
  by destruct (negb (maxlane =? 0) && (maxlane <? s32 BTT_DEFAULT_NFREE)).
Qed.

(** Laying out an unlaid BTT gives the zero device. *)
Lemma laid_ready (n : N) s lg lane :
  unlaid (ns_size n) s -> zeroed_ok n -> 0 <= lane < nfree s ->
  exists n' evs,
    run (ensure_layout lane) (W n s lg) = (Done tt, W n' (laid s) (lg ++ evs)) /\
    ns_size n' = ns_size n /\
    implements (ns_size n) (laid s) (ns_mem n') (zero_device (nlba s)) /\
    on_media (ns_size n) (laid s) (ns_mem n').
Proof.
  intros [Hy Hlo Hmx Har Hnl Hln] Hz Hlane. pose proof Hy as [Hl Hb Hsz Hn Hu].
  set (s1 := set_layout_mutex s true).
  assert (layable (ns_size n) s1) as Hy1 by by split.
  destruct (run_write_layout n s1 lg lane Hy1 Hz Hlane Har) as (n' & evs & R & S' & F & I).
  exists n', evs. split; [|split; [done|]].
  - unfold ensure_layout. rewrite run_bind, run_get. cbn [w_st]. rewrite Hlo.
    rewrite run_bind. unfold await. cbn [run w_st]. rewrite Hmx. cbn [negb run].
    rewrite run_bind, run_get. cbn [w_st]. unfold set_st. cbn [w_ns w_st w_log]. fold s1.
    change (laidout s1) with (laidout s). rewrite Hlo, run_bind, run_catch, R.
    rewrite run_bind, run_modify. unfold set_st. cbn [w_ns w_st w_log of_result run]. do 2 f_equal.
    unfold laid, set_layout_mutex, set_laidout, set_arenas, set_nlba, set_narena. cbn. by rewrite Hmx.
  - rewrite <- Hsz in *. rewrite Hnl. split; [by apply laid_implements|by apply laid_on_media].
Qed.

(** A namespace without a layout opens as a device of zeros: [btt_init]
    writes nothing, settles the number of blocks (EINVAL when fewer than twice
    the free blocks fit), and reading any block gives zeros. *)
Theorem btt_init_fresh (n : N) (s0 : btt) (lg : list event) (raw lbs lane lba maxlane : Z)
  (uuid : list byte) (k : nat)
  (Hlay : lay_ok raw lbs) (Hsize : raw = ns_size n) (Hlba : 0 <= lba)
  (Hnone : read_info (init_state raw lbs uuid) (mread (ns_mem n) 0 BTT_INFO_SIZE) = None) :
  if lay_int raw lbs <? 512 then
    run (btt_init raw lbs uuid maxlane) (W n s0 lg) = (Err EINVAL, W n zero_btt lg)
  else exists s,
    run (btt_init raw lbs uuid maxlane) (W n s0 lg) = (Done tt, W n s lg) /\
    btt_nlba s = lay_int raw lbs - 256 /\
    run (btt_read k lane lba) (W n s lg) =
      (outcome_of (spec_read (zero_device (btt_nlba s)) lbs lba), W n s lg).
Proof.
  rewrite run_init_fresh by done.
  destruct (Z.ltb_spec (lay_int raw lbs) 512) as [Hsm|Hbg]; [done|].
  exists (init_unlaid raw lbs uuid maxlane). split; [done|].
  pose proof (lay_ext_val _ _ Hlay Hbg) as (X1 & X2 & X3). split; [done|].
  unfold btt_read, spec_read. rewrite run_bind, run_check_lba.
  cbn [init_unlaid nlba zero_device d_nlba btt_nlba d_blocks].
  destruct (Z.leb_spec (lay_ext raw lbs) lba); [done|].
  rewrite run_bind, run_get. done.
Qed.

(** On a BTT that was never written, a write is a write on the fresh layout. *)
Lemma write_unlaid (n : N) s lg lane lba buf :
  unlaid (ns_size n) s -> zeroed_ok n -> 0 <= lane < nfree s -> 0 <= lba < nlba s ->
  exists n1 evs,
    run (btt_write lane lba buf) (W n s lg) = run (btt_write lane lba buf) (W n1 (laid s) (lg ++ evs)) /\
    ns_size n1 = ns_size n /\ implements (ns_size n1) (laid s) (ns_mem n1) (zero_device (nlba s)).
Proof.
  intros Hun Hz Hlane Hlba. destruct (laid_ready n s lg lane Hun Hz Hlane) as (n1 & evs & R & S1 & Himp & _).
  exists n1, evs. rewrite S1. split_and!; [|done..].
  unfold btt_write. rewrite !(run_bind (check_lba lba)), !run_check_lba.
  change (nlba (laid s)) with (lay_ext (rawsize s) (lbasize s)). rewrite <- (u_nlba _ _ Hun).
  destruct (Z.leb_spec (nlba s) lba); [lia|].
  by rewrite !(run_bind (ensure_layout lane)), R, (run_ensure_layout n1 (laid s)).
Qed.

(** Likewise for setting an error; setting zero has nothing to do. *)
Lemma set_error_unlaid (n : N) s lg lane lba :
  unlaid (ns_size n) s -> zeroed_ok n -> 0 <= lane < nfree s -> 0 <= lba < nlba s ->
  exists n1 evs,
    run (btt_set_error lane lba) (W n s lg) = run (btt_set_error lane lba) (W n1 (laid s) (lg ++ evs)) /\
    ns_size n1 = ns_size n /\ implements (ns_size n1) (laid s) (ns_mem n1) (zero_device (nlba s)).
Proof.
  intros Hun Hz Hlane Hlba. destruct (laid_ready n s lg lane Hun Hz Hlane) as (n1 & evs & R & S1 & Himp & _).
  exists n1, evs. rewrite S1. split_and!; [|done..].
  unfold btt_set_error, map_entry_setf. rewrite !(run_bind (check_lba lba)), !run_check_lba.
  change (nlba (laid s)) with (lay_ext (rawsize s) (lbasize s)). rewrite <- (u_nlba _ _ Hun).
  destruct (Z.leb_spec (nlba s) lba); [lia|].
  rewrite !(run_bind get), !run_get. cbn [w_st]. rewrite (u_laidout _ _ Hun).
  change (laidout (laid s)) with true. cbn [negb andb].
  change (BTT_MAP_ENTRY_ERROR =? BTT_MAP_ENTRY_ZERO) with false. cbv iota.
  by rewrite !(run_bind (ensure_layout lane)), R, (run_ensure_layout n1 (laid s)).
Qed.

Lemma set_zero_unlaid (n : N) s lg lane lba :
  unlaid (ns_size n) s ->
  run (btt_set_zero lane lba) (W n s lg) = (if nlba s <=? lba then Err EINVAL else Done tt, W n s lg).
Proof.
  intros Hun. unfold btt_set_zero, map_entry_setf. rewrite run_bind, run_check_lba.
  destruct (Z.leb_spec (nlba s) lba); [done|].
  rewrite run_bind, run_get. cbn [w_st]. by rewrite (u_laidout _ _ Hun).
Qed.

End Layout.
