(* ===== verification/BttCheck.v ===== *)
(** BttCheck: the consistency check of an arena ([check_arena], [btt_check]),
    and three things the modelling of btt.c showed. *)

From S2P Require Import Prelude Mem Util BttLayout Prog Btt BttInv BttSpec.

(** The blocks an arena accounts for: one per map entry, one per flog. *)
Definition map_blocks (m : mem) (a : arena) : list Z :=
  blk_at m a <$> seqZ 0 (external_nlba a).
Definition arena_blocks (m : mem) (a : arena) : list Z :=
  map_blocks m a ++ (free_blk <$> flogs a).

(** The arena is consistent: its blocks are used once each, and all are used. *)
Definition partitioned (m : mem) (a : arena) : Prop :=
  NoDup (arena_blocks m a) /\ forall b, 0 <= b < internal_nlba a -> b ∈ arena_blocks m a.

#[export] Instance partitioned_dec m a : Decision (partitioned m a).
Proof.
  destruct (decide (NoDup (arena_blocks m a) /\
    Forall (fun b => b ∈ arena_blocks m a) (seqZ 0 (internal_nlba a)))) as [Hp|Hp]; [left|right].
  - destruct Hp as [Hn Hf]. split; [done|]. intros b Hb. rewrite Forall_forall in Hf.
    apply Hf, elem_of_seqZ. lia.
  - intros [Hn Hf]. destruct Hp. split; [done|]. apply Forall_forall. intros b Hb.
    apply elem_of_seqZ in Hb. apply Hf. lia.
Defined.

(** The bitmap after the blocks [bs] were added, and whether all were new. *)
Fixpoint scan (bs : list Z) (bitmap : gset Z) (ok : bool) : gset Z * bool :=
  match bs with
  | [] => (bitmap, ok)
  | b :: bs =>
      let dup := bool_decide (b ∈ bitmap) in
      scan bs (if dup then bitmap else {[b]} ∪ bitmap) (if dup then false else ok)
  end.

Lemma scan_app bs bs' bm ok :
  scan (bs ++ bs') bm ok = scan bs' (fst (scan bs bm ok)) (snd (scan bs bm ok)).
Proof. revert bm ok. induction bs as [|b bs IH]; intros; simpl; [done|]. apply IH. Qed.

Lemma scan_set bs bm ok b : b ∈ fst (scan bs bm ok) <-> b ∈ bs \/ b ∈ bm.
Proof.
  revert bm ok. induction bs as [|c bs IH]; intros bm ok; simpl.
  - split; [by right|intros [H|H]; [by apply elem_of_nil in H|done]].
  - rewrite IH, elem_of_cons. case_bool_decide as Hc; rewrite ?elem_of_union, ?elem_of_singleton; [|tauto].
    split; [tauto|]. intros [[->|]|]; auto.
Qed.

Lemma scan_ok bs bm ok :
  snd (scan bs bm ok) = true <-> ok = true /\ NoDup bs /\ forall b, b ∈ bs -> b ∉ bm.
Proof.
  revert bm ok. induction bs as [|c bs IH]; intros bm ok; simpl.
  - split; [intros ->; split_and!; [done|constructor|intros b Hb; by apply elem_of_nil in Hb]|by intros (-> & _)].
  - rewrite IH, NoDup_cons. case_bool_decide as Hc.
    + split; [by intros (? & _)|]. intros (_ & _ & Hn). destruct (Hn c); [by left|done].
    + split.
      * intros (-> & Hnd & Hn). split_and!; [done| |done|].
        -- intros Hin. apply (Hn c Hin). apply elem_of_union_l. by apply elem_of_singleton.
        -- intros b [->|Hb]%elem_of_cons; [done|]. intros Hin. apply (Hn b Hb). by apply elem_of_union_r.
      * intros (-> & [Hcn Hnd] & Hn). split_and!; [done..|].
        intros b Hb [->%elem_of_singleton|Hin]%elem_of_union; [done|]. apply (Hn b); [by right|done].
Qed.

Lemma bool_decide_eq_iff_b (P : Prop) `{Decision P} (b : bool) : (P <-> b = true) -> bool_decide P = b.
Proof. intros HP. destruct b; [apply bool_decide_true|apply bool_decide_false]; intuition congruence. Qed.

Lemma all_set_spec bm i k :
  all_set bm i k = true <-> forall b, i <= b < i + Z.of_nat k -> b ∈ bm.
Proof.
  revert i. induction k as [|k IH]; intros i; simpl.
  - split; [intros _ b Hb; lia|done].
  - case_bool_decide as Hi.
    + rewrite IH. split.
      * intros Hf b Hb. destruct (decide (b = i)) as [->|]; [done|]. apply Hf. lia.
      * intros Hf b Hb. apply Hf. lia.
    + split; [done|]. intros Hf. destruct Hi. apply Hf. lia.
Qed.

Section Check.
Context {N : Type} `{NsLaws N} `{Allocator}.
Abbreviation W := (Build_world (N := N) (S := btt)).

Section OneArena.
Context (n : N) (s : btt) (lg : list event) (ai : nat) (a : arena).
Context (Hmap : 0 <= mapoff a) (Hend : mapoff a + 4 * external_nlba a < ns_size n).
Context (Hext : 0 <= external_nlba a < 2 ^ 30).

Lemma entry_block i :
  0 <= i < external_nlba a ->
  (let e := entry_at (ns_mem n) a i in if map_entry_is_initial e then i else entry_lba e)
  = blk_at (ns_mem n) a i.
Proof.
  intros Hi. unfold blk_at, eff_at, eff_entry. cbv zeta.
  destruct (map_entry_is_initial _); [|done]. symmetry. apply normal_lba. lia.
Qed.

(** The scan of the map, once mapped. *)
Lemma run_check_map k : forall i bm ok,
  Z.of_nat (i + k) = external_nlba a ->
  Forall (fun b => b < internal_nlba a) (map_blocks (ns_mem n) a) ->
  run (check_map ai a (mapoff a + 4 * Z.of_nat i)
         (mread (ns_mem n) (mapoff a + 4 * Z.of_nat i) (4 * Z.of_nat k)) i k bm ok) (W n s lg) =
  (Done (scan (blk_at (ns_mem n) a <$> seqZ (Z.of_nat i) (Z.of_nat k)) bm ok), W n s lg).
Proof.
  induction k as [|k IH]; intros i bm ok Hk Hr; [done|].
  set (off := mapoff a + 4 * Z.of_nat i).
  replace (4 * Z.of_nat (S k)) with (4 + 4 * Z.of_nat k) by lia.
  rewrite mread_app by lia. cbn [check_map].
  destruct (mread (ns_mem n) off 4 ++ mread (ns_mem n) (off + 4) (4 * Z.of_nat k)) as [|b0 l] eqn:El.
  { apply (f_equal length) in El. rewrite length_app, !length_mread in El. cbn in El. lia. }
  rewrite <- El. cbn [run bind]. rewrite run_bind.
  replace (length (mread (ns_mem n) off 4 ++ _) <? 4)%nat with false
    by (symmetry; apply Nat.ltb_ge; rewrite length_app, !length_mread; lia).
  cbn [deref run]. cbv zeta.
  assert (length (mread (ns_mem n) off 4) = 4%nat) as Hl4 by len.
  rewrite (take_app_length' (mread (ns_mem n) off 4)), (drop_app_length' (mread (ns_mem n) off 4)) by done.
  assert ((if map_entry_is_initial (le_dec (mread (ns_mem n) off 4)) then Z.of_nat i
    else entry_lba (le_dec (mread (ns_mem n) off 4))) = blk_at (ns_mem n) a (Z.of_nat i)) as Hbl.
  { unfold off. rewrite entry_read. apply entry_block. lia. }
  rewrite !Hbl.
  assert (blk_at (ns_mem n) a (Z.of_nat i) < internal_nlba a) as Hb.
  { rewrite Forall_forall in Hr. apply Hr. apply list_elem_of_fmap. exists (Z.of_nat i).
    split; [done|]. apply elem_of_seqZ. lia. }
  replace (internal_nlba a <=? blk_at (ns_mem n) a (Z.of_nat i)) with false by (symmetry; apply Z.leb_gt; lia).
  replace (off + 4) with (mapoff a + 4 * Z.of_nat (i + 1)) by (unfold off; lia).
  rewrite IH by (done || lia). rewrite (seqZ_cons (Z.of_nat i)) by lia. cbn [fmap list_fmap scan].
  replace (Z.succ (Z.of_nat i)) with (Z.of_nat (i + 1)) by lia.
  replace (Z.pred (Z.of_nat (S k))) with (Z.of_nat k) by lia. done.
Qed.

Lemma run_check_flogs bitmapsize fs bm ok :
  Forall (fun r => free_blk r / 8 < bitmapsize) fs ->
  run (check_flogs bitmapsize fs bm ok) (W n s lg) = (Done (scan (free_blk <$> fs) bm ok), W n s lg).
Proof.
  intros Hf. revert bm ok. induction Hf as [|r fs Hr Hf IH]; intros bm ok; [done|].
  cbn [check_flogs]. cbv zeta. fold (free_blk r). rewrite run_bind.
  replace (bitmapsize <=? free_blk r / 8) with false by (symmetry; apply Z.leb_gt; lia).
  cbn [deref run]. apply IH.
Qed.

(** [check_arena] decides whether the arena's blocks are partitioned. *)
Lemma run_check_arena :
  arenas s !! ai = Some a -> (forall z, malloc_ok z = true) -> 0 < external_nlba a ->
  0 <= internal_nlba a < 2 ^ 31 -> (length (flogs a) <= Z.to_nat (nfree s))%nat ->
  Forall (fun b => b < internal_nlba a) (arena_blocks (ns_mem n) a) ->
  run (check_arena ai) (W n s lg) = (Done (bool_decide (partitioned (ns_mem n) a)), W n s lg).
Proof.
  intros Ha Hm Hpos Hint Hlen Hr. unfold arena_blocks in Hr. apply Forall_app in Hr as [Hr1 Hr2].
  unfold check_arena. rewrite run_bind, (run_get_arena _ _ _ _ a) by done.
  rewrite run_bind, run_get. cbn [w_st]. rewrite (u32_id (internal_nlba a + 7)) by lia.
  rewrite run_bind. unfold malloc. cbn [run]. rewrite Hm. cbn [run]. rewrite run_bind.
  assert (run (check_map ai a (mapoff a) [] 0 (Z.to_nat (external_nlba a)) ∅ true) (W n s lg) =
    (Done (scan (map_blocks (ns_mem n) a) ∅ true), W n s lg)) as ->.
  { pose proof (run_check_map (Z.to_nat (external_nlba a)) 0 ∅ true ltac:(lia) Hr1) as E.
    rewrite Z2Nat.id in E by lia. change (Z.of_nat 0) with 0 in E. rewrite Z.mul_0_r, Z.add_0_r in E. unfold map_blocks. rewrite <- E. clear E.
    destruct (Z.to_nat (external_nlba a)) as [|k] eqn:Ek; [lia|]. cbn [check_map]. unfold map_ns. cbn [bind run].
    rewrite Z.sub_0_r, (u32_id (external_nlba a)), u64_id by lia.
    cbn [w_ns]. rewrite nsmap_ok by lia. cbn [of_result bind]. rewrite (Z.mul_comm (external_nlba a)).
    set (l := mread _ _ _). assert (length l <> 0%nat) as Hl by (unfold l; len). by destruct l. }
  rewrite run_bind. rewrite firstn_all2 by lia.
  rewrite run_check_flogs.
  2: { apply Forall_forall. intros r Hin. rewrite Forall_forall in Hr2.
       specialize (Hr2 (free_blk r)). rewrite list_elem_of_fmap in Hr2.
       assert (free_blk r < internal_nlba a) by (apply Hr2; eauto).
       apply Z.div_lt_upper_bound; [lia|]. pose proof (Z.div_mod (internal_nlba a + 7) 8).
       pose proof (Z.mod_pos_bound (internal_nlba a + 7) 8). lia. }
  cbn [run]. rewrite <- scan_app. fold (arena_blocks (ns_mem n) a). do 2 f_equal.
  symmetry. apply bool_decide_eq_iff_b. rewrite andb_true_iff, scan_ok, all_set_spec. unfold partitioned.
  split.
  - intros [Hnd Hall]. split_and!; [done|done|by intros b _ Hb|].
    intros b Hb. apply scan_set. left. apply Hall. lia.
  - intros [(_ & Hnd & _) Hall]. split; [done|]. intros b Hb.
    destruct (proj1 (scan_set _ _ _ b) (Hall b ltac:(lia))) as [?|Hbad]; [done|].
    by apply elem_of_empty in Hbad.
Qed.
End OneArena.

Lemma run_check_arenas (n : N) s lg k b ok :
  run (check_arena 0) (W n s lg) = (Done b, W n s lg) ->
  run (check_arenas k ok) (W n s lg) = (Done (match k with O => ok | S _ => ok && b end), W n s lg).
Proof.
  intros E. revert ok. induction k as [|k IH]; intros ok; [done|].
  cbn [check_arenas]. rewrite run_bind, E, IH. by destruct k, ok, b.
Qed.

(** A quiet arena whose free blocks fill what its map leaves over is consistent. *)
Lemma inv_partitioned nf nl lbs size m a :
  arena_inv nf nl lbs size m a -> internal_nlba a = external_nlba a + nf -> partitioned m a.
Proof.
  intros Hinv Hsum. pose proof (regions _ _ _ _ _ _ Hinv) as Hg. destruct Hinv. destruct ai_owned.
  assert (NoDup (arena_blocks m a)) as Hnd.
  { apply NoDup_app. split_and!.
    - apply NoDup_fmap_2_strong; [|apply NoDup_seqZ]. intros i j Hi Hj. apply elem_of_seqZ in Hi, Hj.
      apply o_blk_inj; lia.
    - intros b Hb Hf. apply list_elem_of_fmap in Hb as (i & -> & Hi). apply elem_of_seqZ in Hi.
      apply list_elem_of_fmap in Hf as (r & E & Hr). apply list_elem_of_lookup in Hr as [k Hk].
      apply (o_disj i k r ltac:(lia) Hk E).
    - apply NoDup_alt. intros i j b Hi Hj. rewrite list_lookup_fmap in Hi, Hj.
      destruct (flogs a !! i) as [r|] eqn:Ei; [|done]. destruct (flogs a !! j) as [q|] eqn:Ej; [|done].
      cbn in Hi, Hj. apply (o_free_inj i j r q Ei Ej). congruence. }
  split; [done|]. intros b Hb. apply list_elem_of_In.
  apply (NoDup_length_incl (l := arena_blocks m a) (l' := seqZ 0 (internal_nlba a))).
  - by apply NoDup_ListNoDup.
  - rewrite length_seqZ. unfold arena_blocks, map_blocks.
    rewrite length_app, !length_fmap, length_seqZ. lia.
  - intros c Hc. apply list_elem_of_In, elem_of_app in Hc. apply list_elem_of_In, elem_of_seqZ.
    destruct Hc as [Hc|Hc]; apply list_elem_of_fmap in Hc as (y & -> & Hy).
    + apply elem_of_seqZ in Hy. pose proof (entry_lba_range (eff_at m a y)). fold (blk_at m a y) in *.
      pose proof (o_blk y ltac:(lia)). lia.
    + apply list_elem_of_lookup in Hy as [k Hk]. pose proof (o_free k y Hk).
      pose proof (entry_lba_range (old_map (flog y))). fold (free_blk y) in *. lia.
  - apply list_elem_of_In, elem_of_seqZ. lia.
Qed.

Lemma inv_blocks_range nf nl lbs size m a :
  arena_inv nf nl lbs size m a -> Forall (fun b => b < internal_nlba a) (arena_blocks m a).
Proof.
  intros []. destruct ai_owned. apply Forall_app. split; apply Forall_forall; intros b Hb.
  - apply list_elem_of_fmap in Hb as (y & -> & Hy). apply elem_of_seqZ in Hy. apply o_blk. lia.
  - apply list_elem_of_fmap in Hb as (y & -> & Hy). apply list_elem_of_lookup in Hy as [k Hk]. eauto.
Qed.

(** [btt_check] reports the consistency of the first arena, whatever the others
    hold: it answers whether the blocks named by the map and the flogs of
    arena 0 are a partition of its blocks. *)
Theorem btt_check_first_arena (n : N) (s : btt) (lg : list event) (a : arena)
  (Halloc : forall z, malloc_ok z = true)
  (Hlaid : laidout s = true) (Hna : 0 < narena s) (Ha : arenas s !! 0%nat = Some a)
  (Hmap : 0 <= mapoff a) (Hend : mapoff a + 4 * external_nlba a < ns_size n)
  (Hext : 0 < external_nlba a < 2 ^ 30) (Hint : 0 <= internal_nlba a < 2 ^ 31)
  (Hlen : (length (flogs a) <= Z.to_nat (nfree s))%nat)
  (Hrange : Forall (fun b => b < internal_nlba a) (arena_blocks (ns_mem n) a)) :
  run btt_check (W n s lg) = (Done (bool_decide (partitioned (ns_mem n) a)), W n s lg).
Proof.
  unfold btt_check. rewrite run_bind, run_get. cbn [w_st]. rewrite Hlaid. cbn [negb].
  erewrite run_check_arenas by (by eapply run_check_arena; try done; lia).
  by destruct (Z.to_nat (narena s)) eqn:E; [lia|].
Qed.

(** [btt_check] accepts a healthy BTT: on a state that satisfies the invariant,
    where each arena has as many free blocks as lanes, it returns 1. *)
Theorem btt_check_accepts (n : N) (s : btt) (lg : list event) (d : device)
  (Halloc : forall z, malloc_ok z = true) (Himp : implements (ns_size n) s (ns_mem n) d)
  (Hna : narena s = Z.of_nat (length (arenas s)))
  (Hext : forall i a, arenas s !! i = Some a -> 0 < external_nlba a < 2 ^ 30 /\
            internal_nlba a = external_nlba a + nfree s) :
  run btt_check (W n s lg) = (Done true, W n s lg).
Proof.
  destruct Himp as (Hinv & _). unfold btt_check. rewrite run_bind, run_get. cbn [w_st].
  rewrite (bi_laidout _ _ _ Hinv). cbn [negb].
  destruct (arenas s) as [|a ars] eqn:E; [rewrite Hna; done|].
  destruct (Hext 0%nat a eq_refl) as [He Hi].
  assert (arenas s !! 0%nat = Some a) as Ha by (by rewrite E).
  pose proof (bi_arena _ _ _ Hinv 0%nat a Ha) as Hai.
  pose proof (regions _ _ _ _ _ _ Hai) as Hg. pose proof (g_int _ _ _ _ (ai_geom _ _ _ _ _ _ Hai)).
  pose proof (ai_len _ _ _ _ _ _ Hai).
  erewrite run_check_arenas.
  2: { apply (run_check_arena n s lg 0 a); try done; try lia. by eapply inv_blocks_range. }
  rewrite bool_decide_true by (by eapply inv_partitioned). by rewrite Hna, Nat2Z.id.
Qed.
End Check.

(** ** What modelling showed *)

(** The data offset wraps at 4 GiB: with 4096-byte blocks, block 2^20 of an
    arena is given the same offset as block 0 (the product is [uint32_t]). *)
Theorem data_block_offset_aliases (a : arena) (Hlbs : internal_lbasize a = 4096) (b : Z)
  (Hb : 0 <= b) :
  data_block_offset a (b + 2 ^ 20) = data_block_offset a b.
Proof.
  unfold data_block_offset. rewrite Hlbs.
  replace ((b + 2 ^ 20) * 4096) with (b * 4096 + 1 * 2 ^ 32) by lia. by rewrite u32_add_mult.
Qed.
