(* ===== verification/Blk.v ===== *)
(** Blk: src/src/libpmemblk/blk.c and blk.h.

    The pool of blocks: the namespace callbacks it gives the BTT, the lanes,
    creation, opening and the block operations of the public interface.  The
    run-time fields of [struct pmemblk] are a record; the pool file is a
    memory whose data area starts after the header. *)

From stdpp Require Import strings.
From S2P Require Import Prelude Mem Util BttLayout Prog Btt.

(** ** The namespace *)

(** data: addr + roundup(sizeof (struct pmemblk), BLK_FORMAT_DATA_ALIGN) *)
Definition BLK_DATA_OFF : Z := 8192.
Definition BLK_BSIZE_OFF : Z := 4096.
Definition BLK_ZEROED_OFF : Z := 4100.

Definition BLK_HDR_SIG : list byte := [x50; x4d; x45; x4d; x42; x4c; x4b; x00].
Definition BLK_FORMAT_MAJOR : Z := 1.
Definition BLK_FORMAT_COMPAT : Z := 0.
Definition BLK_FORMAT_INCOMPAT : Z := 0.
Definition BLK_FORMAT_RO_COMPAT : Z := 0.
Definition PMEMBLK_MIN_POOL : Z := 2 ^ 20 * 16 + 2 ^ 10 * 8.

(** What the callbacks see of the pool: the mapped memory, its size, and the
    [ns_is_zeroed] field of the callback table. *)
Record ns := { p_mem : mem; p_size : Z; cb_is_zeroed : bool }.

(** (pbp->addr + pbp->size) - pbp->data *)
Definition datasize (n : ns) : Z := u64 (p_size n - BLK_DATA_OFF).

Definition set_p_mem (n : ns) (m : mem) : ns :=
  {| p_mem := m; p_size := p_size n; cb_is_zeroed := cb_is_zeroed n |}.

Definition blk_nsread (n : ns) (lane count off : Z) : errno + list byte :=
  if datasize n <? u64 (off + count) then inl EINVAL
  else inr (mread (p_mem n) (BLK_DATA_OFF + off) count).

Definition blk_nswrite (n : ns) (lane : Z) (buf : list byte) (off : Z) : errno + ns :=
  if datasize n <? u64 (off + Z.of_nat (length buf)) then inl EINVAL
  else inr (set_p_mem n (mwrite (p_mem n) (BLK_DATA_OFF + off) buf)).

Definition blk_nsmap (n : ns) (lane len off : Z) : errno + list byte :=
  if datasize n <=? u64 (off + len) then inl EINVAL
  else inr (mread (p_mem n) (BLK_DATA_OFF + off) len).

Definition blk_nszero (n : ns) (lane count off : Z) : errno + ns :=
  if datasize n <? u64 (off + count) then inl EINVAL
  else inr (set_p_mem n (mzero (p_mem n) (BLK_DATA_OFF + off) count)).

#[export] Instance ns_cb : NsOps ns := {
  nsread := blk_nsread;
  nswrite := blk_nswrite;
  nszero := blk_nszero;
  nsmap := blk_nsmap;
  ns_is_zeroed := cb_is_zeroed;
}.

(** The data area as a memory of its own. *)
Definition data_mem (n : ns) : mem := fun z => p_mem n (BLK_DATA_OFF + z).

Lemma mread_shift m d off count : mread m (d + off) count = mread (fun z => m (d + z)) off count.
Proof. unfold mread. apply map_ext. intros i. f_equal. lia. Qed.

(** The callbacks provide what the BTT relies on. *)
#[export] Program Instance ns_cb_laws : NsLaws ns := {
  ns_size := datasize;
  ns_mem := data_mem;
}.
Next Obligation.
  intros n lane count off H0 H1 H2. pose proof (u64_range (p_size n - BLK_DATA_OFF)) as Hr.
  fold (datasize n) in Hr. cbn [nsread ns_cb]. unfold blk_nsread. rewrite u64_id by lia. ztrue.
  f_equal. apply mread_shift.
Qed.
Next Obligation.
  intros n lane bs off H0 H2. pose proof (u64_range (p_size n - BLK_DATA_OFF)) as Hr.
  fold (datasize n) in Hr. cbn [nswrite ns_cb]. unfold blk_nswrite. rewrite u64_id by lia. ztrue.
  eexists. split_and!; [done..|]. intros z. unfold data_mem, mwrite. cbn [set_p_mem p_mem].
  repeat first [rewrite (proj2 (Z.leb_le _ _)) by lia];
  destruct (Z.leb_spec off z), (Z.ltb_spec z (off + Z.of_nat (length bs)));
  destruct (Z.leb_spec (BLK_DATA_OFF + off) (BLK_DATA_OFF + z)),
    (Z.ltb_spec (BLK_DATA_OFF + z) (BLK_DATA_OFF + off + Z.of_nat (length bs))); try lia; cbn [andb]; try done.
  f_equal. lia.
Qed.
Next Obligation.
  intros n lane count off H0 H1 H2. pose proof (u64_range (p_size n - BLK_DATA_OFF)) as Hr.
  fold (datasize n) in Hr. cbn [nszero ns_cb]. unfold blk_nszero. rewrite u64_id by lia. ztrue.
  eexists. split_and!; [done..|]. intros z. unfold data_mem, mzero. cbn [set_p_mem p_mem].
  destruct (Z.leb_spec off z), (Z.ltb_spec z (off + count));
  destruct (Z.leb_spec (BLK_DATA_OFF + off) (BLK_DATA_OFF + z)),
    (Z.ltb_spec (BLK_DATA_OFF + z) (BLK_DATA_OFF + off + count)); try lia; done.
Qed.
Next Obligation.
  intros n lane len off H0 H1 H2. pose proof (u64_range (p_size n - BLK_DATA_OFF)) as Hr.
  fold (datasize n) in Hr. cbn [nsmap ns_cb]. unfold blk_nsmap. rewrite u64_id by lia. ztrue.
  f_equal. apply mread_shift.
Qed.

(** ** The pool *)

Record pmemblk := {
  p_ns : ns;
  p_btt : btt;
  p_rdonly : bool;
  p_nlane : Z;
  p_next_lane : Z;
  p_locks : list bool;
}.

(** The file behind an open pool. *)
Definition p_file (p : pmemblk) : mem := p_mem (p_ns p).

Definition set_next_lane (p : pmemblk) (v : Z) : pmemblk :=
  {| p_ns := p_ns p; p_btt := p_btt p; p_rdonly := p_rdonly p; p_nlane := p_nlane p;
     p_next_lane := v; p_locks := p_locks p |}.
Definition set_locks (p : pmemblk) (v : list bool) : pmemblk :=
  {| p_ns := p_ns p; p_btt := p_btt p; p_rdonly := p_rdonly p; p_nlane := p_nlane p;
     p_next_lane := p_next_lane p; p_locks := v |}.
Definition set_btt (p : pmemblk) (n : ns) (s : btt) : pmemblk :=
  {| p_ns := n; p_btt := s; p_rdonly := p_rdonly p; p_nlane := p_nlane p;
     p_next_lane := p_next_lane p; p_locks := p_locks p |}.

(** Rotate to the next lane and take its lock. *)
Definition lane_enter (p : pmemblk) : outcome Z * pmemblk :=
  if p_nlane p =? 0 then (Fault Undefined, p)
  else
    let mylane := p_next_lane p mod p_nlane p in
    let p := set_next_lane p (u32 (p_next_lane p + 1)) in
    match p_locks p !! Z.to_nat mylane with
    | None => (Fault Undefined, p)
    | Some true => (Fault Blocked, p)
    | Some false => (Done mylane, set_locks p (<[Z.to_nat mylane := true]> (p_locks p)))
    end.

Definition lane_exit (p : pmemblk) (mylane : Z) : pmemblk :=
  set_locks p (<[Z.to_nat mylane := false]> (p_locks p)).

Section Pool.
Context `{Allocator}.

(** Run a BTT routine on a lane of its own. *)
Definition on_lane {A} (op : Z -> Prog.prog btt A) (p : pmemblk) : outcome A * pmemblk :=
  match lane_enter p with
  | (Done lane, p) =>
      let '(r, w) := run (op lane) (Build_world (p_ns p) (p_btt p) []) in
      (r, lane_exit (set_btt p (w_ns w) (w_st w)) lane)
  | (Err e, p) => (Err e, p)
  | (Fault f, p) => (Fault f, p)
  end.

Definition pmemblk_read (fuel : nat) (p : pmemblk) (blockno : Z) : outcome (list byte) * pmemblk :=
  on_lane (fun lane => btt_read fuel lane (u64 blockno)) p.

Definition pmemblk_write (p : pmemblk) (buf : list byte) (blockno : Z) : outcome unit * pmemblk :=
  if p_rdonly p then (Err EROFS, p)
  else on_lane (fun lane => btt_write lane (u64 blockno) buf) p.

Definition pmemblk_set_zero (p : pmemblk) (blockno : Z) : outcome unit * pmemblk :=
  if p_rdonly p then (Err EROFS, p)
  else on_lane (fun lane => btt_set_zero lane (u64 blockno)) p.

Definition pmemblk_set_error (p : pmemblk) (blockno : Z) : outcome unit * pmemblk :=
  if p_rdonly p then (Err EROFS, p)
  else on_lane (fun lane => btt_set_error lane (u64 blockno)) p.

Definition pmemblk_nblock (p : pmemblk) : Z := btt_nlba (p_btt p).

(** ** Creating and opening *)

(** What the pool takes from its environment. *)
Record env := {
  e_mmap : option errno;      (* the error of mmap, if it fails *)
  e_uuid : list byte;         (* uuid_generate *)
  e_time : Z;                 (* time *)
  e_ncpus : Z;                (* sysconf(_SC_NPROCESSORS_ONLN) *)
}.

(** The header of a new pool, before its checksum. *)
Definition blk_new_hdr (e : env) : pool_hdr :=
  {| signature := BLK_HDR_SIG; major := BLK_FORMAT_MAJOR; compat_features := BLK_FORMAT_COMPAT;
     incompat_features := BLK_FORMAT_INCOMPAT; ro_compat_features := BLK_FORMAT_RO_COMPAT;
     uuid := e_uuid e; crtime := u64 (e_time e); unused := replicate 4040 x00; checksum := 0 |}.

(** The "initialize" branch: the file with the new metadata. *)
Definition blk_format (e : env) (m : mem) (bsize : Z) (zeroed : bool) : errno + mem :=
  if negb (util_is_zeroed (mread m 0 POOL_HDR_SIZE)) then inl EINVAL
  else if bsize =? 0 then inl EINVAL
  else
    let m := mwrite m BLK_BSIZE_OFF (le_enc 4 (u32 bsize)) in
    let m := mwrite m BLK_ZEROED_OFF [if zeroed then x01 else x00] in
    inr (mwrite m 0 (snd (util_checksum (pool_hdr_bytes (blk_new_hdr e)) 4088 true))).

(** The other branch: the block size of a valid pool and whether it is read-only. *)
Definition blk_validate (m : mem) (bsize : Z) (rdonly : bool) : errno + (Z * bool) :=
  match util_convert_hdr (mread m 0 POOL_HDR_SIZE) with
  | None => inl EINVAL
  | Some hdr =>
      if negb (bool_decide (signature hdr = BLK_HDR_SIG)) then inl EINVAL
      else if negb (major hdr =? BLK_FORMAT_MAJOR) then inl EINVAL
      else
        let hdr_bsize := get32 m BLK_BSIZE_OFF in
        if negb (bsize =? 0) && negb (bsize =? hdr_bsize) then inl EINVAL
        else match util_feature_check hdr BLK_FORMAT_INCOMPAT BLK_FORMAT_RO_COMPAT BLK_FORMAT_COMPAT with
             | inl err => inl err
             | inr ok => inr (hdr_bsize, if ok then rdonly else true)
             end
  end.

(** The file after the call is the second component: a copy-on-write mapping
    ([rdonly] as passed in) leaves it as it was. *)
Definition pmemblk_map_common (e : env) (file : mem) (poolsize bsize : Z)
    (rdonly initialize zeroed : bool) : outcome pmemblk * mem :=
  let keep (m : mem) := if rdonly then file else m in
  match e_mmap e with
  | Some err => (Err err, file)
  | None =>
      match (if initialize then
               match blk_format e file bsize zeroed with inl err => inl err | inr m => inr (m, bsize, rdonly) end
             else
               match blk_validate file bsize rdonly with inl err => inl err | inr (b, ro) => inr (file, b, ro) end)
      with
      | inl err => (Err err, file)
      | inr (m, bsize, ro) =>
          let n := {| p_mem := m; p_size := poolsize;
                      cb_is_zeroed := negb (b2z (m BLK_ZEROED_OFF) =? 0) |} in
          let ncpus := if e_ncpus e <? 1 then 1 else e_ncpus e in
          match run (btt_init (datasize n) (u32 bsize) (mread m 24 16) (s32 (ncpus * 2)))
                    (Build_world n zero_btt []) with
          | (Fault f, w) => (Fault f, keep (p_mem (w_ns w)))
          | (Err err, w) => (Err err, keep (p_mem (w_ns w)))
          | (Done _, w) =>
              let nlane := btt_nlane (w_st w) in
              if negb (malloc_ok (u64 (nlane * SIZEOF_MUTEX))) then
                (Err ENOMEM, keep (p_mem (w_ns w)))
              else
                (Done {| p_ns := w_ns w; p_btt := w_st w; p_rdonly := ro; p_nlane := nlane;
                         p_next_lane := 0; p_locks := replicate (Z.to_nat nlane) false |},
                 keep (p_mem (w_ns w)))
          end
      end
  end.

(** Map the file a descriptor refers to. *)
Definition map_file (e : env) (fs : fsys) (path : string) (poolsize bsize : Z)
    (rdonly initialize zeroed : bool) : outcome pmemblk * fsys :=
  match files fs !! path with
  | None => (Fault Undefined, fs)
  | Some f =>
      let '(r, m) := pmemblk_map_common e (f_bytes f) poolsize bsize rdonly initialize zeroed in
      (r, fs_store fs path m)
  end.

Definition pmemblk_create (e : env) (fs : fsys) (path : string) (bsize poolsize : Z)
  : outcome pmemblk * fsys :=
  if negb (poolsize =? 0) then
    match util_pool_create fs path poolsize PMEMBLK_MIN_POOL with
    | (inl err, fs) => (Err err, fs)
    | (inr _, fs) => map_file e fs path poolsize bsize false true true
    end
  else
    match util_pool_open fs path PMEMBLK_MIN_POOL with
    | inl err => (Err err, fs)
    | inr (_, size) => map_file e fs path size bsize false true false
    end.

Definition pmemblk_open (e : env) (fs : fsys) (path : string) (bsize : Z) : outcome pmemblk * fsys :=
  match util_pool_open fs path PMEMBLK_MIN_POOL with
  | inl err => (Err err, fs)
  | inr (_, size) => map_file e fs path size bsize false false false
  end.

(** Closing stores the mapped memory; the run-time state is gone. *)
Definition pmemblk_close (fs : fsys) (path : string) (p : pmemblk) : fsys := fs_store fs path (p_file p).

Definition pmemblk_check (e : env) (fs : fsys) (path : string) : outcome bool :=
  match util_pool_open fs path PMEMBLK_MIN_POOL with
  | inl err => Err err
  | inr (_, size) =>
      match map_file e fs path size 0 true false false with
      | (Err err, _) => Err err
      | (Fault f, _) => Fault f
      | (Done p, _) => fst (run btt_check (Build_world (p_ns p) (p_btt p) []))
      end
  end.
End Pool.
