(* ===== verification/BlkSpec.v ===== *)
(** BlkSpec: what the public block interface promises.

    A pool implements a block device, whether its BTT is laid out or was never
    written.  The operations pick a lane, run the BTT routine on it and give
    the lane back; the theorems here are proved against the interface of the
    BTT ([BttSpec], [BttFresh]) with the callbacks of [Blk] as the namespace. *)

From stdpp Require Import strings.
From S2P Require Import Prelude Mem Util BttLayout Prog Btt BttInv BttSpec BttOpen BttCrash BttFresh Blk.

Section PoolSpec.
Context `{Allocator} (Halloc : forall z, malloc_ok z = true).

(** A device of zeros, up to what is out of range. *)
Definition zero_like (s : btt) (d : device) : Prop :=
  d_nlba d = nlba s /\ forall lba, 0 <= lba < nlba s -> d_ro d lba = false /\ d_blocks d lba = BZero.

(** The BTT of a pool implements a device: laid out, or not yet. *)
Definition btt_device (n : ns) (s : btt) (d : device) : Prop :=
  implements (ns_size n) s (ns_mem n) d \/
  (unlaid (ns_size n) s /\ zeroed_ok n /\ zero_like s d).

Record pool_inv (p : pmemblk) (d : device) : Prop := {
  pi_dev : btt_device (p_ns p) (p_btt p) d;
  pi_nlane : p_nlane p = nlane (p_btt p);
  pi_lanes : 0 < p_nlane p <= nfree (p_btt p);
  pi_next : 0 <= p_next_lane p;
  pi_locks : p_locks p = replicate (Z.to_nat (p_nlane p)) false;
}.

(** ** Lanes *)

(** An operation on a lane of its own: the lane is in range, and free again
    afterwards. *)
Lemma on_lane_run {A} (op : Z -> Prog.prog btt A) p d :
  pool_inv p d ->
  exists lane, 0 <= lane < p_nlane p /\
  let '(r, w) := run (op lane) (Build_world (p_ns p) (p_btt p) []) in
  on_lane op p = (r, {| p_ns := w_ns w; p_btt := w_st w; p_rdonly := p_rdonly p; p_nlane := p_nlane p;
                        p_next_lane := u32 (p_next_lane p + 1); p_locks := p_locks p |}).
Proof.
  intros []. pose proof (Z.mod_pos_bound (p_next_lane p) (p_nlane p) ltac:(lia)) as Hl.
  exists (p_next_lane p mod p_nlane p). split; [done|].
  unfold on_lane, lane_enter. replace (p_nlane p =? 0) with false by (symmetry; apply Z.eqb_neq; lia).
  cbn [p_locks set_next_lane]. set (lane := p_next_lane p mod p_nlane p) in *.
  assert (p_locks p !! Z.to_nat lane = Some false) as E.
  { rewrite pi_locks0. apply lookup_replicate_2. lia. }
  rewrite E. cbn [set_locks p_ns p_btt]. destruct (run (op lane) _) as [r w]. f_equal.
  unfold lane_exit, set_btt, set_locks, set_next_lane. cbn. f_equal.
  rewrite list_insert_insert_eq. by apply list_insert_id.
Qed.

(** The new state of the BTT makes the invariant again. *)
Lemma pool_inv_step p d n' s' d' :
  pool_inv p d -> btt_device n' s' d' -> nlane s' = nlane (p_btt p) -> nfree s' = nfree (p_btt p) ->
  pool_inv {| p_ns := n'; p_btt := s'; p_rdonly := p_rdonly p; p_nlane := p_nlane p;
              p_next_lane := u32 (p_next_lane p + 1); p_locks := p_locks p |} d'.
Proof.
  intros [Hdev Hpn Hpl Hnx Hlk] Hd Hn Hf.
  split; cbn [p_ns p_btt p_nlane p_next_lane p_locks]; [done|congruence|lia|apply u32_range|done].
Qed.

(** ** The operations on the BTT of a pool *)

Abbreviation W := (Build_world (N := ns) (S := btt)).

Lemma run_read_unlaid k (n : ns) s lg lane lba :
  unlaid (ns_size n) s ->
  run (btt_read k lane lba) (W n s lg) =
  (if nlba s <=? lba then Err EINVAL else Done (zero_block s), W n s lg).
Proof.
  intros []. unfold btt_read. rewrite run_bind, run_check_lba.
  destruct (Z.leb_spec (nlba s) lba); [done|].
  rewrite run_bind, run_get. cbn [w_st]. by rewrite u_laidout.
Qed.

Lemma read_device k (n : ns) s d lane lba :
  btt_device n s d -> lane_ok s lane -> 0 <= lba ->
  run (btt_read (S k) lane lba) (W n s []) = (outcome_of (spec_read d (lbasize s) lba), W n s []).
Proof.
  intros [Himp|(Hu & _ & Hn & Hz)] Hl Hlba; [by apply read_refines|].
  rewrite run_read_unlaid by done. unfold spec_read. rewrite Hn.
  destruct (Z.leb_spec (nlba s) lba); [done|]. destruct (Hz lba ltac:(lia)) as [_ ->]. done.
Qed.

(** Writing to a device of zeros, once laid out. *)
Lemma zero_like_put n s s' d lba b :
  zero_like s d -> 0 <= lba < nlba s -> nlba s' = nlba s ->
  implements (ns_size n) s' (ns_mem n) (snd (spec_put (zero_device (nlba s)) lba b)) ->
  implements (ns_size n) s' (ns_mem n) (snd (spec_put d lba b)) /\
  fst (spec_put d lba b) = fst (spec_put (zero_device (nlba s)) lba b).
Proof.
  intros [Hn Hz] Hl Hs. unfold spec_put. cbn [zero_device d_nlba d_ro]. rewrite Hn.
  destruct (Z.leb_spec (nlba s) lba); [lia|]. destruct (Hz lba Hl) as [-> _]. cbn [fst snd].
  intros Hi. split; [|done]. eapply implements_ext; [exact Hi|..]; cbn [d_set d_ro d_blocks d_nlba zero_device].
  - intros l Hl'. apply Hz. lia.
  - intros l Hl'. destruct (decide (l = lba)); [done|]. apply Hz. lia.
  - done.
Qed.

Lemma write_device (n : ns) s d lane lba buf :
  btt_device n s d -> lane_ok s lane -> 0 <= lba -> Z.of_nat (length buf) = lbasize s ->
  exists n' s' lg',
    run (btt_write lane lba buf) (W n s []) = (outcome_of (fst (spec_put d lba (BData buf))), W n' s' lg') /\
    same_btt s s' /\ btt_device n' s' (snd (spec_put d lba (BData buf))).
Proof.
  intros [Himp|(Hu & Hz & Hzl)] Hl Hlba Hb.
  - destruct (write_refines n s [] d lane lba buf Himp Hl Hlba Hb) as (n' & s' & lg' & E & Sz & Hs & Hi).
    exists n', s', lg'. split_and!; [done..|]. left. by rewrite Sz.
  - destruct (decide (lba < nlba s)) as [Hlt|Hge].
    + destruct (write_unlaid Halloc n s [] lane lba buf Hu Hz Hl ltac:(lia)) as (n1 & evs & -> & S1 & Himp).
      destruct (write_refines n1 (laid s) ([] ++ evs) _ lane lba buf Himp Hl Hlba Hb)
        as (n' & s' & lg' & E & Sz & Hs & Hi). rewrite <- Sz in Hi.
      assert (nlba s' = nlba s) as Hnl.
      { destruct Hs as (_ & _ & _ & ->). symmetry. apply Hu. }
      destruct (zero_like_put n' s s' d lba (BData buf) Hzl ltac:(lia) Hnl Hi) as [Hi' Hf].
      exists n', s', lg'. rewrite Hf. split; [done|]. split; [|by left].
      destruct Hs as (Ha & Hc & He & _). by split_and!.
    + exists n, s, []. unfold btt_write. rewrite run_bind, run_check_lba. unfold spec_put.
      rewrite (proj1 Hzl). replace (nlba s <=? lba) with true by (symmetry; apply Z.leb_le; lia).
      split_and!; [done..|]. by right.
Qed.

Lemma setf_device (n : ns) s d lane lba (zero : bool) :
  btt_device n s d -> lane_ok s lane -> 0 <= lba ->
  let b := if zero then BZero else BError in
  exists n' s' lg',
    run (if zero then btt_set_zero lane lba else btt_set_error lane lba) (W n s []) =
      (outcome_of (fst (spec_put d lba b)), W n' s' lg') /\
    same_btt s s' /\ btt_device n' s' (snd (spec_put d lba b)).
Proof.
  intros [Himp|(Hu & Hz & Hzl)] Hl Hlba b.
  - destruct (setf_refines n s [] d lane lba Himp Hlba zero) as (n' & lg' & E & Sz & Hi).
    exists n', s, lg'. split_and!; [done..|]. left. by rewrite Sz.
  - destruct (decide (lba < nlba s)) as [Hlt|Hge]; [destruct zero|].
    + exists n, s, []. rewrite set_zero_unlaid by done. unfold spec_put. destruct Hzl as [Hn Hd]. rewrite Hn.
      destruct (Z.leb_spec (nlba s) lba); [lia|]. destruct (Hd lba ltac:(lia)) as [-> _].
      split_and!; [done..|]. right. split; [done|]. split; [done|]. split; [done|]. intros l Hl'.
      cbn [snd d_set d_ro d_blocks]. destruct (Hd l Hl'). by destruct (decide (l = lba)).
    + destruct (set_error_unlaid Halloc n s [] lane lba Hu Hz Hl ltac:(lia)) as (n1 & evs & -> & S1 & Himp).
      destruct (setf_refines n1 (laid s) ([] ++ evs) _ lane lba Himp Hlba false)
        as (n' & lg' & E & Sz & Hi). rewrite <- Sz in Hi.
      assert (nlba (laid s) = nlba s) as Hnl by (symmetry; apply Hu).
      destruct (zero_like_put n' s (laid s) d lba BError Hzl ltac:(lia) Hnl Hi) as [Hi' Hf].
      exists n', (laid s), lg'. unfold b. rewrite Hf. split; [done|]. split; [|by left].
      split_and!; [done..|apply Hnl].
    + exists n, s, [].
      assert (run (if zero then btt_set_zero lane lba else btt_set_error lane lba) (W n s []) = (Err EINVAL, W n s [])) as ->.
      { destruct zero; unfold btt_set_zero, btt_set_error, map_entry_setf; rewrite run_bind, run_check_lba;
          by replace (nlba s <=? lba) with true by (symmetry; apply Z.leb_le; lia). }
      unfold spec_put. rewrite (proj1 Hzl). replace (nlba s <=? lba) with true by (symmetry; apply Z.leb_le; lia).
      split_and!; [done..|]. by right.
Qed.

(** ** The public interface *)

(** [pmemblk_read] reads the device the pool implements, whichever lane it
    is given, for a pool that is laid out or was never written; the file is
    unchanged and the lane is free again. *)
Theorem pmemblk_read_refines (k : nat) (p : pmemblk) (d : device) (blockno : Z)
  (Hinv : pool_inv p d) :
  let '(r, p') := pmemblk_read (S k) p blockno in
  r = outcome_of (spec_read d (lbasize (p_btt p)) (u64 blockno)) /\
  pool_inv p' d /\ p_file p' = p_file p.
Proof.
  unfold pmemblk_read.
  destruct (on_lane_run (fun lane => btt_read (S k) lane (u64 blockno)) p d Hinv) as (lane & Hl & E).
  pose proof (u64_range blockno) as Hb. pose proof (pi_lanes _ _ Hinv).
  rewrite (read_device k (p_ns p) (p_btt p) d) in E by (done || apply Hinv || (unfold lane_ok; lia) || lia).
  rewrite E. cbn [w_ns w_st p_file p_ns]. split_and!; [done| |done].
  by apply (pool_inv_step p d); try apply Hinv.
Qed.

(** C14. [pmemblk_write] refuses a read-only pool with EROFS and otherwise writes
    the block of the device the pool implements: EINVAL out of range, EIO when
    the arena is in error, and on success that block and no other has changed. *)
Theorem pmemblk_write_refines (p : pmemblk) (d : device) (buf : list byte) (blockno : Z)
  (Hinv : pool_inv p d) (Hbuf : Z.of_nat (length buf) = lbasize (p_btt p)) :
  let '(r, p') := pmemblk_write p buf blockno in
  if p_rdonly p then r = Err EROFS /\ p' = p
  else r = outcome_of (fst (spec_put d (u64 blockno) (BData buf))) /\
       pool_inv p' (snd (spec_put d (u64 blockno) (BData buf))).
Proof.
  unfold pmemblk_write. destruct (p_rdonly p) eqn:Ero; [done|].
  destruct (on_lane_run (fun lane => btt_write lane (u64 blockno) buf) p d Hinv) as (lane & Hl & E).
  pose proof (u64_range blockno) as Hb. pose proof (pi_lanes _ _ Hinv).
  destruct (write_device (p_ns p) (p_btt p) d lane (u64 blockno) buf) as (n' & s' & lg' & E' & Hs & Hd);
    try done; [apply Hinv|unfold lane_ok; lia|lia|].
  rewrite E' in E. rewrite E. cbn [w_ns w_st]. split; [done|].
  apply (pool_inv_step p d); [done|done|apply Hs..].
Qed.

(** [pmemblk_set_zero] and [pmemblk_set_error] refuse a read-only pool with
    EROFS and otherwise set the state of that block of the device alone. *)
Theorem pmemblk_setf_refines (p : pmemblk) (d : device) (blockno : Z) (zero : bool)
  (Hinv : pool_inv p d) :
  let '(r, p') := if zero then pmemblk_set_zero p blockno else pmemblk_set_error p blockno in
  let b := if zero then BZero else BError in
  if p_rdonly p then r = Err EROFS /\ p' = p
  else r = outcome_of (fst (spec_put d (u64 blockno) b)) /\
       pool_inv p' (snd (spec_put d (u64 blockno) b)) /\ p_rdonly p' = false.
Proof.
  destruct (on_lane_run (fun lane => if zero then btt_set_zero lane (u64 blockno)
    else btt_set_error lane (u64 blockno)) p d Hinv) as (lane & Hl & E).
  pose proof (u64_range blockno) as Hb. pose proof (pi_lanes _ _ Hinv).
  destruct (setf_device (p_ns p) (p_btt p) d lane (u64 blockno) zero) as (n' & s' & lg' & E' & Hs & Hd);
    [apply Hinv|unfold lane_ok; lia|lia|].
  rewrite E' in E. unfold pmemblk_set_zero, pmemblk_set_error.
  destruct (p_rdonly p) eqn:Ero; [by destruct zero|].
  destruct zero; rewrite E; cbn [w_ns w_st]; (split; [done|]); (split; [|reflexivity]); rewrite <- Ero;
    (apply (pool_inv_step p d); [done|done|apply Hs..]).
Qed.

(** ** Creating and opening *)

Lemma feature_check_none h :
  0 <= incompat_features h < 2 ^ 32 -> incompat_features h = 0 -> ro_compat_features h = 0 ->
  util_feature_check h BLK_FORMAT_INCOMPAT BLK_FORMAT_RO_COMPAT BLK_FORMAT_COMPAT = inr true.
Proof. intros _ Hi Hr. unfold util_feature_check. by rewrite Hi, Hr. Qed.

Lemma blk_new_hdr_wf e : length (e_uuid e) = 16%nat -> pool_hdr_wf (blk_new_hdr e).
Proof.
  intros Hu. pose proof (u64_range (e_time e)).
  split; cbn [blk_new_hdr signature major compat_features incompat_features ro_compat_features uuid crtime
    unused checksum]; try done; len.
Qed.

(** The bytes of the new header. *)
Definition new_hdr_bytes (e : env) : list byte := snd (util_checksum (pool_hdr_bytes (blk_new_hdr e)) 4088 true).

Lemma new_hdr_ok e : length (e_uuid e) = 16%nat ->
  length (new_hdr_bytes e) = 4096%nat /\
  exists v, util_convert_hdr (new_hdr_bytes e) = Some (set_checksum (blk_new_hdr e) v).
Proof.
  intros Hu. pose proof (blk_new_hdr_wf e Hu) as Hwf. split.
  - unfold new_hdr_bytes. cbn [util_checksum snd]. rewrite length_splice;
      rewrite (length_pool_hdr_bytes _ Hwf); rewrite ?length_le_enc; done.
  - by apply convert_hdr_roundtrip.
Qed.

(** The file of a pool after formatting. *)
Lemma format_ok e m bsize zeroed :
  length (e_uuid e) = 16%nat -> (forall z, 0 <= z < 4096 -> m z = x00) -> 0 < bsize < 2 ^ 32 ->
  exists m', blk_format e m bsize zeroed = inr m' /\
    mread m' 0 POOL_HDR_SIZE = new_hdr_bytes e /\ get32 m' BLK_BSIZE_OFF = bsize /\
    m' BLK_ZEROED_OFF = (if zeroed then x01 else x00) /\
    mread m' 24 16 = e_uuid e /\ forall z, BLK_DATA_OFF <= z -> m' z = m z.
Proof.
  intros Hu Hz Hb. destruct (new_hdr_ok e Hu) as (Hl & _). unfold blk_format, POOL_HDR_SIZE.
  assert (util_is_zeroed (mread m 0 4096) = true) as ->.
  { apply util_is_zeroed_spec. apply list_eq. intros j. rewrite length_mread.
    destruct (decide (j < 4096)%nat).
    - rewrite lookup_mread by lia. rewrite Hz by lia. symmetry. by apply lookup_replicate_2.
    - rewrite !lookup_ge_None_2; [done| |]; len. }
  cbn [negb]. replace (bsize =? 0) with false by (symmetry; apply Z.eqb_neq; lia).
  eexists. split; [done|]. fold (new_hdr_bytes e). unfold BLK_BSIZE_OFF, BLK_ZEROED_OFF, BLK_DATA_OFF.
  split_and!.
  - apply mread_mwrite_eq. by rewrite Hl.
  - rewrite get_le_mwrite_out by (rewrite Hl; lia). rewrite get_le_mwrite_out by (cbn; lia).
    rewrite get_le_mwrite_eq. rewrite Z.mod_small by (rewrite u32_id by lia; change (256 ^ Z.of_nat 4) with (2 ^ 32); lia).
    apply u32_id. lia.
  - rewrite mwrite_out by (rewrite Hl; lia). rewrite mwrite_in by (cbn; lia). done.
  - rewrite mread_mwrite_in by (rewrite ?Hl; lia). unfold new_hdr_bytes. cbn [util_checksum snd].
    change (Z.to_nat 4088) with 4088%nat. rewrite (splice_hdr _ _ (blk_new_hdr_wf e Hu)).
    unfold pool_hdr_bytes, set_checksum, blk_new_hdr.
    cbn [signature major compat_features incompat_features ro_compat_features uuid crtime unused checksum].
    match goal with |- take _ (drop _ ?x) = _ => change (slice x 24 16 = e_uuid e) end.
    assert (length BLK_HDR_SIG = 8%nat) by done. field. done.
  - intros z Hz'. rewrite !mwrite_out by (rewrite ?Hl, ?length_le_enc; cbn; lia). done.
Qed.

(** The namespace of a mapped file. *)
Definition file_ns (m : mem) (poolsize : Z) : ns :=
  {| p_mem := m; p_size := poolsize; cb_is_zeroed := negb (b2z (m BLK_ZEROED_OFF) =? 0) |}.

(** The environment of a successful open. *)
Definition env_ok (e : env) : Prop := e_mmap e = None /\ e_ncpus e <= 2 ^ 20.

Definition maxlane_of (e : env) : Z := s32 ((if e_ncpus e <? 1 then 1 else e_ncpus e) * 2).

Lemma lanes_pos e nf : env_ok e -> 0 < nf <= 256 -> 0 < lanes nf (maxlane_of e).
Proof.
  intros [_ Hc] Hn. unfold lanes, maxlane_of.
  set (c := if e_ncpus e <? 1 then 1 else e_ncpus e).
  assert (1 <= c <= 2 ^ 20) as Hb by (unfold c; zcase; lia).
  rewrite !s32_id by lia. destruct (negb _ && _) eqn:E; lia.
Qed.

(** The rest of [pmemblk_map_common] once the BTT is initialised. *)
Lemma map_common_init e file m poolsize bsize b (rdonly ro initialize zeroed : bool) n' s' lg' d :
  env_ok e ->
  (if initialize then
     match blk_format e file bsize zeroed with inl err => inl err | inr m => inr (m, bsize, rdonly) end
   else
     match blk_validate file bsize rdonly with inl err => inl err | inr (b, ro) => inr (file, b, ro) end
   : errno + (mem * Z * bool))
  = inr (m, b, ro) ->
  let n := file_ns m poolsize in
  run (btt_init (datasize n) (u32 b) (mread m 24 16) (maxlane_of e)) (W n zero_btt []) =
  (Done tt, W n' s' lg') ->
  btt_device n' s' d -> nlane s' = lanes (nfree s') (maxlane_of e) -> 0 < nfree s' <= 256 ->
  pmemblk_map_common e file poolsize bsize rdonly initialize zeroed =
  (Done {| p_ns := n'; p_btt := s'; p_rdonly := ro; p_nlane := nlane s'; p_next_lane := 0;
           p_locks := replicate (Z.to_nat (nlane s')) false |}, if rdonly then file else p_mem n') /\
  pool_inv {| p_ns := n'; p_btt := s'; p_rdonly := ro; p_nlane := nlane s'; p_next_lane := 0;
              p_locks := replicate (Z.to_nat (nlane s')) false |} d.
Proof.
  intros He Hm n Hrun Hd Hnl Hnf. split.
  - unfold pmemblk_map_common. rewrite (proj1 He), Hm.
    fold (file_ns m poolsize). fold n. fold (maxlane_of e). rewrite Hrun. cbn [w_st w_ns].
    unfold btt_nlane. by rewrite Halloc.
  - pose proof (lanes_pos e (nfree s') He Hnf). pose proof (lanes_le (nfree s') (maxlane_of e) Hnf).
    split; cbn [p_ns p_btt p_nlane p_next_lane p_locks]; try done. lia.
Qed.

(** C20. Opening a pool recovers its blocks: when the header is valid and the data
    area is one a power failure may leave (the layout readable, at most one
    block write committed and incomplete), [pmemblk_map_common] succeeds and
    the pool implements the recovered device. *)
Theorem pmemblk_map_recovers (e : env) (file : mem) (poolsize bsize b : Z) (ro : bool) (s : btt) (d : device)
  (Henv : env_ok e) (Hval : blk_validate file bsize false = inr (b, ro))
  (Hrec : recoverable (datasize (file_ns file poolsize)) s (data_mem (file_ns file poolsize)) d)
  (Hraw : rawsize s = datasize (file_ns file poolsize)) (Hlbs : lbasize s = u32 b)
  (Huuid : parent_uuid s = mread file 24 16) :
  exists p, fst (pmemblk_map_common e file poolsize bsize false false false) = Done p /\
    p_rdonly p = ro /\ pool_inv p d.
Proof.
  set (n := file_ns file poolsize) in *.
  destruct (init_recovers Halloc n s zero_btt [] d (mread file 24 16) (maxlane_of e))
    as (n' & s' & evs & E & Hsz & _ & Hnf & Hnl & Himp & Hom & _); [done| |].
  { rewrite firstn_all2; [done|]. by rewrite length_mread. }
  rewrite Hraw, Hlbs in E.
  destruct (map_common_init e file file poolsize bsize b false ro false false n' s' evs d) as [Hmc Hinv]; try done.
  - by rewrite Hval.
  - left. by rewrite Hsz.
  - by rewrite Hnf.
  - apply Hom.
  - rewrite Hmc. eexists. by split_and!.
Qed.

(** Zeros are no info block. *)
Lemma read_info_zeros s m :
  (forall z, 0 <= z < 16 -> m z = x00) -> read_info s (mread m 0 BTT_INFO_SIZE) = None.
Proof.
  intros Hz. unfold read_info. rewrite bool_decide_false; [done|]. cbn [btt_info_of i_sig]. intros E.
  assert (slice (mread m 0 BTT_INFO_SIZE) 0 16 = mread m 0 16) as Hs.
  { exact (mread_sub m 0 BTT_INFO_SIZE 0 16 ltac:(lia) ltac:(done)). }
  rewrite Hs in E. apply (f_equal (fun l => l !! 0%nat)) in E. rewrite lookup_mread in E by lia.
  rewrite Hz in E by lia. done.
Qed.

(** A formatted file without layout opens as a device of zeros. *)
Lemma init_formatted e m poolsize bsize :
  env_ok e -> lay_ok (poolsize - BLK_DATA_OFF) bsize -> 512 <= lay_int (poolsize - BLK_DATA_OFF) bsize ->
  poolsize < 2 ^ 63 -> (forall z, BLK_DATA_OFF <= z -> m z = x00) ->
  let n := file_ns m poolsize in
  exists s, run (btt_init (datasize n) (u32 bsize) (mread m 24 16) (maxlane_of e)) (W n zero_btt []) =
      (Done tt, W n s []) /\
    btt_device n s (zero_device (lay_int (poolsize - BLK_DATA_OFF) bsize - 256)) /\
    nlane s = lanes (nfree s) (maxlane_of e) /\ nfree s = 256 /\ lbasize s = bsize /\
    nlba s = lay_int (poolsize - BLK_DATA_OFF) bsize - 256.
Proof.
  intros He Hl Hb Hp Hz n. pose proof Hl as [Hr _ Hlb]. unfold BTT_MIN_SIZE, BLK_DATA_OFF in *.
  assert (datasize n = poolsize - 8192) as Hd.
  { unfold datasize, n. cbn [file_ns p_size]. unfold BLK_DATA_OFF. apply u64_id. lia. }
  assert (forall z, 0 <= z -> data_mem n z = x00) as Hdz.
  { intros z Hz'. unfold data_mem, n, BLK_DATA_OFF. cbn [file_ns p_mem]. apply Hz. lia. }
  pose proof (lay_ext_val _ _ Hl Hb) as (X1 & X2 & X3).
  rewrite Hd, (u32_id bsize) by lia.
  rewrite (run_init_fresh Halloc n zero_btt [] (poolsize - 8192) bsize) by
    (done || (apply read_info_zeros; intros z Hz'; apply Hdz; lia)).
  destruct (Z.ltb_spec (lay_int (poolsize - 8192) bsize) 512); [lia|].
  eexists. split; [done|]. split; [|split_and!; done].
  right. split; [|split].
  - change (ns_size n) with (datasize n). rewrite Hd. apply init_unlaid_ok; [done|done|].
    by rewrite length_mread.
  - intros _ z Hz'. apply Hdz. lia.
  - split; [cbn; lia|]. by intros lba Hlba.
Qed.

(** Creating on a fresh path, and opening what was created. *)
Lemma create_open_pool (e e' : env) (fs : fsys) (path : string) (bsize poolsize b : Z)
  (Henv : env_ok e) (Henv' : env_ok e') (Huuid : length (e_uuid e) = 16%nat)
  (Hnew : files fs !! path = None) (Hspace : poolsize <= space fs) (Hp : poolsize < 2 ^ 63)
  (Hlay : lay_ok (poolsize - BLK_DATA_OFF) bsize) (Hbig : 512 <= lay_int (poolsize - BLK_DATA_OFF) bsize) :
  let nblk := lay_int (poolsize - BLK_DATA_OFF) bsize - 256 in
  exists p fs', pmemblk_create e fs path bsize poolsize = (Done p, fs') /\
    pmemblk_nblock p = nblk /\ pool_inv p (zero_device nblk) /\ p_rdonly p = false /\
    files fs' = <[path := {| f_size := poolsize; f_bytes := p_file p |}]> (files fs) /\
    if (b =? 0) || (b =? bsize) then
      exists p' fs'', pmemblk_open e' fs' path b = (Done p', fs'') /\ pool_inv p' (zero_device nblk)
    else fst (pmemblk_open e' fs' path b) = Err EINVAL.
Proof.
  intros nblk. pose proof Hlay as [Hr _ Hlb]. unfold BTT_MIN_SIZE in *.
  assert ((poolsize <? PMEMBLK_MIN_POOL) = false) as Hmin by (apply Z.ltb_ge; unfold PMEMBLK_MIN_POOL, BLK_DATA_OFF in *; lia).
  set (zf := fun _ : Z => x00).
  destruct (format_ok e zf bsize true Huuid) as (m' & Ef & Hh & Hbs & Hzf & Hu & Hout); [done|lia|].
  assert (forall z, BLK_DATA_OFF <= z -> m' z = x00) as Hdz by (intros z Hz; rewrite Hout by lia; done).
  destruct (init_formatted e m' poolsize bsize) as (s & E & Hdev & Hln & Hnf & Hlbs & Hnl); try done.
  destruct (map_common_init e zf m' poolsize bsize bsize false false true true (file_ns m' poolsize) s [] (zero_device nblk))
    as [Hmc Hinv]; try done; [by rewrite Ef|rewrite Hnf; done|].
  eexists _, _. split.
  { unfold pmemblk_create. replace (poolsize =? 0) with false
      by (symmetry; apply Z.eqb_neq; unfold BLK_DATA_OFF in *; lia).
    cbn [negb]. unfold util_pool_create. rewrite Hmin, Hnew.
    replace (space fs <? poolsize) with false by (symmetry; apply Z.ltb_ge; lia).
    unfold map_file. cbn [files]. rewrite lookup_insert_eq. cbn [f_bytes]. fold zf. rewrite Hmc.
    unfold fs_store. cbn [files]. rewrite lookup_insert_eq. cbn [f_size p_mem file_ns]. done. }
  split; [exact Hnl|]. split; [exact Hinv|]. split; [done|].
  split; [cbn [files]; by rewrite !insert_insert_eq|].
  unfold pmemblk_open, util_pool_open. cbn [files]. rewrite lookup_insert_eq. cbn [f_size]. rewrite Hmin.
  unfold map_file. cbn [files]. rewrite lookup_insert_eq. cbn [f_bytes].
  destruct (new_hdr_ok e Huuid) as (_ & v & Hv).
  assert (blk_validate m' b false = if (b =? 0) || (b =? bsize) then inr (bsize, false) else inl EINVAL) as Hval.
  { unfold blk_validate. rewrite Hh, Hv. cbn [set_checksum signature major blk_new_hdr].
    rewrite bool_decide_true by done. cbn [negb]. rewrite Hbs.
    change (negb (BLK_FORMAT_MAJOR =? BLK_FORMAT_MAJOR)) with false. cbv iota.
    destruct (b =? 0), (b =? bsize); done. }
  destruct ((b =? 0) || (b =? bsize)) eqn:Eb.
  - destruct (init_formatted e' m' poolsize bsize) as (s' & E' & Hdev' & Hln' & Hnf' & _ & _); try done.
    destruct (map_common_init e' m' m' poolsize b bsize false false false false (file_ns m' poolsize) s' [] (zero_device nblk))
      as [Hmc' Hinv']; try done; [by rewrite Hval|rewrite Hnf'; done|].
    rewrite Hmc'. eexists _, _. by split.
  - unfold pmemblk_map_common. rewrite (proj1 Henv'), Hval. done.
Qed.

(** C21. A pool created is a pool that opens: on a fresh path with enough space,
    [pmemblk_create] makes a pool of zeros with as many blocks as the layout
    fits; [pmemblk_open] accepts the file with the block size given at creation
    or with 0, again as a pool of zeros, and rejects any other block size with
    EINVAL. *)
Theorem pmemblk_create_open (e e' : env) (fs : fsys) (path : string) (bsize poolsize b : Z)
  (Henv : env_ok e) (Henv' : env_ok e') (Huuid : length (e_uuid e) = 16%nat)
  (Hnew : files fs !! path = None) (Hspace : poolsize <= space fs) (Hp : poolsize < 2 ^ 63)
  (Hlay : lay_ok (poolsize - BLK_DATA_OFF) bsize) (Hbig : 512 <= lay_int (poolsize - BLK_DATA_OFF) bsize) :
  let nblk := lay_int (poolsize - BLK_DATA_OFF) bsize - 256 in
  exists p fs', pmemblk_create e fs path bsize poolsize = (Done p, fs') /\
    pmemblk_nblock p = nblk /\ pool_inv p (zero_device nblk) /\
    if (b =? 0) || (b =? bsize) then
      exists p' fs'', pmemblk_open e' fs' path b = (Done p', fs'') /\ pool_inv p' (zero_device nblk)
    else fst (pmemblk_open e' fs' path b) = Err EINVAL.
Proof.
  intros nblk. destruct (create_open_pool e e' fs path bsize poolsize b) as (p & fs' & E & Hn & Hi & _ & _ & Ho); try done.
  by exists p, fs'.
Qed.
End PoolSpec.
