(* ===== verification/Persist.v ===== *)
(** Persist: the persistent-memory machine.

    Stores go to the CPU cache and reach the media later, in any order, in
    aligned 8-byte words; flush instructions push a cache line out, at once
    (CLFLUSH) or by the next SFENCE (CLWB, CLFLUSHOPT and non-temporal stores,
    which take the words they touch out of the cache); [msync] writes pages back.
    The state records, for every word, the memories since it was last known to
    be on the media: after a power failure the word has its contents in one of
    them. *)

From S2P Require Import Prelude Mem.

Record pm := {
  view : mem;                  (* what the program reads *)
  cand : Z -> list mem;        (* per word: the memories it may survive from, newest first *)
  mark : Z -> option nat;      (* per word: stores issued since it was flushed, not fenced *)
}.

(** A memory that is entirely on the media. *)
Definition pm_of (m : mem) : pm := {| view := m; cand := fun _ => [m]; mark := fun _ => None |}.

Definition word_of (z : Z) : Z := z / 8.
Definition line_of_word (w : Z) : Z := w / 8.

(** The words a byte range touches. *)
Definition in_range (off n w : Z) : bool := (8 * w <? off + n) && (off <? 8 * w + 8).

Inductive insn :=
| IStore (off : Z) (bs : list byte)     (* an ordinary store *)
| IStream (off : Z) (bs : list byte)    (* a non-temporal store *)
| IClflush (addr : Z)
| IClwb (addr : Z)
| IClflushopt (addr : Z)
| ISfence
| IPcommit
| IMsync (addr len : Z).               (* a successful msync of a page range *)

Definition do_store (p : pm) (off : Z) (bs : list byte) : pm :=
  let m := mwrite (view p) off bs in
  {| view := m; cand := fun w => m :: cand p w; mark := fun w => S <$> mark p w |}.

Definition do_mark (p : pm) (sel : Z -> bool) : pm :=
  {| view := view p; cand := cand p; mark := fun w => if sel w then Some 0%nat else mark p w |}.

Definition same_line (addr w : Z) : bool := line_of_word w =? addr / 64.

Definition exec (p : pm) (i : insn) : pm :=
  match i with
  | IStore off bs => do_store p off bs
  | IStream off bs => do_mark (do_store p off bs) (in_range off (Z.of_nat (length bs)))
  | IClflush addr =>
      {| view := view p;
         cand := fun w => if same_line addr w then [view p] else cand p w;
         mark := fun w => if same_line addr w then None else mark p w |}
  | IClwb addr => do_mark p (same_line addr)
  | IClflushopt addr => do_mark p (same_line addr)
  | ISfence =>
      {| view := view p;
         cand := fun w => match mark p w with Some k => take (S k) (cand p w) | None => cand p w end;
         mark := fun _ => None |}
  | IPcommit => p
  | IMsync addr len =>
      {| view := view p;
         cand := fun w => if in_range addr len w then [view p] else cand p w;
         mark := fun w => if in_range addr len w then None else mark p w |}
  end.

Definition execs (p : pm) (l : list insn) : pm := fold_left exec l p.

(** The media after a power failure. *)
Definition crash_image (p : pm) (m' : mem) : Prop :=
  forall w, exists v, v ∈ cand p w /\ agree m' v (8 * w) 8.

(** The word is on the media as the program sees it. *)
Definition settled (p : pm) (w : Z) : Prop :=
  forall v, v ∈ cand p w -> agree v (view p) (8 * w) 8.

(** The current memory is always among the candidates, and marks are in range. *)
Definition pm_wf (p : pm) : Prop :=
  forall w, (exists l, cand p w = view p :: l) /\
            (forall k, mark p w = Some k -> (k < length (cand p w))%nat).

Lemma pm_of_wf m : pm_wf (pm_of m).
Proof. intros w. split; [by exists []|done]. Qed.

Lemma exec_wf p i : pm_wf p -> pm_wf (exec p i).
Proof.
  intros Hwf w. destruct (Hwf w) as [[l Hl] Hm].
  destruct i; cbn [exec do_store do_mark view cand mark].
  - split; [by eexists|]. intros k. destruct (mark p w) as [j|]; [|done]. cbn. intros [= <-].
    specialize (Hm j eq_refl). lia.
  - split; [by eexists|]. intros k. case_match; [intros [= <-]; cbn; lia|].
    destruct (mark p w) as [j|]; [|done]. cbn. intros [= <-]. specialize (Hm j eq_refl). lia.
  - case_match; [split; [by exists []|done]|]. split; [by eexists|done].
  - split; [by eexists|]. intros k. case_match; [|by apply Hm]. intros [= <-]. rewrite Hl. cbn. lia.
  - split; [by eexists|]. intros k. case_match; [|by apply Hm]. intros [= <-]. rewrite Hl. cbn. lia.
  - split; [|done]. rewrite Hl. destruct (mark p w); [|by eexists]. cbn. by eexists.
  - by split; [eexists|].
  - case_match; [split; [by exists []|done]|]. split; [by eexists|done].
Qed.

Lemma execs_wf p l : pm_wf p -> pm_wf (execs p l).
Proof. revert p. induction l as [|i l IH]; intros p Hwf; [done|]. cbn. apply IH. by apply exec_wf. Qed.

Lemma execs_app p a b : execs p (a ++ b) = execs (execs p a) b.
Proof. apply fold_left_app. Qed.

(** A fence settles the words flushed after the last store. *)
Lemma fence_settles p w : pm_wf p -> mark p w = Some 0%nat -> settled (exec p ISfence) w.
Proof.
  intros Hwf Hm v Hv. cbn [exec cand view] in *. rewrite Hm in Hv.
  destruct (Hwf w) as [[l Hl] _]. rewrite Hl in Hv. cbn [take] in Hv.
  apply list_elem_of_singleton in Hv as ->. apply agree_refl.
Qed.

Lemma fence_keeps p w : settled p w -> settled (exec p ISfence) w.
Proof.
  intros Hs v Hv. cbn [exec cand view] in *. apply Hs.
  destruct (mark p w); [|done]. by eapply elem_of_take in Hv as (i & Hi & _); apply list_elem_of_lookup_2 in Hi.
Qed.

Lemma clflush_settles p addr w : same_line addr w = true -> settled (exec p (IClflush addr)) w.
Proof.
  intros E v Hv. cbn [exec cand view] in *. rewrite E in Hv.
  apply list_elem_of_singleton in Hv as ->. apply agree_refl.
Qed.

(** Flushing never unsettles a word. *)
Lemma flush_keeps p i w :
  match i with IStore _ _ | IStream _ _ => False | _ => True end ->
  settled p w -> settled (exec p i) w.
Proof.
  intros Hi Hs. destruct i; try done.
  - intros v Hv. cbn [exec cand view] in *. destruct (same_line _ _); [|by apply Hs].
    apply list_elem_of_singleton in Hv as ->. apply agree_refl.
  - by apply fence_keeps.
  - intros v Hv. cbn [exec cand view] in *. destruct (in_range _ _ _); [|by apply Hs].
    apply list_elem_of_singleton in Hv as ->. apply agree_refl.
Qed.

(** A store elsewhere leaves a settled word settled. *)
Lemma store_keeps p off bs w :
  settled p w -> pm_wf p -> in_range off (Z.of_nat (length bs)) w = false -> settled (do_store p off bs) w.
Proof.
  intros Hs Hwf Hr v Hv. cbn [do_store cand view] in *.
  assert (agree (view p) (mwrite (view p) off bs) (8 * w) 8) as Ha.
  { apply agree_sym. unfold in_range in Hr.
    intros z Hz. apply mwrite_out. bools. destruct Hr as [Hr|Hr]; bools; lia. }
  apply elem_of_cons in Hv as [->|Hv]; [apply agree_refl|].
  eapply agree_trans; [by apply Hs|done].
Qed.

(** When every word is settled, a power failure loses nothing. *)
Lemma settled_image p m' : (forall w, settled p w) -> crash_image p m' -> m' ≡ view p.
Proof.
  intros Hs Hc z. destruct (Hc (z / 8)) as (v & Hv & Ha).
  pose proof (Z.div_mod z 8 ltac:(lia)). pose proof (Z.mod_pos_bound z 8 ltac:(lia)).
  rewrite (Ha z) by lia. apply (Hs _ _ Hv). lia.
Qed.

(** The image on a range whose words are settled. *)
Lemma settled_agree p m' off n :
  (forall w, in_range off n w = true -> settled p w) -> crash_image p m' -> agree m' (view p) off n.
Proof.
  intros Hs Hc z Hz. destruct (Hc (z / 8)) as (v & Hv & Ha).
  pose proof (Z.div_mod z 8 ltac:(lia)). pose proof (Z.mod_pos_bound z 8 ltac:(lia)).
  rewrite (Ha z) by lia. eapply Hs; [|exact Hv|lia]. unfold in_range.
  apply andb_true_iff. split; apply Z.ltb_lt; lia.
Qed.

(** ** Bytes that survive *)

(** No candidate differs from what the program sees on the bytes of the range:
    they survive a power failure, even in a word that has others in flight. *)
Definition held (p : pm) (off n : Z) : Prop :=
  forall w v z, v ∈ cand p w -> 8 * w <= z < 8 * w + 8 -> off <= z < off + n -> v z = view p z.

Lemma held_crash p off n m' : held p off n -> crash_image p m' -> agree m' (view p) off n.
Proof.
  intros Hh Hc z Hz. destruct (Hc (z / 8)) as (v & Hv & Ha).
  pose proof (Z.div_mod z 8 ltac:(lia)). pose proof (Z.mod_pos_bound z 8 ltac:(lia)).
  rewrite (Ha z) by lia. eapply Hh; [exact Hv|lia..].
Qed.

Lemma held_sub p off n off' n' : held p off n -> off <= off' -> off' + n' <= off + n -> held p off' n'.
Proof. intros H ? ? w v z Hv Hz Hr. eapply H; [done..|lia]. Qed.

Lemma held_app p off a b : held p off a -> held p (off + a) b -> held p off (a + b).
Proof.
  intros Ha Hb w v z Hv Hz Hr. destruct (Z.lt_ge_cases z (off + a)); [eapply Ha|eapply Hb]; try done; lia.
Qed.

Lemma settled_held p off n : (forall w, in_range off n w = true -> settled p w) -> held p off n.
Proof.
  intros Hs w v z Hv Hz Hr. apply (Hs w); [|done|lia]. unfold in_range. apply andb_true_iff.
  rewrite !Z.ltb_lt. lia.
Qed.

Lemma held_pm_of m off n : held (pm_of m) off n.
Proof. intros w v z Hv _ _. apply list_elem_of_singleton in Hv as ->. done. Qed.

(** Flushes and fences only remove candidates. *)
Definition is_store (i : insn) : bool := match i with IStore _ _ | IStream _ _ => true | _ => false end.

Lemma exec_view p i : is_store i = false -> view (exec p i) = view p.
Proof. by destruct i. Qed.

Lemma exec_shrinks p i w v : is_store i = false -> v ∈ cand (exec p i) w -> v ∈ cand p w \/ v = view p.
Proof.
  destruct i; try done; cbn [exec cand do_mark]; intros _ Hv; auto.
  - case_match; [right; by apply list_elem_of_singleton in Hv|by left].
  - destruct (mark p w); [|by left]. left.
    by eapply elem_of_take in Hv as (i & Hi & _); apply list_elem_of_lookup_2 in Hi.
  - case_match; [right; by apply list_elem_of_singleton in Hv|by left].
Qed.

Lemma held_exec p i off n : is_store i = false -> held p off n -> held (exec p i) off n.
Proof.
  intros Hi Hh w v z Hv Hz Hr. rewrite exec_view by done.
  apply exec_shrinks in Hv as [Hv| ->]; [eapply Hh; eauto|done|done].
Qed.

Lemma held_execs l : forall p off n, Forall (fun i => is_store i = false) l -> held p off n -> held (execs p l) off n.
Proof.
  induction l as [|i l IH]; intros p off n Hl Hh; [done|]. apply Forall_cons in Hl as [Hi Hl].
  apply (IH (exec p i)); [done|by apply held_exec].
Qed.

Lemma execs_view l : forall p, Forall (fun i => is_store i = false) l -> view (execs p l) = view p.
Proof.
  induction l as [|i l IH]; intros p Hl; [done|]. apply Forall_cons in Hl as [Hi Hl].
  cbn [execs fold_left]. rewrite <- (exec_view p i Hi). by apply IH.
Qed.

Lemma held_store p a bs off n :
  off + n <= a \/ a + Z.of_nat (length bs) <= off -> held p off n -> held (exec p (IStore a bs)) off n.
Proof.
  intros Hd Hh w v z Hv Hz Hr. cbn [exec do_store cand view] in *.
  rewrite mwrite_out by lia. apply elem_of_cons in Hv as [->|Hv]; [by rewrite mwrite_out by lia|eapply Hh; eauto].
Qed.

(** Flushing and fencing leave fewer media contents possible after a failure. *)
Lemma crash_exec p i m' : pm_wf p -> is_store i = false -> crash_image (exec p i) m' -> crash_image p m'.
Proof.
  intros Hwf Hi Hc w. destruct (Hc w) as (v & Hv & Ha). exists v. split; [|done].
  apply exec_shrinks in Hv as [Hv| ->]; [done| |done]. destruct (Hwf w) as [[l ->] _]. by left.
Qed.

Lemma crash_execs l : forall p m', pm_wf p -> Forall (fun i => is_store i = false) l ->
  crash_image (execs p l) m' -> crash_image p m'.
Proof.
  induction l as [|i l IH]; intros p m' Hwf Hl Hc; [done|]. apply Forall_cons in Hl as [Hi Hl].
  apply (crash_exec p i); [done..|]. apply IH; [by apply exec_wf|done|done].
Qed.

(** A store inside one aligned word whose old content was on the media: after a
    failure the word has the old content or the new one. *)
Lemma crash_word p off bs m' :
  held p off 8 -> off mod 8 = 0 -> length bs = 8%nat -> crash_image (exec p (IStore off bs)) m' ->
  agree m' (view p) off 8 \/ agree m' (mwrite (view p) off bs) off 8.
Proof.
  intros Hh Hm Hl Hc. destruct (Hc (off / 8)) as (v & Hv & Ha).
  pose proof (Z.div_mod off 8 ltac:(lia)). replace (8 * (off / 8)) with off in Ha by lia.
  cbn [exec do_store cand] in Hv. apply elem_of_cons in Hv as [->|Hv]; [by right|left].
  intros z Hz. rewrite (Ha z) by done. eapply Hh; [exact Hv|lia|lia].
Qed.

(** Some contents always survive: those the program sees. *)
Lemma crash_view p : pm_wf p -> crash_image p (view p).
Proof. intros Hwf w. destruct (Hwf w) as [[l ->] _]. exists (view p). split; [left|apply agree_refl]. Qed.
