(* ===== verification/Pmem.v ===== *)
(** Pmem: src/src/libpmem/pmem.c.

    Flushing and draining, the choice of instructions made at load time, the
    copy and fill routines that use non-temporal stores, and the test whether
    a range is persistent memory.  The routines run on the machine of
    [Persist]; addresses are 64-bit. *)

From S2P Require Import Prelude Mem Util Persist.

Definition FLUSH_ALIGN : Z := 64.
Definition ALIGN_MASK : Z := FLUSH_ALIGN - 1.
Definition CHUNK_SIZE : Z := 128.
Definition CHUNK_SHIFT : Z := 7.
Definition CHUNK_MASK : Z := CHUNK_SIZE - 1.
Definition DWORD_SHIFT : Z := 2.
Definition DWORD_MASK : Z := 4 - 1.
Definition MOVNT_MASK : Z := 16 - 1.
Definition MOVNT_SHIFT : Z := 4.

(** ** The functions chosen at load time *)

Inductive flush_fn := Flush_clflush | Flush_clwb | Flush_clflushopt.
Inductive is_pmem_fn := Is_pmem_never | Is_pmem_proc | Is_pmem_always.

Record funcs := {
  Func_flush : flush_fn;
  Func_predrain_sfence : bool;    (* predrain_fence_sfence, or predrain_fence_empty *)
  Func_drain_pcommit : bool;      (* drain_pcommit, or drain_no_pcommit *)
  Func_movnt : bool;              (* the movnt versions of memmove and memset *)
  Func_is_pmem : is_pmem_fn;
  Has_hw_drain : bool;
}.

Definition funcs_default : funcs :=
  {| Func_flush := Flush_clflush; Func_predrain_sfence := false; Func_drain_pcommit := false;
     Func_movnt := false; Func_is_pmem := Is_pmem_never; Has_hw_drain := false |}.

(** What [pmem_init] reads: the flags line of /proc/cpuinfo, when found, and the
    environment. *)
Record cpu := { has_clflush : bool; has_clwb : bool; has_clflushopt : bool; has_pcommit : bool; has_sse2 : bool }.
Record environ := {
  PMEM_NO_CLWB : bool; PMEM_NO_CLFLUSHOPT : bool; PMEM_NO_PCOMMIT : bool; PMEM_NO_MOVNT : bool;
  PMEM_IS_PMEM_FORCE : option Z;
}.

Definition set_flush (f : funcs) (k : flush_fn) : funcs :=
  {| Func_flush := k; Func_predrain_sfence := true; Func_drain_pcommit := Func_drain_pcommit f;
     Func_movnt := Func_movnt f; Func_is_pmem := Func_is_pmem f; Has_hw_drain := Has_hw_drain f |}.
Definition set_is_pmem (f : funcs) (k : is_pmem_fn) : funcs :=
  {| Func_flush := Func_flush f; Func_predrain_sfence := Func_predrain_sfence f;
     Func_drain_pcommit := Func_drain_pcommit f; Func_movnt := Func_movnt f; Func_is_pmem := k;
     Has_hw_drain := Has_hw_drain f |}.
Definition set_pcommit (f : funcs) : funcs :=
  {| Func_flush := Func_flush f; Func_predrain_sfence := Func_predrain_sfence f; Func_drain_pcommit := true;
     Func_movnt := Func_movnt f; Func_is_pmem := Func_is_pmem f; Has_hw_drain := true |}.
Definition set_movnt (f : funcs) : funcs :=
  {| Func_flush := Func_flush f; Func_predrain_sfence := Func_predrain_sfence f;
     Func_drain_pcommit := Func_drain_pcommit f; Func_movnt := true; Func_is_pmem := Func_is_pmem f;
     Has_hw_drain := Has_hw_drain f |}.

Definition pmem_init (c : option cpu) (e : environ) : funcs :=
  let f := funcs_default in
  let f := match c with
    | None => f
    | Some c =>
        let f := if has_clflush c then set_is_pmem f Is_pmem_proc else f in
        let f := if has_clwb c && negb (PMEM_NO_CLWB e) then set_flush f Flush_clwb else f in
        let f := if has_clflushopt c && negb (PMEM_NO_CLFLUSHOPT e) then set_flush f Flush_clflushopt else f in
        let f := if has_pcommit c && negb (PMEM_NO_PCOMMIT e) then set_pcommit f else f in
        if has_sse2 c && negb (PMEM_NO_MOVNT e) then set_movnt f else f
    end in
  match PMEM_IS_PMEM_FORCE e with
  | None => f
  | Some v => if v =? 0 then set_is_pmem f Is_pmem_never
              else if v =? 1 then set_is_pmem f Is_pmem_always else f
  end.

Definition pmem_has_hw_drain (f : funcs) : bool := Has_hw_drain f.

(** ** Flush and drain *)

(** The loop over the cache lines of a range; [limit] is (uintptr_t)addr + len. *)
Fixpoint flush_loop (ins : Z -> insn) (fuel : nat) (uptr limit : Z) (p : pm) : pm :=
  match fuel with
  | O => p
  | S fuel =>
      if uptr <? limit then flush_loop ins fuel (u64 (uptr + FLUSH_ALIGN)) limit (exec p (ins uptr))
      else p
  end.

(** One iteration per line, and the test that ends the loop. *)
Definition flush_fuel (len : Z) : nat := Z.to_nat (len / FLUSH_ALIGN + 3).

Definition flush_lines (ins : Z -> insn) (addr len : Z) (p : pm) : pm :=
  flush_loop ins (flush_fuel len) (Z.land addr (u64 (Z.lnot (FLUSH_ALIGN - 1)))) (u64 (addr + len)) p.

Definition flush_clflush (addr len : Z) (p : pm) : pm := flush_lines IClflush addr len p.
Definition flush_clwb (addr len : Z) (p : pm) : pm := flush_lines IClwb addr len p.
Definition flush_clflushopt (addr len : Z) (p : pm) : pm := flush_lines IClflushopt addr len p.

Definition predrain_fence (f : funcs) (p : pm) : pm :=
  if Func_predrain_sfence f then exec p ISfence else p.

Definition drain_no_pcommit (f : funcs) (p : pm) : pm := predrain_fence f p.
Definition drain_pcommit (f : funcs) (p : pm) : pm :=
  exec (exec (predrain_fence f p) IPcommit) ISfence.

Definition pmem_drain (f : funcs) (p : pm) : pm :=
  if Func_drain_pcommit f then drain_pcommit f p else drain_no_pcommit f p.

Definition pmem_flush (f : funcs) (addr len : Z) (p : pm) : pm :=
  match Func_flush f with
  | Flush_clflush => flush_clflush addr len p
  | Flush_clwb => flush_clwb addr len p
  | Flush_clflushopt => flush_clflushopt addr len p
  end.

Definition pmem_persist (f : funcs) (addr len : Z) (p : pm) : pm := pmem_drain f (pmem_flush f addr len p).

(** [msync] writes the pages of its range to the media when it succeeds. *)
Definition pmem_msync (Pagesize : Z) (msync : Z -> Z -> bool) (addr len : Z) (p : pm) : bool * pm :=
  let '(uptr, len) := page_range Pagesize addr len in
  if msync uptr len then (true, exec p (IMsync uptr len))
  else (false, p).

(** ** Copying *)

Definition store (p : pm) (d : Z) (bs : list byte) : pm := exec p (IStore d bs).
Definition stream (p : pm) (d : Z) (bs : list byte) : pm := exec p (IStream d bs).
Definition load (p : pm) (s n : Z) : list byte := mread (view p) s n.

(** "for (i = 0; i < cnt; i++) { *d8 = *s8; d8++; s8++; }" *)
Fixpoint bytes_fwd (cnt : nat) (d s : Z) (p : pm) : pm :=
  match cnt with O => p | S cnt => bytes_fwd cnt (d + 1) (s + 1) (store p d (load p s 1)) end.
Fixpoint bytes_back (cnt : nat) (d s : Z) (p : pm) : pm :=
  match cnt with O => p | S cnt => bytes_back cnt (d - 1) (s - 1) (store p (d - 1) (load p (s - 1) 1)) end.

(** Eight 16-byte loads, then eight non-temporal stores. *)
Definition chunk_fwd (d s : Z) (p : pm) : pm :=
  let xmm k := load p (s + 16 * k) 16 in
  fold_left (fun q '(k, x) => stream q (d + 16 * k) x) (map (fun k => (k, xmm k)) [0; 1; 2; 3; 4; 5; 6; 7]) p.
Definition chunk_back (d s : Z) (p : pm) : pm :=
  let xmm k := load p (s - 16 * k) 16 in
  fold_left (fun q '(k, x) => stream q (d - 16 * k) x) (map (fun k => (k, xmm k)) [1; 2; 3; 4; 5; 6; 7; 8]) p.

Fixpoint chunks_fwd (cnt : nat) (d s : Z) (p : pm) : pm :=
  match cnt with O => p | S cnt => chunks_fwd cnt (d + 128) (s + 128) (chunk_fwd d s p) end.
Fixpoint chunks_back (cnt : nat) (d s : Z) (p : pm) : pm :=
  match cnt with O => p | S cnt => chunks_back cnt (d - 128) (s - 128) (chunk_back d s p) end.

(** The tails: units of 16 and of 4 bytes. *)
Fixpoint units_fwd (unit : Z) (cnt : nat) (d s : Z) (p : pm) : pm :=
  match cnt with
  | O => p
  | S cnt => units_fwd unit cnt (d + unit) (s + unit) (stream p d (load p s unit))
  end.
Fixpoint units_back (unit : Z) (cnt : nat) (d s : Z) (p : pm) : pm :=
  match cnt with
  | O => p
  | S cnt => units_back unit cnt (d - unit) (s - unit) (stream p (d - unit) (load p (s - unit) unit))
  end.

Definition memmove_nodrain_normal (f : funcs) (dest src len : Z) (p : pm) : Z * pm :=
  (dest, pmem_flush f dest len (store p dest (load p src len))).

(** The forward direction up to the first cache-line boundary; the flush of the
    head is at [d8], which the copy loop has moved past the bytes it copied. *)
Definition head_fwd (f : funcs) (dest1 src len : Z) (p : pm) : Z * Z * Z * pm :=
  let cnt := Z.land dest1 ALIGN_MASK in
  if 0 <? cnt then
    let cnt := FLUSH_ALIGN - cnt in
    let cnt := if len <? cnt then len else cnt in
    let p := bytes_fwd (Z.to_nat cnt) dest1 src p in
    let d8 := dest1 + cnt in
    (dest1 + cnt, src + cnt, len - cnt, pmem_flush f d8 cnt p)
  else (dest1, src, len, p).

(** The last bytes (<16), first dwords then bytes. *)
Definition tail_fwd (f : funcs) (d s len : Z) (p : pm) : pm :=
  if negb (len =? 0) then
    let cnt := Z.shiftr len DWORD_SHIFT in
    let p := units_fwd 4 (Z.to_nat cnt) d s p in
    let d := d + 4 * cnt in let s := s + 4 * cnt in
    let cnt := Z.land len DWORD_MASK in
    let p := bytes_fwd (Z.to_nat cnt) d s p in
    pmem_flush f (d + cnt) cnt p
  else p.

Definition memmove_fwd (f : funcs) (dest1 src len : Z) (p : pm) : pm :=
  let '(dest1, src, len, p) := head_fwd f dest1 src len p in
  let cnt := Z.shiftr len CHUNK_SHIFT in
  let p := chunks_fwd (Z.to_nat cnt) dest1 src p in
  let d := dest1 + 128 * cnt in let s := src + 128 * cnt in
  let len := Z.land len CHUNK_MASK in
  let '(d, s, p) :=
    if negb (len =? 0) then
      let cnt := Z.shiftr len MOVNT_SHIFT in
      (d + 16 * cnt, s + 16 * cnt, units_fwd 16 (Z.to_nat cnt) d s p)
    else (d, s, p) in
  let len := Z.land len MOVNT_MASK in
  tail_fwd f d s len p.

(** The backward direction, from the end of the range. *)
Definition head_back (f : funcs) (dest1 src len : Z) (p : pm) : Z * Z * Z * pm :=
  let cnt := Z.land dest1 ALIGN_MASK in
  if 0 <? cnt then
    let cnt := if len <? cnt then len else cnt in
    let p := bytes_back (Z.to_nat cnt) dest1 src p in
    let d8 := dest1 - cnt in
    (dest1 - cnt, src - cnt, len - cnt, pmem_flush f d8 cnt p)
  else (dest1, src, len, p).

Definition tail_back (f : funcs) (d s len : Z) (p : pm) : pm :=
  if negb (len =? 0) then
    let cnt := Z.shiftr len DWORD_SHIFT in
    let p := units_back 4 (Z.to_nat cnt) d s p in
    let d := d - 4 * cnt in let s := s - 4 * cnt in
    let cnt := Z.land len DWORD_MASK in
    let p := bytes_back (Z.to_nat cnt) d s p in
    pmem_flush f (d - cnt) cnt p
  else p.

Definition memmove_back (f : funcs) (dest src len : Z) (p : pm) : pm :=
  let dest1 := dest + len in let src := src + len in
  let '(dest1, src, len, p) := head_back f dest1 src len p in
  let cnt := Z.shiftr len CHUNK_SHIFT in
  let p := chunks_back (Z.to_nat cnt) dest1 src p in
  let d := dest1 - 128 * cnt in let s := src - 128 * cnt in
  let len := Z.land len CHUNK_MASK in
  let '(d, s, p) :=
    if negb (len =? 0) then
      let cnt := Z.shiftr len MOVNT_SHIFT in
      (d - 16 * cnt, s - 16 * cnt, units_back 16 (Z.to_nat cnt) d s p)
    else (d, s, p) in
  let len := Z.land len MOVNT_MASK in
  tail_back f d s len p.

(** The pointer returned, 0 for NULL. *)
Definition memmove_nodrain_movnt (f : funcs) (dest src len : Z) (p : pm) : Z * pm :=
  if len =? 0 then (0, p)
  else if src =? dest then (dest, p)
  else if len <=? u64 (dest - src) then (dest, memmove_fwd f dest src len p)
  else (dest, memmove_back f dest src len p).

Definition pmem_memmove_nodrain (f : funcs) (dest src len : Z) (p : pm) : Z * pm :=
  if Func_movnt f then memmove_nodrain_movnt f dest src len p else memmove_nodrain_normal f dest src len p.
Definition pmem_memcpy_nodrain (f : funcs) (dest src len : Z) (p : pm) : Z * pm :=
  pmem_memmove_nodrain f dest src len p.
Definition pmem_memmove_persist (f : funcs) (dest src len : Z) (p : pm) : Z * pm :=
  let '(r, p) := pmem_memmove_nodrain f dest src len p in (r, pmem_drain f p).
Definition pmem_memcpy_persist (f : funcs) (dest src len : Z) (p : pm) : Z * pm :=
  let '(r, p) := pmem_memcpy_nodrain f dest src len p in (r, pmem_drain f p).

(** ** Filling *)

Definition fill (c n : Z) : list byte := replicate (Z.to_nat n) (z2b c).

Definition memset_nodrain_normal (f : funcs) (dest c len : Z) (p : pm) : Z * pm :=
  (dest, pmem_flush f dest len (store p dest (fill c len))).

(** [cnt] non-temporal stores of [unit] bytes. *)
Fixpoint streams (c unit : Z) (cnt : nat) (d : Z) (p : pm) : pm :=
  match cnt with
  | O => p
  | S cnt => streams c unit cnt (d + unit) (stream p d (fill c unit))
  end.

Definition memset_nodrain_movnt (f : funcs) (dest c len : Z) (p : pm) : Z * pm :=
  let cnt := Z.land dest ALIGN_MASK in
  let '(dest1, len, p) :=
    if negb (cnt =? 0) then
      let cnt := FLUSH_ALIGN - cnt in
      let cnt := if len <? cnt then len else cnt in
      (dest + cnt, len - cnt, pmem_flush f dest cnt (store p dest (fill c cnt)))
    else (dest, len, p) in
  (* eight stores of 16 bytes per iteration *)
  let cnt := len / CHUNK_SIZE in
  let p := streams c 16 (8 * Z.to_nat cnt) dest1 p in
  let d := dest1 + 128 * cnt in
  let len := Z.land len CHUNK_MASK in
  let '(d, p) :=
    if negb (len =? 0) then
      let cnt := Z.shiftr len MOVNT_SHIFT in (d + 16 * cnt, streams c 16 (Z.to_nat cnt) d p)
    else (d, p) in
  let len := Z.land len MOVNT_MASK in
  if negb (len =? 0) then
    let cnt := Z.shiftr len DWORD_SHIFT in
    let p := streams c 4 (Z.to_nat cnt) d p in
    let d := d + 4 * cnt in
    let cnt := Z.land len DWORD_MASK in
    if negb (cnt =? 0) then (dest, pmem_flush f d cnt (store p d (fill c cnt))) else (dest, p)
  else (dest, p).

Definition pmem_memset_nodrain (f : funcs) (dest c len : Z) (p : pm) : Z * pm :=
  if Func_movnt f then memset_nodrain_movnt f dest c len p else memset_nodrain_normal f dest c len p.
Definition pmem_memset_persist (f : funcs) (dest c len : Z) (p : pm) : Z * pm :=
  let '(r, p) := pmem_memset_nodrain f dest c len p in (r, pmem_drain f p).

(** ** Is it persistent memory? *)

(** The lines of /proc/self/smaps that matter. *)
Inductive smaps_line := Range (lo hi : Z) | VmFlags (mm : bool) | OtherLine.

Fixpoint is_pmem_loop (lines : list smaps_line) (caddr len : Z) (needmm : bool) : bool :=
  match lines with
  | [] => false
  | Range lo hi :: lines =>
      if needmm then false
      else if caddr <? lo then false
      else if caddr <? hi then
        let rangelen := hi - caddr in
        if rangelen <? len then is_pmem_loop lines (caddr + rangelen) (len - rangelen) true
        else is_pmem_loop lines caddr 0 true
      else is_pmem_loop lines caddr len needmm
  | VmFlags mm :: lines =>
      if needmm then
        if mm then if len =? 0 then true else is_pmem_loop lines caddr len false
        else false
      else is_pmem_loop lines caddr len needmm
  | OtherLine :: lines => is_pmem_loop lines caddr len needmm
  end.

(** [None] when /proc/self/smaps cannot be opened. *)
Definition is_pmem_proc (smaps : option (list smaps_line)) (addr len : Z) : bool :=
  match smaps with None => false | Some lines => is_pmem_loop lines addr len false end.

Definition pmem_is_pmem (f : funcs) (smaps : option (list smaps_line)) (addr len : Z) : bool :=
  match Func_is_pmem f with
  | Is_pmem_never => false
  | Is_pmem_proc => is_pmem_proc smaps addr len
  | Is_pmem_always => true
  end.
