(* ===== verification/PmemSpec.v ===== *)
(** PmemSpec: flushing, draining and detection.

    A persisted range survives a power failure whatever instructions
    [pmem_init] chose, and [pmem_is_pmem] answers from the kernel's list of
    mappings. *)

From S2P Require Import Prelude Mem Util Persist Pmem.

(** ** On its way to the media *)

(** The next fence settles the word. *)
Definition queued (p : pm) (w : Z) : Prop := settled (exec p ISfence) w.

Lemma settled_queued p w : settled p w -> queued p w.
Proof. apply fence_keeps. Qed.

Lemma queued_cases p w :
  queued p w <->
  match mark p w with
  | Some k => forall v, v ∈ take (S k) (cand p w) -> agree v (view p) (8 * w) 8
  | None => settled p w
  end.
Proof. unfold queued, settled. cbn [exec cand view]. destruct (mark p w); done. Qed.

Lemma store_view_out p off bs w :
  in_range off (Z.of_nat (length bs)) w = false -> agree (view p) (view (do_store p off bs)) (8 * w) 8.
Proof.
  intros Hr. apply agree_sym. intros z Hz. cbn [view do_store]. apply mwrite_out. unfold in_range in Hr.
  bools. destruct Hr as [Hr|Hr]; bools; lia.
Qed.

Lemma store_queued p off bs w :
  queued p w -> in_range off (Z.of_nat (length bs)) w = false -> queued (do_store p off bs) w.
Proof.
  intros Hq Hr. pose proof (store_view_out p off bs w Hr) as Ha.
  rewrite queued_cases in Hq |- *. cbn [mark cand do_store] in *. unfold settled in *. cbn [cand].
  destruct (mark p w) as [k|]; cbn [fmap option_fmap option_map].
  - intros v Hv. change (take (S (S k)) ?l) with (firstn (S (S k)) l) in Hv. cbn [firstn] in Hv.
    apply elem_of_cons in Hv as [->|Hv]; [apply agree_refl|]. eapply agree_trans; [by apply Hq|done].
  - intros v Hv. apply elem_of_cons in Hv as [->|Hv]; [apply agree_refl|].
    eapply agree_trans; [by apply Hq|done].
Qed.

(** A non-temporal store queues its own words and disturbs no other. *)
Lemma stream_queued p off bs w :
  queued p w \/ in_range off (Z.of_nat (length bs)) w = true -> queued (exec p (IStream off bs)) w.
Proof.
  intros H. destruct (in_range off (Z.of_nat (length bs)) w) eqn:E.
  - apply queued_cases. cbn [exec do_mark mark cand view]. rewrite E. cbn [do_store cand view take].
    intros v Hv. apply list_elem_of_singleton in Hv as ->. apply agree_refl.
  - destruct H as [H|H]; [|done]. pose proof (store_queued p off bs w H E) as Hs.
    rewrite queued_cases in Hs |- *. cbn [exec do_mark mark cand view]. rewrite E. exact Hs.
Qed.

(** ** Flushing *)

Definition is_flush (i : insn) : Prop :=
  match i with IClflush _ | IClwb _ | IClflushopt _ => True | _ => False end.
Definition flush_addr (i : insn) : Z :=
  match i with IClflush a | IClwb a | IClflushopt a => a | _ => 0 end.

Lemma flush_view p i : is_flush i -> view (exec p i) = view p.
Proof. by destruct i. Qed.

Lemma flush_queued p i w :
  pm_wf p -> is_flush i -> queued p w \/ same_line (flush_addr i) w = true -> queued (exec p i) w.
Proof.
  intros Hwf Hi H. destruct (same_line (flush_addr i) w) eqn:E.
  - destruct i; try done; cbn [flush_addr] in E.
    + by apply settled_queued, clflush_settles.
    + apply fence_settles; [by apply exec_wf|]. cbn. by rewrite E.
    + apply fence_settles; [by apply exec_wf|]. cbn. by rewrite E.
  - destruct H as [H|H]; [|done]. rewrite queued_cases in H |- *.
    destruct i; try done; cbn [flush_addr] in E; unfold settled in *;
      cbn [exec do_mark mark cand view]; rewrite ?E; exact H.
Qed.

Lemma flushes_queued l : forall p w,
  pm_wf p -> Forall is_flush l ->
  queued p w \/ Exists (fun i => same_line (flush_addr i) w = true) l -> queued (execs p l) w.
Proof.
  induction l as [|i l IH]; intros p w Hwf Hl H; cbn [execs fold_left].
  - destruct H as [H|H]; [done|by inversion H].
  - apply Forall_cons in Hl as [Hi Hl]. apply IH; [by apply exec_wf|done|].
    destruct H as [H|H]; [left; apply flush_queued; auto|].
    apply Exists_cons in H as [H|H]; [left; apply flush_queued; auto|by right].
Qed.

Lemma flushes_view l : forall p, Forall is_flush l -> view (execs p l) = view p.
Proof.
  induction l as [|i l IH]; intros p Hl; [done|]. apply Forall_cons in Hl as [Hi Hl].
  cbn [execs fold_left]. rewrite <- (flush_view p i Hi). by apply IH.
Qed.

(** The lines of a range, one instruction each. *)
Definition lines (ins : Z -> insn) (addr len : Z) : list insn :=
  map (fun i => ins (64 * i)) (seqZ (addr / 64) (howmany (addr + len) 64 - addr / 64)).

Lemma flush_loop_lines ins k : forall fuel u limit p,
  0 <= u -> u mod 64 = 0 -> limit + 64 <= 2 ^ 64 -> (k < fuel)%nat -> u <= limit ->
  Z.of_nat k = howmany limit 64 - u / 64 ->
  flush_loop ins fuel u limit p = execs p (map (fun i => ins (64 * i)) (seqZ (u / 64) (Z.of_nat k))).
Proof.
  induction k as [|k IH]; intros [|fuel] u limit p Hu Hm Hl Hf Hul Hk; try lia; cbn [flush_loop].
  - pose proof (howmany_spec limit 64 ltac:(lia) ltac:(lia)).
    pose proof (Z.div_mod u 64 ltac:(lia)). by ztrue.
  - pose proof (howmany_spec limit 64 ltac:(lia) ltac:(lia)).
    pose proof (Z.div_mod u 64 ltac:(lia)). ztrue. unfold FLUSH_ALIGN. rewrite u64_id by lia.
    rewrite seqZ_cons by lia. cbn [map execs fold_left].
    replace (64 * (u / 64)) with u by lia.
    assert ((u + 64) / 64 = u / 64 + 1) as E by (rewrite <- (Z.div_add u 1 64) by lia; f_equal; lia).
    destruct (Z.le_gt_cases (u + 64) limit) as [Hle|Hgt].
    + rewrite IH; [|lia| |lia..].
      * rewrite E, Z.add_1_r. by replace (Z.pred (Z.of_nat (S k))) with (Z.of_nat k) by lia.
      * rewrite <- (Z.mod_add u 1 64) in Hm by lia. rewrite Z.mul_1_l in Hm. done.
    + replace (Z.pred (Z.of_nat (S k))) with 0 by lia. cbn.
      destruct fuel; cbn [flush_loop]; [done|]. by ztrue.
Qed.

Lemma flush_lines_eq ins addr len p :
  0 <= addr -> 0 <= len -> addr + len + 64 <= 2 ^ 64 ->
  flush_lines ins addr len p = execs p (lines ins addr len).
Proof.
  intros Ha Hl H64. unfold flush_lines, lines.
  change (FLUSH_ALIGN - 1) with (2 ^ 6 - 1). rewrite land_lnot_pow2 by lia. change (2 ^ 6) with 64.
  rewrite u64_id by lia.
  pose proof (Z.div_mod addr 64 ltac:(lia)). pose proof (Z.mod_pos_bound addr 64 ltac:(lia)).
  pose proof (howmany_spec (addr + len) 64 ltac:(lia) ltac:(lia)).
  pose proof (Z.div_mod len 64 ltac:(lia)). pose proof (Z.mod_pos_bound len 64 ltac:(lia)).
  assert ((addr - addr mod 64) / 64 = addr / 64) as E.
  { replace (addr - addr mod 64) with (addr / 64 * 64) by lia. by apply Z.div_mul. }
  rewrite (flush_loop_lines ins (Z.to_nat (howmany (addr + len) 64 - addr / 64))); rewrite ?E; [..|lia].
  - do 3 f_equal. lia.
  - lia.
  - replace (addr - addr mod 64) with (addr / 64 * 64) by lia. by apply Z.mod_mul.
  - lia.
  - unfold flush_fuel, FLUSH_ALIGN. lia.
  - lia.
Qed.

Definition flush_insn (f : funcs) : Z -> insn :=
  match Func_flush f with Flush_clflush => IClflush | Flush_clwb => IClwb | Flush_clflushopt => IClflushopt end.

Lemma lines_flush f addr len : Forall is_flush (lines (flush_insn f) addr len).
Proof. apply Forall_map, Forall_forall. intros i _. unfold flush_insn. by destruct (Func_flush f). Qed.

Section Flush.
Context (f : funcs) (addr len : Z) (Ha : 0 <= addr) (Hl : 0 <= len) (H64 : addr + len + 64 <= 2 ^ 64).

Lemma pmem_flush_lines p : pmem_flush f addr len p = execs p (lines (flush_insn f) addr len).
Proof.
  unfold pmem_flush, flush_clflush, flush_clwb, flush_clflushopt, flush_insn.
  destruct (Func_flush f); by apply flush_lines_eq.
Qed.

Lemma pmem_flush_view p : view (pmem_flush f addr len p) = view p.
Proof. rewrite pmem_flush_lines. apply flushes_view, lines_flush. Qed.

Lemma pmem_flush_wf p : pm_wf p -> pm_wf (pmem_flush f addr len p).
Proof. rewrite pmem_flush_lines. apply execs_wf. Qed.

(** The lines of the range: every word of it is in one of them. *)
Lemma lines_cover w :
  in_range addr len w = true ->
  exists i, 64 * i ∈ map (fun i => 64 * i) (seqZ (addr / 64) (howmany (addr + len) 64 - addr / 64)) /\
            same_line (64 * i) w = true.
Proof.
  unfold in_range. intros Hw. bools. exists (w / 8).
  pose proof (howmany_spec (addr + len) 64 ltac:(lia) ltac:(lia)).
  pose proof (Z.div_mod addr 64 ltac:(lia)). pose proof (Z.mod_pos_bound addr 64 ltac:(lia)).
  pose proof (Z.div_mod w 8 ltac:(lia)). pose proof (Z.mod_pos_bound w 8 ltac:(lia)).
  split.
  - apply (list_elem_of_fmap_2 (fun i => 64 * i)). apply elem_of_seqZ. lia.
  - unfold same_line, line_of_word. rewrite Z.mul_comm, Z.div_mul by lia. apply Z.eqb_refl.
Qed.

Lemma line_listed w :
  in_range addr len w = true ->
  Exists (fun i => same_line (flush_addr i) w = true) (lines (flush_insn f) addr len).
Proof.
  intros Hw. destruct (lines_cover w Hw) as (i & Hi & Hs). apply Exists_exists.
  apply list_elem_of_fmap in Hi as (j & Hj & Hin). assert (j = i) as -> by lia.
  exists (flush_insn f (64 * i)). split.
  - by apply (list_elem_of_fmap_2 (fun i => flush_insn f (64 * i))).
  - unfold flush_insn. by destruct (Func_flush f).
Qed.

Lemma pmem_flush_queued p w :
  pm_wf p -> queued p w \/ in_range addr len w = true -> queued (pmem_flush f addr len p) w.
Proof.
  intros Hwf H. rewrite pmem_flush_lines. apply flushes_queued; [done|apply lines_flush|].
  destruct H as [H|H]; [by left|right; by apply line_listed].
Qed.

Lemma clflushes_settled l : forall p w,
  (forall i, i ∈ l -> exists a, i = IClflush a) ->
  settled p w \/ Exists (fun i => same_line (flush_addr i) w = true) l -> settled (execs p l) w.
Proof.
  induction l as [|i l IH]; intros p w Hall H; cbn [execs fold_left].
  - destruct H as [H|H]; [done|by inversion H].
  - destruct (Hall i ltac:(left)) as [a ->]. apply IH; [intros j Hj; apply Hall; by right|].
    destruct H as [H|H]; [left; by apply flush_keeps|].
    apply Exists_cons in H as [H|H]; [left; by apply clflush_settles|by right].
Qed.

(** CLFLUSH needs no fence. *)
Lemma pmem_flush_settled p w :
  Func_flush f = Flush_clflush -> in_range addr len w = true -> settled (pmem_flush f addr len p) w.
Proof.
  intros Hf Hw. rewrite pmem_flush_lines. apply clflushes_settled; [|right; by apply line_listed].
  intros i Hi. unfold lines, flush_insn in Hi. rewrite Hf in Hi.
  apply list_elem_of_fmap in Hi as (j & -> & _). by eexists.
Qed.
End Flush.

(** ** Draining *)

(** The drain contains a fence. *)
Definition fenced (f : funcs) : bool := Func_predrain_sfence f || Func_drain_pcommit f.

Lemma pmem_drain_view f p : view (pmem_drain f p) = view p.
Proof.
  unfold pmem_drain, drain_pcommit, drain_no_pcommit, predrain_fence.
  by destruct (Func_drain_pcommit f), (Func_predrain_sfence f).
Qed.

Lemma pmem_drain_keeps f p w : settled p w -> settled (pmem_drain f p) w.
Proof.
  intros H. unfold pmem_drain, drain_pcommit, drain_no_pcommit, predrain_fence.
  destruct (Func_drain_pcommit f), (Func_predrain_sfence f); eauto using fence_keeps, flush_keeps.
Qed.

Lemma pmem_drain_settles f p w : fenced f = true -> queued p w -> settled (pmem_drain f p) w.
Proof.
  unfold fenced, queued, pmem_drain, drain_pcommit, drain_no_pcommit, predrain_fence. intros Hf Hq.
  destruct (Func_drain_pcommit f), (Func_predrain_sfence f); done.
Qed.

(** What [pmem_init] sets up: weakly ordered flushes come with a fence. *)
Lemma pmem_init_fences c e :
  let f := pmem_init c e in Func_flush f = Flush_clflush \/ Func_predrain_sfence f = true.
Proof.
  unfold pmem_init. destruct c as [c|], e as [a b d g [v|]]; cbn; repeat case_match; cbn; auto.
Qed.

Lemma pmem_init_normal_settles c e addr len p w :
  pm_wf p -> 0 <= addr -> 0 <= len -> addr + len + 64 <= 2 ^ 64 -> in_range addr len w = true ->
  settled (pmem_persist (pmem_init c e) addr len p) w.
Proof.
  intros Hwf Ha Hl H64 Hw. unfold pmem_persist. destruct (pmem_init_fences c e) as [Hf|Hf].
  - apply pmem_drain_keeps. by apply pmem_flush_settled.
  - apply pmem_drain_settles; [unfold fenced; by rewrite Hf|]. apply pmem_flush_queued; auto.
Qed.


(** ** pmem_is_pmem *)

(** One mapping in /proc/self/smaps: its range line, other lines, its flags line. *)
Record mapping := { mp_lo : Z; mp_hi : Z; mp_other : nat; mp_mm : bool }.

Definition smaps_of (l : list mapping) : list smaps_line :=
  flat_map (fun b => Range (mp_lo b) (mp_hi b) :: replicate (mp_other b) OtherLine ++ [VmFlags (mp_mm b)]) l.

(** The kernel lists the mappings in address order, without overlap. *)
Fixpoint sorted_from (x : Z) (l : list mapping) : Prop :=
  match l with
  | [] => True
  | b :: l => x <= mp_lo b < mp_hi b /\ sorted_from (mp_hi b) l
  end.

Definition direct (l : list mapping) (z : Z) : Prop :=
  exists b, b ∈ l /\ mp_lo b <= z < mp_hi b /\ mp_mm b = true.

Lemma sorted_from_lo x l b : sorted_from x l -> b ∈ l -> x <= mp_lo b.
Proof.
  revert x. induction l as [|a l IH]; intros x Hs Hb; [by apply elem_of_nil in Hb|].
  destruct Hs as [? Hs]. apply elem_of_cons in Hb as [->|Hb]; [lia|]. pose proof (IH _ Hs Hb). lia.
Qed.

Lemma is_pmem_others n lines caddr len needmm :
  is_pmem_loop (replicate n OtherLine ++ lines) caddr len needmm = is_pmem_loop lines caddr len needmm.
Proof. induction n; [done|]. by cbn. Qed.

Lemma direct_cons b l z : direct (b :: l) z <-> (mp_lo b <= z < mp_hi b /\ mp_mm b = true) \/ direct l z.
Proof.
  unfold direct. split.
  - intros (a & Ha & Hz). apply elem_of_cons in Ha as [->|Ha]; eauto.
  - intros [H|(a & Ha & Hz)]; [exists b; split; [left|done]|exists a; split; [by right|done]].
Qed.

Lemma direct_above x l z : sorted_from x l -> direct l z -> x <= z.
Proof. intros Hs (b & Hb & Hz & _). pose proof (sorted_from_lo _ _ _ Hs Hb). lia. Qed.

Lemma is_pmem_loop_iff l : forall x addr len,
  sorted_from x l -> 0 < len ->
  is_pmem_loop (smaps_of l) addr len false = true <-> (forall z, addr <= z < addr + len -> direct l z).
Proof.
  induction l as [|b l IH]; intros x addr len Hs Hl; cbn [smaps_of flat_map is_pmem_loop app].
  { split; [done|]. intros H. destruct (H addr ltac:(lia)) as (b & Hb & _). by apply elem_of_nil in Hb. }
  destruct Hs as [Hlo Hs]. fold (smaps_of l). rewrite <- app_assoc. zcase; [|zcase].
  - split; [done|]. intros H'. destruct (proj1 (direct_cons _ _ _) (H' addr ltac:(lia))) as [?|Hd]; [lia|].
    pose proof (direct_above _ _ _ Hs Hd). lia.
  - zcase; rewrite is_pmem_others; cbn [app is_pmem_loop]; destruct (mp_mm b) eqn:Em.
    + rewrite (proj2 (Z.eqb_neq _ 0)) by lia. rewrite (IH (mp_hi b)) by (done || lia).
      split; intros Hz z Hzr.
      * apply direct_cons. destruct (Z.lt_ge_cases z (mp_hi b)); [left; split; [lia|done]|right; apply Hz; lia].
      * destruct (proj1 (direct_cons _ _ _) (Hz z ltac:(lia))) as [?|?]; [lia|done].
    + split; [done|]. intros Hz. destruct (proj1 (direct_cons _ _ _) (Hz addr ltac:(lia))) as [[_ ?]|Hd]; [congruence|].
      pose proof (direct_above _ _ _ Hs Hd). lia.
    + cbn. split; [|done]. intros _ z Hz. apply direct_cons. left. split; [lia|done].
    + split; [done|]. intros Hz. destruct (proj1 (direct_cons _ _ _) (Hz addr ltac:(lia))) as [[_ ?]|Hd]; [congruence|].
      pose proof (direct_above _ _ _ Hs Hd). lia.
  - rewrite is_pmem_others. cbn [app is_pmem_loop]. rewrite (IH (mp_hi b)) by (done || lia).
    split; intros Hz z Hzr.
    + apply direct_cons. right. by apply Hz.
    + destruct (proj1 (direct_cons _ _ _) (Hz z Hzr)) as [?|?]; [lia|done].
Qed.

(** With CLFLUSH present and nothing forced, [pmem_is_pmem] answers true
    exactly when every byte of the range is in a mapping with the "mm" flag. *)
Theorem pmem_is_pmem_exact (c : cpu) (e : environ) (l : list mapping) (addr len : Z)
  (Hc : has_clflush c = true) (He : PMEM_IS_PMEM_FORCE e = None)
  (Hs : sorted_from 0 l) (Hl : 0 < len) :
  pmem_is_pmem (pmem_init (Some c) e) (Some (smaps_of l)) addr len = true <->
  (forall z, addr <= z < addr + len -> direct l z).
Proof.
  rewrite <- (is_pmem_loop_iff l 0) by done. unfold pmem_is_pmem.
  replace (Func_is_pmem (pmem_init (Some c) e)) with Is_pmem_proc; [done|].
  unfold pmem_init. rewrite Hc, He. by repeat case_match.
Qed.
