(* ===== verification/PmemCopy.v ===== *)
(** PmemCopy: the copy and fill routines.

    The hand-written routines store what [memmove] and [memset] store, whatever
    the overlap; which of their bytes are on the way to the media when they
    return; and two copies that a power failure undoes. *)

From S2P Require Import Prelude Mem Util Persist Pmem PmemSpec.

(** ** What the copy routines write *)

Lemma mwrite_mread m m' off s n z :
  0 <= n -> mwrite m off (mread m' s n) z = if (off <=? z) && (z <? off + n) then m' (s + (z - off)) else m z.
Proof.
  intros Hn. unfold mwrite. rewrite length_mread, Z2Nat.id by done.
  destruct (Z.leb_spec off z), (Z.ltb_spec z (off + n)); cbn; try done.
  pose proof (lookup_mread m' s n (Z.to_nat (z - off)) ltac:(lia)) as E.
  apply nth_lookup_Some with (d := x00) in E. rewrite E. f_equal. lia.
Qed.

Lemma store_view p d bs : view (store p d bs) = mwrite (view p) d bs.
Proof. done. Qed.
Lemma stream_view p d bs : view (stream p d bs) = mwrite (view p) d bs.
Proof. done. Qed.

(** The bytes of the offsets [a, b) moved, the rest as in [m0]. *)
Section Moved.
Context (m0 : mem) (dest src len : Z).

Definition moved (a b : Z) : mem :=
  fun z => if (a <=? z - dest) && (z - dest <? b) then m0 (src + (z - dest)) else m0 z.

Definition disjoint_fwd : Prop := dest < src \/ src + len <= dest.

Lemma moved_none a m : m ≡ m0 -> m ≡ moved a a.
Proof.
  intros H z. rewrite (H z). unfold moved.
  by destruct (Z.leb_spec a (z - dest)), (Z.ltb_spec (z - dest) a); cbn; try lia.
Qed.

Lemma moved_all m : 0 <= len -> m ≡ moved 0 len -> m ≡ mwrite m0 dest (mread m0 src len).
Proof.
  intros Hl H z. rewrite (H z), mwrite_mread by done. unfold moved.
  by destruct (Z.leb_spec 0 (z - dest)), (Z.ltb_spec (z - dest) len), (Z.leb_spec dest z),
    (Z.ltb_spec z (dest + len)); cbn; try lia.
Qed.

(** One unit more at the upper end, copying forwards. *)
Lemma moved_up m b u :
  disjoint_fwd -> m ≡ moved 0 b -> 0 <= b -> 0 <= u -> b + u <= len ->
  mwrite m (dest + b) (mread m (src + b) u) ≡ moved 0 (b + u).
Proof.
  intros Hd Hm Hb Hu Hl z. rewrite mwrite_mread by done. unfold disjoint_fwd in Hd.
  destruct (Z.leb_spec (dest + b) z), (Z.ltb_spec z (dest + b + u)); cbn [andb]; rewrite Hm; unfold moved.
  - rewrite (proj2 (Z.leb_le 0 (z - dest))), (proj2 (Z.ltb_lt (z - dest) (b + u))) by lia.
    replace ((0 <=? src + b + (z - (dest + b)) - dest) && (src + b + (z - (dest + b)) - dest <? b)) with false.
    { cbn. f_equal. lia. }
    symmetry. apply andb_false_iff. rewrite Z.leb_gt, Z.ltb_ge. lia.
  - destruct (Z.leb_spec 0 (z - dest)), (Z.ltb_spec (z - dest) b), (Z.ltb_spec (z - dest) (b + u)); cbn; try done; lia.
  - destruct (Z.leb_spec 0 (z - dest)), (Z.ltb_spec (z - dest) b), (Z.ltb_spec (z - dest) (b + u)); cbn; try done; lia.
  - lia.
Qed.

(** One unit more at the lower end, copying backwards. *)
Lemma moved_down m a u :
  src <= dest -> m ≡ moved a len -> 0 <= u -> u <= a <= len ->
  mwrite m (dest + a - u) (mread m (src + a - u) u) ≡ moved (a - u) len.
Proof.
  intros Hd Hm Hu Ha z. rewrite mwrite_mread by done.
  destruct (Z.leb_spec (dest + a - u) z), (Z.ltb_spec z (dest + a - u + u)); cbn [andb]; rewrite Hm; unfold moved.
  - rewrite (proj2 (Z.leb_le (a - u) (z - dest))), (proj2 (Z.ltb_lt (z - dest) len)) by lia.
    rewrite (proj2 (Z.leb_gt a (src + a - u + (z - (dest + a - u)) - dest))) by lia.
    cbn. f_equal. lia.
  - destruct (Z.leb_spec a (z - dest)), (Z.leb_spec (a - u) (z - dest)), (Z.ltb_spec (z - dest) len); cbn; try done; lia.
  - destruct (Z.leb_spec a (z - dest)), (Z.leb_spec (a - u) (z - dest)), (Z.ltb_spec (z - dest) len); cbn; try done; lia.
  - lia.
Qed.

Section Forward.
Context (Hd : disjoint_fwd).

Lemma bytes_fwd_view k : forall b p,
  view p ≡ moved 0 b -> 0 <= b -> b + Z.of_nat k <= len ->
  view (bytes_fwd k (dest + b) (src + b) p) ≡ moved 0 (b + Z.of_nat k).
Proof.
  induction k as [|k IH]; intros b p Hp Hb Hl; cbn [bytes_fwd]; [by rewrite Z.add_0_r|].
  replace (b + Z.of_nat (S k)) with (b + 1 + Z.of_nat k) by lia. rewrite <- (Z.add_assoc dest), <- (Z.add_assoc src).
  apply IH; [|lia..]. rewrite store_view. apply moved_up; auto; lia.
Qed.

Lemma units_fwd_view u k : forall b p,
  0 <= u -> view p ≡ moved 0 b -> 0 <= b -> b + u * Z.of_nat k <= len ->
  view (units_fwd u k (dest + b) (src + b) p) ≡ moved 0 (b + u * Z.of_nat k).
Proof.
  induction k as [|k IH]; intros b p Hu Hp Hb Hl; cbn [units_fwd]; [by rewrite Z.mul_0_r, Z.add_0_r|].
  replace (b + u * Z.of_nat (S k)) with (b + u + u * Z.of_nat k) by lia. rewrite <- (Z.add_assoc dest), <- (Z.add_assoc src).
  apply IH; [lia| |lia..]. rewrite stream_view. apply moved_up; auto; nia.
Qed.
End Forward.

Section Backward.
Context (Hd : src <= dest).

Lemma bytes_back_view k : forall a p,
  view p ≡ moved a len -> Z.of_nat k <= a <= len ->
  view (bytes_back k (dest + a) (src + a) p) ≡ moved (a - Z.of_nat k) len.
Proof.
  induction k as [|k IH]; intros a p Hp Ha; cbn [bytes_back]; [by rewrite Z.sub_0_r|].
  replace (a - Z.of_nat (S k)) with (a - 1 - Z.of_nat k) by lia.
  rewrite <- (Z.add_sub_assoc dest), <- (Z.add_sub_assoc src). apply IH; [|lia].
  rewrite store_view, !Z.add_sub_assoc. apply moved_down; auto; lia.
Qed.

Lemma units_back_view u k : forall a p,
  0 <= u -> view p ≡ moved a len -> u * Z.of_nat k <= a <= len ->
  view (units_back u k (dest + a) (src + a) p) ≡ moved (a - u * Z.of_nat k) len.
Proof.
  induction k as [|k IH]; intros a p Hu Hp Ha; cbn [units_back]; [by rewrite Z.mul_0_r, Z.sub_0_r|].
  replace (a - u * Z.of_nat (S k)) with (a - u - u * Z.of_nat k) by lia.
  rewrite <- (Z.add_sub_assoc dest), <- (Z.add_sub_assoc src). apply IH; [lia| |nia].
  rewrite stream_view, !Z.add_sub_assoc. apply moved_down; auto; nia.
Qed.
End Backward.
End Moved.

(** Two adjacent writes, in either order, are one. *)
Lemma mwrite_up m m' d s a b :
  0 <= a -> 0 <= b ->
  mwrite (mwrite m d (mread m' s a)) (d + a) (mread m' (s + a) b) ≡ mwrite m d (mread m' s (a + b)).
Proof.
  intros Ha Hb z. rewrite !mwrite_mread by lia.
  destruct (Z.leb_spec (d + a) z), (Z.ltb_spec z (d + a + b)), (Z.leb_spec d z), (Z.ltb_spec z (d + a)),
    (Z.ltb_spec z (d + (a + b))); cbn; try lia; try done. f_equal. lia.
Qed.

Lemma mwrite_down m m' d s a b :
  0 <= a -> 0 <= b ->
  mwrite (mwrite m (d - a) (mread m' (s - a) a)) (d - (a + b)) (mread m' (s - (a + b)) b)
  ≡ mwrite m (d - (a + b)) (mread m' (s - (a + b)) (a + b)).
Proof.
  intros Ha Hb z. rewrite !mwrite_mread by lia.
  destruct (Z.leb_spec (d - (a + b)) z), (Z.ltb_spec z (d - (a + b) + b)), (Z.leb_spec (d - a) z),
    (Z.ltb_spec z (d - a + a)), (Z.ltb_spec z (d - (a + b) + (a + b))); cbn; try lia; try done. f_equal. lia.
Qed.

(** The eight loads come before the eight stores: a chunk is one copy of 128 bytes. *)
Lemma chunk_fwd_view d s p : view (chunk_fwd d s p) ≡ mwrite (view p) d (mread (view p) s 128).
Proof.
  unfold chunk_fwd. cbn [map fold_left]. rewrite !stream_view. unfold load.
  change (16 * 0) with 0. rewrite !Z.add_0_r.
  rewrite (mwrite_up _ _ d s 16 16) by lia. rewrite (mwrite_up _ _ d s 32 16) by lia.
  rewrite (mwrite_up _ _ d s 48 16) by lia. rewrite (mwrite_up _ _ d s 64 16) by lia.
  rewrite (mwrite_up _ _ d s 80 16) by lia. rewrite (mwrite_up _ _ d s 96 16) by lia.
  by rewrite (mwrite_up _ _ d s 112 16) by lia.
Qed.

Lemma chunk_back_view d s p : view (chunk_back d s p) ≡ mwrite (view p) (d - 128) (mread (view p) (s - 128) 128).
Proof.
  unfold chunk_back. cbn [map fold_left]. rewrite !stream_view. unfold load.
  change (16 * 1) with 16.
  rewrite (mwrite_down _ _ d s 16 16) by lia. rewrite (mwrite_down _ _ d s 32 16) by lia.
  rewrite (mwrite_down _ _ d s 48 16) by lia. rewrite (mwrite_down _ _ d s 64 16) by lia.
  rewrite (mwrite_down _ _ d s 80 16) by lia. rewrite (mwrite_down _ _ d s 96 16) by lia.
  by rewrite (mwrite_down _ _ d s 112 16) by lia.
Qed.

Lemma chunks_fwd_view m0 dest src len (Hd : disjoint_fwd dest src len) k : forall b p,
  view p ≡ moved m0 dest src 0 b -> 0 <= b -> b + 128 * Z.of_nat k <= len ->
  view (chunks_fwd k (dest + b) (src + b) p) ≡ moved m0 dest src 0 (b + 128 * Z.of_nat k).
Proof.
  induction k as [|k IH]; intros b p Hp Hb Hl; cbn [chunks_fwd]; [by rewrite Z.mul_0_r, Z.add_0_r|].
  replace (b + 128 * Z.of_nat (S k)) with (b + 128 + 128 * Z.of_nat k) by lia. rewrite <- (Z.add_assoc dest), <- (Z.add_assoc src).
  apply IH; [|lia..]. rewrite chunk_fwd_view. apply (moved_up m0 dest src len); auto; lia.
Qed.

Lemma chunks_back_view m0 dest src len (Hd : src <= dest) k : forall a p,
  view p ≡ moved m0 dest src a len -> 128 * Z.of_nat k <= a <= len ->
  view (chunks_back k (dest + a) (src + a) p) ≡ moved m0 dest src (a - 128 * Z.of_nat k) len.
Proof.
  induction k as [|k IH]; intros a p Hp Ha; cbn [chunks_back]; [by rewrite Z.mul_0_r, Z.sub_0_r|].
  replace (a - 128 * Z.of_nat (S k)) with (a - 128 - 128 * Z.of_nat k) by lia.
  rewrite <- (Z.add_sub_assoc dest), <- (Z.add_sub_assoc src). apply IH; [|lia].
  rewrite chunk_back_view. apply moved_down; auto; lia.
Qed.

(** How [len] splits into chunks, 16-byte units, dwords and bytes. *)
Lemma split_len len :
  0 <= len ->
  let c := Z.shiftr len CHUNK_SHIFT in let r := Z.land len CHUNK_MASK in
  let x := Z.shiftr r MOVNT_SHIFT in let r' := Z.land r MOVNT_MASK in
  let w := Z.shiftr r' DWORD_SHIFT in let t := Z.land r' DWORD_MASK in
  len = 128 * c + r /\ r = 16 * x + r' /\ r' = 4 * w + t /\
  0 <= c /\ 0 <= r < 128 /\ 0 <= x < 8 /\ 0 <= r' < 16 /\ 0 <= w < 4 /\ 0 <= t < 4.
Proof.
  intros H. cbv zeta. unfold CHUNK_SHIFT, CHUNK_MASK, CHUNK_SIZE, MOVNT_SHIFT, MOVNT_MASK, DWORD_SHIFT, DWORD_MASK.
  change (128 - 1) with (Z.ones 7). change (16 - 1) with (Z.ones 4). change (4 - 1) with (Z.ones 2).
  rewrite !Z.land_ones, !Z.shiftr_div_pow2 by lia.
  change (2 ^ 7) with 128. change (2 ^ 4) with 16. change (2 ^ 2) with 4.
  Z.to_euclidean_division_equations. lia.
Qed.

Lemma align_cnt z : Z.land z ALIGN_MASK = z mod 64.
Proof. unfold ALIGN_MASK, FLUSH_ALIGN. change (64 - 1) with (Z.ones 6). by rewrite Z.land_ones. Qed.

(** ** memmove *)

(** A guard that skips nothing: with nothing left the loop runs zero times. *)
Lemma skip_empty {A} (len : Z) (a b : A) : (len = 0 -> a = b) -> (if negb (len =? 0) then a else b) = a.
Proof. intros H. destruct (Z.eqb_spec len 0); cbn; [|done]. symmetry. auto. Qed.

Section Forward.
Context (f : funcs) (m0 : mem) (dest src len : Z).
Context (Hdest : 0 <= dest) (Hlen : 0 <= len) (Hend : dest + len + 128 <= 2 ^ 64).
Context (Hd : disjoint_fwd dest src len).
Local Abbreviation at_ b := (moved m0 dest src 0 b).

(** The number of bytes before the first line boundary. *)
Definition head_len : Z := if 0 <? dest mod 64 then Z.min len (64 - dest mod 64) else 0.

Lemma head_len_range : 0 <= head_len <= len /\ head_len < 64.
Proof. unfold head_len. pose proof (Z.mod_pos_bound dest 64 ltac:(lia)). zcase; lia. Qed.

Lemma head_fwd_eq p :
  head_fwd f dest src len p =
  (dest + head_len, src + head_len, len - head_len,
   if 0 <? dest mod 64 then pmem_flush f (dest + head_len) head_len (bytes_fwd (Z.to_nat head_len) dest src p) else p).
Proof.
  unfold head_fwd, head_len, FLUSH_ALIGN. rewrite align_cnt. zcase; [|by rewrite !Z.add_0_r, Z.sub_0_r].
  cbv zeta. assert ((if len <? 64 - dest mod 64 then len else 64 - dest mod 64) = Z.min len (64 - dest mod 64)) as ->
    by (zcase; lia). done.
Qed.

Lemma head_fwd_view p :
  view p ≡ m0 -> view (head_fwd f dest src len p).2 ≡ at_ head_len.
Proof.
  intros Hp. rewrite head_fwd_eq. cbn [snd]. pose proof head_len_range.
  pose proof (bytes_fwd_view m0 dest src len Hd (Z.to_nat head_len) 0 p (moved_none _ _ _ 0 _ Hp) ltac:(lia) ltac:(lia)) as Hv.
  rewrite !Z.add_0_r, Z.add_0_l, Z2Nat.id in Hv by lia. zcase.
  - by rewrite pmem_flush_view by lia.
  - unfold head_len. ztrue. by apply moved_none.
Qed.

Lemma tail_fwd_view b n p :
  view p ≡ at_ b -> 0 <= b -> 0 <= n < 16 -> b + n = len ->
  view (tail_fwd f (dest + b) (src + b) n p) ≡ at_ len.
Proof.
  intros Hp Hb Hn Hl. unfold tail_fwd. destruct (Z.eqb_spec n 0); cbn [negb].
  { by replace len with b by lia. }
  assert (n = 4 * Z.shiftr n DWORD_SHIFT + Z.land n DWORD_MASK /\ 0 <= Z.shiftr n DWORD_SHIFT /\ 0 <= Z.land n DWORD_MASK < 4) as Hs.
  { unfold DWORD_SHIFT, DWORD_MASK. change (4 - 1) with (Z.ones 2). rewrite Z.land_ones, Z.shiftr_div_pow2 by lia.
    change (2 ^ 2) with 4. Z.to_euclidean_division_equations. lia. }
  cbv zeta. set (w := Z.shiftr n DWORD_SHIFT) in *. set (t := Z.land n DWORD_MASK) in *.
  rewrite pmem_flush_view by lia. rewrite <- (Z.add_assoc dest), <- (Z.add_assoc src).
  replace len with (b + 4 * w + Z.of_nat (Z.to_nat t)) by lia.
  apply (bytes_fwd_view m0 dest src len Hd); [|lia..].
  replace (b + 4 * w) with (b + 4 * Z.of_nat (Z.to_nat w)) at 1 by lia.
  apply (units_fwd_view m0 dest src len Hd); auto; lia.
Qed.

Lemma memmove_fwd_view p : view p ≡ m0 -> view (memmove_fwd f dest src len p) ≡ at_ len.
Proof.
  intros Hp. unfold memmove_fwd. pose proof head_len_range as Hh. pose proof (head_fwd_view p Hp) as Hq.
  rewrite head_fwd_eq in Hq |- *. cbn [snd] in Hq. set (q := if 0 <? dest mod 64 then _ else _) in *.
  set (b := head_len) in *. pose proof (split_len (len - b) ltac:(lia)) as Hs. cbv zeta in Hs |- *.
  set (c := Z.shiftr (len - b) CHUNK_SHIFT) in *. set (r := Z.land (len - b) CHUNK_MASK) in *.
  set (x := Z.shiftr r MOVNT_SHIFT) in *. set (r' := Z.land r MOVNT_MASK) in *.
  pose proof (chunks_fwd_view m0 dest src len Hd (Z.to_nat c) b q Hq ltac:(lia) ltac:(lia)) as Hc.
  rewrite Z2Nat.id in Hc by lia. rewrite skip_empty.
  2: { intros Hr. assert (x = 0) as -> by lia. by rewrite Z.mul_0_r, !Z.add_0_r. }
  pose proof (units_fwd_view m0 dest src len Hd 16 (Z.to_nat x) _ _ ltac:(lia) Hc ltac:(lia) ltac:(lia)) as Hu.
  rewrite Z2Nat.id in Hu by lia. rewrite <- !(Z.add_assoc dest), <- !(Z.add_assoc src).
  apply tail_fwd_view; [|lia..]. by rewrite !Z.add_assoc in Hu |- *.
Qed.
End Forward.

Section Backward.
Context (f : funcs) (m0 : mem) (dest src len : Z).
Context (Hdest : 0 <= dest) (Hlen : 0 <= len) (Hend : dest + len + 128 <= 2 ^ 64).
Context (Hd : src <= dest).
Local Abbreviation at_ a := (moved m0 dest src a len).

(** Where the bytes after the last line boundary start. *)
Definition head_at : Z := len - Z.min len ((dest + len) mod 64).

Lemma head_at_range : 0 <= head_at <= len /\ len - head_at < 64.
Proof. unfold head_at. pose proof (Z.mod_pos_bound (dest + len) 64 ltac:(lia)). lia. Qed.

Lemma head_back_eq p :
  head_back f (dest + len) (src + len) len p =
  (dest + head_at, src + head_at, head_at,
   if 0 <? (dest + len) mod 64
   then pmem_flush f (dest + head_at) (len - head_at) (bytes_back (Z.to_nat (len - head_at)) (dest + len) (src + len) p)
   else p).
Proof.
  unfold head_back, head_at, FLUSH_ALIGN. rewrite align_cnt.
  pose proof (Z.mod_pos_bound (dest + len) 64 ltac:(lia)). zcase; cbv zeta.
  - assert ((if len <? (dest + len) mod 64 then len else (dest + len) mod 64) = Z.min len ((dest + len) mod 64)) as ->
      by (zcase; lia).
    rewrite !Z.add_sub_assoc. replace (len - (len - Z.min len ((dest + len) mod 64))) with (Z.min len ((dest + len) mod 64)) by lia.
    done.
  - replace ((dest + len) mod 64) with 0 by lia. rewrite Z.min_r, Z.sub_0_r by lia. done.
Qed.

Lemma head_back_view p :
  view p ≡ m0 -> view (head_back f (dest + len) (src + len) len p).2 ≡ at_ head_at.
Proof.
  intros Hp. rewrite head_back_eq. cbn [snd]. pose proof head_at_range.
  pose proof (bytes_back_view m0 dest src len Hd (Z.to_nat (len - head_at)) len p (moved_none _ _ _ len _ Hp) ltac:(lia)) as Hv.
  rewrite Z2Nat.id in Hv by lia. replace (len - (len - head_at)) with head_at in Hv by lia. zcase.
  - by rewrite pmem_flush_view by lia.
  - pose proof (Z.mod_pos_bound (dest + len) 64 ltac:(lia)).
    replace head_at with len by (unfold head_at; lia). by apply moved_none.
Qed.

Lemma tail_back_view a p :
  view p ≡ at_ a -> 0 <= a < 16 -> a <= len -> view (tail_back f (dest + a) (src + a) a p) ≡ at_ 0.
Proof.
  intros Hp Ha Hl. unfold tail_back. destruct (Z.eqb_spec a 0) as [->|]; cbn [negb]; [done|].
  assert (a = 4 * Z.shiftr a DWORD_SHIFT + Z.land a DWORD_MASK /\ 0 <= Z.shiftr a DWORD_SHIFT /\ 0 <= Z.land a DWORD_MASK < 4) as Hs.
  { unfold DWORD_SHIFT, DWORD_MASK. change (4 - 1) with (Z.ones 2). rewrite Z.land_ones, Z.shiftr_div_pow2 by lia.
    change (2 ^ 2) with 4. Z.to_euclidean_division_equations. lia. }
  cbv zeta. set (w := Z.shiftr a DWORD_SHIFT) in *. set (t := Z.land a DWORD_MASK) in *.
  rewrite pmem_flush_view by lia. rewrite <- (Z.add_sub_assoc dest), <- (Z.add_sub_assoc src).
  replace 0 with (a - 4 * w - Z.of_nat (Z.to_nat t)) by lia.
  apply (bytes_back_view m0 dest src len Hd); [|lia..].
  replace (a - 4 * w) with (a - 4 * Z.of_nat (Z.to_nat w)) at 1 by lia.
  apply (units_back_view m0 dest src len Hd); auto; lia.
Qed.

Lemma memmove_back_view p : view p ≡ m0 -> view (memmove_back f dest src len p) ≡ at_ 0.
Proof.
  intros Hp. unfold memmove_back. cbv zeta. pose proof head_at_range as Hh. pose proof (head_back_view p Hp) as Hq.
  rewrite head_back_eq in Hq |- *. cbn [snd] in Hq. set (q := if 0 <? (dest + len) mod 64 then _ else _) in *.
  set (a := head_at) in *. pose proof (split_len a ltac:(lia)) as Hs. cbv zeta in Hs |- *.
  set (c := Z.shiftr a CHUNK_SHIFT) in *. set (r := Z.land a CHUNK_MASK) in *.
  set (x := Z.shiftr r MOVNT_SHIFT) in *. set (r' := Z.land r MOVNT_MASK) in *.
  pose proof (chunks_back_view m0 dest src len Hd (Z.to_nat c) a q Hq ltac:(lia)) as Hc.
  rewrite Z2Nat.id in Hc by lia. rewrite skip_empty.
  2: { intros Hr. assert (x = 0) as -> by lia. by rewrite Z.mul_0_r, !Z.sub_0_r. }
  pose proof (units_back_view m0 dest src len Hd 16 (Z.to_nat x) _ _ ltac:(lia) Hc ltac:(lia)) as Hu.
  rewrite Z2Nat.id in Hu by lia. rewrite <- !(Z.add_sub_assoc dest), <- !(Z.add_sub_assoc src).
  replace (a - 128 * c - 16 * x) with r' in Hu |- * by lia.
  by apply tail_back_view; [|lia..].
Qed.
End Backward.

Lemma memmove_nodrain_movnt_view f dest src len p :
  0 <= dest -> 0 <= src -> 0 <= len -> dest + len + 128 <= 2 ^ 64 -> src + len <= 2 ^ 64 ->
  view (memmove_nodrain_movnt f dest src len p).2 ≡ mwrite (view p) dest (mread (view p) src len).
Proof.
  intros Hd Hs Hl He He'. apply moved_all; [done|]. unfold memmove_nodrain_movnt, u64.
  destruct (Z.eqb_spec len 0) as [->|]; cbn [snd]; [by apply moved_none|].
  destruct (Z.eqb_spec src dest) as [->|]; cbn [snd].
  { intros z. unfold moved. case_match; [f_equal; lia|done]. }
  destruct (Z.le_gt_cases src dest).
  - rewrite Z.mod_small by lia. zcase; cbn [snd].
    + apply memmove_fwd_view; [done..|right; lia|done].
    + apply memmove_back_view; done.
  - rewrite <- (Z.mod_add _ 1) by lia. rewrite Z.mod_small by lia. ztrue. cbn [snd].
    apply memmove_fwd_view; [done..|left; lia|done].
Qed.


(** ** What the copy routines leave queued *)

Lemma in_range_sub a n a' n' w :
  in_range a n w = false -> a <= a' -> a' + n' <= a + n -> in_range a' n' w = false.
Proof.
  unfold in_range. intros H ? ?. apply andb_false_iff. bools. rewrite !Z.ltb_ge.
  destruct H; bools; lia.
Qed.

Lemma in_range_split a n k w :
  in_range a n w = true -> in_range a k w = true \/ in_range (a + k) (n - k) w = true.
Proof.
  unfold in_range. intros H. bools. rewrite !andb_true_iff, !Z.ltb_lt. lia.
Qed.

(** The instructions of a routine: well-formedness, and the words it keeps or puts in the queue. *)
Record carries (p q : pm) (keep put : Z -> Prop) : Prop := {
  ca_wf : pm_wf p -> pm_wf q;
  ca_keep : forall w, pm_wf p -> keep w -> queued p w -> queued q w;
  ca_put : forall w, pm_wf p -> put w -> queued q w;
}.

Definition any (w : Z) : Prop := True.
Definition none (w : Z) : Prop := False.
Definition inside (a n w : Z) : Prop := 0 < n /\ in_range a n w = true.
Definition outside (a n w : Z) : Prop := in_range a n w = false.

Lemma carries_refl p keep : carries p p keep none.
Proof. by split. Qed.

Lemma carries_weak p q keep put (keep' put' : Z -> Prop) :
  carries p q keep put -> (forall w, keep' w -> keep w) -> (forall w, put' w -> put w) -> carries p q keep' put'.
Proof. intros [? ? ?] Hk Hp. split; eauto. Qed.

(** What the second keeps of what the first put, and what the second puts. *)
Lemma carries_trans p q r k1 u1 k2 u2 (keep put : Z -> Prop) :
  carries p q k1 u1 -> carries q r k2 u2 ->
  (forall w, keep w -> (k1 w /\ k2 w) \/ u2 w) ->
  (forall w, put w -> (u1 w /\ k2 w) \/ u2 w) ->
  carries p r keep put.
Proof.
  intros [A1 B1 C1] [A2 B2 C2] Hk Hp. split; [eauto|..].
  - intros w Hwf Hw Hq. destruct (Hk w Hw) as [[? ?]|?]; eauto.
  - intros w Hwf Hw. destruct (Hp w Hw) as [[? ?]|?]; eauto.
Qed.

Lemma carries_store p d bs n : n = Z.of_nat (length bs) -> carries p (store p d bs) (outside d n) none.
Proof.
  intros ->. split; [by apply exec_wf| |done].
  intros w _ Hw Hq. by apply store_queued.
Qed.

Lemma carries_stream p d bs n : n = Z.of_nat (length bs) -> carries p (stream p d bs) any (inside d n).
Proof.
  intros ->. split; [by apply exec_wf|..]; intros w _ Hw; [intros Hq|destruct Hw]; apply stream_queued; auto.
Qed.

Lemma carries_flush f p d n :
  0 <= d -> 0 <= n -> d + n + 64 <= 2 ^ 64 -> carries p (pmem_flush f d n p) any (inside d n).
Proof.
  intros. split; [by apply pmem_flush_wf|..].
  - intros w Hwf _ Hq. apply pmem_flush_queued; auto.
  - intros w Hwf [_ Hw]. apply pmem_flush_queued; auto.
Qed.

Lemma carries_bytes_fwd k : forall d s p, carries p (bytes_fwd k d s p) (outside d (Z.of_nat k)) none.
Proof.
  induction k as [|k IH]; intros d s p; cbn [bytes_fwd]; [apply carries_refl|].
  eapply carries_trans; [by apply (carries_store _ d (load p s 1) 1)|apply IH|..]; [|done].
  intros w Hw. left. split; eapply in_range_sub; try exact Hw; lia.
Qed.

Lemma carries_bytes_back k : forall d s p,
  carries p (bytes_back k d s p) (outside (d - Z.of_nat k) (Z.of_nat k)) none.
Proof.
  induction k as [|k IH]; intros d s p; cbn [bytes_back]; [apply carries_refl|].
  eapply carries_trans; [by apply (carries_store _ (d - 1) (load p (s - 1) 1) 1)|apply IH|..]; [|done].
  intros w Hw. left. split; eapply in_range_sub; try exact Hw; lia.
Qed.

Lemma inside_split a n k w : inside a n w -> 0 <= k <= n -> inside a k w \/ inside (a + k) (n - k) w.
Proof.
  intros [Hn Hw] Hk. unfold inside, in_range in *. bools. rewrite !andb_true_iff, !Z.ltb_lt. lia.
Qed.

Lemma inside_outside a n w : outside a n w \/ inside a n w \/ n <= 0.
Proof. unfold inside, outside. destruct (in_range a n w); [|by left]. right. lia. Qed.

Lemma carries_units_fwd u k : forall d s p,
  0 < u -> carries p (units_fwd u k d s p) any (inside d (u * Z.of_nat k)).
Proof.
  induction k as [|k IH]; intros d s p Hu; cbn [units_fwd].
  - eapply carries_weak; [apply (carries_refl _ any)|done|]. intros w [? _]. lia.
  - eapply carries_trans; [apply (carries_stream _ d (load p s u) u)|by apply IH|..].
    + unfold load. rewrite length_mread. lia.
    + by left.
    + intros w Hw. destruct (inside_split _ _ u w Hw) as [?|Hr]; [nia|left; done|].
      right. by replace (u * Z.of_nat (S k) - u) with (u * Z.of_nat k) in Hr by lia.
Qed.

Lemma carries_units_back u k : forall d s p,
  0 < u -> carries p (units_back u k d s p) any (inside (d - u * Z.of_nat k) (u * Z.of_nat k)).
Proof.
  induction k as [|k IH]; intros d s p Hu; cbn [units_back].
  - eapply carries_weak; [apply (carries_refl _ any)|done|]. intros w [? _]. lia.
  - eapply carries_trans; [apply (carries_stream _ (d - u) (load p (s - u) u) u)|by apply IH|..].
    + unfold load. rewrite length_mread. lia.
    + by left.
    + intros w Hw. destruct (inside_split _ _ (u * Z.of_nat k) w Hw) as [Hr|Hr]; [nia|right|left; split; [|done]].
      * by replace (d - u - u * Z.of_nat k) with (d - u * Z.of_nat (S k)) by lia.
      * replace (d - u * Z.of_nat (S k) + u * Z.of_nat k) with (d - u) in Hr by lia.
        by replace (u * Z.of_nat (S k) - u * Z.of_nat k) with u in Hr by lia.
Qed.

Lemma carries_streams_fold (g : Z -> Z) (x : Z -> list byte) l : forall p,
  (forall k, length (x k) = 16%nat) ->
  carries p (fold_left (fun q '(k, x) => stream q (g k) x) (map (fun k => (k, x k)) l) p) any
    (fun w => exists k, k ∈ l /\ inside (g k) 16 w).
Proof.
  induction l as [|k l IH]; intros p Hx; cbn [map fold_left].
  - eapply carries_weak; [apply (carries_refl _ any)|done|]. intros w (k & Hk & _). by apply elem_of_nil in Hk.
  - eapply carries_trans; [apply (carries_stream _ (g k) (x k) 16); by rewrite Hx|by apply IH|by left|].
    intros w (j & Hj & Hw). apply elem_of_cons in Hj as [->|Hj]; [by left|right; eauto].
Qed.

Lemma inside_unit a (n : nat) w : inside a (16 * Z.of_nat n) w -> exists k, 0 <= k < Z.of_nat n /\ inside (a + 16 * k) 16 w.
Proof.
  revert a. induction n as [|n IH]; intros a Hw; [destruct Hw; lia|].
  destruct (inside_split a _ 16 w Hw) as [H|H]; [lia|exists 0; split; [lia|by rewrite Z.mul_0_r, Z.add_0_r]|].
  replace (16 * Z.of_nat (S n) - 16) with (16 * Z.of_nat n) in H by lia.
  destruct (IH _ H) as (k & Hk & Hi). exists (k + 1). split; [lia|].
  by replace (a + 16 * (k + 1)) with (a + 16 + 16 * k) by lia.
Qed.

Lemma carries_chunk_fwd d s p : carries p (chunk_fwd d s p) any (inside d 128).
Proof.
  eapply carries_weak; [apply (carries_streams_fold (fun k => d + 16 * k) (fun k => load p (s + 16 * k) 16))|done|].
  - done.
  - intros w Hw. destruct (inside_unit d 8 w Hw) as (k & Hk & Hi). exists k. split; [|done].
    change [0; 1; 2; 3; 4; 5; 6; 7] with (seqZ 0 8). apply elem_of_seqZ. lia.
Qed.

Lemma carries_chunk_back d s p : carries p (chunk_back d s p) any (inside (d - 128) 128).
Proof.
  eapply carries_weak; [apply (carries_streams_fold (fun k => d - 16 * k) (fun k => load p (s - 16 * k) 16))|done|].
  - done.
  - intros w Hw. destruct (inside_unit _ 8 w Hw) as (k & Hk & Hi). exists (8 - k). split.
    + change [1; 2; 3; 4; 5; 6; 7; 8] with (seqZ 1 8). apply elem_of_seqZ. lia.
    + by replace (d - 16 * (8 - k)) with (d - 128 + 16 * k) by lia.
Qed.

Lemma carries_chunks_fwd k : forall d s p, carries p (chunks_fwd k d s p) any (inside d (128 * Z.of_nat k)).
Proof.
  induction k as [|k IH]; intros d s p; cbn [chunks_fwd].
  - eapply carries_weak; [apply (carries_refl _ any)|done|]. intros w [? _]. lia.
  - eapply carries_trans; [apply carries_chunk_fwd|apply IH|by left|].
    intros w Hw. destruct (inside_split _ _ 128 w Hw) as [?|Hr]; [lia|left; done|].
    right. by replace (128 * Z.of_nat (S k) - 128) with (128 * Z.of_nat k) in Hr by lia.
Qed.

Lemma carries_chunks_back k : forall d s p,
  carries p (chunks_back k d s p) any (inside (d - 128 * Z.of_nat k) (128 * Z.of_nat k)).
Proof.
  induction k as [|k IH]; intros d s p; cbn [chunks_back].
  - eapply carries_weak; [apply (carries_refl _ any)|done|]. intros w [? _]. lia.
  - eapply carries_trans; [apply carries_chunk_back|apply IH|by left|].
    intros w Hw. destruct (inside_split _ _ (128 * Z.of_nat k) w Hw) as [Hr|Hr]; [lia|right|left; split; [|done]].
    + by replace (d - 128 - 128 * Z.of_nat k) with (d - 128 * Z.of_nat (S k)) by lia.
    + replace (d - 128 * Z.of_nat (S k) + 128 * Z.of_nat k) with (d - 128) in Hr by lia.
      by replace (128 * Z.of_nat (S k) - 128 * Z.of_nat k) with 128 in Hr by lia.
Qed.

(** Ordinary stores followed by a flush that covers the words they touched. *)
Lemma carries_patch f p q e t d n :
  carries p q (outside e t) none -> 0 <= d -> 0 <= n -> d + n + 64 <= 2 ^ 64 ->
  0 <= t -> (t = 0 -> q = p) -> (forall w, inside e t w -> inside d n w) ->
  carries p (pmem_flush f d n q) any (inside e t).
Proof.
  intros Hc Hd Hn H64 Ht H0 Hsub. destruct (Z.eq_dec t 0) as [Hz|Hz].
  - rewrite (H0 Hz). eapply carries_weak; [by apply carries_flush|done|]. intros w [? _]. lia.
  - eapply carries_trans; [exact Hc|by apply carries_flush|..].
    + intros w _. destruct (inside_outside e t w) as [?|[?|?]]; [by left|right; by apply Hsub|lia].
    + intros w Hw. right. by apply Hsub.
Qed.

Lemma dword_split n :
  0 <= n < 16 ->
  n = 4 * Z.shiftr n DWORD_SHIFT + Z.land n DWORD_MASK /\ 0 <= Z.shiftr n DWORD_SHIFT /\ 0 <= Z.land n DWORD_MASK < 4.
Proof.
  intros Hn. unfold DWORD_SHIFT, DWORD_MASK. change (4 - 1) with (Z.ones 2). rewrite Z.land_ones, Z.shiftr_div_pow2 by lia.
  change (2 ^ 2) with 4. Z.to_euclidean_division_equations. lia.
Qed.

(** Fewer than four bytes after a multiple of four lie in one word with what follows them. *)
Lemma inside_past e t w : e mod 4 = 0 -> t < 4 -> inside e t w -> inside (e + t) t w.
Proof.
  intros He Ht [H0 Hw]. unfold inside, in_range in *. bools.
  pose proof (Z.div_mod e 4 ltac:(lia)). rewrite andb_true_iff, !Z.ltb_lt.
  split_and!; [lia..|]. destruct (Z.lt_ge_cases (e + t) (8 * w + 8)); [done|]. lia.
Qed.

Lemma carries_tail_fwd f d s n p :
  0 <= d -> d mod 4 = 0 -> 0 <= n < 16 -> d + n + 128 <= 2 ^ 64 ->
  carries p (tail_fwd f d s n p) any (inside d n).
Proof.
  intros Hd Hm Hn H64. unfold tail_fwd. destruct (Z.eqb_spec n 0); cbn [negb].
  { eapply carries_weak; [apply (carries_refl _ any)|done|]. intros w [? _]. lia. }
  pose proof (dword_split n Hn) as Hs. cbv zeta.
  set (w := Z.shiftr n DWORD_SHIFT) in *. set (t := Z.land n DWORD_MASK) in *.
  pose proof (carries_bytes_fwd (Z.to_nat t) (d + 4 * w) (s + 4 * w) (units_fwd 4 (Z.to_nat w) d s p)) as Hb.
  rewrite Z2Nat.id in Hb by lia.
  eapply carries_trans; [by apply (carries_units_fwd 4)| |..].
  - apply (carries_patch f _ _ _ _ (d + 4 * w + t) t Hb); try lia.
    + intros ->. done.
    + intros v. apply inside_past; [|lia]. rewrite Z.mul_comm, Z.mod_add by lia. done.
  - by left.
  - intros v Hv. rewrite Z2Nat.id by lia. destruct (inside_split _ _ (4 * w) v Hv) as [?|Hr]; [lia|by left|right].
    by replace (n - 4 * w) with t in Hr by lia.
Qed.

Lemma mod64_mod4 d : d mod 64 = 0 -> d mod 4 = 0.
Proof. intros H. Z.to_euclidean_division_equations. lia. Qed.

(** Forward copies that start at a line boundary. *)
Lemma carries_memmove_fwd f dest src len p :
  0 <= dest -> 0 <= len -> dest + len + 256 <= 2 ^ 64 -> dest mod 64 = 0 ->
  carries p (memmove_fwd f dest src len p) any (inside dest len).
Proof.
  intros Hd Hl He Hm. unfold memmove_fwd. rewrite head_fwd_eq. unfold head_len. rewrite Hm. cbn [Z.ltb Z.compare].
  rewrite !Z.add_0_r, Z.sub_0_r. pose proof (split_len len ltac:(lia)) as Hs. cbv zeta in Hs |- *.
  set (c := Z.shiftr len CHUNK_SHIFT) in *. set (r := Z.land len CHUNK_MASK) in *.
  set (x := Z.shiftr r MOVNT_SHIFT) in *. set (r' := Z.land r MOVNT_MASK) in *.
  rewrite skip_empty. 2: { intros Hr. assert (x = 0) as -> by lia. by rewrite Z.mul_0_r, !Z.add_0_r. }
  apply (carries_trans p (chunks_fwd (Z.to_nat c) dest src p) _ any (inside dest (128 * c)) any (inside (dest + 128 * c) r));
    [| |by left|].
  - pose proof (carries_chunks_fwd (Z.to_nat c) dest src p) as Hc. by rewrite Z2Nat.id in Hc by lia.
  - eapply carries_trans; [by apply (carries_units_fwd 16)|apply carries_tail_fwd; try lia|by left|].
    + replace (dest + 128 * c + 16 * x) with (dest + (32 * c + 4 * x) * 4) by lia. rewrite Z.mod_add by lia.
      apply mod64_mod4, Hm.
    + intros w Hw. rewrite Z2Nat.id by lia. destruct (inside_split _ _ (16 * x) w Hw) as [?|Hr']; [lia|by left|right].
      by replace (r - 16 * x) with r' in Hr' by lia.
  - intros w Hw. destruct (inside_split _ _ (128 * c) w Hw) as [?|Hr]; [lia|by left|right].
    by replace (len - 128 * c) with r in Hr by lia.
Qed.

(** A copy inside one line: the flush after it reaches that line. *)
Lemma carries_memmove_short f dest src len p :
  0 <= dest -> 0 <= len -> dest + len + 256 <= 2 ^ 64 -> 0 < dest mod 64 -> dest mod 64 + len < 64 ->
  carries p (memmove_fwd f dest src len p) none (inside dest len).
Proof.
  intros Hd Hl He Hm Hs. unfold memmove_fwd. rewrite head_fwd_eq. unfold head_len. ztrue.
  rewrite Z.min_l by lia. rewrite Z.sub_diag. cbn [Z.shiftr Z.shiftl Z.land]. cbn.
  pose proof (carries_bytes_fwd (Z.to_nat len) dest src p) as [A B C].
  set (q := bytes_fwd (Z.to_nat len) dest src p) in *.
  split; [intros; apply pmem_flush_wf; auto; lia|done|]. intros w Hwf [H0 Hw].
  rewrite pmem_flush_lines by lia. apply flushes_queued; [auto|apply lines_flush|right].
  apply Exists_exists. exists (flush_insn f (64 * (dest / 64))). 
  unfold in_range in Hw. bools.
  pose proof (Z.div_mod dest 64 ltac:(lia)). pose proof (howmany_spec (dest + len + len) 64 ltac:(lia) ltac:(lia)).
  assert ((dest + len) / 64 = dest / 64) as E by (symmetry; apply (Z.div_unique _ _ _ (dest mod 64 + len)); lia).
  split.
  - apply (list_elem_of_fmap_2 (fun i => flush_insn f (64 * i))). apply elem_of_seqZ. lia.
  - assert (same_line (64 * (dest / 64)) w = true).
    { unfold same_line, line_of_word. rewrite (Z.mul_comm 64), Z.div_mul by lia. apply Z.eqb_eq. symmetry.
      apply (Z.div_unique _ _ _ (w - 8 * (dest / 64))); lia. }
    unfold flush_insn. by destruct (Func_flush f).
Qed.

Lemma carries_tail_back f d s n p :
  0 <= d - n -> 0 <= n < 16 -> d + 128 <= 2 ^ 64 ->
  carries p (tail_back f d s n p) any (inside (d - n) n).
Proof.
  intros Hd Hn H64. unfold tail_back. destruct (Z.eqb_spec n 0); cbn [negb].
  { eapply carries_weak; [apply (carries_refl _ any)|done|]. intros w [? _]. lia. }
  pose proof (dword_split n Hn) as Hs. cbv zeta.
  set (w := Z.shiftr n DWORD_SHIFT) in *. set (t := Z.land n DWORD_MASK) in *.
  pose proof (carries_bytes_back (Z.to_nat t) (d - 4 * w) (s - 4 * w) (units_back 4 (Z.to_nat w) d s p)) as Hb.
  rewrite Z2Nat.id in Hb by lia.
  pose proof (carries_units_back 4 (Z.to_nat w) d s p ltac:(lia)) as Hu. rewrite Z2Nat.id in Hu by lia.
  eapply carries_trans; [exact Hu|apply (carries_patch f _ _ _ _ (d - 4 * w - t) t Hb); try lia|by left|].
  - intros ->. done.
  - done.
  - intros v Hv. destruct (inside_split _ _ t v Hv) as [Hr|Hr]; [lia|right|left; split; [|done]].
    + by replace (d - 4 * w - t) with (d - n) by lia.
    + replace (d - n + t) with (d - 4 * w) in Hr by lia. by replace (n - t) with (4 * w) in Hr by lia.
Qed.

Lemma carries_memmove_back f dest src len p :
  0 <= dest -> 0 <= len -> dest + len + 256 <= 2 ^ 64 ->
  carries p (memmove_back f dest src len p) any (inside dest len).
Proof.
  intros Hd Hl He. unfold memmove_back. cbv zeta. rewrite head_back_eq by lia.
  pose proof (head_at_range dest len ltac:(lia)) as Hh.
  set (q := if 0 <? (dest + len) mod 64 then _ else _).
  assert (carries p q any (inside (dest + head_at dest len) (len - head_at dest len))) as Hq.
  { unfold q. zcase.
    - pose proof (carries_bytes_back (Z.to_nat (len - head_at dest len)) (dest + len) (src + len) p) as Hb.
      rewrite Z2Nat.id in Hb by lia. replace (dest + len - (len - head_at dest len)) with (dest + head_at dest len) in Hb by lia.
      apply (carries_patch f _ _ _ _ _ _ Hb); try lia; [|done]. intros E. by rewrite E.
    - eapply carries_weak; [apply (carries_refl _ any)|done|]. intros w [? _].
      pose proof (Z.mod_pos_bound (dest + len) 64 ltac:(lia)). unfold head_at in *. lia. }
  clearbody q. set (a := head_at dest len) in *. pose proof (split_len a ltac:(lia)) as Hs. cbv zeta in Hs |- *.
  set (c := Z.shiftr a CHUNK_SHIFT) in *. set (r := Z.land a CHUNK_MASK) in *.
  set (x := Z.shiftr r MOVNT_SHIFT) in *. set (r' := Z.land r MOVNT_MASK) in *.
  rewrite skip_empty. 2: { intros Hr. assert (x = 0) as -> by lia. by rewrite Z.mul_0_r, !Z.sub_0_r. }
  pose proof (carries_chunks_back (Z.to_nat c) (dest + a) (src + a) q) as Hc. rewrite Z2Nat.id in Hc by lia.
  set (q1 := chunks_back _ _ _ _) in *.
  pose proof (carries_units_back 16 (Z.to_nat x) (dest + a - 128 * c) (src + a - 128 * c) q1 ltac:(lia)) as Hu.
  rewrite Z2Nat.id in Hu by lia. set (q2 := units_back _ _ _ _ _) in *.
  pose proof (carries_tail_back f (dest + a - 128 * c - 16 * x) (src + a - 128 * c - 16 * x) r' q2
    ltac:(lia) ltac:(lia) ltac:(lia)) as Ht.
  replace (dest + a - 128 * c - 16 * x - r') with dest in Ht by lia.
  eapply carries_trans; [exact Hq|eapply carries_trans; [exact Hc|eapply carries_trans; [exact Hu|exact Ht|by left|]|by left|]|by left|].
  - intros w Hw. exact Hw.
  - intros w Hw. exact Hw.
  - intros w Hw. destruct (inside_split dest len a w Hw) as [H1|H1]; [lia| |by left].
    right. destruct (inside_split dest a r w H1) as [H2|H2]; [lia| |].
    + right. destruct (inside_split dest r r' w H2) as [H3|H3]; [lia|by right|left; split; [|done]].
      replace (dest + a - 128 * c - 16 * x) with (dest + r') by lia. by replace (16 * x) with (r - r') by lia.
    + left; split; [|done]. replace (dest + a - 128 * c) with (dest + r) by lia. by replace (128 * c) with (a - r) by lia.
Qed.

(** The copies whose every byte the non-temporal routine stores or flushes. *)
Definition covered (dest src len : Z) : Prop :=
  u64 (dest - src) < len \/ dest mod 64 = 0 \/ dest mod 64 + len < 64.

Lemma memmove_movnt_queued f dest src len p w :
  pm_wf p -> 0 <= dest -> 0 < len -> dest + len + 256 <= 2 ^ 64 -> src <> dest -> covered dest src len ->
  in_range dest len w = true -> queued (memmove_nodrain_movnt f dest src len p).2 w.
Proof.
  intros Hwf Hd Hl He Hne Hc Hw. assert (inside dest len w) as Hi by done. unfold memmove_nodrain_movnt.
  rewrite (proj2 (Z.eqb_neq len 0)), (proj2 (Z.eqb_neq src dest)) by lia. zcase; cbn [snd].
  - pose proof (Z.mod_pos_bound dest 64 ltac:(lia)). destruct (Z.eq_dec (dest mod 64) 0).
    + eapply ca_put; [by apply carries_memmove_fwd; try lia|done|done].
    + destruct Hc as [?|[?|?]]; [lia|lia|]. eapply ca_put; [by apply carries_memmove_short; try lia|done|done].
  - eapply ca_put; [by apply carries_memmove_back; try lia|done|done].
Qed.

(** After [pmem_memmove_persist] the copy survives a power failure: always
    with the cached copy routine; with the non-temporal one when the drain has
    a fence and the copy runs backwards, starts at a cache-line boundary or
    stays inside one line. *)
Theorem pmem_memmove_durable (c : option cpu) (e : environ) (dest src len : Z) (p : pm) (m' : mem)
  (Hwf : pm_wf p) (Hd : 0 <= dest) (Hs : 0 <= src) (Hl : 0 < len)
  (He : dest + len + 256 <= 2 ^ 64) (He' : src + len <= 2 ^ 64)
  (Hm : Func_movnt (pmem_init c e) = true ->
        fenced (pmem_init c e) = true /\ src <> dest /\ covered dest src len)
  (Hcrash : crash_image (pmem_memmove_persist (pmem_init c e) dest src len p).2 m') :
  agree m' (mwrite (view p) dest (mread (view p) src len)) dest len.
Proof.
  set (f := pmem_init c e) in *. unfold pmem_memmove_persist, pmem_memmove_nodrain in Hcrash.
  destruct (Func_movnt f) eqn:Ef.
  - destruct (Hm eq_refl) as (Hf & Hne & Hc).
    pose proof (memmove_nodrain_movnt_view f dest src len p ltac:(lia) ltac:(lia) ltac:(lia) ltac:(lia) ltac:(lia)) as Hv.
    pose proof (fun w => memmove_movnt_queued f dest src len p w Hwf Hd Hl He Hne Hc) as Hq.
    destruct (memmove_nodrain_movnt f dest src len p) as [r q]. cbn [snd] in *.
    eapply agree_trans; [|intros z _; apply Hv]. rewrite <- (pmem_drain_view f q).
    apply settled_agree; [|done]. intros w Hw. apply pmem_drain_settles; auto.
  - unfold memmove_nodrain_normal in Hcrash. cbn [snd] in Hcrash.
    change (pmem_drain f (pmem_flush f dest len ?q)) with (pmem_persist f dest len q) in Hcrash.
    assert (view (pmem_persist f dest len (store p dest (load p src len))) = mwrite (view p) dest (mread (view p) src len)) as <-.
    { unfold pmem_persist. by rewrite pmem_drain_view, pmem_flush_view by lia. }
    apply settled_agree; [|done]. intros w Hw. apply pmem_init_normal_settles; try lia; [|done]. by apply exec_wf.
Qed.

(** CPUs with SSE2, and with CLWB or only CLFLUSH. *)
Definition cpu_clwb : cpu :=
  {| has_clflush := true; has_clwb := true; has_clflushopt := false; has_pcommit := false; has_sse2 := true |}.
Definition cpu_clflush : cpu :=
  {| has_clflush := true; has_clwb := false; has_clflushopt := false; has_pcommit := false; has_sse2 := true |}.
Definition env_plain : environ :=
  {| PMEM_NO_CLWB := false; PMEM_NO_CLFLUSHOPT := false; PMEM_NO_PCOMMIT := false; PMEM_NO_MOVNT := false;
     PMEM_IS_PMEM_FORCE := None |}.

(** The forward non-temporal copy flushes the bytes after its unaligned
    head instead of the head: four bytes copied to the end of a cache line with
    [pmem_memmove_persist] can be gone after a power failure. *)
Theorem pmem_memmove_head_lost :
  let f := pmem_init (Some cpu_clwb) env_plain in
  let m := mwrite (fun _ => x00) 0 [x01; x01; x01; x01] in
  let p := (pmem_memmove_persist f 124 0 4 (pm_of m)).2 in
  mread (view p) 124 4 = [x01; x01; x01; x01] /\
  crash_image p m /\ mread m 124 4 = [x00; x00; x00; x00].
Proof.
  set (m := mwrite _ _ _). cbv zeta. split; [by vm_compute|]. split; [|by vm_compute].
  set (q := bytes_fwd 4 124 0 (pm_of m)).
  change (crash_image (exec (exec q (IClwb 128)) ISfence) m). intros w. cbn [exec do_mark cand mark view].
  destruct (same_line 128 w) eqn:E.
  - exists (view q). split; [by left|]. apply agree_sym. intros z Hz.
    unfold same_line, line_of_word in E. apply Z.eqb_eq in E. change (128 / 64) with 2 in E.
    pose proof (Z.div_mod w 8 ltac:(lia)). pose proof (Z.mod_pos_bound w 8 ltac:(lia)).
    unfold q. cbn [bytes_fwd]. rewrite !store_view, !mwrite_out by (unfold load; rewrite length_mread; lia). done.
  - exists m. split; [|apply agree_refl]. cbn. set_solver.
Qed.

(** With non-temporal stores but neither CLWB, CLFLUSHOPT nor PCOMMIT the
    drain issues no fence: a cache-line aligned copy with
    [pmem_memmove_persist] can be gone after a power failure. *)
Theorem pmem_memmove_unfenced_lost :
  let f := pmem_init (Some cpu_clflush) env_plain in
  let m := mwrite (fun _ => x00) 0 (replicate 16 x01) in
  let p := (pmem_memmove_persist f 128 0 16 (pm_of m)).2 in
  mread (view p) 128 16 = replicate 16 x01 /\
  crash_image p m /\ mread m 128 16 = replicate 16 x00.
Proof.
  set (m := mwrite _ _ _). cbv zeta. split; [by vm_compute|]. split; [|by vm_compute].
  set (q := units_fwd 16 1 128 0 (pm_of m)). change (crash_image q m).
  intros w. exists m. split; [|apply agree_refl]. cbn. set_solver.
Qed.

(** ** memset *)

Lemma mwrite_fill m d c n z : 0 <= n -> mwrite m d (fill c n) z = if (d <=? z) && (z <? d + n) then z2b c else m z.
Proof.
  intros Hn. unfold mwrite, fill. rewrite length_replicate, Z2Nat.id by done.
  destruct (Z.leb_spec d z), (Z.ltb_spec z (d + n)); cbn; try done. apply nth_lookup_Some, lookup_replicate_2. lia.
Qed.

Lemma fill_up m d c a b :
  0 <= a -> 0 <= b -> mwrite (mwrite m d (fill c a)) (d + a) (fill c b) ≡ mwrite m d (fill c (a + b)).
Proof.
  intros Ha Hb z. rewrite !mwrite_fill by lia.
  destruct (Z.leb_spec (d + a) z), (Z.ltb_spec z (d + a + b)), (Z.leb_spec d z), (Z.ltb_spec z (d + a)),
    (Z.ltb_spec z (d + (a + b))); cbn; try lia; done.
Qed.

Lemma length_fill c n : 0 <= n -> Z.of_nat (length (fill c n)) = n.
Proof. intros. unfold fill. len. Qed.

(** A fill of [n] bytes at [d], visible and queued. *)
Definition fills (c : Z) (p : pm) (d n : Z) (q : pm) : Prop :=
  view q ≡ mwrite (view p) d (fill c n) /\ carries p q any (inside d n).

Lemma fills_none c p d : fills c p d 0 p.
Proof.
  split.
  - intros z. rewrite mwrite_fill by lia.
    destruct (Z.leb_spec d z), (Z.ltb_spec z (d + 0)); cbn; try lia; done.
  - eapply carries_weak; [apply (carries_refl _ any)|done|]. intros w [? _]. lia.
Qed.

Lemma fills_app c p q r d a b : 0 <= a -> 0 <= b -> fills c p d a q -> fills c q (d + a) b r -> fills c p d (a + b) r.
Proof.
  intros Ha Hb [V1 C1] [V2 C2]. split; [rewrite V2, V1; by apply fill_up|].
  eapply carries_trans; [exact C1|exact C2|by left|].
  intros w Hw. destruct (inside_split _ _ a w Hw) as [?|Hr]; [lia|left; done|].
  right. by replace (a + b - a) with b in Hr by lia.
Qed.

Lemma fills_streams c u k : forall d p, 0 < u -> fills c p d (u * Z.of_nat k) (streams c u k d p).
Proof.
  induction k as [|k IH]; intros d p Hu; cbn [streams]; [rewrite Z.mul_0_r; apply fills_none|].
  replace (u * Z.of_nat (S k)) with (u + u * Z.of_nat k) by lia.
  eapply fills_app; [lia|lia| |by apply IH]. split; [done|].
  apply carries_stream. by rewrite length_fill by lia.
Qed.

(** A cached fill with the flush of its own range. *)
Lemma fills_patch f c n d p :
  0 <= d -> 0 < n -> d + n + 64 <= 2 ^ 64 -> fills c p d n (pmem_flush f d n (store p d (fill c n))).
Proof.
  intros Hd Hn H64. split; [by rewrite pmem_flush_view by lia|].
  apply (carries_patch f _ _ _ _ d n); try lia; [|done].
  apply carries_store. by rewrite length_fill by lia.
Qed.

Lemma memset_movnt_fills f dest c len p :
  0 <= dest -> 0 < len -> dest + len + 128 <= 2 ^ 64 ->
  (memset_nodrain_movnt f dest c len p).1 = dest /\ fills c p dest len (memset_nodrain_movnt f dest c len p).2.
Proof.
  intros Hd Hl He. unfold memset_nodrain_movnt. rewrite align_cnt.
  assert (exists b q, (if negb (dest mod 64 =? 0) then
      let cnt := FLUSH_ALIGN - dest mod 64 in let cnt := if len <? cnt then len else cnt in
      (dest + cnt, len - cnt, pmem_flush f dest cnt (store p dest (fill c cnt)))
      else (dest, len, p)) = (dest + b, len - b, q) /\ 0 <= b <= len /\ fills c p dest b q) as (b & q & E & Hb & Hq).
  { pose proof (Z.mod_pos_bound dest 64 ltac:(lia)). destruct (Z.eqb_spec (dest mod 64) 0); cbn [negb]; cbv zeta.
    - exists 0, p. rewrite Z.add_0_r, Z.sub_0_r. split_and!; [done|lia..|apply fills_none].
    - unfold FLUSH_ALIGN. eexists _, _. split; [done|]. zcase; (split; [lia|apply fills_patch; lia]). }
  cbv zeta in E |- *. rewrite E. clear E.
  pose proof (split_len (len - b) ltac:(lia)) as Hs. cbv zeta in Hs.
  replace ((len - b) / CHUNK_SIZE) with (Z.shiftr (len - b) CHUNK_SHIFT) by (unfold CHUNK_SHIFT; by rewrite Z.shiftr_div_pow2).
  set (k := Z.shiftr (len - b) CHUNK_SHIFT) in *. set (r := Z.land (len - b) CHUNK_MASK) in *.
  set (x := Z.shiftr r MOVNT_SHIFT) in *. set (r' := Z.land r MOVNT_MASK) in *.
  set (w := Z.shiftr r' DWORD_SHIFT) in *. set (t := Z.land r' DWORD_MASK) in *.
  rewrite skip_empty. 2: { intros Hr. assert (x = 0) as -> by lia. by rewrite Z.mul_0_r, !Z.add_0_r. }
  pose proof (fills_streams c 16 (8 * Z.to_nat k) (dest + b) q ltac:(lia)) as F1.
  replace (16 * Z.of_nat (8 * Z.to_nat k)) with (128 * k) in F1 by lia. set (q1 := streams c 16 (8 * _) _ _) in *.
  pose proof (fills_streams c 16 (Z.to_nat x) (dest + b + 128 * k) q1 ltac:(lia)) as F2.
  rewrite Z2Nat.id in F2 by lia. set (q2 := streams c 16 (Z.to_nat x) _ _) in *.
  assert (fills c p dest (b + 128 * k + 16 * x) q2) as F.
  { apply (fills_app c p q1 q2); [lia|lia|apply (fills_app c p q q1); [lia|lia|done|done]|].
    by replace (dest + (b + 128 * k)) with (dest + b + 128 * k) by lia. }
  clear F1 F2. destruct (Z.eqb_spec r' 0) as [Hr|Hr]; cbn [negb fst snd].
  { split; [done|]. by replace len with (b + 128 * k + 16 * x) by lia. }
  pose proof (fills_streams c 4 (Z.to_nat w) (dest + b + 128 * k + 16 * x) q2 ltac:(lia)) as F3.
  rewrite Z2Nat.id in F3 by lia. set (q3 := streams c 4 _ _ _) in *.
  assert (fills c p dest (b + 128 * k + 16 * x + 4 * w) q3) as F'.
  { apply (fills_app c p q2 q3); [lia|lia|done|]. by rewrite !Z.add_assoc. }
  destruct (Z.eqb_spec t 0) as [Ht|Ht]; cbn [negb fst snd]; (split; [done|]).
  - by replace len with (b + 128 * k + 16 * x + 4 * w) by lia.
  - replace len with (b + 128 * k + 16 * x + 4 * w + t) by lia. eapply fills_app; [lia|lia|exact F'|].
    rewrite !Z.add_assoc. apply fills_patch; lia.
Qed.

(** [pmem_memset_persist] fills exactly its range, returns it, and with
    either fill routine the range survives a power failure (the non-temporal
    routine needs a drain with a fence). *)
Theorem pmem_memset_spec (c : option cpu) (e : environ) (dest v len : Z) (p : pm)
  (Hwf : pm_wf p) (Hd : 0 <= dest) (Hl : 0 < len) (He : dest + len + 128 <= 2 ^ 64) :
  let f := pmem_init c e in
  let '(r, p') := pmem_memset_persist f dest v len p in
  r = dest /\ view p' ≡ mwrite (view p) dest (fill v len) /\
  forall m', (Func_movnt f = true -> fenced f = true) -> crash_image p' m' ->
    agree m' (mwrite (view p) dest (fill v len)) dest len.
Proof.
  cbv zeta. set (f := pmem_init c e). unfold pmem_memset_persist, pmem_memset_nodrain.
  destruct (Func_movnt f) eqn:Ef.
  - pose proof (memset_movnt_fills f dest v len p Hd Hl He) as [Hr [Hv Hc]].
    destruct (memset_nodrain_movnt f dest v len p) as [r q]. cbn [fst snd] in *.
    rewrite pmem_drain_view. split_and!; [done..|]. intros m' Hf Hcr.
    eapply agree_trans; [|intros z _; apply Hv]. rewrite <- (pmem_drain_view f q).
    apply settled_agree; [|done]. intros w Hw. apply pmem_drain_settles; [auto|]. by eapply ca_put.
  - unfold memset_nodrain_normal. rewrite pmem_drain_view, pmem_flush_view by lia. split_and!; [done..|].
    intros m' _ Hcr. set (q := store p dest (fill v len)) in *. change (mwrite (view p) dest (fill v len)) with (view q).
    rewrite <- (pmem_flush_view f dest len ltac:(lia) ltac:(lia) ltac:(lia) q), <- (pmem_drain_view f).
    apply settled_agree; [|done]. intros w Hw. apply pmem_init_normal_settles; try lia; [|done]. by apply exec_wf.
Qed.
