(* ===== verification/Log.v ===== *)
(** Log: src/src/libpmemlog/log.c and log.h.

    The append-only log.  The pool runs on the machine of [Persist], mapped at
    an address; the run-time fields of [struct pmemlog] are a record, and the
    bytes they occupy in the mapping are written when the pool is mapped, as
    the code does.  RANGE_RW and RANGE_RO only change page protections, in the
    debug version, and are left out. *)

From stdpp Require Import strings.
From S2P Require Import Prelude Mem Util Prog Persist Pmem.

Definition LOG_HDR_SIG : list byte := [x50; x4d; x45; x4d; x4c; x4f; x47; x00].
Definition LOG_FORMAT_MAJOR : Z := 1.
Definition LOG_FORMAT_COMPAT : Z := 0.
Definition LOG_FORMAT_INCOMPAT : Z := 0.
Definition LOG_FORMAT_RO_COMPAT : Z := 0.
Definition LOG_FORMAT_DATA_ALIGN : Z := 4096.
Definition PMEMLOG_MIN_POOL : Z := 1024 * 1024 * 2.

(** Offsets of the fields of [struct pmemlog] and its size. *)
Definition START_OFF : Z := 4096.
Definition END_OFF : Z := 4104.
Definition WRITE_OFF : Z := 4112.
Definition RUNTIME_OFF : Z := 4120.
Definition SIZEOF_PMEMLOG : Z := 4152.
Definition LOG_START : Z := roundup SIZEOF_PMEMLOG LOG_FORMAT_DATA_ALIGN.

(** ** The lock *)

Inductive rwlock := RwFree | RwRead (n : nat) | RwWrite.

Definition rw_wrlock (l : rwlock) : option rwlock := match l with RwFree => Some RwWrite | _ => None end.
Definition rw_rdlock (l : rwlock) : option rwlock :=
  match l with RwFree => Some (RwRead 0) | RwRead n => Some (RwRead (S n)) | RwWrite => None end.
Definition rw_unlock (l : rwlock) : rwlock :=
  match l with RwRead (S n) => RwRead n | _ => RwFree end.

(** ** The pool *)

Record plog := {
  lp_addr : Z;
  lp_size : Z;
  lp_is_pmem : bool;
  lp_rdonly : bool;
  lp_lock : rwlock;
  lp_pm : pm;
}.

(** What the library takes from its environment. *)
Record lenv := {
  le_mmap : errno + Z;                          (* where util_map puts the pool *)
  le_funcs : funcs;                             (* the choices of pmem_init *)
  le_smaps : option (list smaps_line);
  le_Pagesize : Z;
  le_msync : Z -> Z -> bool;
  le_uuid : list byte;                          (* uuid_generate *)
  le_time : Z;                                  (* time *)
  le_malloc : option Z;                         (* Malloc of the lock *)
  le_rwlock_init : option errno;                (* the error of pthread_rwlock_init *)
}.

Definition set_lock (plp : plog) (l : rwlock) : plog :=
  {| lp_addr := lp_addr plp; lp_size := lp_size plp; lp_is_pmem := lp_is_pmem plp;
     lp_rdonly := lp_rdonly plp; lp_lock := l; lp_pm := lp_pm plp |}.
Definition set_pm (plp : plog) (p : pm) : plog :=
  {| lp_addr := lp_addr plp; lp_size := lp_size plp; lp_is_pmem := lp_is_pmem plp;
     lp_rdonly := lp_rdonly plp; lp_lock := lp_lock plp; lp_pm := p |}.

(** A field of the mapped structure. *)
Definition field64 (plp : plog) (off : Z) : Z := get64 (view (lp_pm plp)) (lp_addr plp + off).

Section Log.
Context (e : lenv).

(** "if (plp->is_pmem) pmem_persist(...); else pmem_msync(...);" *)
Definition persist_range (plp : plog) (off len : Z) : plog :=
  set_pm plp (if lp_is_pmem plp then pmem_persist (le_funcs e) (lp_addr plp + off) len (lp_pm plp)
              else snd (pmem_msync (le_Pagesize e) (le_msync e) (lp_addr plp + off) len (lp_pm plp))).

Definition store_at (plp : plog) (off : Z) (bs : list byte) : plog :=
  set_pm plp (store (lp_pm plp) (lp_addr plp + off) bs).

(** ** Creating and opening *)

(** The checks on an existing pool: read-only or not, after the feature check. *)
Definition log_validate (m : mem) (poolsize : Z) (rdonly : bool) : errno + bool :=
  match util_convert_hdr (mread m 0 POOL_HDR_SIZE) with
  | None => inl EINVAL
  | Some hdr =>
      if negb (bool_decide (signature hdr = LOG_HDR_SIG)) then inl EINVAL
      else if negb (major hdr =? LOG_FORMAT_MAJOR) then inl EINVAL
      else
        let hdr_start := get64 m START_OFF in
        let hdr_end := get64 m END_OFF in
        let hdr_write := get64 m WRITE_OFF in
        if negb (hdr_start =? LOG_START) || negb (hdr_end =? poolsize) || (hdr_end <? hdr_start) then inl EINVAL
        else if (hdr_end <? hdr_write) || (hdr_write <? hdr_start) then inl EINVAL
        else match util_feature_check hdr LOG_FORMAT_INCOMPAT LOG_FORMAT_RO_COMPAT LOG_FORMAT_COMPAT with
             | inl err => inl err
             | inr ok => inr (if ok then rdonly else true)
             end
  end.

Definition log_new_hdr : pool_hdr :=
  {| signature := LOG_HDR_SIG; major := LOG_FORMAT_MAJOR; compat_features := LOG_FORMAT_COMPAT;
     incompat_features := LOG_FORMAT_INCOMPAT; ro_compat_features := LOG_FORMAT_RO_COMPAT;
     uuid := le_uuid e; crtime := u64 (le_time e); unused := replicate 4040 x00; checksum := 0 |}.

(** The "empty" branch: metadata first, then the header. *)
Definition log_format (addr poolsize : Z) (p : pm) : errno + pm :=
  if negb (util_is_zeroed (mread (view p) addr POOL_HDR_SIZE)) then inl EINVAL
  else
    let p := store p (addr + START_OFF) (le_enc 8 LOG_START) in
    let p := store p (addr + END_OFF) (le_enc 8 poolsize) in
    let p := store p (addr + WRITE_OFF) (load p (addr + START_OFF) 8) in
    let p := snd (pmem_msync (le_Pagesize e) (le_msync e) (addr + START_OFF) 24 p) in
    let p := store p addr (snd (util_checksum (pool_hdr_bytes log_new_hdr) 4088 true)) in
    inr (snd (pmem_msync (le_Pagesize e) (le_msync e) addr POOL_HDR_SIZE p)).

Definition of_bool (b : bool) : Z := if b then 1 else 0.

(** The run-time fields as they lie in the mapping; the lock's address comes later. *)
Definition runtime_bytes (addr size : Z) (is_pmem rdonly : bool) : list byte :=
  le_enc 8 addr ++ le_enc 8 size ++ le_enc 4 (of_bool is_pmem) ++ le_enc 4 (of_bool rdonly).

(** The mapping of a file at an address, and the file under a mapping. *)
Definition mapped (file : mem) (addr : Z) : pm := pm_of (fun z => file (z - addr)).
Definition file_of (addr : Z) (p : pm) : mem := fun z => view p (addr + z).

(** The second component is the file after the call: a private mapping ([rdonly]
    as passed in) leaves it as it was. *)
Definition pmemlog_map_common (file : mem) (poolsize : Z) (rdonly empty : bool) : outcome plog * mem :=
  match le_mmap e with
  | inl err => (Err err, file)
  | inr addr =>
      let keep (p : pm) := if rdonly then file else file_of addr p in
      let is_pmem := pmem_is_pmem (le_funcs e) (le_smaps e) addr poolsize in
      let p := mapped file addr in
      match (if negb empty then
               match log_validate (file_of addr p) poolsize rdonly with inl err => inl err | inr ro => inr (p, ro) end
             else
               match log_format addr poolsize p with inl err => inl err | inr p => inr (p, rdonly) end) with
      | inl err => (Err err, keep p)
      | inr (p, ro) =>
          let p := store p (addr + RUNTIME_OFF) (runtime_bytes addr poolsize is_pmem ro) in
          match le_malloc e with
          | None => (Err ENOMEM, keep (store p (addr + RUNTIME_OFF + 24) (le_enc 8 0)))
          | Some l =>
              let p := store p (addr + RUNTIME_OFF + 24) (le_enc 8 l) in
              match le_rwlock_init e with
              | Some err => (Err err, keep p)
              | None =>
                  (Done {| lp_addr := addr; lp_size := poolsize; lp_is_pmem := is_pmem; lp_rdonly := ro;
                           lp_lock := RwFree; lp_pm := p |}, keep p)
              end
          end
      end
  end.

Definition log_map_file (fs : fsys) (path : string) (poolsize : Z) (rdonly empty : bool) : outcome plog * fsys :=
  match files fs !! path with
  | None => (Fault Undefined, fs)
  | Some f =>
      let '(r, m) := pmemlog_map_common (f_bytes f) poolsize rdonly empty in (r, fs_store fs path m)
  end.

Definition pmemlog_create (fs : fsys) (path : string) (poolsize : Z) : outcome plog * fsys :=
  if negb (poolsize =? 0) then
    match util_pool_create fs path poolsize PMEMLOG_MIN_POOL with
    | (inl err, fs) => (Err err, fs)
    | (inr _, fs) => log_map_file fs path poolsize false true
    end
  else
    match util_pool_open fs path PMEMLOG_MIN_POOL with
    | inl err => (Err err, fs)
    | inr (_, size) => log_map_file fs path size false true
    end.

Definition pmemlog_open (fs : fsys) (path : string) : outcome plog * fsys :=
  match util_pool_open fs path PMEMLOG_MIN_POOL with
  | inl err => (Err err, fs)
  | inr (_, size) => log_map_file fs path size false false
  end.

Definition pmemlog_close (fs : fsys) (path : string) (plp : plog) : fsys :=
  fs_store fs path (file_of (lp_addr plp) (lp_pm plp)).

(** ** Operations *)

Definition pmemlog_nbyte (plp : plog) : outcome Z * plog :=
  match rw_rdlock (lp_lock plp) with
  | None => (Fault Blocked, plp)
  | Some l =>
      let plp := set_lock plp l in
      let size := u64 (field64 plp END_OFF - field64 plp START_OFF) in
      (Done size, set_lock plp (rw_unlock (lp_lock plp)))
  end.

(** Persist the data, then the metadata. *)
Definition pmemlog_persist (plp : plog) (new_write_offset : Z) : plog :=
  let old_write_offset := field64 plp WRITE_OFF in
  let length := u64 (new_write_offset - old_write_offset) in
  let plp := persist_range plp old_write_offset length in
  let plp := store_at plp WRITE_OFF (le_enc 8 new_write_offset) in
  persist_range plp WRITE_OFF 8.

Definition pmemlog_append (plp : plog) (buf : list byte) : outcome unit * plog :=
  let count := Z.of_nat (length buf) in
  if lp_rdonly plp then (Err EROFS, plp)
  else
    match rw_wrlock (lp_lock plp) with
    | None => (Fault Blocked, plp)
    | Some l =>
        let plp := set_lock plp l in
        let end_offset := field64 plp END_OFF in
        let write_offset := field64 plp WRITE_OFF in
        let '(r, plp) :=
          if end_offset <=? write_offset then (Err ENOSPC, plp)
          else if end_offset - write_offset <? count then (Err ENOSPC, plp)
          else
            let plp := store_at plp write_offset buf in
            (Done tt, pmemlog_persist plp (u64 (write_offset + count))) in
        (r, set_lock plp (rw_unlock (lp_lock plp)))
    end.

(** The two loops of [pmemlog_appendv]: the space needed, and the copies. *)
Fixpoint iov_count (iov : list (list byte)) (count : Z) : Z :=
  match iov with
  | [] => count
  | b :: iov => iov_count iov (u64 (count + Z.of_nat (length b)))
  end.
Fixpoint iov_copy (iov : list (list byte)) (write_offset : Z) (plp : plog) : Z * plog :=
  match iov with
  | [] => (write_offset, plp)
  | b :: iov => iov_copy iov (u64 (write_offset + Z.of_nat (length b))) (store_at plp write_offset b)
  end.

Definition pmemlog_appendv (plp : plog) (iov : list (list byte)) : outcome unit * plog :=
  if lp_rdonly plp then (Err EROFS, plp)
  else
    match rw_wrlock (lp_lock plp) with
    | None => (Fault Blocked, plp)
    | Some l =>
        let plp := set_lock plp l in
        let end_offset := field64 plp END_OFF in
        let write_offset := field64 plp WRITE_OFF in
        let '(r, plp) :=
          if end_offset <=? write_offset then (Err ENOSPC, plp)
          else if end_offset - write_offset <? iov_count iov 0 then (Err ENOSPC, plp)
          else let '(write_offset, plp) := iov_copy iov write_offset plp in
               (Done tt, pmemlog_persist plp write_offset) in
        (r, set_lock plp (rw_unlock (lp_lock plp)))
    end.

(** The difference as an [off_t]. *)
Definition s64 (z : Z) : Z := (z + 2 ^ 63) mod 2 ^ 64 - 2 ^ 63.

Definition pmemlog_tell (plp : plog) : outcome Z * plog :=
  match rw_rdlock (lp_lock plp) with
  | None => (Fault Blocked, plp)
  | Some l =>
      let plp := set_lock plp l in
      let wp := s64 (field64 plp WRITE_OFF - field64 plp START_OFF) in
      (Done wp, set_lock plp (rw_unlock (lp_lock plp)))
  end.

Definition pmemlog_rewind (plp : plog) : outcome unit * plog :=
  if lp_rdonly plp then (Err EROFS, plp)
  else
    match rw_wrlock (lp_lock plp) with
    | None => (Fault Blocked, plp)
    | Some l =>
        let plp := set_lock plp l in
        let plp := store_at plp WRITE_OFF (load (lp_pm plp) (lp_addr plp + START_OFF) 8) in
        let plp := persist_range plp WRITE_OFF 8 in
        (Done tt, set_lock plp (rw_unlock (lp_lock plp)))
    end.

(** [process_chunk] gets a chunk and its argument, which it may change. *)
Section Walk.
Context {A : Type} (process_chunk : list byte -> A -> bool * A).

Fixpoint walk_loop (fuel : nat) (plp : plog) (chunksize data_offset write_offset : Z) (arg : A) : outcome A :=
  match fuel with
  | O => Fault OutOfFuel
  | S fuel =>
      if data_offset <? write_offset then
        let len := Z.min chunksize (write_offset - data_offset) in
        let '(go, arg) := process_chunk (load (lp_pm plp) (lp_addr plp + data_offset) len) arg in
        if go then walk_loop fuel plp chunksize (u64 (data_offset + chunksize)) write_offset arg
        else Done arg
      else Done arg
  end.

Definition pmemlog_walk (fuel : nat) (plp : plog) (chunksize : Z) (arg : A) : outcome A * plog :=
  match rw_rdlock (lp_lock plp) with
  | None => (Fault Blocked, plp)
  | Some l =>
      let plp := set_lock plp l in
      let write_offset := field64 plp WRITE_OFF in
      let data_offset := field64 plp START_OFF in
      let r :=
        if chunksize =? 0 then
          Done (snd (process_chunk (load (lp_pm plp) (lp_addr plp + data_offset) (u64 (write_offset - data_offset))) arg))
        else walk_loop fuel plp chunksize data_offset write_offset arg in
      (r, set_lock plp (rw_unlock (lp_lock plp)))
  end.
End Walk.

Definition pmemlog_check (fs : fsys) (path : string) : outcome bool * fsys :=
  match util_pool_open fs path PMEMLOG_MIN_POOL with
  | inl err => (Err err, fs)
  | inr (_, size) =>
      match log_map_file fs path size true false with
      | (Err err, fs) => (Err err, fs)
      | (Fault f, fs) => (Fault f, fs)
      | (Done plp, fs) =>
          let hdr_start := field64 plp START_OFF in
          let hdr_end := field64 plp END_OFF in
          let hdr_write := field64 plp WRITE_OFF in
          (* each test clears [consistent]; the private mapping is closed *)
          (Done ((hdr_start =? LOG_START) && (hdr_end =? lp_size plp) && (hdr_start <=? hdr_end) &&
                 (hdr_start <=? hdr_write) && (hdr_write <=? hdr_end)), fs)
      end
  end.
End Log.
