(* ===== verification/LogSpec.v ===== *)
(** LogSpec: what libpmemlog promises.

    A pool holds a byte string.  Appending extends it or fails without a trace;
    a power failure at any point of an append leaves the old or the new string;
    rewinding, walking, creating, opening and checking do what they say. *)

From stdpp Require Import strings.
From S2P Require Import Prelude Mem Util Prog Persist Pmem PmemSpec Log.

(** ** Persisting a range, as instructions *)

Definition drain_insns (f : funcs) : list insn :=
  (if Func_predrain_sfence f then [ISfence] else []) ++ (if Func_drain_pcommit f then [IPcommit; ISfence] else []).

Lemma pmem_drain_insns f p : pmem_drain f p = execs p (drain_insns f).
Proof.
  unfold pmem_drain, drain_pcommit, drain_no_pcommit, predrain_fence, drain_insns.
  by destruct (Func_drain_pcommit f), (Func_predrain_sfence f).
Qed.

Definition quiet (l : list insn) : Prop := Forall (fun i => is_store i = false) l.

Lemma drain_quiet f : quiet (drain_insns f).
Proof. unfold drain_insns. destruct (Func_predrain_sfence f), (Func_drain_pcommit f); repeat constructor. Qed.

Lemma lines_quiet f addr len : quiet (lines (flush_insn f) addr len).
Proof.
  eapply Forall_impl; [apply lines_flush|]. intros i. by destruct i.
Qed.

(** The environment in which persisting works: [pmem_init]'s choices and an
    [msync] that succeeds, on pages of a power of two. *)
Record persist_ok (e : lenv) : Prop := {
  po_flush : Func_flush (le_funcs e) = Flush_clflush \/ Func_predrain_sfence (le_funcs e) = true;
  po_page : exists k, 0 <= k < 64 /\ le_Pagesize e = 2 ^ k;
  po_msync : forall addr len, le_msync e addr len = true;
}.

Definition range_insns (e : lenv) (is_pmem : bool) (addr len : Z) : list insn :=
  if is_pmem then lines (flush_insn (le_funcs e)) addr len ++ drain_insns (le_funcs e)
  else let '(uptr, l) := page_range (le_Pagesize e) addr len in [IMsync uptr l].

Lemma range_quiet e is_pmem addr len : quiet (range_insns e is_pmem addr len).
Proof.
  unfold range_insns. destruct is_pmem.
  - apply Forall_app. split; [apply lines_quiet|apply drain_quiet].
  - destruct (page_range _ _ _) as [uptr l]. by constructor.
Qed.

Section Range.
Context (e : lenv) (He : persist_ok e) (addr len : Z).
Context (Ha : 0 <= addr) (Hl : 0 <= len) (H64 : addr + len + 64 <= 2 ^ 64).

Lemma msync_insn p :
  snd (pmem_msync (le_Pagesize e) (le_msync e) addr len p) = execs p (range_insns e false addr len).
Proof. unfold pmem_msync, range_insns. destruct (page_range _ _ _). by rewrite (po_msync _ He). Qed.

Lemma persist_insns (is_pmem : bool) p :
  (if is_pmem then pmem_persist (le_funcs e) addr len p
   else snd (pmem_msync (le_Pagesize e) (le_msync e) addr len p)) = execs p (range_insns e is_pmem addr len).
Proof.
  destruct is_pmem; [|apply msync_insn]. unfold range_insns, pmem_persist.
  by rewrite pmem_flush_lines, pmem_drain_insns, execs_app.
Qed.

Lemma range_settled (is_pmem : bool) p w :
  pm_wf p -> in_range addr len w = true -> settled (execs p (range_insns e is_pmem addr len)) w.
Proof.
  intros Hwf Hw. rewrite <- persist_insns. destruct is_pmem.
  - unfold pmem_persist. destruct (po_flush _ He) as [Hf|Hf].
    + apply pmem_drain_keeps. by apply pmem_flush_settled.
    + apply pmem_drain_settles; [unfold fenced; by rewrite Hf|]. apply pmem_flush_queued; auto.
  - rewrite msync_insn. unfold range_insns. destruct (po_page _ He) as (k & Hk & Ep).
    rewrite Ep. pose proof (page_range_spec k addr len Hk Ha Hl ltac:(lia)) as Hp.
    destruct (page_range (2 ^ k) addr len) as [uptr l]. intros v Hv. cbn [execs fold_left exec cand view] in *.
    assert (in_range uptr l w = true) as Hin.
    { unfold in_range in *. bools. apply andb_true_iff. rewrite !Z.ltb_lt. lia. }
    rewrite Hin in Hv. apply list_elem_of_singleton in Hv as ->. apply agree_refl.
Qed.

Lemma range_held (is_pmem : bool) p : pm_wf p -> held (execs p (range_insns e is_pmem addr len)) addr len.
Proof. intros Hwf. apply settled_held. intros w Hw. by apply range_settled. Qed.
End Range.

(** ** The log in a file *)

Definition log_hdr_ok (h : list byte) : Prop :=
  exists hdr, util_convert_hdr h = Some hdr /\ signature hdr = LOG_HDR_SIG /\ major hdr = LOG_FORMAT_MAJOR /\
    util_feature_check hdr LOG_FORMAT_INCOMPAT LOG_FORMAT_RO_COMPAT LOG_FORMAT_COMPAT = inr true.

(** The file of [size] bytes is a log pool that holds [data]. *)
Record log_file (size : Z) (m : mem) (data : list byte) : Prop := {
  lf_hdr : log_hdr_ok (mread m 0 POOL_HDR_SIZE);
  lf_start : get64 m START_OFF = LOG_START;
  lf_end : get64 m END_OFF = size;
  lf_write : get64 m WRITE_OFF = LOG_START + Z.of_nat (length data);
  lf_data : mread m LOG_START (Z.of_nat (length data)) = data;
  lf_fits : LOG_START + Z.of_nat (length data) <= size < 2 ^ 63;
}.

(** Only the header, the three offsets and the data matter. *)
Lemma log_file_agree size m m' data :
  log_file size m data -> agree m' m 0 RUNTIME_OFF -> agree m' m LOG_START (Z.of_nat (length data)) ->
  log_file size m' data.
Proof.
  intros [Hh Hs He Hw Hd Hf] Hm Hdat. unfold START_OFF, END_OFF, WRITE_OFF, RUNTIME_OFF, POOL_HDR_SIZE in *.
  split; unfold START_OFF, END_OFF, WRITE_OFF, POOL_HDR_SIZE; try done.
  - by rewrite (mread_agree m' m) by (eapply agree_sub; [exact Hm|lia..]).
  - by rewrite (get_le_agree 8 m' m) by (eapply agree_sub; [exact Hm|lia..]).
  - by rewrite (get_le_agree 8 m' m) by (eapply agree_sub; [exact Hm|lia..]).
  - by rewrite (get_le_agree 8 m' m) by (eapply agree_sub; [exact Hm|lia..]).
  - by rewrite (mread_agree m' m).
Qed.

(** A new write offset over data already in place. *)
Lemma log_file_write size m m' data data' :
  log_file size m data -> agree m' m 0 WRITE_OFF ->
  get64 m' WRITE_OFF = LOG_START + Z.of_nat (length data') ->
  mread m' LOG_START (Z.of_nat (length data')) = data' ->
  LOG_START + Z.of_nat (length data') <= size -> log_file size m' data'.
Proof.
  intros [Hh Hs He Hw Hd Hf] Hm Hw' Hd' Hf'. unfold START_OFF, END_OFF, WRITE_OFF, POOL_HDR_SIZE in *.
  split; unfold START_OFF, END_OFF, WRITE_OFF, POOL_HDR_SIZE; try done.
  - by rewrite (mread_agree m' m) by (eapply agree_sub; [exact Hm|lia..]).
  - by rewrite (get_le_agree 8 m' m) by (eapply agree_sub; [exact Hm|lia..]).
  - by rewrite (get_le_agree 8 m' m) by (eapply agree_sub; [exact Hm|lia..]).
  - lia.
Qed.

(** The part of a mapping seen as the file. *)
Definition shift (addr : Z) (m : mem) : mem := fun z => m (addr + z).

Lemma get_le_shift k addr m off : get_le k (shift addr m) off = get_le k m (addr + off).
Proof. unfold get_le, mread, shift. f_equal. apply map_ext. intros i. f_equal. lia. Qed.

Lemma mread_shift_at addr m off n : mread (shift addr m) off n = mread m (addr + off) n.
Proof. unfold mread, shift. apply map_ext. intros i. f_equal. lia. Qed.

Lemma agree_shift addr m m' off n : agree m m' (addr + off) n -> agree (shift addr m) (shift addr m') off n.
Proof. intros H z Hz. unfold shift. apply H. lia. Qed.

(** The mapped pool holds [data], and a power failure would not change that. *)
Record durable_log (addr size : Z) (p : pm) (data : list byte) : Prop := {
  dl_file : log_file size (shift addr (view p)) data;
  dl_wf : pm_wf p;
  dl_meta : held p addr RUNTIME_OFF;
  dl_data : held p (addr + LOG_START) (Z.of_nat (length data));
}.

Lemma durable_crash addr size p data m' :
  durable_log addr size p data -> crash_image p m' -> log_file size (shift addr m') data.
Proof.
  intros [Hf Hwf Hm Hd] Hc. eapply log_file_agree; [exact Hf|..]; apply agree_shift; eapply held_crash; try done.
  by rewrite Z.add_0_r.
Qed.

(** Stores to the run-time fields or beyond the data, and all flushes, keep the
    log durable. *)
Definition harmless (addr : Z) (data : list byte) (i : insn) : Prop :=
  is_store i = false \/
  exists a bs, i = IStore a bs /\ addr + RUNTIME_OFF <= a /\
    (a + Z.of_nat (length bs) <= addr + LOG_START \/ addr + LOG_START + Z.of_nat (length data) <= a).

Lemma durable_exec addr size p data i :
  harmless addr data i -> durable_log addr size p data -> durable_log addr size (exec p i) data.
Proof.
  intros Hi [Hf Hwf Hm Hd]. split; [|by apply exec_wf|..].
  - destruct Hi as [Hi|(a & bs & -> & Ha & Ha')]; [by rewrite exec_view|].
    eapply log_file_agree; [exact Hf|..]; apply agree_shift, mwrite_agree; [left; lia|lia].
  - destruct Hi as [Hi|(a & bs & -> & Ha & Ha')]; [by apply held_exec|]. apply held_store; [lia|done].
  - destruct Hi as [Hi|(a & bs & -> & Ha & Ha')]; [by apply held_exec|]. apply held_store; [lia|done].
Qed.

Lemma durable_execs addr size data l : forall p,
  Forall (harmless addr data) l -> durable_log addr size p data -> durable_log addr size (execs p l) data.
Proof.
  induction l as [|i l IH]; intros p Hl Hp; [done|]. apply Forall_cons in Hl as [Hi Hl].
  apply (IH (exec p i)); [done|by apply durable_exec].
Qed.

Lemma quiet_harmless addr data l : quiet l -> Forall (harmless addr data) l.
Proof. intros H. eapply Forall_impl; [exact H|]. by left. Qed.

(** ** Moving the write offset *)

Section Commit.
Context (e : lenv) (He : persist_ok e) (is_pmem : bool) (addr size : Z).
Context (Ha : 0 <= addr) (Ha8 : addr mod 8 = 0) (Hend : addr + size + 8192 <= 2 ^ 64).

Definition commit_insns (data' : list byte) : list insn :=
  IStore (addr + WRITE_OFF) (le_enc 8 (LOG_START + Z.of_nat (length data'))) ::
  range_insns e is_pmem (addr + WRITE_OFF) 8.

(** The new data are in place and on the media. *)
Record ready (p : pm) (data' : list byte) : Prop := {
  rd_data : mread (view p) (addr + LOG_START) (Z.of_nat (length data')) = data';
  rd_held : held p (addr + LOG_START) (Z.of_nat (length data'));
  rd_fits : LOG_START + Z.of_nat (length data') <= size;
}.

Section Word.
Context (p : pm) (data data' : list byte).
Context (Hlog : durable_log addr size p data) (Hr : ready p data').

Lemma size_bounds : LOG_START <= size < 2 ^ 63.
Proof. pose proof (lf_fits _ _ _ (dl_file _ _ _ _ Hlog)). lia. Qed.

(** The file with the new offset holds the new data. *)
Lemma committed_file m' :
  agree m' (mwrite (view p) (addr + WRITE_OFF) (le_enc 8 (LOG_START + Z.of_nat (length data')))) addr RUNTIME_OFF ->
  agree m' (view p) (addr + LOG_START) (Z.of_nat (length data')) ->
  log_file size (shift addr m') data'.
Proof.
  intros Hm Hd. pose proof size_bounds as Hs. change LOG_START with 8192 in *.
  unfold RUNTIME_OFF, WRITE_OFF in *.
  eapply log_file_write; [apply Hlog|..].
  - apply agree_shift. rewrite Z.add_0_r. unfold WRITE_OFF. eapply agree_trans; [eapply agree_sub; [exact Hm|lia..]|].
    apply mwrite_agree. lia.
  - rewrite get_le_shift. unfold WRITE_OFF. erewrite get_le_agree by (eapply agree_sub; [exact Hm|lia..]).
    rewrite get_le_mwrite_eq. pose proof (rd_fits _ _ Hr). change LOG_START with 8192 in *.
    apply Z.mod_small. change (256 ^ Z.of_nat 8) with (2 ^ 64). lia.
  - rewrite mread_shift_at. change LOG_START with 8192. rewrite (mread_agree _ _ _ _ Hd). apply Hr.
  - apply Hr.
Qed.

(** While the offset is in flight the log is the old one or the new one. *)
Lemma word_crash m' :
  crash_image (exec p (IStore (addr + WRITE_OFF) (le_enc 8 (LOG_START + Z.of_nat (length data'))))) m' ->
  log_file size (shift addr m') data \/ log_file size (shift addr m') data'.
Proof.
  intros Hc. set (bs := le_enc 8 _) in *. set (q := exec p _) in *.
  assert (length bs = 8%nat) as Hbs by (unfold bs; len).
  pose proof (dl_meta _ _ _ _ Hlog) as Hmeta. unfold RUNTIME_OFF, WRITE_OFF in *. change LOG_START with 8192 in *.
  assert (agree m' (view q) addr 4112) as Hhead.
  { eapply held_crash; [|exact Hc]. apply held_store; [rewrite Hbs; lia|]. eapply held_sub; [exact Hmeta|lia..]. }
  assert (forall n, held p (addr + 8192) n -> agree m' (view q) (addr + 8192) n) as Hdat.
  { intros n Hn. eapply held_crash; [|exact Hc]. apply held_store; [rewrite Hbs; lia|done]. }
  assert (forall a n, a + n <= addr + 4112 \/ addr + 4120 <= a -> agree (view q) (view p) a n) as Hq.
  { intros a n H. apply mwrite_agree. rewrite Hbs. lia. }
  destruct (crash_word p (addr + 4112) bs m') as [Hw|Hw]; try done.
  { eapply held_sub; [exact Hmeta|lia..]. }
  { rewrite <- Z.add_mod_idemp_l, Ha8 by lia. done. }
  - left. eapply log_file_agree; [apply Hlog|..]; apply agree_shift; unfold RUNTIME_OFF; change LOG_START with 8192.
    + rewrite Z.add_0_r. intros z Hz. destruct (Z.lt_ge_cases z (addr + 4112)).
      * rewrite Hhead by lia. apply (Hq addr 4112); lia.
      * apply Hw. lia.
    + eapply agree_trans; [apply Hdat, Hlog|apply Hq; lia].
  - right. apply committed_file; unfold RUNTIME_OFF, WRITE_OFF; change LOG_START with 8192.
    + intros z Hz. destruct (Z.lt_ge_cases z (addr + 4112)); [apply Hhead; lia|apply Hw; lia].
    + eapply agree_trans; [apply Hdat, Hr|apply Hq; lia].
Qed.

Lemma commit_crash j m' :
  crash_image (execs p (take j (commit_insns data'))) m' ->
  log_file size (shift addr m') data \/ log_file size (shift addr m') data'.
Proof.
  destruct j as [|j]; cbn [take commit_insns execs fold_left]; intros Hc.
  - left. by eapply durable_crash.
  - apply word_crash. eapply crash_execs; [apply exec_wf, Hlog| |exact Hc].
    apply Forall_take, range_quiet.
Qed.

Lemma commit_durable : durable_log addr size (execs p (commit_insns data')) data'.
Proof.
  unfold commit_insns. cbn [execs fold_left]. set (bs := le_enc 8 _). fold (execs (exec p (IStore (addr + WRITE_OFF) bs)) (range_insns e is_pmem (addr + WRITE_OFF) 8)).
  set (q := exec p _). pose proof size_bounds as Hs.
  assert (length bs = 8%nat) as Hbs by (unfold bs; len).
  assert (pm_wf q) as Hwf by apply exec_wf, Hlog.
  pose proof (dl_meta _ _ _ _ Hlog) as Hmeta.
  change LOG_START with 8192 in *.
  assert (held (execs q (range_insns e is_pmem (addr + WRITE_OFF) 8)) addr RUNTIME_OFF) as Hm.
  { unfold RUNTIME_OFF, WRITE_OFF in *. apply (held_app _ addr 4112 8).
    - apply held_execs; [apply range_quiet|]. apply held_store; [rewrite Hbs; lia|]. eapply held_sub; [exact Hmeta|lia..].
    - apply range_held; try done; lia. }
  assert (view (execs q (range_insns e is_pmem (addr + WRITE_OFF) 8)) = view q) as Hv by apply execs_view, range_quiet.
  split; [|by apply execs_wf|done|].
  - rewrite Hv. apply committed_file; [done|]. change LOG_START with 8192. apply mwrite_agree.
    rewrite Hbs. unfold WRITE_OFF. lia.
  - apply held_execs; [apply range_quiet|]. apply held_store; [rewrite Hbs; unfold WRITE_OFF; change LOG_START with 8192; lia|].
    apply Hr.
Qed.
End Word.
End Commit.

(** ** An open pool *)

(** The pool is mapped at an address on a page, holds [data] durably, and nobody
    holds the lock. *)
Record log_inv (plp : plog) (data : list byte) : Prop := {
  li_addr : 0 <= lp_addr plp /\ lp_addr plp mod 8 = 0 /\ lp_addr plp + lp_size plp + 8192 <= 2 ^ 64;
  li_lock : lp_lock plp = RwFree;
  li_log : durable_log (lp_addr plp) (lp_size plp) (lp_pm plp) data;
}.

(** Same pool, other memory. *)
Definition same_pool (plp plp' : plog) : Prop :=
  lp_addr plp' = lp_addr plp /\ lp_size plp' = lp_size plp /\ lp_is_pmem plp' = lp_is_pmem plp /\
  lp_rdonly plp' = lp_rdonly plp.

Lemma log_inv_fields plp data :
  log_inv plp data ->
  field64 plp START_OFF = LOG_START /\ field64 plp END_OFF = lp_size plp /\
  field64 plp WRITE_OFF = LOG_START + Z.of_nat (length data) /\
  mread (view (lp_pm plp)) (lp_addr plp + LOG_START) (Z.of_nat (length data)) = data /\
  LOG_START + Z.of_nat (length data) <= lp_size plp < 2 ^ 63.
Proof.
  intros [_ _ [[_ Hs He Hw Hd Hf] _ _ _]]. unfold field64. rewrite !get_le_shift in Hs, He, Hw.
  rewrite mread_shift_at in Hd. done.
Qed.

Lemma set_lock_id plp : lp_lock plp = RwFree -> set_lock (set_lock plp RwWrite) RwFree = plp.
Proof. destruct plp. cbn. by intros ->. Qed.

Lemma set_pm_inv plp p data data' :
  log_inv plp data -> durable_log (lp_addr plp) (lp_size plp) p data' -> log_inv (set_pm plp p) data'.
Proof. intros [Ha Hl _] Hd. by split. Qed.

(** ** Appending *)

Definition iov_total (iov : list (list byte)) : Z := Z.of_nat (length (concat iov)).

Fixpoint iov_insns (iov : list (list byte)) (a : Z) : list insn :=
  match iov with
  | [] => []
  | b :: iov => IStore a b :: iov_insns iov (a + Z.of_nat (length b))
  end.

Lemma iov_total_cons b iov : iov_total (b :: iov) = Z.of_nat (length b) + iov_total iov.
Proof. unfold iov_total. cbn [concat]. rewrite length_app. lia. Qed.

Lemma iov_count_total iov : forall c, 0 <= c -> c + iov_total iov < 2 ^ 64 -> iov_count iov c = c + iov_total iov.
Proof.
  induction iov as [|b iov IH]; intros c Hc Ht; cbn [iov_count]; [unfold iov_total; cbn; lia|].
  rewrite iov_total_cons in *. unfold iov_total in *. rewrite u64_id by lia. rewrite IH by lia. lia.
Qed.

Lemma iov_copy_insns iov : forall w plp, 0 <= w -> w + iov_total iov < 2 ^ 64 ->
  iov_copy iov w plp = (w + iov_total iov, set_pm plp (execs (lp_pm plp) (iov_insns iov (lp_addr plp + w)))).
Proof.
  induction iov as [|b iov IH]; intros w plp Hw Ht; cbn [iov_copy iov_insns execs fold_left].
  { unfold iov_total. cbn. rewrite Z.add_0_r. by destruct plp. }
  rewrite iov_total_cons in *. unfold iov_total in Ht. rewrite u64_id by lia. rewrite IH by (unfold iov_total; lia).
  cbn [store_at set_pm lp_addr lp_pm]. f_equal; [lia|]. by rewrite Z.add_assoc.
Qed.

(** The copies write the concatenation. *)
Lemma iov_insns_view iov : forall a p,
  view (execs p (iov_insns iov a)) ≡ mwrite (view p) a (concat iov).
Proof.
  induction iov as [|b iov IH]; intros a p; cbn [iov_insns execs fold_left concat].
  { intros z. unfold mwrite. cbn [length]. destruct (Z.leb_spec a z), (Z.ltb_spec z (a + Z.of_nat 0)); cbn; try lia; done. }
  intros z. fold (execs (exec p (IStore a b)) (iov_insns iov (a + Z.of_nat (length b)))). rewrite (IH _ _ z). cbn [exec do_store view].
  destruct (Z.lt_ge_cases z (a + Z.of_nat (length b))) as [H|H].
  - rewrite mwrite_out by lia. unfold mwrite. rewrite length_app.
    destruct (Z.leb_spec a z), (Z.ltb_spec z (a + Z.of_nat (length b))),
      (Z.ltb_spec z (a + Z.of_nat (length b + length (concat iov)))); cbn; try lia; try done.
    rewrite app_nth1 by lia. done.
  - destruct (Z.lt_ge_cases z (a + Z.of_nat (length b) + Z.of_nat (length (concat iov)))).
    + rewrite !mwrite_in by len. rewrite app_nth2 by lia. f_equal. lia.
    + rewrite !mwrite_out by len. done.
Qed.

Lemma iov_insns_harmless addr data iov : forall a,
  addr + LOG_START + Z.of_nat (length data) <= a -> Forall (harmless addr data) (iov_insns iov a).
Proof.
  induction iov as [|b iov IH]; intros a Ha; cbn [iov_insns]; constructor; [|apply IH; lia].
  right. exists a, b. change LOG_START with 8192 in *. unfold RUNTIME_OFF. split_and!; [done|lia|lia].
Qed.

(** The instructions of an accepted append, in order. *)
Definition append_insns (e : lenv) (plp : plog) (data : list byte) (iov : list (list byte)) : list insn :=
  let w := lp_addr plp + LOG_START + Z.of_nat (length data) in
  (iov_insns iov w ++ range_insns e (lp_is_pmem plp) w (iov_total iov)) ++
  commit_insns e (lp_is_pmem plp) (lp_addr plp) (data ++ concat iov).

Section Append.
Context (e : lenv) (He : persist_ok e) (plp : plog) (data : list byte) (Hinv : log_inv plp data).

Section Stored.
Context (iov : list (list byte)).
Context (Hfit : LOG_START + Z.of_nat (length data) + iov_total iov <= lp_size plp).

Local Abbreviation w := (lp_addr plp + LOG_START + Z.of_nat (length data)).
Local Abbreviation first := (iov_insns iov w ++ range_insns e (lp_is_pmem plp) w (iov_total iov)).

Lemma first_harmless : Forall (harmless (lp_addr plp) data) first.
Proof.
  apply Forall_app. split; [by apply iov_insns_harmless|apply quiet_harmless, range_quiet].
Qed.

Lemma first_durable j : durable_log (lp_addr plp) (lp_size plp) (execs (lp_pm plp) (take j first)) data.
Proof. apply durable_execs; [apply Forall_take, first_harmless|apply Hinv]. Qed.

(** The new data are in place when the offset moves. *)
Lemma first_ready : ready (lp_addr plp) (lp_size plp) (execs (lp_pm plp) first) (data ++ concat iov).
Proof.
  destruct (log_inv_fields _ _ Hinv) as (_ & _ & _ & Hd & Hf). pose proof (li_addr _ _ Hinv) as (Ha & _ & Hend).
  assert (view (execs (lp_pm plp) first) ≡ mwrite (view (lp_pm plp)) w (concat iov)) as Hv.
  { rewrite execs_app, execs_view by apply range_quiet. apply iov_insns_view. }
  assert (Z.of_nat (length (data ++ concat iov)) = Z.of_nat (length data) + iov_total iov) as Hlen
    by (unfold iov_total; rewrite length_app; lia).
  assert (held (execs (lp_pm plp) first) (lp_addr plp + LOG_START) (Z.of_nat (length data))) as Hh.
  { pose proof (first_durable (length first)) as Hx. rewrite firstn_all in Hx. apply Hx. }
  change LOG_START with 8192 in *. unfold iov_total in *.
  split; rewrite Hlen; change LOG_START with 8192.
  - rewrite Hv, mread_app by lia. f_equal; [|by rewrite mread_mwrite_eq].
    rewrite mread_mwrite_out by lia. exact Hd.
  - apply held_app.
    + exact Hh.
    + rewrite execs_app. apply range_held; try done; try lia. by apply execs_wf, Hinv.
  - lia.
Qed.
End Stored.

Lemma persist_commit q data' :
  lp_addr q = lp_addr plp -> lp_is_pmem q = lp_is_pmem plp ->
  field64 q WRITE_OFF = LOG_START + Z.of_nat (length data) ->
  Z.of_nat (length data) <= Z.of_nat (length data') -> LOG_START + Z.of_nat (length data') <= lp_size plp ->
  pmemlog_persist e q (LOG_START + Z.of_nat (length data')) =
  set_pm q (execs (lp_pm q)
    (range_insns e (lp_is_pmem plp) (lp_addr plp + LOG_START + Z.of_nat (length data))
       (Z.of_nat (length data') - Z.of_nat (length data)) ++
     commit_insns e (lp_is_pmem plp) (lp_addr plp) data')).
Proof.
  intros Ea Ep Ew Hle Hfit. pose proof (li_addr _ _ Hinv) as (Ha & _ & Hend).
  destruct (log_inv_fields _ _ Hinv) as (_ & _ & _ & _ & Hf). change LOG_START with 8192 in *.
  unfold pmemlog_persist. cbv zeta. rewrite Ew, u64_id by lia. unfold persist_range, store_at. cbn [set_pm lp_addr lp_pm lp_is_pmem lp_size lp_rdonly lp_lock].
  rewrite Ea, Ep. change LOG_START with 8192.
  rewrite !(persist_insns e He) by (unfold WRITE_OFF; lia).
  rewrite execs_app. unfold commit_insns. cbn [execs fold_left].
  replace (8192 + Z.of_nat (length data') - (8192 + Z.of_nat (length data))) with (Z.of_nat (length data') - Z.of_nat (length data)) by lia.
  rewrite Z.add_assoc. done.
Qed.

(** An accepted append runs [append_insns]. *)
Lemma appendv_runs iov :
  lp_rdonly plp = false -> LOG_START + Z.of_nat (length data) < lp_size plp ->
  LOG_START + Z.of_nat (length data) + iov_total iov <= lp_size plp ->
  pmemlog_appendv e plp iov = (Done tt, set_pm plp (execs (lp_pm plp) (append_insns e plp data iov))).
Proof.
  intros Hro Hsp Hfit. unfold pmemlog_appendv. rewrite Hro, (li_lock _ _ Hinv). cbn [rw_wrlock].
  destruct (log_inv_fields _ _ Hinv) as (_ & Ee & Ew & _ & Hf).
  assert (0 <= iov_total iov) by (unfold iov_total; lia).
  change (field64 (set_lock plp RwWrite)) with (field64 plp). cbv zeta. rewrite Ee, Ew.
  change LOG_START with 8192 in *. rewrite iov_count_total by lia.
  do 2 ztrue. cbv iota. rewrite iov_copy_insns by lia.
  pose proof (persist_commit (set_pm (set_lock plp RwWrite) (execs (lp_pm plp) (iov_insns iov (lp_addr plp + (8192 + Z.of_nat (length data))))))
    (data ++ concat iov) eq_refl eq_refl) as Hp.
  assert (Z.of_nat (length (data ++ concat iov)) = Z.of_nat (length data) + iov_total iov) as Hlen
    by (unfold iov_total; rewrite length_app; lia).
  rewrite Hlen in Hp. change LOG_START with 8192 in Hp.
  replace (8192 + (Z.of_nat (length data) + iov_total iov)) with (8192 + Z.of_nat (length data) + iov_total iov) in Hp by lia. cbn [lp_addr lp_pm set_lock] in *. rewrite Hp; [|clear Hp..|lia|lia].
  - cbn [set_pm set_lock lp_lock rw_unlock lp_pm lp_addr lp_size lp_is_pmem lp_rdonly].
    unfold append_insns. change LOG_START with 8192. rewrite <- app_assoc, (execs_app _ (iov_insns _ _)).
    f_equal. unfold set_pm. rewrite (li_lock _ _ Hinv), Z.add_assoc. by rewrite Z.add_simpl_l.
  - unfold field64. cbn [set_pm set_lock lp_pm lp_addr]. unfold WRITE_OFF.
    rewrite (iov_insns_view _ _ _). rewrite get_le_mwrite_out by lia. exact Ew.
Qed.
End Append.

Lemma append_durable e plp data iov :
  persist_ok e -> log_inv plp data -> LOG_START + Z.of_nat (length data) + iov_total iov <= lp_size plp ->
  durable_log (lp_addr plp) (lp_size plp) (execs (lp_pm plp) (append_insns e plp data iov)) (data ++ concat iov).
Proof.
  intros He Hinv Hfit. unfold append_insns. rewrite execs_app. pose proof (li_addr _ _ Hinv) as (Ha & Ha8 & Hend).
  eapply commit_durable; try done.
  - apply durable_execs; [by apply first_harmless|apply Hinv].
  - by apply first_ready.
Qed.

(** C15. [pmemlog_appendv] refuses a read-only pool with EROFS and an append that
    does not fit, or any append to a full log, with ENOSPC, changing nothing;
    otherwise the log is extended by the gathered bytes, durably. *)
Theorem pmemlog_appendv_spec (e : lenv) (plp : plog) (data : list byte) (iov : list (list byte))
  (He : persist_ok e) (Hinv : log_inv plp data) (Htotal : iov_total iov < 2 ^ 64) :
  let '(r, plp') := pmemlog_appendv e plp iov in
  let capacity := lp_size plp - LOG_START in
  let used := Z.of_nat (length data) in
  if lp_rdonly plp then r = Err EROFS /\ plp' = plp
  else if (capacity <=? used) || (capacity - used <? iov_total iov) then r = Err ENOSPC /\ plp' = plp
  else r = Done tt /\ same_pool plp plp' /\ log_inv plp' (data ++ concat iov).
Proof.
  destruct (lp_rdonly plp) eqn:Hro; [by unfold pmemlog_appendv; rewrite Hro|].
  destruct (log_inv_fields _ _ Hinv) as (_ & Ee & Ew & _ & Hf). cbv zeta.
  destruct ((lp_size plp - LOG_START <=? Z.of_nat (length data)) ||
            (lp_size plp - LOG_START - Z.of_nat (length data) <? iov_total iov)) eqn:E.
  - unfold pmemlog_appendv. rewrite Hro, (li_lock _ _ Hinv). cbn [rw_wrlock]. cbv zeta.
    change (field64 (set_lock plp RwWrite)) with (field64 plp). rewrite Ee, Ew.
    rewrite iov_count_total by (unfold iov_total in *; lia). rewrite Z.add_0_l.
    replace (lp_size plp <=? LOG_START + Z.of_nat (length data)) with (lp_size plp - LOG_START <=? Z.of_nat (length data))
      by (apply eq_true_iff_eq; rewrite !Z.leb_le; lia).
    replace (lp_size plp - (LOG_START + Z.of_nat (length data))) with (lp_size plp - LOG_START - Z.of_nat (length data)) by lia.
    pose proof (set_lock_id plp (li_lock _ _ Hinv)) as Hid.
    destruct (lp_size plp - LOG_START <=? Z.of_nat (length data)); [by split|].
    cbn [orb] in E. rewrite E. by split.
  - bools. rewrite (appendv_runs e He plp data Hinv iov) by (done || lia). split; [done|]. split; [done|].
    apply (set_pm_inv _ _ _ _ Hinv), append_durable; try done. lia.
Qed.

(** C3. A power failure at any moment of an append, after any number of its
    stores, flushes and fences, leaves a log pool that holds the old data or
    the old data followed by all of the new. *)
Theorem pmemlog_appendv_crash_atomic (e : lenv) (plp : plog) (data : list byte) (iov : list (list byte))
  (j : nat) (m' : mem)
  (He : persist_ok e) (Hinv : log_inv plp data) (Hro : lp_rdonly plp = false)
  (Hspace : LOG_START + Z.of_nat (length data) < lp_size plp)
  (Hfit : LOG_START + Z.of_nat (length data) + iov_total iov <= lp_size plp) :
  pmemlog_appendv e plp iov = (Done tt, set_pm plp (execs (lp_pm plp) (append_insns e plp data iov))) /\
  (crash_image (execs (lp_pm plp) (take j (append_insns e plp data iov))) m' ->
   log_file (lp_size plp) (shift (lp_addr plp) m') data \/
   log_file (lp_size plp) (shift (lp_addr plp) m') (data ++ concat iov)).
Proof.
  split; [by apply appendv_runs|]. intros Hc. unfold append_insns in Hc. rewrite take_app in Hc.
  pose proof (li_addr _ _ Hinv) as (Ha & Ha8 & Hend).
  set (first := iov_insns iov _ ++ _) in *. rewrite execs_app in Hc.
  destruct (Nat.le_gt_cases j (length first)) as [Hj|Hj].
  - left. replace (j - length first)%nat with 0%nat in Hc by lia. cbn [take execs fold_left] in Hc.
    eapply durable_crash; [|exact Hc]. by apply first_durable.
  - rewrite (firstn_all2 first) in Hc by lia.
    eapply commit_crash; [done..| |by apply first_ready|exact Hc].
    apply durable_execs; [by apply first_harmless|apply Hinv].
Qed.

(** Appending a buffer is gathering one buffer: [pmemlog_append] behaves as
    [pmemlog_appendv] of a single element, on every branch. *)
Theorem pmemlog_append_is_appendv (e : lenv) (plp : plog) (buf : list byte)
  (Hlen : Z.of_nat (length buf) < 2 ^ 64) :
  pmemlog_append e plp buf = pmemlog_appendv e plp [buf].
Proof.
  unfold pmemlog_append, pmemlog_appendv. destruct (lp_rdonly plp); [done|].
  destruct (rw_wrlock (lp_lock plp)) as [l|]; [|done]. cbv zeta. cbn [iov_count iov_copy].
  rewrite Z.add_0_l, (u64_id (Z.of_nat (length buf))) by lia. done.
Qed.

(** ** Rewinding *)

Lemma rewind_runs e plp data :
  persist_ok e -> log_inv plp data -> lp_rdonly plp = false ->
  pmemlog_rewind e plp = (Done tt, set_pm plp (execs (lp_pm plp) (commit_insns e (lp_is_pmem plp) (lp_addr plp) []))).
Proof.
  intros He Hinv Hro. unfold pmemlog_rewind. rewrite Hro, (li_lock _ _ Hinv). cbn [rw_wrlock]. cbv zeta.
  destruct (log_inv_fields _ _ Hinv) as (Es & _ & _ & _ & Hf). pose proof (li_addr _ _ Hinv) as (Ha & _ & Hend).
  assert (load (lp_pm plp) (lp_addr plp + START_OFF) 8 = le_enc 8 LOG_START) as Hl.
  { unfold field64, get_le in Es. rewrite <- Es. unfold load.
    rewrite <- (le_enc_dec (mread (view (lp_pm plp)) (lp_addr plp + START_OFF) 8)) at 1. by rewrite length_mread. }
  unfold store_at, persist_range. cbn [set_pm set_lock lp_addr lp_pm lp_is_pmem lp_size lp_rdonly lp_lock rw_unlock].
  rewrite Hl, (persist_insns e He) by (unfold WRITE_OFF; change LOG_START with 8192 in *; lia).
  unfold set_lock, set_pm. cbn [set_pm set_lock lp_addr lp_pm lp_is_pmem lp_size lp_rdonly lp_lock].
  rewrite (li_lock _ _ Hinv). done.
Qed.

Lemma ready_nil plp data :
  log_inv plp data -> ready (lp_addr plp) (lp_size plp) (lp_pm plp) [].
Proof.
  intros Hinv. destruct (log_inv_fields _ _ Hinv) as (_ & _ & _ & _ & Hf).
  split; cbn [length]; [done| |lia]. intros w v z _ _ Hz. lia.
Qed.

(** [pmemlog_rewind] empties the log durably, unless the pool is read-only;
    a power failure on the way leaves all of the data or none. *)
Theorem pmemlog_rewind_spec (e : lenv) (plp : plog) (data : list byte) (j : nat) (m' : mem)
  (He : persist_ok e) (Hinv : log_inv plp data) :
  let '(r, plp') := pmemlog_rewind e plp in
  if lp_rdonly plp then r = Err EROFS /\ plp' = plp
  else
    let insns := commit_insns e (lp_is_pmem plp) (lp_addr plp) [] in
    r = Done tt /\ plp' = set_pm plp (execs (lp_pm plp) insns) /\ log_inv plp' [] /\
    (crash_image (execs (lp_pm plp) (take j insns)) m' ->
     log_file (lp_size plp) (shift (lp_addr plp) m') data \/ log_file (lp_size plp) (shift (lp_addr plp) m') []).
Proof.
  destruct (lp_rdonly plp) eqn:Hro; [by unfold pmemlog_rewind; rewrite Hro|].
  rewrite (rewind_runs e plp data) by done. pose proof (li_addr _ _ Hinv) as (Ha & Ha8 & Hend).
  pose proof (ready_nil _ _ Hinv) as Hr. cbv zeta. split_and!; [done|done| |].
  - apply (set_pm_inv _ _ _ _ Hinv). eapply commit_durable; try done. apply Hinv.
  - intros Hc. eapply commit_crash; try done. apply Hinv.
Qed.

(** ** Looking *)

(** The observers of a log: the usable size, the number of bytes appended
    so far and, for the check, that the pool is unchanged. *)
Theorem pmemlog_tell_nbyte (plp : plog) (data : list byte) (Hinv : log_inv plp data) :
  pmemlog_nbyte plp = (Done (lp_size plp - LOG_START), plp) /\
  pmemlog_tell plp = (Done (Z.of_nat (length data)), plp).
Proof.
  unfold pmemlog_nbyte, pmemlog_tell. rewrite (li_lock _ _ Hinv). cbn [rw_rdlock].
  destruct (log_inv_fields _ _ Hinv) as (Es & Ee & Ew & _ & Hf).
  assert (set_lock (set_lock plp (RwRead 0)) RwFree = plp) as Hid
    by (pose proof (li_lock _ _ Hinv) as Hl; destruct plp; cbn in *; by rewrite Hl).
  change (field64 (set_lock plp (RwRead 0))) with (field64 plp). rewrite Es, Ee, Ew.
  cbn [rw_unlock lp_lock set_lock]. change LOG_START with 8192 in *. split.
  - rewrite u64_id by lia. by f_equal.
  - f_equal; [|done]. f_equal. unfold s64. rewrite Z.mod_small; lia.
Qed.

(** ** Walking *)

(** The data cut into pieces of [n] bytes, the last one shorter. *)
Fixpoint chunks (fuel n : nat) (l : list byte) : list (list byte) :=
  match fuel, l with
  | S fuel, _ :: _ => take n l :: chunks fuel n (drop n l)
  | _, _ => []
  end.

Definition walk_chunks (chunksize : Z) (data : list byte) : list (list byte) :=
  if chunksize =? 0 then [data] else chunks (length data) (Z.to_nat chunksize) data.

Lemma concat_chunks n : forall fuel l, (0 < n)%nat -> (length l <= fuel)%nat -> concat (chunks fuel n l) = l.
Proof.
  induction fuel as [|fuel IH]; intros l Hn Hl; destruct l as [|b l]; cbn [chunks length] in *; try lia; try done.
  cbn [concat]. rewrite IH by len. apply take_drop.
Qed.

Lemma chunks_size n : forall fuel l, (0 < n)%nat -> Forall (fun c => (0 < length c <= n)%nat) (chunks fuel n l).
Proof.
  induction fuel as [|fuel IH]; intros l Hn; destruct l as [|b l]; cbn [chunks]; constructor; [|by apply IH].
  destruct n; [lia|]. rewrite length_take. cbn [length]. lia.
Qed.

Section WalkSpec.
Context {A : Type} (process_chunk : list byte -> A -> bool * A).

(** The callback on one chunk after the other, until it returns 0. *)
Fixpoint feed (l : list (list byte)) (arg : A) : A :=
  match l with
  | [] => arg
  | c :: l => let '(go, arg) := process_chunk c arg in if go then feed l arg else arg
  end.

Context (plp : plog) (data : list byte).
Context (Hd : mread (view (lp_pm plp)) (lp_addr plp + LOG_START) (Z.of_nat (length data)) = data).
Context (Hf : LOG_START + Z.of_nat (length data) < 2 ^ 63).
Context (chunksize : Z) (Hc : 0 < chunksize <= 2 ^ 63).

Lemma load_chunk k n :
  0 <= n -> Z.of_nat k + n <= Z.of_nat (length data) ->
  load (lp_pm plp) (lp_addr plp + (LOG_START + Z.of_nat k)) n = take (Z.to_nat n) (drop k data).
Proof.
  intros Hn Hk. rewrite <- Hd at 1.
  rewrite mread_sub by done. unfold load. by rewrite Z.add_assoc.
Qed.

Lemma walk_loop_feed m : forall fuel k arg,
  (length data - k <= m)%nat -> (m < fuel)%nat -> (k <= length data)%nat ->
  walk_loop process_chunk fuel plp chunksize (LOG_START + Z.of_nat k) (LOG_START + Z.of_nat (length data)) arg =
  Done (feed (chunks m (Z.to_nat chunksize) (drop k data)) arg).
Proof.
  change LOG_START with 8192 in *.
  induction m as [|m IH]; intros [|fuel] k arg Hm Hfuel Hk; try lia; cbn [walk_loop].
  - ztrue. rewrite drop_ge by lia. done.
  - destruct (Z.ltb_spec (8192 + Z.of_nat k) (8192 + Z.of_nat (length data))) as [Hlt|Hge].
    2: { rewrite drop_ge by lia. done. }
    destruct (drop k data) as [|b l] eqn:Ed; [apply (f_equal length) in Ed; rewrite length_drop in Ed; cbn in Ed; lia|].
    cbn [chunks feed]. rewrite <- Ed.
    pose proof (load_chunk k (Z.min chunksize (8192 + Z.of_nat (length data) - (8192 + Z.of_nat k))) ltac:(lia) ltac:(lia)) as Hld.
    change LOG_START with 8192 in Hld. rewrite Hld.
    assert (take (Z.to_nat (Z.min chunksize (8192 + Z.of_nat (length data) - (8192 + Z.of_nat k)))) (drop k data)
            = take (Z.to_nat chunksize) (drop k data)) as ->.
    { destruct (Z.le_gt_cases chunksize (Z.of_nat (length data) - Z.of_nat k)).
      - by rewrite Z.min_l by lia.
      - rewrite !firstn_all2; [done| |]; rewrite length_drop; lia. }
    destruct (process_chunk _ _) as [[] arg']; [|done].
    rewrite u64_id by lia. rewrite drop_drop.
    destruct (Z.le_gt_cases (Z.of_nat k + chunksize) (Z.of_nat (length data))).
    + replace (8192 + Z.of_nat k + chunksize) with (8192 + Z.of_nat (k + Z.to_nat chunksize)) by lia.
      apply IH; lia.
    + rewrite (drop_ge data (k + Z.to_nat chunksize)) by lia. destruct fuel; [lia|]. cbn [walk_loop]. ztrue.
      by destruct m.
Qed.
End WalkSpec.

(** Walking is feeding, whole or in chunks. *)
Lemma walk_runs {A : Type} (process_chunk : list byte -> A -> bool * A) (plp : plog)
  (data : list byte) (chunksize : Z) (fuel : nat) (arg : A) :
  log_inv plp data -> 0 <= chunksize <= 2 ^ 63 -> (length data < fuel)%nat ->
  pmemlog_walk process_chunk fuel plp chunksize arg =
    (Done (feed process_chunk (walk_chunks chunksize data) arg), plp).
Proof.
  intros Hinv Hc Hfuel. unfold walk_chunks, pmemlog_walk. rewrite (li_lock _ _ Hinv). cbn [rw_rdlock]. cbv zeta.
  destruct (log_inv_fields _ _ Hinv) as (Es & _ & Ew & Hd & Hf).
  change (field64 (set_lock plp (RwRead 0))) with (field64 plp). rewrite Es, Ew.
  assert (set_lock (set_lock plp (RwRead 0)) RwFree = plp) as Hid
    by (pose proof (li_lock _ _ Hinv) as Hl; destruct plp; cbn in *; by rewrite Hl).
  cbn [lp_lock set_lock rw_unlock lp_pm lp_addr]. f_equal; [|exact Hid]. destruct (Z.eqb_spec chunksize 0).
  - pose proof (load_chunk plp data Hd 0 (Z.of_nat (length data)) ltac:(lia) ltac:(lia)) as Hld.
    rewrite Z.add_0_r, drop_0, Nat2Z.id, firstn_all in Hld. cbn [feed]. change LOG_START with 8192 in *.
    rewrite u64_id by lia. replace (8192 + Z.of_nat (length data) - 8192) with (Z.of_nat (length data)) by lia.
    rewrite Hld. by destruct (process_chunk data arg) as [[] arg'].
  - pose proof (walk_loop_feed process_chunk (set_lock plp (RwRead 0)) data Hd ltac:(lia) chunksize ltac:(lia) (length data) fuel 0 arg
      ltac:(lia) Hfuel ltac:(lia)) as Hw.
    rewrite Z.add_0_r, drop_0 in Hw. exact Hw.
Qed.

(** [pmemlog_walk] feeds the callback the data of the log, whole or in
    chunks of the given size in order, until the callback returns 0; the chunks
    put together are the data, and the walk ends within a number of steps that
    the length of the data bounds. *)
Theorem pmemlog_walk_feeds {A : Type} (process_chunk : list byte -> A -> bool * A) (plp : plog)
  (data : list byte) (chunksize : Z) (fuel : nat) (arg : A)
  (Hinv : log_inv plp data) (Hc : 0 <= chunksize <= 2 ^ 63) (Hfuel : (length data < fuel)%nat) :
  pmemlog_walk process_chunk fuel plp chunksize arg =
    (Done (feed process_chunk (walk_chunks chunksize data) arg), plp) /\
  concat (walk_chunks chunksize data) = data /\
  (chunksize <> 0 -> Forall (fun c => 0 < Z.of_nat (length c) <= chunksize) (walk_chunks chunksize data)).
Proof.
  split; [by apply walk_runs|]. unfold walk_chunks. destruct (Z.eqb_spec chunksize 0); split.
  - apply app_nil_r.
  - done.
  - apply concat_chunks; lia.
  - intros _. eapply Forall_impl; [apply chunks_size; lia|]. cbn. intros c Hl. lia.
Qed.

(** ** Creating and opening *)

(** The environment of a successful mapping at an address. *)
Record map_ok (e : lenv) (addr size : Z) : Prop := {
  mo_map : le_mmap e = inr addr;
  mo_addr : 0 <= addr /\ addr mod 8 = 0 /\ addr + size + 8192 <= 2 ^ 64;
  mo_malloc : exists l, le_malloc e = Some l;
  mo_lock : le_rwlock_init e = None;
}.

#[export] Instance log_validate_proper : Proper ((≡) ==> eq ==> eq ==> eq) log_validate.
Proof. intros m1 m2 H ? ? -> ? ? ->. unfold log_validate.
  rewrite (mread_agree m1 m2) by (intros z _; apply H).
  rewrite !(get_le_agree 8 m1 m2) by (intros z _; apply H). done.
Qed.

Lemma store_view_eq p d bs : view (store p d bs) = mwrite (view p) d bs.
Proof. done. Qed.

Lemma mapped_file file addr : shift addr (view (mapped file addr)) ≡ file.
Proof. intros z. unfold shift, mapped, pm_of. cbn [view]. by rewrite Z.add_simpl_l. Qed.

Lemma mapped_durable addr size file data :
  log_file size file data -> durable_log addr size (mapped file addr) data.
Proof.
  intros Hf. split; [|apply pm_of_wf|apply held_pm_of..].
  eapply log_file_agree; [exact Hf|..]; intros z _; apply mapped_file.
Qed.

Lemma log_file_validates size m data rdonly : log_file size m data -> log_validate m size rdonly = inr rdonly.
Proof.
  intros [(hdr & Hc & Hsig & Hmaj & Hfc) Hs He Hw _ Hf]. unfold log_validate. rewrite Hc, Hs, He, Hw, Hfc.
  rewrite bool_decide_true by done. rewrite Hmaj, !Z.eqb_refl. cbn [negb orb].
  replace (size <? LOG_START) with false by (symmetry; apply Z.ltb_ge; lia).
  replace (size <? LOG_START + Z.of_nat (length data)) with false by (symmetry; apply Z.ltb_ge; lia).
  replace (LOG_START + Z.of_nat (length data) <? LOG_START) with false by (symmetry; apply Z.ltb_ge; lia).
  done.
Qed.

(** The end of [pmemlog_map_common]: the run-time fields. *)
Definition runtime_insns (e : lenv) (addr size l : Z) (ro : bool) : list insn :=
  [IStore (addr + RUNTIME_OFF) (runtime_bytes addr size (pmem_is_pmem (le_funcs e) (le_smaps e) addr size) ro);
   IStore (addr + RUNTIME_OFF + 24) (le_enc 8 l)].

Lemma runtime_durable e addr size l ro p data :
  durable_log addr size p data -> durable_log addr size (execs p (runtime_insns e addr size l ro)) data.
Proof.
  apply durable_execs. unfold runtime_insns. apply Forall_cons; split; [right|apply Forall_singleton; right];
    eexists _, _; (split; [done|]);
    unfold RUNTIME_OFF, runtime_bytes; change LOG_START with 8192; rewrite ?length_app, ?length_le_enc; lia.
Qed.

Lemma map_common_maps e addr file size (empty : bool) p data :
  map_ok e addr size -> durable_log addr size p data ->
  (if negb empty then
     match log_validate (file_of addr (mapped file addr)) size false with
     | inl err => inl err | inr ro => inr (mapped file addr, ro) end
   else match log_format e addr size (mapped file addr) with inl err => inl err | inr p => inr (p, false) end
   : errno + (pm * bool)) = inr (p, false) ->
  exists plp, pmemlog_map_common e file size false empty = (Done plp, file_of addr (lp_pm plp)) /\
    log_inv plp data /\ lp_rdonly plp = false /\ lp_size plp = size /\ lp_addr plp = addr.
Proof.
  intros [Hm Ha (l & Hl) Hi] Hd Hbr. unfold pmemlog_map_common. rewrite Hm, Hbr, Hl, Hi.
  exists {| lp_addr := addr; lp_size := size; lp_is_pmem := pmem_is_pmem (le_funcs e) (le_smaps e) addr size;
            lp_rdonly := false; lp_lock := RwFree; lp_pm := execs p (runtime_insns e addr size l false) |}.
  split; [reflexivity|].
  split_and!; try done. split; cbn [lp_addr lp_size lp_pm lp_lock]; [done|done|].
  exact (runtime_durable e addr size l false p data Hd).
Qed.

Lemma open_log_file e addr fs path f data :
  map_ok e addr (f_size f) -> files fs !! path = Some f -> PMEMLOG_MIN_POOL <= f_size f ->
  log_file (f_size f) (f_bytes f) data ->
  exists plp fs' f', pmemlog_open e fs path = (Done plp, fs') /\ log_inv plp data /\ lp_rdonly plp = false /\
    lp_size plp = f_size f /\ files fs' = <[path := f']> (files fs) /\ f_size f' = f_size f /\
    log_file (f_size f) (f_bytes f') data.
Proof.
  intros He Hfs Hmin Hf.
  destruct (map_common_maps e addr (f_bytes f) (f_size f) false (mapped (f_bytes f) addr) data He
    (mapped_durable _ _ _ _ Hf)) as (plp & E & Hinv & Hro & Hsz & Had).
  { cbn [negb]. change (file_of addr (mapped (f_bytes f) addr)) with (shift addr (view (mapped (f_bytes f) addr))).
    by rewrite mapped_file, (log_file_validates _ _ _ _ Hf). }
  unfold pmemlog_open, util_pool_open. rewrite Hfs. ztrue. unfold log_map_file. rewrite Hfs, E.
  eexists plp, _, _. split; [done|]. unfold fs_store. rewrite Hfs. cbn [files].
  split_and!; try done. rewrite <- Hsz. change (f_bytes {| f_size := _; f_bytes := ?b |}) with b.
  rewrite <- Had. apply (li_log _ _ Hinv).
Qed.

(** Opening recovers the log: a file that holds a log pool with some data,
    as an orderly close or a power failure leaves it, opens as a writable pool
    with exactly that data. *)
Theorem pmemlog_open_recovers (e : lenv) (addr : Z) (fs : fsys) (path : string) (f : file) (data : list byte)
  (Hmap : map_ok e addr (f_size f)) (Hfile : files fs !! path = Some f)
  (Hmin : PMEMLOG_MIN_POOL <= f_size f) (Hlog : log_file (f_size f) (f_bytes f) data) :
  exists plp fs' f', pmemlog_open e fs path = (Done plp, fs') /\ log_inv plp data /\ lp_rdonly plp = false /\
    lp_size plp = f_size f /\ files fs' = <[path := f']> (files fs) /\ f_size f' = f_size f /\
    log_file (f_size f) (f_bytes f') data.
Proof. by apply (open_log_file e addr). Qed.

(** Closing a pool and opening its file again, possibly mapped elsewhere,
    gives a pool with the same data. *)
Theorem pmemlog_close_open (e : lenv) (addr : Z) (fs : fsys) (path : string) (f : file) (plp : plog) (data : list byte)
  (Hmap : map_ok e addr (lp_size plp)) (Hfile : files fs !! path = Some f) (Hsize : f_size f = lp_size plp)
  (Hmin : PMEMLOG_MIN_POOL <= lp_size plp) (Hinv : log_inv plp data) :
  exists plp' fs', pmemlog_open e (pmemlog_close fs path plp) path = (Done plp', fs') /\ log_inv plp' data.
Proof.
  set (f' := {| f_size := f_size f; f_bytes := file_of (lp_addr plp) (lp_pm plp) |}).
  assert (files (pmemlog_close fs path plp) !! path = Some f') as Hf'.
  { unfold pmemlog_close, fs_store. rewrite Hfile. apply lookup_insert_eq. }
  destruct (open_log_file e addr (pmemlog_close fs path plp) path f' data) as (plp' & fs' & _ & E & Hi & _).
  - cbn [f' f_size]. by rewrite Hsize.
  - done.
  - cbn [f' f_size]. by rewrite Hsize.
  - cbn [f' f_size f_bytes]. rewrite Hsize. apply (li_log _ _ Hinv).
  - by exists plp', fs'.
Qed.

(** *** Formatting *)

Lemma log_new_hdr_wf e : length (le_uuid e) = 16%nat -> pool_hdr_wf (log_new_hdr e).
Proof.
  intros Hu. pose proof (u64_range (le_time e)).
  split; cbn [log_new_hdr signature major compat_features incompat_features ro_compat_features uuid crtime
    unused checksum]; try done; len.
Qed.

Definition log_hdr_bytes (e : lenv) : list byte := snd (util_checksum (pool_hdr_bytes (log_new_hdr e)) 4088 true).

Lemma length_log_hdr e : length (le_uuid e) = 16%nat -> length (log_hdr_bytes e) = 4096%nat.
Proof.
  intros Hu. unfold log_hdr_bytes. cbn [util_checksum snd].
  rewrite length_splice; rewrite (length_pool_hdr_bytes _ (log_new_hdr_wf e Hu)); rewrite ?length_le_enc; done.
Qed.

Lemma log_hdr_bytes_ok e : length (le_uuid e) = 16%nat -> log_hdr_ok (log_hdr_bytes e).
Proof.
  intros Hu. destruct (convert_hdr_roundtrip (log_new_hdr e) (log_new_hdr_wf e Hu)) as [v Hv]; [done|].
  exists (set_checksum (log_new_hdr e) v). split_and!; [exact Hv|done..].
Qed.

Lemma zeroed_read m off n : 0 <= n -> (forall z, off <= z < off + n -> m z = x00) -> util_is_zeroed (mread m off n) = true.
Proof.
  intros Hn Hz. apply util_is_zeroed_spec. apply list_eq. intros j. rewrite length_mread.
  destruct (decide (j < Z.to_nat n)%nat).
  - rewrite lookup_mread by lia. rewrite Hz by lia. symmetry. by apply lookup_replicate_2.
  - rewrite !lookup_ge_None_2; [done| |]; len.
Qed.

(** The offsets first, then the header: both are on the media at the end. *)
Lemma log_format_ok e addr size p :
  persist_ok e -> length (le_uuid e) = 16%nat -> 0 <= addr -> addr + size + 8192 <= 2 ^ 64 ->
  LOG_START <= size < 2 ^ 63 -> pm_wf p -> (forall z, addr <= z < addr + 4096 -> view p z = x00) ->
  exists q, log_format e addr size p = inr q /\ durable_log addr size q [].
Proof.
  intros He Hu Ha Hend Hs Hwf Hz. unfold log_format, POOL_HDR_SIZE, START_OFF, END_OFF, WRITE_OFF. 
  rewrite (zeroed_read (view p) addr 4096 ltac:(lia) Hz).
  cbn [negb]. rewrite (msync_insn e He), (msync_insn e He). fold (log_hdr_bytes e). cbv zeta.
  change LOG_START with 8192 in *. pose proof (length_log_hdr e Hu) as Hl.
  set (p1 := store (store p (addr + 4096) _) (addr + 4104) _). 
  assert (load p1 (addr + 4096) 8 = le_enc 8 8192) as ->.
  { unfold load, p1. rewrite store_view_eq, mread_mwrite_out by (rewrite length_le_enc; lia). by apply mread_mwrite_eq. }
  set (p2 := store p1 _ _). set (q2 := execs p2 _).
  assert (pm_wf q2) as Hwf2 by (apply execs_wf; unfold p2, p1; by do 3 apply exec_wf).
  assert (view q2 = view p2) as Hv2 by apply execs_view, range_quiet.
  set (p3 := store q2 addr (log_hdr_bytes e)). eexists. split; [done|]. set (q := execs p3 _).
  assert (view q = mwrite (view p2) addr (log_hdr_bytes e)) as Hv by (unfold q; rewrite execs_view by apply range_quiet; unfold p3; by rewrite store_view_eq, Hv2).
  assert (pm_wf p3) as Hwf3 by by apply exec_wf.
  split; [|by apply execs_wf| |intros w v z _ _ Hr; cbn [length] in Hr; lia].
  - rewrite Hv. split; unfold POOL_HDR_SIZE, START_OFF, END_OFF, WRITE_OFF; cbn [length]; rewrite ?get_le_shift, ?mread_shift_at; try done; try (change LOG_START with 8192; lia).
    + rewrite Z.add_0_r, mread_mwrite_eq by (by rewrite Hl). by apply log_hdr_bytes_ok.
    + rewrite get_le_mwrite_out by (rewrite Hl; lia). unfold p2, p1. rewrite !store_view_eq.
      rewrite !get_le_mwrite_out by (rewrite length_le_enc; lia). by rewrite get_le_mwrite_eq.
    + rewrite get_le_mwrite_out by (rewrite Hl; lia). unfold p2, p1. rewrite !store_view_eq.
      rewrite get_le_mwrite_out by (rewrite length_le_enc; lia). rewrite get_le_mwrite_eq. apply Z.mod_small.
      change (256 ^ Z.of_nat 8) with (2 ^ 64). lia.
    + rewrite get_le_mwrite_out by (rewrite Hl; lia). unfold p2. rewrite !store_view_eq. by rewrite get_le_mwrite_eq.
  - unfold RUNTIME_OFF. apply (held_app _ addr 4096 24).
    + apply range_held; try done; lia.
    + apply held_execs; [apply range_quiet|]. apply held_store; [rewrite Hl; lia|].
      apply range_held; try done; try lia. unfold p2, p1. by do 3 apply exec_wf.
Qed.

(** [pmemlog_create] on a fresh path with enough space makes a file of the
    size asked for that durably holds an empty log, and returns it open. *)
Theorem pmemlog_create_spec (e : lenv) (addr : Z) (fs : fsys) (path : string) (poolsize : Z)
  (He : persist_ok e) (Hmap : map_ok e addr poolsize) (Huuid : length (le_uuid e) = 16%nat)
  (Hnew : files fs !! path = None) (Hmin : PMEMLOG_MIN_POOL <= poolsize < 2 ^ 63) (Hspace : poolsize <= space fs) :
  exists plp fs' f, pmemlog_create e fs path poolsize = (Done plp, fs') /\
    log_inv plp [] /\ lp_rdonly plp = false /\ lp_size plp = poolsize /\
    files fs' = <[path := f]> (files fs) /\ f_size f = poolsize /\ log_file poolsize (f_bytes f) [].
Proof.
  pose proof (mo_addr _ _ _ Hmap) as (Ha & Ha8 & Hend). unfold PMEMLOG_MIN_POOL in *.
  destruct (log_format_ok e addr poolsize (mapped (fun _ => x00) addr) He Huuid Ha Hend) as (q & Eq & Hd).
  { change LOG_START with 8192. lia. } { apply pm_of_wf. } { done. }
  destruct (map_common_maps e addr (fun _ => x00) poolsize true q [] Hmap Hd) as (plp & E & Hinv & Hro & Hsz & Had).
  { cbn [negb]. by rewrite Eq. }
  exists plp, {| files := <[path := {| f_size := poolsize; f_bytes := file_of addr (lp_pm plp) |}]> (files fs); space := space fs - poolsize |},
    {| f_size := poolsize; f_bytes := file_of addr (lp_pm plp) |}.
  split_and!; try done.
  - unfold pmemlog_create, util_pool_create, PMEMLOG_MIN_POOL.
    rewrite (proj2 (Z.eqb_neq poolsize 0)), (proj2 (Z.ltb_ge poolsize (1024 * 1024 * 2))) by lia. cbn [negb].
    rewrite Hnew, (proj2 (Z.ltb_ge (space fs) poolsize)) by lia.
    unfold log_map_file. cbn [files]. rewrite lookup_insert_eq. cbn [f_bytes]. rewrite E.
    unfold fs_store. cbn [files]. rewrite lookup_insert_eq. cbn [f_size space]. by rewrite !insert_insert_eq.
  - cbn [f_bytes]. rewrite <- Had, <- Hsz. apply (li_log _ _ Hinv).
Qed.

(** ** Checking *)

Lemma fs_store_same fs path f : files fs !! path = Some f -> fs_store fs path (f_bytes f) = fs.
Proof.
  intros E. unfold fs_store. rewrite E. replace {| f_size := f_size f; f_bytes := f_bytes f |} with f by by destruct f.
  rewrite insert_id by done. by destruct fs.
Qed.

Lemma validate_offsets m size rdonly ro :
  log_validate m size rdonly = inr ro ->
  get64 m START_OFF = LOG_START /\ get64 m END_OFF = size /\ get64 m START_OFF <= get64 m END_OFF /\
  get64 m START_OFF <= get64 m WRITE_OFF /\ get64 m WRITE_OFF <= get64 m END_OFF.
Proof. intros E. unfold log_validate in E. repeat (case_match; try discriminate); by bools. Qed.

(** [pmemlog_check] changes no file and, when the pool can be mapped,
    answers 1 exactly for the pools [pmemlog_open] accepts; it never answers 0:
    an inconsistent pool is reported as the error EINVAL, since opening rejects
    it before the check looks. *)
Theorem pmemlog_check_spec (e : lenv) (addr : Z) (fs : fsys) (path : string) (f : file)
  (Hmap : map_ok e addr (f_size f)) (Hfile : files fs !! path = Some f) :
  let '(r, fs') := pmemlog_check e fs path in
  fs' = fs /\
  r = (if f_size f <? PMEMLOG_MIN_POOL then Err EINVAL
       else match log_validate (f_bytes f) (f_size f) true with inl err => Err err | inr _ => Done true end).
Proof.
  destruct Hmap as [Hm Ha (l & Hl) Hi]. unfold pmemlog_check, util_pool_open. rewrite Hfile.
  destruct (f_size f <? PMEMLOG_MIN_POOL); [done|].
  unfold log_map_file, pmemlog_map_common. rewrite Hfile, Hm. cbn [negb].
  change (file_of addr (mapped (f_bytes f) addr)) with (shift addr (view (mapped (f_bytes f) addr))).
  rewrite (log_validate_proper _ _ (mapped_file (f_bytes f) addr) _ _ eq_refl _ _ eq_refl).
  destruct (log_validate (f_bytes f) (f_size f) true) as [err|ro] eqn:Ev; cbv iota.
  { by rewrite fs_store_same. }
  rewrite Hl, Hi, fs_store_same by done. split; [done|].
  destruct (validate_offsets _ _ _ _ Ev) as (H1 & H2 & H3 & H4 & H5).
  assert (forall off, off + 8 <= RUNTIME_OFF -> 
    get64 (view (execs (mapped (f_bytes f) addr) (runtime_insns e addr (f_size f) l ro))) (addr + off) = get64 (f_bytes f) off) as Hg.
  { intros off Hoff. cbn [runtime_insns execs fold_left exec do_store view]. unfold RUNTIME_OFF in *.
    rewrite !get_le_mwrite_out by lia. rewrite <- get_le_shift. apply get_le_proper; [apply mapped_file|done]. }
  unfold field64. cbn [lp_pm lp_addr lp_size].
  change (store (store ?p _ _) _ _) with (execs p (runtime_insns e addr (f_size f) l ro)).
  rewrite !Hg by (unfold RUNTIME_OFF, START_OFF, END_OFF, WRITE_OFF; lia).
  f_equal. repeat (apply andb_true_iff; split); rewrite ?Z.eqb_eq, ?Z.leb_le; try done; lia.
Qed.

(** A chunk size close to 2^64 makes the offset wrap around: walking a log
    that is not empty with chunks of 2^64 - 4096 bytes, and a callback that
    never stops, hands the callback the data, then the pool's metadata, then the
    pool from its header on. *)
Theorem pmemlog_walk_wraps (plp : plog) (data : list byte)
  (Hinv : log_inv plp data) (Hne : data <> []) :
  let m := view (lp_pm plp) in
  pmemlog_walk (fun c seen => (true, seen ++ [c])) 4 plp (2 ^ 64 - 4096) [] =
  (Done [data; mread m (lp_addr plp + 4096) (4096 + Z.of_nat (length data));
         mread m (lp_addr plp) (8192 + Z.of_nat (length data))], plp).
Proof.
  cbv zeta. unfold pmemlog_walk. rewrite (li_lock _ _ Hinv). cbn [rw_rdlock]. cbv zeta.
  destruct (log_inv_fields _ _ Hinv) as (Es & _ & Ew & Hd & Hf).
  change (field64 (set_lock plp (RwRead 0))) with (field64 plp). rewrite Es, Ew.
  assert (0 < Z.of_nat (length data)) by (destruct data; [done|cbn; lia]).
  assert (set_lock (set_lock plp (RwRead 0)) RwFree = plp) as Hid
    by (pose proof (li_lock _ _ Hinv) as Hl; destruct plp; cbn in *; by rewrite Hl).
  cbn [lp_lock set_lock rw_unlock lp_pm lp_addr]. rewrite (proj2 (Z.eqb_neq _ _)) by lia.
  change LOG_START with 8192 in *. f_equal; [|exact Hid]. cbn [walk_loop lp_pm lp_addr set_lock].
  rewrite (proj2 (Z.ltb_lt 8192 (8192 + Z.of_nat (length data)))) by lia. change (u64 (8192 + (2 ^ 64 - 4096))) with 4096.
  rewrite (proj2 (Z.ltb_lt 4096 (8192 + Z.of_nat (length data)))) by lia. change (u64 (4096 + (2 ^ 64 - 4096))) with 0.
  rewrite (proj2 (Z.ltb_lt 0 (8192 + Z.of_nat (length data)))) by lia.
  rewrite (proj2 (Z.ltb_ge (u64 (0 + (2 ^ 64 - 4096))) (8192 + Z.of_nat (length data))))
    by (change (u64 (0 + (2 ^ 64 - 4096))) with (2 ^ 64 - 4096); lia).
  rewrite !Z.min_r by lia. unfold load. rewrite Z.add_0_r.
  replace (8192 + Z.of_nat (length data) - 8192) with (Z.of_nat (length data)) by lia. rewrite Hd.
  cbn [app]. replace (8192 + Z.of_nat (length data) - 4096) with (4096 + Z.of_nat (length data)) by lia.
  by rewrite Z.sub_0_r.
Qed.
