(* ===== verification/Durable.v ===== *)
(** Durable: a store followed by a persist, as one durable write.

    [Prog] and the allocator record durable writes and describe a power failure
    by [crashed]: earlier writes are on the media, the one in flight is torn.
    Here the cache machine of [Persist] is shown to refine that description
    when every store is followed by [pmem_persist] or [pmem_msync] of its
    range, wherever in the instructions the power fails. *)

From S2P Require Import Prelude Mem Util Prog Persist Pmem PmemSpec Log LogSpec.

Section Durable.
Context (e : lenv) (is_pmem : bool).

Definition ev_off (ev : event) : Z := match ev with EvWrite off _ => off | EvZero off _ => off end.
Definition ev_bytes (ev : event) : list byte :=
  match ev with EvWrite _ bs => bs | EvZero _ n => replicate (Z.to_nat n) x00 end.
Definition ev_len (ev : event) : Z := Z.of_nat (length (ev_bytes ev)).

(** "store; if (is_pmem) pmem_persist(...); else pmem_msync(...);" *)
Definition durable_write (p : pm) (ev : event) : pm :=
  let p := store p (ev_off ev) (ev_bytes ev) in
  if is_pmem then pmem_persist (le_funcs e) (ev_off ev) (ev_len ev) p
  else snd (pmem_msync (le_Pagesize e) (le_msync e) (ev_off ev) (ev_len ev) p).

Definition write_insns (ev : event) : list insn :=
  IStore (ev_off ev) (ev_bytes ev) :: range_insns e is_pmem (ev_off ev) (ev_len ev).

(** The write is inside the address space. *)
Definition ev_ok (ev : event) : Prop := 0 <= ev_off ev /\ ev_off ev + ev_len ev + 64 <= 2 ^ 64.

Context (He : persist_ok e).

Lemma durable_write_insns p ev : ev_ok ev -> durable_write p ev = execs p (write_insns ev).
Proof.
  intros [Ho Hl]. unfold durable_write, write_insns. cbn [execs fold_left].
  rewrite (persist_insns e He (ev_off ev) (ev_len ev)); [done|done|unfold ev_len; lia|done].
Qed.

Lemma durable_writes_insns evs : forall p, Forall ev_ok evs ->
  fold_left durable_write evs p = execs p (flat_map write_insns evs).
Proof.
  induction evs as [|ev evs IH]; intros p Hok; [done|]. apply Forall_cons in Hok as [Hev Hok].
  cbn [fold_left flat_map]. by rewrite execs_app, <- durable_write_insns, IH.
Qed.

Lemma mzero_write m off n : mzero m off n ≡ mwrite m off (replicate (Z.to_nat n) x00).
Proof.
  intros z. destruct (Z.lt_ge_cases z off); [rewrite mzero_out, mwrite_out by lia; done|].
  destruct (Z.lt_ge_cases z (off + n)).
  - rewrite mzero_in, mwrite_in by (try rewrite length_replicate; lia).
    symmetry. destruct (nth_in_or_default (Z.to_nat (z - off)) (replicate (Z.to_nat n) x00) x00) as [Hin|?]; [|done].
    apply list_elem_of_In, elem_of_replicate in Hin as [? _]. done.
  - rewrite mzero_out by lia. symmetry. apply mwrite_out. rewrite length_replicate. lia.
Qed.

Lemma write_settled p ev :
  pm_wf p -> (forall w, settled p w) -> ev_ok ev -> forall w, settled (execs p (write_insns ev)) w.
Proof.
  intros Hwf Hs [Ho Hl] w. unfold write_insns. cbn [execs fold_left].
  destruct (in_range (ev_off ev) (ev_len ev) w) eqn:E.
  - apply range_settled; [done|done|unfold ev_len; lia|done|by apply exec_wf|done].
  - assert (settled (exec p (IStore (ev_off ev) (ev_bytes ev))) w) as Hw by (by apply store_keeps).
    revert Hw. generalize (exec p (IStore (ev_off ev) (ev_bytes ev))). pose proof (range_quiet e is_pmem (ev_off ev) (ev_len ev)) as Hq.
    induction Hq as [|i l Hi _ IH]; intros q Hw; [done|]. cbn [fold_left]. apply IH. apply flush_keeps; [by destruct i|done].
Qed.

Lemma torn_proper m1 m2 off bs m' : m1 ≡ m2 -> torn m1 off bs m' -> torn m2 off bs m'.
Proof.
  intros Hm Ht w. destruct (Ht w) as [H|H]; [left|right]; intros a Ha; rewrite (H a Ha); [apply Hm|].
  by apply mwrite_proper.
Qed.

Lemma crashed_proper m1 m2 evs m' : m1 ≡ m2 -> crashed m1 evs m' -> crashed m2 evs m'.
Proof.
  intros Hm Hc. revert m2 Hm. induction Hc as [m m' Hd|m ev evs m' Ht|m ev evs m' Hc IH]; intros m2 Hm.
  - apply crashed_done. by rewrite Hd.
  - apply crashed_now. destruct ev; by eapply torn_proper.
  - apply crashed_later. apply IH. destruct ev; cbn; by rewrite Hm.
Qed.

(** While one write is in flight the media is torn. *)
Lemma write_crash_torn p ev j m' :
  pm_wf p -> (forall w, settled p w) -> crash_image (execs p (take j (write_insns ev))) m' -> torn_event (view p) ev m'.
Proof.
  intros Hwf Hs Hc. assert (torn (view p) (ev_off ev) (ev_bytes ev) m') as Ht; [|by destruct ev].
  destruct j as [|j].
  - intros w. left. pose proof (settled_image p m' Hs Hc) as Hm. intros a _. apply Hm.
  - cbn [take write_insns execs fold_left] in Hc.
    apply crash_execs in Hc; [|by apply exec_wf|apply Forall_take, range_quiet].
    intros w. destruct (Hc w) as (v & Hv & Ha). cbn [exec do_store cand] in Hv.
    apply elem_of_cons in Hv as [->|Hv]; [by right|left]. eapply agree_trans; [exact Ha|by apply Hs].
Qed.

Lemma apply_write p ev : view (execs p (write_insns ev)) ≡ apply_event (view p) ev.
Proof.
  unfold write_insns. cbn [execs fold_left].
  pose proof (execs_view (range_insns e is_pmem (ev_off ev) (ev_len ev)) (exec p (IStore (ev_off ev) (ev_bytes ev)))
    (range_quiet e is_pmem _ _)) as Hv. unfold execs in Hv. rewrite Hv.
  destruct ev; cbn; [done|]. symmetry. apply mzero_write.
Qed.

Lemma writes_crash evs : forall p j m',
  pm_wf p -> (forall w, settled p w) -> Forall ev_ok evs ->
  crash_image (execs p (take j (flat_map write_insns evs))) m' -> crashed (view p) evs m'.
Proof.
  induction evs as [|ev evs IH]; intros p j m' Hwf Hs Hok Hc.
  - apply crashed_done. cbn [flat_map] in Hc. rewrite take_nil in Hc. by apply settled_image.
  - apply Forall_cons in Hok as [Hev Hok]. cbn [flat_map] in Hc.
    destruct (Nat.le_gt_cases j (length (write_insns ev))) as [Hj|Hj].
    + rewrite take_app_le in Hc by done. apply crashed_now. by eapply write_crash_torn.
    + rewrite take_app_ge, execs_app in Hc by lia. apply crashed_later.
      eapply crashed_proper; [apply apply_write|].
      eapply IH; [by apply execs_wf|by apply write_settled|done|exact Hc].
Qed.

(** Durable writes behave as [crashed] describes: running a sequence of
    stores, each followed by [pmem_persist] or [pmem_msync] of its range, is a
    sequence of instructions that stores the bytes, and a power failure after
    any number of those instructions leaves a media on which some first writes
    are complete and the next one is torn into aligned words. *)
Theorem durable_writes_crash (p : pm) (evs : list event)
  (Hwf : pm_wf p) (Hs : forall w, settled p w) (Hok : Forall ev_ok evs) :
  exists insns, fold_left durable_write evs p = execs p insns /\
    view (execs p insns) ≡ apply_events (view p) evs /\
    forall j m', crash_image (execs p (take j insns)) m' -> crashed (view p) evs m'.
Proof.
  exists (flat_map write_insns evs). split_and!.
  - by apply durable_writes_insns.
  - clear Hwf Hs Hok. revert p. induction evs as [|ev evs IH]; intros p; [done|]. cbn [flat_map]. rewrite execs_app, IH.
    cbn [apply_events fold_left]. generalize (apply_write p ev). generalize (view (execs p (write_insns ev))).
    generalize (apply_event (view p) ev). clear. induction evs as [|ev evs IH]; intros m1 m2 Hm; [done|].
    cbn [apply_events fold_left]. apply IH. destruct ev; cbn; by rewrite Hm.
  - intros j m' Hc. by eapply writes_crash.
Qed.
End Durable.
