(* ===== verification/Obj.v ===== *)
(** Obj: src/src/libpmemobj/obj.c and obj.h: creating, opening, closing and
    checking an object pool, on the machine of [Persist].

    The environment is that of the log ([lenv]; the fields for its lock are not
    used).  A layout name is the bytes before its terminating NUL.  RANGE_RO and
    util_range_none change page protections only and are left out. *)

From stdpp Require Import strings.
From S2P Require Import Prelude Mem Util Prog Persist Pmem Log.

Definition OBJ_HDR_SIG : list byte := [x4f; x42; x4a; x50; x4f; x4f; x4c; x00].
Definition OBJ_FORMAT_MAJOR : Z := 1.
Definition OBJ_FORMAT_COMPAT : Z := 0.
Definition OBJ_FORMAT_INCOMPAT : Z := 0.
Definition OBJ_FORMAT_RO_COMPAT : Z := 0.
Definition PMEMOBJ_MIN_POOL : Z := 2 ^ 21.
Definition PMEMOBJ_LAYOUT_MAX : Z := 1024.

(** Offsets of the fields of [struct pmemobjpool]. *)
Definition LAYOUT_OFF : Z := 4096.
Definition OBJ_RUNTIME_OFF : Z := 5120.

Record pmemobjpool := {
  po_addr : Z;
  po_size : Z;
  po_is_pmem : bool;
  po_rdonly : bool;
  po_pm : pm;
}.

(** ** Strings of C *)

(** strncmp of [n] characters is 0; a list ends with a NUL. *)
Fixpoint strncmp_eq (n : nat) (s1 s2 : list byte) : bool :=
  match n with
  | O => true
  | S n =>
      let c1 := default x00 (head s1) in
      let c2 := default x00 (head s2) in
      if negb (bool_decide (c1 = c2)) then false
      else if bool_decide (c1 = x00) then true
      else strncmp_eq n (tail s1) (tail s2)
  end.

(** What strncpy of [n] characters writes. *)
Definition strncpy_bytes (n : nat) (s : list byte) : list byte := take n s ++ replicate (n - length s) x00.

Section Obj.
Context (e : lenv).

(** ** Creating and opening *)

(** The checks on an existing pool: read-only or not, after the feature check. *)
Definition obj_validate (m : mem) (layout : option (list byte)) (rdonly : bool) : errno + bool :=
  match util_convert_hdr (mread m 0 POOL_HDR_SIZE) with
  | None => inl EINVAL
  | Some hdr =>
      if negb (bool_decide (signature hdr = OBJ_HDR_SIG)) then inl EINVAL
      else if negb (major hdr =? OBJ_FORMAT_MAJOR) then inl EINVAL
      else if match layout with
              | Some layout => negb (strncmp_eq (Z.to_nat PMEMOBJ_LAYOUT_MAX) (mread m LAYOUT_OFF PMEMOBJ_LAYOUT_MAX) layout)
              | None => false
              end then inl EINVAL
      else match util_feature_check hdr OBJ_FORMAT_INCOMPAT OBJ_FORMAT_RO_COMPAT OBJ_FORMAT_COMPAT with
           | inl err => inl err
           | inr ok => inr (if ok then rdonly else true)
           end
  end.

Definition obj_new_hdr : pool_hdr :=
  {| signature := OBJ_HDR_SIG; major := OBJ_FORMAT_MAJOR; compat_features := OBJ_FORMAT_COMPAT;
     incompat_features := OBJ_FORMAT_INCOMPAT; ro_compat_features := OBJ_FORMAT_RO_COMPAT;
     uuid := le_uuid e; crtime := u64 (le_time e); unused := replicate 4040 x00; checksum := 0 |}.

(** The "empty" branch: the layout name first, then the header. *)
Definition obj_format (addr : Z) (layout : option (list byte)) (p : pm) : errno + pm :=
  if negb (util_is_zeroed (mread (view p) addr POOL_HDR_SIZE)) then inl EINVAL
  else
    let msync off len p := snd (pmem_msync (le_Pagesize e) (le_msync e) (addr + off) len p) in
    let header p :=
      msync 0 POOL_HDR_SIZE (store p addr (snd (util_checksum (pool_hdr_bytes obj_new_hdr) 4088 true))) in
    match layout with
    | None => inr (header p)
    | Some layout =>
        if PMEMOBJ_LAYOUT_MAX <=? Z.of_nat (length layout) then inl EINVAL
        else
          inr (header (msync LAYOUT_OFF PMEMOBJ_LAYOUT_MAX
                         (store p (addr + LAYOUT_OFF) (strncpy_bytes (Z.to_nat (PMEMOBJ_LAYOUT_MAX - 1)) layout))))
    end.

(** The second component is the file after the call: a private mapping ([rdonly]
    as passed in) leaves it as it was. *)
Definition pmemobj_map_common (file : mem) (layout : option (list byte)) (poolsize : Z) (rdonly empty : bool)
  : outcome pmemobjpool * mem :=
  match le_mmap e with
  | inl err => (Err err, file)
  | inr addr =>
      let keep (p : pm) := if rdonly then file else file_of addr p in
      let is_pmem := pmem_is_pmem (le_funcs e) (le_smaps e) addr poolsize in
      let p := mapped file addr in
      match (if negb empty then
               match obj_validate (file_of addr p) layout rdonly with inl err => inl err | inr ro => inr (p, ro) end
             else
               match obj_format addr layout p with inl err => inl err | inr p => inr (p, rdonly) end) with
      | inl err => (Err err, keep p)
      | inr (p, ro) =>
          let p := store p (addr + OBJ_RUNTIME_OFF) (runtime_bytes addr poolsize is_pmem ro) in
          (Done {| po_addr := addr; po_size := poolsize; po_is_pmem := is_pmem; po_rdonly := ro; po_pm := p |}, keep p)
      end
  end.

Definition obj_map_file (fs : fsys) (path : string) (layout : option (list byte)) (poolsize : Z) (rdonly empty : bool)
  : outcome pmemobjpool * fsys :=
  match files fs !! path with
  | None => (Fault Undefined, fs)
  | Some f =>
      let '(r, m) := pmemobj_map_common (f_bytes f) layout poolsize rdonly empty in (r, fs_store fs path m)
  end.

Definition pmemobj_create (fs : fsys) (path : string) (layout : option (list byte)) (poolsize : Z)
  : outcome pmemobjpool * fsys :=
  if negb (poolsize =? 0) then
    match util_pool_create fs path poolsize PMEMOBJ_MIN_POOL with
    | (inl err, fs) => (Err err, fs)
    | (inr _, fs) => obj_map_file fs path layout poolsize false true
    end
  else
    match util_pool_open fs path PMEMOBJ_MIN_POOL with
    | inl err => (Err err, fs)
    | inr (_, size) => obj_map_file fs path layout size false true
    end.

Definition pmemobj_open (fs : fsys) (path : string) (layout : option (list byte)) : outcome pmemobjpool * fsys :=
  match util_pool_open fs path PMEMOBJ_MIN_POOL with
  | inl err => (Err err, fs)
  | inr (_, size) => obj_map_file fs path layout size false false
  end.

Definition pmemobj_close (fs : fsys) (path : string) (pop : pmemobjpool) : fsys :=
  fs_store fs path (file_of (po_addr pop) (po_pm pop)).

(** The private mapping is closed; nothing is validated, so the answer is 1. *)
Definition pmemobj_check (fs : fsys) (path : string) (layout : option (list byte)) : outcome bool * fsys :=
  match util_pool_open fs path PMEMOBJ_MIN_POOL with
  | inl err => (Err err, fs)
  | inr (_, size) =>
      match obj_map_file fs path layout size true false with
      | (Err err, fs) => (Err err, fs)
      | (Fault f, fs) => (Fault f, fs)
      | (Done _, fs) => (Done true, fs)
      end
  end.
End Obj.
