(* ===== verification/ObjSpec.v ===== *)
(** ObjSpec: what the functions of obj.c promise.  A pool carries a layout name;
    it opens under that name, or under none, and under no other; a pool whose
    header a power failure has left whole has its name. *)

From stdpp Require Import strings.
From S2P Require Import Prelude Mem Util Prog Persist Pmem PmemSpec Log LogSpec Obj.

(** ** Strings of C *)

(** A string without a NUL. *)
Definition c_string (s : list byte) : Prop := x00 ∉ s.

Lemma strncmp_spec s1 : forall n s2 k, c_string s1 -> c_string s2 -> (length s1 < n)%nat ->
  strncmp_eq n (s1 ++ replicate k x00) s2 = bool_decide (s1 = s2).
Proof.
  unfold c_string. induction s1 as [|c s1 IH]; intros [|n] s2 k H1 H2 Hn; cbn [length] in Hn; try lia.
  - cbn [app strncmp_eq]. replace (default x00 (head (replicate k x00))) with x00 by by destruct k.
    destruct s2 as [|c2 s2]; [done|]. apply not_elem_of_cons in H2 as [H2 _]. cbn [head default].
    by rewrite bool_decide_false by done.
  - apply not_elem_of_cons in H1 as [Hc H1]. cbn [app strncmp_eq head tail default].
    destruct s2 as [|c2 s2]; cbn [head tail default].
    + by rewrite bool_decide_false by done.
    + apply not_elem_of_cons in H2 as [Hc2 H2]. destruct (decide (c = c2)) as [->|Hne].
      * rewrite bool_decide_true by done. cbn [negb]. rewrite bool_decide_false by done. rewrite IH by (done || lia).
        apply bool_decide_ext. split; congruence.
      * rewrite bool_decide_false by done. cbn [negb]. rewrite bool_decide_false by congruence. done.
Qed.

Lemma length_strncpy n s : length (strncpy_bytes n s) = n.
Proof. unfold strncpy_bytes. rewrite length_app, length_take, length_replicate. lia. Qed.

Lemma strncpy_small n s : (length s <= n)%nat -> strncpy_bytes n s = s ++ replicate (n - length s) x00.
Proof. intros Hl. unfold strncpy_bytes. by rewrite take_ge by lia. Qed.

(** ** Pools in files *)

Definition obj_hdr_ok (h : list byte) : Prop :=
  exists hdr, util_convert_hdr h = Some hdr /\ signature hdr = OBJ_HDR_SIG /\ major hdr = OBJ_FORMAT_MAJOR /\
    util_feature_check hdr OBJ_FORMAT_INCOMPAT OBJ_FORMAT_RO_COMPAT OBJ_FORMAT_COMPAT = inr true.

(** The file is an object pool with the layout name. *)
Record obj_file (m : mem) (name : list byte) : Prop := {
  of_hdr : obj_hdr_ok (mread m 0 POOL_HDR_SIZE);
  of_name : mread m LAYOUT_OFF PMEMOBJ_LAYOUT_MAX = strncpy_bytes 1024 name;
  of_string : c_string name;
  of_short : (length name < 1024)%nat;
}.

(** Whether a caller's name fits: none does, and the pool's own. *)
Definition name_ok (layout : option (list byte)) (name : list byte) : bool :=
  match layout with None => true | Some l => bool_decide (l = name) end.

Lemma obj_file_validates m name layout rdonly :
  obj_file m name -> (forall l, layout = Some l -> c_string l) ->
  obj_validate m layout rdonly = if name_ok layout name then inr rdonly else inl EINVAL.
Proof.
  intros [(hdr & Hc & Hs & Hm & Hf) Hn Hcs Hsh] Hl. unfold obj_validate. rewrite Hc, bool_decide_true by done.
  rewrite Hm, Z.eqb_refl, Hf. cbn [negb]. destruct layout as [l|]; [|done]. specialize (Hl l eq_refl). cbn [name_ok].
  rewrite Hn, strncpy_small by lia. rewrite strncmp_spec by (try done; change (Z.to_nat PMEMOBJ_LAYOUT_MAX) with 1024%nat; lia).
  destruct (decide (name = l)) as [->|Hne]; [by rewrite !bool_decide_true|].
  by rewrite !bool_decide_false by congruence.
Qed.

#[export] Instance obj_validate_proper : Proper ((≡) ==> eq ==> eq ==> eq) obj_validate.
Proof.
  intros m1 m2 H ? ? -> ? ? ->. unfold obj_validate. by rewrite !(mread_agree m1 m2) by (intros z _; apply H).
Qed.

(** ** Formatting *)

Section Format.
Context (e : lenv) (He : persist_ok e) (Huuid : length (le_uuid e) = 16%nat).
Context (addr : Z) (Ha : 0 <= addr) (Hend : addr + 8192 <= 2 ^ 64).

Lemma obj_new_hdr_wf : pool_hdr_wf (obj_new_hdr e).
Proof.
  pose proof (u64_range (le_time e)).
  split; cbn [obj_new_hdr signature major compat_features incompat_features ro_compat_features uuid crtime
    unused checksum]; try done; len.
Qed.

Definition obj_hdr_bytes : list byte := snd (util_checksum (pool_hdr_bytes (obj_new_hdr e)) 4088 true).

Lemma length_obj_hdr : length obj_hdr_bytes = 4096%nat.
Proof.
  unfold obj_hdr_bytes. cbn [util_checksum snd].
  rewrite length_splice; rewrite (length_pool_hdr_bytes _ obj_new_hdr_wf); rewrite ?length_le_enc; done.
Qed.

Lemma obj_hdr_bytes_ok : obj_hdr_ok obj_hdr_bytes.
Proof.
  destruct (convert_hdr_roundtrip (obj_new_hdr e) obj_new_hdr_wf) as [v Hv]; [done|].
  exists (set_checksum (obj_new_hdr e) v). split_and!; [exact Hv|done..].
Qed.

(** The stores and flushes of the "empty" branch. *)
Definition name_insns (layout : option (list byte)) : list insn :=
  match layout with
  | None => []
  | Some l => IStore (addr + LAYOUT_OFF) (strncpy_bytes 1023 l) :: range_insns e false (addr + LAYOUT_OFF) PMEMOBJ_LAYOUT_MAX
  end.
Definition format_insns (layout : option (list byte)) : list insn :=
  name_insns layout ++ IStore addr obj_hdr_bytes :: range_insns e false (addr + 0) POOL_HDR_SIZE.

(** The name the pool will have; a name that is too long is refused. *)
Definition short (layout : option (list byte)) : Prop :=
  c_string (default [] layout) /\ (length (default [] layout) < 1024)%nat.

Lemma obj_format_insns layout p :
  short layout -> (forall z, addr <= z < addr + 4096 -> view p z = x00) ->
  obj_format e addr layout p = inr (execs p (format_insns layout)).
Proof.
  intros [_ Hs] Hz. unfold obj_format. rewrite (zeroed_read (view p) addr POOL_HDR_SIZE) by (done || unfold POOL_HDR_SIZE; lia).
  cbn [negb]. cbv zeta. fold obj_hdr_bytes. unfold format_insns, name_insns.
  destruct layout as [l|]; simpl in Hs.
  - rewrite (proj2 (Z.leb_gt _ _)) by (unfold PMEMOBJ_LAYOUT_MAX; lia). rewrite execs_app. cbn [execs fold_left].
    by rewrite !(msync_insn e He).
  - cbn [app execs fold_left]. by rewrite (msync_insn e He).
Qed.

(** What the program sees afterwards. *)
Lemma format_view layout p :
  view (execs p (format_insns layout)) =
  mwrite (match layout with None => view p | Some l => mwrite (view p) (addr + LAYOUT_OFF) (strncpy_bytes 1023 l) end)
    addr obj_hdr_bytes.
Proof.
  unfold format_insns. rewrite execs_app. cbn [execs fold_left exec]. fold (execs (do_store (execs p (name_insns layout)) addr obj_hdr_bytes)
    (range_insns e false (addr + 0) POOL_HDR_SIZE)).
  rewrite execs_view by apply range_quiet. cbn [do_store view]. f_equal. destruct layout as [l|]; [|done].
  cbn [name_insns execs fold_left]. fold (execs (exec p (IStore (addr + LAYOUT_OFF) (strncpy_bytes 1023 l)))
    (range_insns e false (addr + LAYOUT_OFF) PMEMOBJ_LAYOUT_MAX)). by rewrite execs_view by apply range_quiet.
Qed.

(** The name in a mapping whose bytes from the layout on were zeros. *)
Lemma name_written layout m :
  short layout -> (forall z, addr + 4096 <= z < addr + 5120 -> m z = x00) ->
  mread (match layout with None => m | Some l => mwrite m (addr + LAYOUT_OFF) (strncpy_bytes 1023 l) end)
    (addr + LAYOUT_OFF) PMEMOBJ_LAYOUT_MAX = strncpy_bytes 1024 (default [] layout).
Proof.
  intros [_ Hs] Hz. unfold LAYOUT_OFF, PMEMOBJ_LAYOUT_MAX. rewrite strncpy_small by lia.
  assert (forall k off, addr + 4096 <= off -> off + Z.of_nat k <= addr + 5120 -> mread m off (Z.of_nat k) = replicate k x00) as Hr.
  { intros k off H1 H2. apply list_eq. intros i. destruct (decide (i < k)%nat).
    - rewrite lookup_mread, Hz by lia. symmetry. by apply lookup_replicate_2.
    - rewrite !lookup_ge_None_2; [done| |]; len. }
  destruct layout as [l|]; simpl in *; [|apply (Hr 1024%nat); lia].
  change 1024 with (1023 + 1). rewrite mread_app by lia. rewrite mread_mwrite_eq by (by rewrite length_strncpy).
  rewrite mread_mwrite_out by (rewrite length_strncpy; lia). change 1 with (Z.of_nat 1). rewrite Hr by lia.
  rewrite strncpy_small by lia. rewrite <- app_assoc, <- replicate_add. do 2 f_equal. lia.
Qed.

(** ** Power failure while a pool is made *)

(** An instruction that stores nothing in a range. *)
Definition outside (a n : Z) (i : insn) : Prop :=
  is_store i = false \/ exists off bs, i = IStore off bs /\ (off + Z.of_nat (length bs) <= a \/ a + n <= off).

Lemma outside_held a n l : forall p, Forall (outside a n) l -> held p a n ->
  held (execs p l) a n /\ agree (view (execs p l)) (view p) a n.
Proof.
  induction l as [|i l IH]; intros p Hl Hp; [split; [done|apply agree_refl]|].
  apply Forall_cons in Hl as [Hi Hl]. cbn [execs fold_left].
  assert (held (exec p i) a n /\ agree (view (exec p i)) (view p) a n) as [Hh Hv].
  { destruct Hi as [Hi|(off & bs & -> & Hd)].
    - split; [by apply held_exec|]. rewrite exec_view by done. apply agree_refl.
    - split; [apply held_store; [lia|done]|]. intros z Hz. cbn [exec do_store view]. apply mwrite_out. lia. }
  destruct (IH (exec p i) Hl Hh) as [H1 H2]. split; [done|]. by eapply agree_trans.
Qed.

Lemma quiet_outside a n l : quiet l -> Forall (outside a n) l.
Proof. intros Hq. eapply Forall_impl; [exact Hq|]. intros i Hi. by left. Qed.

Definition create_insns (layout : option (list byte)) (runtime : list byte) : list insn :=
  format_insns layout ++ [IStore (addr + OBJ_RUNTIME_OFF) runtime].

Lemma name_outside layout : Forall (outside addr 4096) (name_insns layout).
Proof.
  destruct layout as [l|]; [|by apply Forall_nil]. apply Forall_cons. split; [|apply quiet_outside, range_quiet].
  right. eexists _, _. split; [done|]. unfold LAYOUT_OFF. lia.
Qed.

Lemma name_held layout m : held (execs (pm_of m) (name_insns layout)) (addr + LAYOUT_OFF) PMEMOBJ_LAYOUT_MAX.
Proof.
  destruct layout as [l|]; [|apply held_pm_of]. cbn [name_insns execs fold_left].
  apply range_held; try done; unfold LAYOUT_OFF, PMEMOBJ_LAYOUT_MAX; try lia. apply exec_wf, pm_of_wf.
Qed.

Lemma after_name runtime j :
  Forall (outside (addr + LAYOUT_OFF) PMEMOBJ_LAYOUT_MAX)
    (take j (IStore addr obj_hdr_bytes :: range_insns e false (addr + 0) POOL_HDR_SIZE ++ [IStore (addr + OBJ_RUNTIME_OFF) runtime])).
Proof.
  apply Forall_take, Forall_cons. split.
  - right. eexists _, _. split; [done|]. rewrite length_obj_hdr. unfold LAYOUT_OFF. lia.
  - apply Forall_app_2; [apply quiet_outside, range_quiet|]. apply Forall_singleton. right. eexists _, _. split; [done|].
    unfold LAYOUT_OFF, PMEMOBJ_LAYOUT_MAX, OBJ_RUNTIME_OFF. lia.
Qed.

Lemma hdr_not_zero : obj_hdr_bytes <> replicate 4096 x00.
Proof.
  intros E. apply (f_equal (take 8)) in E. revert E. unfold obj_hdr_bytes. cbn [util_checksum snd]. unfold splice.
  rewrite take_app_le by (rewrite length_take, (length_pool_hdr_bytes _ obj_new_hdr_wf); cbn; lia).
  change (Z.to_nat 4088) with 4088%nat. rewrite take_take. change (8 `min` 4088)%nat with 8%nat.
  unfold pool_hdr_bytes. cbn [obj_new_hdr signature]. rewrite take_app_le by done. by intros [=].
Qed.

Lemma whole_header_named layout runtime m j m' :
  short layout -> (forall z, addr <= z < addr + 5120 -> m z = x00) ->
  crash_image (execs (pm_of m) (take j (create_insns layout runtime))) m' ->
  mread m' addr POOL_HDR_SIZE = obj_hdr_bytes -> obj_file (shift addr m') (default [] layout).
Proof.
  intros Hs Hz Hc Hw. unfold create_insns, format_insns in Hc. rewrite <- app_assoc, <- app_comm_cons, take_app in Hc.
  set (A := name_insns layout) in *. rewrite execs_app in Hc.
  destruct (outside_held addr 4096 (take j A) (pm_of m)) as [Hh Hv]; [apply Forall_take, name_outside|apply held_pm_of|].
  destruct (Nat.le_gt_cases j (length A)) as [Hj|Hj].
  - exfalso. apply hdr_not_zero. rewrite <- Hw. replace (j - length A)%nat with 0%nat in Hc by lia. cbn [take execs fold_left] in Hc.
    rewrite (mread_agree m' m) by (eapply agree_trans; [eapply held_crash; [exact Hh|exact Hc]|exact Hv]).
    apply list_eq. intros i. destruct (decide (i < 4096)%nat).
    + rewrite lookup_mread by (unfold POOL_HDR_SIZE; lia). rewrite Hz by lia. symmetry. by apply lookup_replicate_2.
    + rewrite !lookup_ge_None_2; [done| |]; [len|]. rewrite length_mread. unfold POOL_HDR_SIZE. lia.
  - rewrite (take_ge A) in Hc by lia. set (pA := execs (pm_of m) A) in *.
    destruct (outside_held _ _ _ pA (after_name runtime (j - length A)) (name_held layout m)) as [Hh' Hv'].
    pose proof (held_crash _ _ _ _ Hh' Hc) as Hag. destruct Hs as [Hcs Hsh].
    split; [| |done|done].
    + rewrite mread_shift_at, Z.add_0_r, Hw. apply obj_hdr_bytes_ok.
    + rewrite mread_shift_at. rewrite (mread_agree m' (view pA)) by (eapply agree_trans; [exact Hag|exact Hv']).
      rewrite <- (name_written layout m) by (done || intros z Hz'; apply Hz; lia). f_equal.
      unfold pA, A. destruct layout as [l|]; [|done]. cbn [name_insns execs fold_left].
      fold (execs (exec (pm_of m) (IStore (addr + LAYOUT_OFF) (strncpy_bytes 1023 l))) (range_insns e false (addr + LAYOUT_OFF) PMEMOBJ_LAYOUT_MAX)).
      by rewrite execs_view by apply range_quiet.
Qed.
End Format.

(** ** Creating, opening, checking *)

Lemma obj_file_agree m m' name : obj_file m name -> agree m' m 0 5120 -> obj_file m' name.
Proof.
  intros [Hh Hn Hc Hs] Ha. split; [| |done|done]; rewrite (mread_agree m' m); try done;
    (eapply agree_sub; [exact Ha|unfold LAYOUT_OFF, PMEMOBJ_LAYOUT_MAX, POOL_HDR_SIZE; lia..]).
Qed.

(** The run-time fields lie after the name. *)
Lemma runtime_keeps_name addr p bs name :
  obj_file (shift addr (view p)) name -> obj_file (file_of addr (store p (addr + OBJ_RUNTIME_OFF) bs)) name.
Proof.
  intros Hf. eapply obj_file_agree; [exact Hf|]. intros z Hz. unfold file_of, shift. rewrite store_view_eq.
  apply mwrite_out. unfold OBJ_RUNTIME_OFF. lia.
Qed.

Section Create.
Context (e : lenv) (He : persist_ok e) (Huuid : length (le_uuid e) = 16%nat) (addr : Z).
Context (Hmap : le_mmap e = inr addr) (Ha : 0 <= addr) (Hend : addr + 8192 <= 2 ^ 64).

Definition runtime_of (poolsize : Z) (ro : bool) : list byte :=
  runtime_bytes addr poolsize (pmem_is_pmem (le_funcs e) (le_smaps e) addr poolsize) ro.

Lemma map_new file layout poolsize :
  short layout -> (forall z, 0 <= z < 5120 -> file z = x00) ->
  exists pop, pmemobj_map_common e file layout poolsize false true = (Done pop, file_of addr (po_pm pop)) /\
    po_pm pop = execs (mapped file addr) (create_insns e addr layout (runtime_of poolsize false)) /\
    po_addr pop = addr /\ po_rdonly pop = false /\ obj_file (file_of addr (po_pm pop)) (default [] layout).
Proof.
  intros Hs Hz. assert (forall z, addr <= z < addr + 5120 -> view (mapped file addr) z = x00) as Hz'.
  { intros z Hz'. cbn [mapped pm_of view]. apply Hz. lia. }
  unfold pmemobj_map_common. rewrite Hmap. cbn [negb].
  rewrite (obj_format_insns e He Huuid addr layout) by (done || (intros z Hzz; apply Hz'; lia)).
  set (p := execs _ _).
  exists {| po_addr := addr; po_size := poolsize; po_is_pmem := pmem_is_pmem (le_funcs e) (le_smaps e) addr poolsize;
            po_rdonly := false; po_pm := store p (addr + OBJ_RUNTIME_OFF) (runtime_of poolsize false) |}.
  split; [reflexivity|]. cbn [po_pm po_addr po_rdonly].
  split; [|split; [done|split; [done|]]].
  - unfold create_insns. rewrite execs_app. done.
  - apply runtime_keeps_name. pose proof (length_obj_hdr e Huuid) as Hl. unfold p. rewrite format_view.
    destruct Hs as [Hcs Hsh]. split; [| |done|done]; rewrite mread_shift_at.
    + rewrite Z.add_0_r, mread_mwrite_eq by (by rewrite Hl). by apply obj_hdr_bytes_ok.
    + rewrite mread_mwrite_out by (rewrite Hl; unfold LAYOUT_OFF; lia).
      apply (name_written e Huuid); [done|]. intros z Hzz. apply Hz'. lia.
Qed.

(** C30. Power failure at any point while a pool is made in a file of zeros: if
    the header on the media is whole, the pool is complete: it is an object pool
    with the layout name it was made with, which opening accepts under that name
    or none and under no other.  The name is on the media before the header is
    stored. *)
Theorem pmemobj_create_crash (file : mem) (layout : option (list byte)) (poolsize : Z)
    (Hname : short layout) (Hzero : forall z, 0 <= z < 5120 -> file z = x00) :
  exists insns pop file', pmemobj_map_common e file layout poolsize false true = (Done pop, file') /\
    po_pm pop = execs (mapped file addr) insns /\
    forall j m', crash_image (execs (mapped file addr) (take j insns)) m' ->
      mread m' addr POOL_HDR_SIZE = obj_hdr_bytes e ->
      obj_file (shift addr m') (default [] layout) /\
      forall l rdonly, (forall n, l = Some n -> c_string n) ->
        obj_validate (shift addr m') l rdonly = if name_ok l (default [] layout) then inr rdonly else inl EINVAL.
Proof.
  destruct (map_new file layout poolsize Hname Hzero) as (pop & E & Ep & _).
  eexists _, pop, _. split; [exact E|]. split; [exact Ep|]. intros j m' Hc Hw.
  assert (obj_file (shift addr m') (default [] layout)) as Hf.
  { eapply (whole_header_named e He Huuid addr); [done|done|done| |exact Hc|exact Hw]. intros z Hz. apply Hzero. lia. }
  split; [exact Hf|]. intros l rdonly Hl. by apply obj_file_validates.
Qed.

Lemma open_obj_file e' addr' fs path f name layout :
  le_mmap e' = inr addr' -> files fs !! path = Some f -> PMEMOBJ_MIN_POOL <= f_size f ->
  obj_file (f_bytes f) name -> (forall n, layout = Some n -> c_string n) ->
  if name_ok layout name then
    exists pop fs', pmemobj_open e' fs path layout = (Done pop, fs') /\ po_rdonly pop = false /\
      po_size pop = f_size f /\ obj_file (file_of (po_addr pop) (po_pm pop)) name
  else fst (pmemobj_open e' fs path layout) = Err EINVAL.
Proof.
  intros Hm Hf Hmin Hof Hl. unfold pmemobj_open, util_pool_open. rewrite Hf. ztrue. unfold obj_map_file. rewrite Hf.
  unfold pmemobj_map_common. rewrite Hm. cbn [negb].
  change (file_of addr' (mapped (f_bytes f) addr')) with (shift addr' (view (mapped (f_bytes f) addr'))).
  rewrite (obj_validate_proper _ _ (mapped_file (f_bytes f) addr') _ _ eq_refl _ _ eq_refl).
  rewrite (obj_file_validates _ _ _ _ Hof Hl). destruct (name_ok layout name); [|done].
  eexists _, _. split; [reflexivity|]. cbn [po_rdonly po_size po_addr po_pm]. split_and!; try done.
  apply runtime_keeps_name. eapply obj_file_agree; [exact Hof|]. intros z _. apply mapped_file.
Qed.

(** A pool that was made, closed and opened again, possibly mapped elsewhere:
    pmemobj_create on a fresh path succeeds with every layout name of at most
    1023 characters; pmemobj_open accepts the file under this name and under no
    name, again with the name in place, and refuses every other name with
    EINVAL. *)
Theorem pmemobj_create_open (e' : lenv) (addr' : Z) (fs : fsys) (path : string) (layout layout' : option (list byte)) (poolsize : Z)
    (Hmap' : le_mmap e' = inr addr') (Hnew : files fs !! path = None)
    (Hsize : PMEMOBJ_MIN_POOL <= poolsize <= space fs) (Hname : short layout)
    (Hname' : forall n, layout' = Some n -> c_string n) :
  exists pop fs', pmemobj_create e fs path layout poolsize = (Done pop, fs') /\ po_rdonly pop = false /\
    if name_ok layout' (default [] layout) then
      exists pop' fs'', pmemobj_open e' (pmemobj_close fs' path pop) path layout' = (Done pop', fs'') /\
        po_rdonly pop' = false /\ po_size pop' = poolsize /\
        obj_file (file_of (po_addr pop') (po_pm pop')) (default [] layout)
    else fst (pmemobj_open e' (pmemobj_close fs' path pop) path layout') = Err EINVAL.
Proof.
  destruct (map_new (fun _ => x00) layout poolsize Hname ltac:(done)) as (pop & E & _ & Had & Hro & Hof).
  set (f := {| f_size := poolsize; f_bytes := file_of addr (po_pm pop) |}).
  exists pop, {| files := <[path := f]> (files fs); space := space fs - poolsize |}.
  assert (pmemobj_create e fs path layout poolsize = (Done pop, {| files := <[path := f]> (files fs); space := space fs - poolsize |})) as Ec.
  { unfold PMEMOBJ_MIN_POOL in *. unfold pmemobj_create, util_pool_create, PMEMOBJ_MIN_POOL.
    rewrite (proj2 (Z.eqb_neq poolsize 0)), (proj2 (Z.ltb_ge poolsize (2 ^ 21))) by lia. cbn [negb].
    rewrite Hnew, (proj2 (Z.ltb_ge (space fs) poolsize)) by lia.
    unfold obj_map_file. cbn [files]. rewrite lookup_insert_eq. cbn [f_bytes]. rewrite E.
    unfold fs_store. cbn [files]. rewrite lookup_insert_eq. cbn [f_size space]. by rewrite !insert_insert_eq. }
  split; [exact Ec|]. split; [exact Hro|].
  apply (open_obj_file e' addr' _ path f (default [] layout) layout'); try done; [|cbn; lia].
  unfold pmemobj_close, fs_store. cbn [files]. rewrite lookup_insert_eq. cbn [files f_size].
  rewrite Had. apply lookup_insert_eq.
Qed.
End Create.

(** pmemobj_check changes no file and, when the pool can be mapped, answers 1
    for exactly the pools that pmemobj_open accepts under the same name; it never
    answers 0: nothing but the header and the name is looked at. *)
Theorem pmemobj_check_spec (e : lenv) (addr : Z) (fs : fsys) (path : string) (f : file) (layout : option (list byte))
    (Hmap : le_mmap e = inr addr) (Hfile : files fs !! path = Some f) :
  pmemobj_check e fs path layout =
    (if f_size f <? PMEMOBJ_MIN_POOL then Err EINVAL
     else match obj_validate (f_bytes f) layout true with inl err => Err err | inr _ => Done true end, fs).
Proof.
  unfold pmemobj_check, util_pool_open. rewrite Hfile. destruct (f_size f <? PMEMOBJ_MIN_POOL); [done|].
  unfold obj_map_file, pmemobj_map_common. rewrite Hfile, Hmap. cbn [negb].
  change (file_of addr (mapped (f_bytes f) addr)) with (shift addr (view (mapped (f_bytes f) addr))).
  rewrite (obj_validate_proper _ _ (mapped_file (f_bytes f) addr) _ _ eq_refl _ _ eq_refl).
  destruct (obj_validate (f_bytes f) layout true) as [err|ro]; cbv iota; by rewrite fs_store_same.
Qed.

(** A file with zeros in its header page only: the last byte of the name is
    never written, so a name of 1023 characters can end up in front of a byte
    that is not NUL, and the pool does not open under the name it was made with. *)
Definition odd_file (z : Z) : byte := if z =? 5119 then x01 else x00.
Definition long_name : list byte := replicate 1023 x61.

Theorem layout_last_byte_kept (e : lenv) (addr : Z)
    (He : persist_ok e) (Huuid : length (le_uuid e) = 16%nat) :
  exists p, obj_format e addr (Some long_name) (mapped odd_file addr) = inr p /\
    obj_validate (file_of addr p) (Some long_name) false = inl EINVAL.
Proof.
  assert (short (Some long_name)) as Hs by (split; [by apply (bool_decide_unpack _); vm_compute|by apply Nat.ltb_lt]).
  rewrite (obj_format_insns e He Huuid addr _ _ Hs).
  2: { intros z Hz. cbn [mapped pm_of view]. unfold odd_file. by rewrite (proj2 (Z.eqb_neq _ _)) by lia. }
  eexists. split; [done|]. set (m := file_of _ _).
  assert (mread m LAYOUT_OFF PMEMOBJ_LAYOUT_MAX = long_name ++ [x01]) as En.
  { pose proof (length_obj_hdr e Huuid) as Hl. unfold m. change (file_of addr ?p) with (shift addr (view p)).
    rewrite mread_shift_at, format_view, mread_mwrite_out by (rewrite Hl; unfold LAYOUT_OFF; lia).
    unfold LAYOUT_OFF, PMEMOBJ_LAYOUT_MAX. change 1024 with (1023 + 1). rewrite mread_app by lia.
    rewrite mread_mwrite_eq by (by rewrite length_strncpy). rewrite mread_mwrite_out by (rewrite length_strncpy; lia).
    rewrite strncpy_small by (by apply Nat.leb_le). cbn [mapped pm_of view]. change (1023 - length long_name)%nat with 0%nat.
    cbn [replicate]. rewrite app_nil_r. f_equal. apply list_eq. intros [|i].
    - rewrite lookup_mread by lia. cbn [lookup list_lookup]. unfold odd_file. by rewrite (proj2 (Z.eqb_eq _ _)) by lia.
    - rewrite lookup_ge_None_2 by (rewrite length_mread; lia). done. }
  unfold obj_validate. rewrite En. destruct (util_convert_hdr _) as [hdr|]; [|done].
  destruct (negb _); [done|]. destruct (negb (major hdr =? _)); [done|].
  change (strncmp_eq _ _ long_name) with false. done.
Qed.
