(* ===== verification/Bst.v ===== *)
(** Bst: src/src/libpmemobj/container_bst.c and container_bst.h.

    The container of free memory blocks: a binary search tree of nodes on the
    heap, with parent pointers.  The nodes live in a map from addresses, 0 is
    NULL, and a pointer to a pointer ([struct bst_node **]) is a [slot]: the
    root, or a child field of a node.  Loops take fuel; a tree of n nodes needs
    n + 1. *)

From S2P Require Import Prelude Prog StateM.

(** Malloc of a node: given the addresses in use, a new one or NULL. *)
Class NodeMalloc := {
  node_malloc : gset Z -> option Z;
  node_malloc_fresh : forall s a, node_malloc s = Some a -> a <> 0 /\ a ∉ s;
}.

Record bst_node := { parent : Z; value : Z; key : Z; left : Z; right : Z }.

Record container_bst := { locked : bool; root : Z; nodes : gmap Z bst_node }.

Definition set_root (c : container_bst) (a : Z) : container_bst :=
  {| locked := locked c; root := a; nodes := nodes c |}.
Definition set_nodes (c : container_bst) (h : gmap Z bst_node) : container_bst :=
  {| locked := locked c; root := root c; nodes := h |}.
Definition set_locked (c : container_bst) (b : bool) : container_bst :=
  {| locked := b; root := root c; nodes := nodes c |}.

Definition set_parent (n : bst_node) (p : Z) : bst_node :=
  {| parent := p; value := value n; key := key n; left := left n; right := right n |}.
Definition set_left (n : bst_node) (a : Z) : bst_node :=
  {| parent := parent n; value := value n; key := key n; left := a; right := right n |}.
Definition set_right (n : bst_node) (a : Z) : bst_node :=
  {| parent := parent n; value := value n; key := key n; left := left n; right := a |}.
Definition set_pair (n m : bst_node) : bst_node :=
  {| parent := parent n; value := value m; key := key m; left := left n; right := right n |}.

Inductive slot := SRoot | SLeft (a : Z) | SRight (a : Z).

(** No memory block has this id. *)
Definition NULL_VAL : Z := u64 (-1).

#[local] Open Scope stateM_scope.
Abbreviation Bst := (M container_bst).

Definition node_at (a : Z) : Bst bst_node := c <- getM ;; validM (nodes c !! a).
Definition put_node (a : Z) (n : bst_node) : Bst unit := modM (fun c => set_nodes c (<[a := n]> (nodes c))).
Definition free_node (a : Z) : Bst unit := modM (fun c => set_nodes c (delete a (nodes c))).

Definition load_slot (s : slot) : Bst Z :=
  match s with
  | SRoot => c <- getM ;; ret (root c)
  | SLeft a => n <- node_at a ;; ret (left n)
  | SRight a => n <- node_at a ;; ret (right n)
  end.

Definition store_slot (s : slot) (v : Z) : Bst unit :=
  match s with
  | SRoot => modM (fun c => set_root c v)
  | SLeft a => n <- node_at a ;; put_node a (set_left n v)
  | SRight a => n <- node_at a ;; put_node a (set_right n v)
  end.

Definition node_fuel (c : container_bst) : nat := S (size (nodes c)).

Section Bst.
Context `{NodeMalloc}.

Definition bst_create_node (p v k : Z) : Bst Z :=
  c <- getM ;;
  match node_malloc (dom (nodes c)) with
  | None => ret 0
  | Some a => put_node a {| parent := p; value := v; key := k; left := 0; right := 0 |} ;;; ret a
  end.

(** "for (n = &c->root; *n != NULL; n = ...) p = *n;" *)
Fixpoint add_loop (fuel : nat) (k : Z) (n : slot) (p : Z) : Bst (slot * Z) :=
  match fuel with
  | O => fail OutOfFuel
  | S fuel =>
      a <- load_slot n ;;
      if a =? 0 then ret (n, p)
      else nd <- node_at a ;; add_loop fuel k (if k <? key nd then SLeft a else SRight a) a
  end.

Definition bst_add (k v : Z) : Bst bool :=
  c <- getM ;;
  r <- add_loop (node_fuel c) k SRoot 0 ;;
  let '(n, p) := r in
  a <- bst_create_node p v k ;;
  store_slot n a ;;;
  ret (negb (a =? 0)).

Fixpoint find_loop (fuel : nat) (k : Z) (greater : bool) (n b : Z) : Bst Z :=
  match fuel with
  | O => fail OutOfFuel
  | S fuel =>
      if n =? 0 then ret b
      else
        nd <- node_at n ;;
        if key nd =? k then ret n
        else find_loop fuel k greater (if k <? key nd then left nd else right nd)
               (if greater && (k <? key nd) then n else b)
  end.

Definition bst_find_node (k : Z) (greater : bool) : Bst Z :=
  c <- getM ;; find_loop (node_fuel c) k greater (root c) 0.

(** "while ((*mref)->left) mref = &(*mref)->left;" *)
Fixpoint min_loop (fuel : nat) (mref : slot) : Bst slot :=
  match fuel with
  | O => fail OutOfFuel
  | S fuel =>
      m <- load_slot mref ;;
      nd <- node_at m ;;
      if left nd =? 0 then ret mref else min_loop fuel (SLeft m)
  end.

(** The pointer that refers to a node. *)
Definition node_ref (n : Z) : Bst slot :=
  c <- getM ;;
  if root c =? n then ret SRoot
  else
    nd <- node_at n ;;
    pn <- node_at (parent nd) ;;
    ret (if left pn =? n then SLeft (parent nd) else SRight (parent nd)).

(** The branch for a node with at most one child. *)
Definition unlink (n : Z) (nref : slot) : Bst unit :=
  nd <- node_at n ;;
  let child := if negb (left nd =? 0) then left nd else right nd in
  store_slot nref child ;;;
  (if negb (child =? 0) then cn <- node_at child ;; put_node child (set_parent cn (parent nd)) else ret tt) ;;;
  free_node n.

(** The node that replaces a removed one is a leftmost one, so the recursion is
    at most one level deep. *)
Fixpoint bst_remove (depth : nat) (n : Z) : Bst unit :=
  match depth with
  | O => fail OutOfFuel
  | S depth =>
      nref <- node_ref n ;;
      nd <- node_at n ;;
      if negb (left nd =? 0) && negb (right nd =? 0) then
        c <- getM ;;
        mref <- min_loop (node_fuel c) (SRight n) ;;
        m <- load_slot mref ;;
        mn <- node_at m ;;
        put_node n (set_pair nd mn) ;;;
        bst_remove depth m
      else unlink n nref
  end.

Definition best_get_rm (k : Z) (greater : bool) : Bst Z :=
  n <- bst_find_node k greater ;;
  if n =? 0 then ret NULL_VAL
  else
    nd <- node_at n ;;
    bst_remove 2 n ;;;
    ret (value nd).

(** pthread_mutex_lock waits when the mutex is held. *)
Definition mutex_lock : Bst unit :=
  c <- getM ;; if locked c then fail Blocked else putM (set_locked c true).
Definition mutex_unlock : Bst unit := modM (fun c => set_locked c false).

Definition bst_get_rm_eq (k : Z) : Bst Z :=
  mutex_lock ;;; v <- best_get_rm k false ;; mutex_unlock ;;; ret v.

Definition bst_get_rm_ge (k : Z) : Bst Z :=
  mutex_lock ;;; v <- best_get_rm k true ;; mutex_unlock ;;; ret v.

(** The container and its mutex have been allocated. *)
Definition container_bst_new : container_bst := {| locked := false; root := 0; nodes := ∅ |}.

Fixpoint bst_delete (fuel : nat) (n : Z) : Bst unit :=
  match fuel with
  | O => fail OutOfFuel
  | S fuel =>
      if n =? 0 then ret tt
      else
        nd <- node_at n ;;
        bst_delete fuel (left nd) ;;;
        bst_delete fuel (right nd) ;;;
        free_node n
  end.

(** The nodes that are left when the container itself is freed. *)
Definition container_bst_delete : Bst unit :=
  c <- getM ;; bst_delete (node_fuel c) (root c).
End Bst.
