(* ===== verification/BstSpec.v ===== *)
(** BstSpec: the tree container implements a sorted multimap.

    A state of [Bst] represents a tree when following the pointers from the root
    gives it, with the parent pointers in place and no other node allocated.
    The loops are followed with contexts (a tree with a hole), so a slot is the
    hole of a context.  The operations add an entry, or take out one with the
    key asked for or the least greater one. *)

From S2P Require Import Prelude Prog StateM Bst.
From Stdlib Require Import Sorting.Sorted.

#[local] Open Scope stateM_scope.

Inductive tree := Leaf | Node (l : tree) (a k v : Z) (r : tree).

Definition ptr (t : tree) : Z := match t with Leaf => 0 | Node _ a _ _ _ => a end.

(** Address, key and value of the nodes, in order. *)
Fixpoint entries (t : tree) : list (Z * (Z * Z)) :=
  match t with Leaf => [] | Node l a k v r => entries l ++ (a, (k, v)) :: entries r end.

Definition addrs (t : tree) : list Z := (entries t).*1.
Definition elems (t : tree) : list (Z * Z) := (entries t).*2.
Definition keys (t : tree) : list Z := (elems t).*1.

(** The nodes of the tree are in memory, below a parent. *)
Fixpoint rep (h : gmap Z bst_node) (p : Z) (t : tree) : Prop :=
  match t with
  | Leaf => True
  | Node l a k v r =>
      a <> 0 /\
      h !! a = Some {| parent := p; value := v; key := k; left := ptr l; right := ptr r |} /\
      rep h a l /\ rep h a r
  end.

(** The container holds the tree. *)
Record holds (c : container_bst) (t : tree) : Prop := {
  h_root : root c = ptr t;
  h_rep : rep (nodes c) 0 t;
  h_nodup : NoDup (addrs t);
  h_dom : forall a, is_Some (nodes c !! a) <-> a ∈ addrs t;
}.

(** What the client sees: the entries of the container, sorted by key, with the
    mutex free. *)
Definition contents (c : container_bst) (l : list (Z * Z)) : Prop :=
  exists t, holds c t /\ elems t = l /\ StronglySorted Z.le l.*1 /\ locked c = false.

(** ** Contexts *)

Inductive ctx :=
| Top
| InL (K : ctx) (a k v : Z) (r : tree)
| InR (K : ctx) (l : tree) (a k v : Z).

Fixpoint plug (K : ctx) (t : tree) : tree :=
  match K with
  | Top => t
  | InL K a k v r => plug K (Node t a k v r)
  | InR K l a k v => plug K (Node l a k v t)
  end.

Definition hole_parent (K : ctx) : Z := match K with Top => 0 | InL _ a _ _ _ => a | InR _ _ a _ _ => a end.
Definition hole_slot (K : ctx) : slot :=
  match K with Top => SRoot | InL _ a _ _ _ => SLeft a | InR _ _ a _ _ => SRight a end.

(** The entries before and after the hole. *)
Fixpoint pre (K : ctx) : list (Z * (Z * Z)) :=
  match K with
  | Top => []
  | InL K _ _ _ _ => pre K
  | InR K l a k v => pre K ++ entries l ++ [(a, (k, v))]
  end.
Fixpoint post (K : ctx) : list (Z * (Z * Z)) :=
  match K with
  | Top => []
  | InL K a k v r => (a, (k, v)) :: entries r ++ post K
  | InR K _ _ _ _ => post K
  end.

Fixpoint rep_ctx (c : container_bst) (K : ctx) (a : Z) : Prop :=
  match K with
  | Top => root c = a
  | InL K q k v r =>
      q <> 0 /\
      nodes c !! q = Some {| parent := hole_parent K; value := v; key := k; left := a; right := ptr r |} /\
      rep (nodes c) q r /\ rep_ctx c K q
  | InR K l q k v =>
      q <> 0 /\
      nodes c !! q = Some {| parent := hole_parent K; value := v; key := k; left := ptr l; right := a |} /\
      rep (nodes c) q l /\ rep_ctx c K q
  end.

Lemma entries_plug K : forall t, entries (plug K t) = pre K ++ entries t ++ post K.
Proof.
  induction K as [|K IH a k v r|K IH l a k v]; intros t; cbn [plug pre post].
  - by rewrite app_nil_r.
  - rewrite IH. cbn [entries]. by rewrite <- !app_assoc.
  - rewrite IH. cbn [entries]. by rewrite <- !app_assoc.
Qed.

Lemma rep_plug c K : forall t,
  root c = ptr (plug K t) /\ rep (nodes c) 0 (plug K t) <-> rep_ctx c K (ptr t) /\ rep (nodes c) (hole_parent K) t.
Proof.
  induction K as [|K IH a k v r|K IH l a k v]; intros t; cbn [plug rep_ctx hole_parent]; [done|..];
    rewrite IH; cbn [ptr rep]; tauto.
Qed.

(** ** Frames *)

Lemma rep_frame h h' t : forall p,
  rep h p t -> (forall a, a ∈ addrs t -> h' !! a = h !! a) -> rep h' p t.
Proof.
  induction t as [|l IHl a k v r IHr]; intros p; [done|]. cbn [rep]. intros (Ha & Hn & Hl & Hr) Hf.
  unfold addrs in Hf. cbn [entries] in Hf. rewrite fmap_app, fmap_cons in Hf.
  split_and!; [done| |apply IHl; [done|]|apply IHr; [done|]]; intros; rewrite Hf; [done|set_solver|done|set_solver|done|set_solver].
Qed.

Definition ctx_addrs (K : ctx) : list Z := (pre K).*1 ++ (post K).*1.

Lemma rep_ctx_frame c c' K : forall a,
  rep_ctx c K a -> root c' = root c -> (forall q, q ∈ ctx_addrs K -> nodes c' !! q = nodes c !! q) -> rep_ctx c' K a.
Proof.
  unfold ctx_addrs. induction K as [|K IH q k v r|K IH l q k v]; intros a; cbn [rep_ctx pre post].
  - by intros <- ->.
  - intros (Hq & Hn & Hr & HK) Hroot Hf. rewrite fmap_cons, fmap_app in Hf. split_and!; [done|..].
    + rewrite Hf; [done|set_solver].
    + eapply rep_frame; [done|]. unfold addrs. intros. apply Hf. set_solver.
    + apply IH; [done..|]. set_solver.
  - intros (Hq & Hn & Hl & HK) Hroot Hf. rewrite !fmap_app, fmap_cons in Hf. split_and!; [done|..].
    + rewrite Hf; [done|set_solver].
    + eapply rep_frame; [done|]. unfold addrs. intros. apply Hf. set_solver.
    + apply IH; [done..|]. set_solver.
Qed.

Lemma addrs_plug K t : addrs (plug K t) ≡ₚ ctx_addrs K ++ addrs t.
Proof. unfold addrs, ctx_addrs. rewrite entries_plug, !fmap_app. rewrite <- app_assoc. by rewrite (Permutation_app_comm (post K).*1). Qed.

Lemma rep_nonzero h p t : rep h p t -> forall a, a ∈ addrs t -> a <> 0.
Proof.
  revert p. induction t as [|l IHl a k v r IHr]; intros p; unfold addrs; cbn [rep entries]; [set_solver|].
  intros (Ha & _ & Hl & Hr) b. rewrite fmap_app, fmap_cons, elem_of_app, elem_of_cons.
  intros [Hb|[->|Hb]]; [by eapply IHl|done|by eapply IHr].
Qed.

Lemma ptr_in t : t <> Leaf -> ptr t ∈ addrs t.
Proof. destruct t as [|l a k v r]; [done|]. intros _. unfold addrs. cbn. rewrite fmap_app, fmap_cons. set_solver. Qed.

Lemma ptr_zero h p t : rep h p t -> ptr t = 0 <-> t = Leaf.
Proof. destruct t; [done|]. cbn. intros [? _]. by split. Qed.

(** A tree below another parent. *)
Lemma rep_reparent h p p' l a k v r :
  rep h p (Node l a k v r) -> NoDup (addrs (Node l a k v r)) ->
  rep (<[a := set_parent {| parent := p; value := v; key := k; left := ptr l; right := ptr r |} p']> h) p' (Node l a k v r).
Proof.
  intros (Ha & Hn & Hl & Hr) Hnd. unfold addrs in Hnd. cbn [entries] in Hnd.
  rewrite fmap_app, fmap_cons in Hnd. apply NoDup_app in Hnd as (_ & Hd & Hnd). apply NoDup_cons in Hnd as [Ha' _].
  cbn [rep]. split_and!; [done|by rewrite lookup_insert_eq|..].
  - eapply rep_frame; [done|]. intros b Hb. apply lookup_insert_ne. intros ->. apply (Hd b Hb). left.
  - eapply rep_frame; [done|]. intros b Hb. apply lookup_insert_ne. by intros ->.
Qed.

(** ** The state of a container as a context and a subtree *)

Record at_hole (c : container_bst) (K : ctx) (t : tree) : Prop := {
  ah_ctx : rep_ctx c K (ptr t);
  ah_rep : rep (nodes c) (hole_parent K) t;
  ah_nodup : NoDup (ctx_addrs K ++ addrs t);
}.

Lemma holds_at_hole c K t :
  holds c (plug K t) <-> at_hole c K t /\ (forall a, is_Some (nodes c !! a) <-> a ∈ ctx_addrs K ++ addrs t).
Proof.
  assert (forall a, a ∈ addrs (plug K t) <-> a ∈ ctx_addrs K ++ addrs t) as Hin.
  { intros a. by rewrite (addrs_plug K t). }
  split.
  - intros [Hr Hp Hn Hd]. destruct (proj1 (rep_plug c K t) (conj Hr Hp)). split; [split; [done..|]|].
    + by rewrite <- (addrs_plug K t).
    + intros a. by rewrite Hd, Hin.
  - intros [[Hc Hr Hn] Hd]. destruct (proj2 (rep_plug c K t) (conj Hc Hr)). split; [done..| |].
    + by rewrite (addrs_plug K t).
    + intros a. by rewrite Hd, Hin.
Qed.

Lemma node_at_eq c a n : nodes c !! a = Some n -> node_at a c = inr (n, c).
Proof. unfold node_at, bindM, getM, validM, ret. by intros ->. Qed.

Lemma hole_in K : K <> Top -> hole_parent K ∈ ctx_addrs K.
Proof.
  unfold ctx_addrs. destruct K; [done|..]; intros _; cbn [pre post hole_parent].
  - rewrite fmap_cons. set_solver.
  - rewrite !fmap_app. set_solver.
Qed.

Lemma load_hole c K a : rep_ctx c K a -> load_slot (hole_slot K) c = inr (a, c).
Proof.
  destruct K as [|K q k v r|K l q k v]; cbn [rep_ctx hole_slot load_slot].
  - unfold bindM, getM, ret. by intros ->.
  - intros (_ & Hn & _). by rewrite (bindM_inr _ _ _ _ _ (node_at_eq _ _ _ Hn)).
  - intros (_ & Hn & _). by rewrite (bindM_inr _ _ _ _ _ (node_at_eq _ _ _ Hn)).
Qed.

(** Storing to the hole changes the hole and nothing else. *)
Lemma store_hole c K a b :
  rep_ctx c K a -> NoDup (ctx_addrs K) ->
  exists c', store_slot (hole_slot K) b c = inr (tt, c') /\ rep_ctx c' K b /\ locked c' = locked c /\
    (forall x, x ∉ ctx_addrs K -> nodes c' !! x = nodes c !! x) /\
    (forall x, is_Some (nodes c' !! x) <-> is_Some (nodes c !! x)).
Proof.
  unfold ctx_addrs. destruct K as [|K q k v r|K l q k v]; cbn [rep_ctx hole_slot store_slot pre post]; intros Hc Hnd.
  - eexists. split; [reflexivity|]. cbn. by split_and!.
  - destruct Hc as (Hq & Hn & Hr & HK). rewrite (bindM_inr _ _ _ _ _ (node_at_eq _ _ _ Hn)).
    eexists. split; [reflexivity|]. cbn [set_nodes nodes root locked].
    rewrite fmap_cons, fmap_app in Hnd. apply NoDup_app in Hnd as (_ & Hd & Hnd). apply NoDup_cons in Hnd as [Hq' _].
    split_and!; [done|by rewrite lookup_insert_eq|..].
    + eapply rep_frame; [done|]. intros x Hx. apply lookup_insert_ne. intros ->. apply Hq'. set_solver.
    + eapply rep_ctx_frame; [done..|]. intros x Hx. apply lookup_insert_ne. intros ->.
      unfold ctx_addrs in Hx. apply elem_of_app in Hx as [Hx|Hx]; [apply (Hd _ Hx); left|]. set_solver.
    + done.
    + intros x Hx. apply lookup_insert_ne. set_solver.
    + intros x. destruct (decide (x = q)) as [->|Hne]; [rewrite lookup_insert_eq, Hn|rewrite lookup_insert_ne by done]; naive_solver.
  - destruct Hc as (Hq & Hn & Hl & HK). rewrite (bindM_inr _ _ _ _ _ (node_at_eq _ _ _ Hn)).
    eexists. split; [reflexivity|]. cbn [set_nodes nodes root locked].
    rewrite !fmap_app, <- !app_assoc in Hnd. cbn in Hnd.
    assert (forall x, x ∈ (pre K).*1 ++ (post K).*1 ++ addrs l -> x <> q) as Hd.
    { intros x Hx ->. rewrite !(app_assoc _ _ (q :: _)) in Hnd. apply NoDup_app in Hnd as (_ & Hd & Hnd).
      apply NoDup_cons in Hnd as [Hnd _]. rewrite !elem_of_app in Hx.
      destruct Hx as [Hx|[Hx|Hx]]; [apply (Hd q); [set_solver|left]|by apply Hnd|apply (Hd q); [set_solver|left]]. }
    split_and!; [done|by rewrite lookup_insert_eq|..].
    + eapply rep_frame; [done|]. intros x Hx. apply lookup_insert_ne. intros ->. eapply Hd; [|done]. set_solver.
    + eapply rep_ctx_frame; [done..|]. intros x Hx. apply lookup_insert_ne. intros ->. eapply Hd; [|done].
      unfold ctx_addrs in Hx. set_solver.
    + done.
    + intros x Hx. apply lookup_insert_ne. intros ->. apply Hx. rewrite !fmap_app. cbn. set_solver.
    + intros x. destruct (decide (x = q)) as [->|Hne]; [rewrite lookup_insert_eq, Hn|rewrite lookup_insert_ne by done]; naive_solver.
Qed.

(** Going down into a child. *)
Lemma down_left c K l a k v r : at_hole c K (Node l a k v r) -> at_hole c (InL K a k v r) l.
Proof.
  intros [Hc (Ha & Hn & Hl & Hr) Hnd]. split; cbn [rep_ctx hole_parent ptr] in *; [by split_and!|done|].
  refine (proj2 (NoDup_Permutation_proper _ _ _) Hnd). unfold ctx_addrs, addrs. cbn [pre post entries].
  rewrite !fmap_app, !fmap_cons, !fmap_app. solve_Permutation.
Qed.

Lemma down_right c K l a k v r : at_hole c K (Node l a k v r) -> at_hole c (InR K l a k v) r.
Proof.
  intros [Hc (Ha & Hn & Hl & Hr) Hnd]. split; cbn [rep_ctx hole_parent ptr] in *; [by split_and!|done|].
  refine (proj2 (NoDup_Permutation_proper _ _ _) Hnd). unfold ctx_addrs, addrs. cbn [pre post entries].
  rewrite !fmap_app, !fmap_cons. solve_Permutation.
Qed.

(** ** Order *)

Definition ekey (e : Z * (Z * Z)) : Z := e.2.1.
Definition sorted (l : list (Z * (Z * Z))) : Prop := StronglySorted Z.le (ekey <$> l).

Lemma sorted_app a b :
  sorted (a ++ b) <-> sorted a /\ sorted b /\ (forall x y, x ∈ a -> y ∈ b -> ekey x <= ekey y).
Proof.
  unfold sorted. induction a as [|x a IH]; cbn.
  - split; [|tauto]. intros H. split_and!; [constructor|done|]. intros ? ? E. by apply elem_of_nil in E.
  - split.
    + intros H. apply StronglySorted_inv in H as [Hs Hf]. apply IH in Hs as (Ha & Hb & Hab).
      rewrite fmap_app in Hf. apply Forall_app in Hf as [Hfa Hfb]. split_and!; [by constructor|done|].
      intros u w Hu Hw. apply elem_of_cons in Hu as [->|Hu]; [|by apply Hab].
      rewrite Forall_fmap, Forall_forall in Hfb. by apply Hfb.
    + intros (Ha & Hb & Hab). apply StronglySorted_inv in Ha as [Ha Hf]. constructor.
      * apply IH. split_and!; [done|done|]. intros. apply Hab; [by right|done].
      * rewrite fmap_app. apply Forall_app. split; [done|]. rewrite Forall_fmap, Forall_forall.
        intros. apply Hab; [left|done].
Qed.

Lemma sorted_cons x b : sorted (x :: b) <-> sorted b /\ (forall y, y ∈ b -> ekey x <= ekey y).
Proof.
  change (x :: b) with ([x] ++ b). rewrite sorted_app. split.
  - intros (_ & Hb & H). split; [done|]. intros. apply H; [left|done].
  - intros [Hb H]. split_and!; [repeat constructor|done|]. intros u w Hu Hw.
    apply list_elem_of_singleton in Hu as ->. by apply H.
Qed.

(** The keys on either side of the hole. *)
Definition between (k : Z) (K : ctx) : Prop :=
  (forall e, e ∈ pre K -> ekey e <= k) /\ (forall e, e ∈ post K -> k <= ekey e).

Lemma between_left k K l a k0 v r :
  between k K -> sorted (entries (Node l a k0 v r)) -> k <= k0 -> between k (InL K a k0 v r).
Proof.
  intros [Hp Hq] Hs Hk. cbn [entries] in Hs. apply sorted_app in Hs as (_ & Hs & _). apply sorted_cons in Hs as [_ Hr].
  split; cbn [pre post]; [done|]. intros e He. apply elem_of_cons in He as [->|He]; [done|].
  apply elem_of_app in He as [He|He]; [|by apply Hq]. specialize (Hr e He). unfold ekey in *. cbn in *. lia.
Qed.

Lemma between_right k K l a k0 v r :
  between k K -> sorted (entries (Node l a k0 v r)) -> k0 <= k -> between k (InR K l a k0 v).
Proof.
  intros [Hp Hq] Hs Hk. cbn [entries] in Hs. apply sorted_app in Hs as (_ & _ & Hs).
  split; cbn [pre post]; [|done]. intros e He. rewrite !elem_of_app in He.
  destruct He as [He|[He|He]]; [by apply Hp| |apply list_elem_of_singleton in He as ->; done].
  specialize (Hs e (a, (k0, v)) He ltac:(left)). unfold ekey in *. cbn in *. lia.
Qed.

Lemma sorted_left l a k v r : sorted (entries (Node l a k v r)) -> sorted (entries l).
Proof. cbn. by intros (? & _)%sorted_app. Qed.
Lemma sorted_right l a k v r : sorted (entries (Node l a k v r)) -> sorted (entries r).
Proof. cbn. by intros (_ & [? _]%sorted_cons & _)%sorted_app. Qed.

(** ** The loops *)

Lemma size_node l a k v r :
  length (entries (Node l a k v r)) = (length (entries l) + S (length (entries r)))%nat.
Proof. cbn. len. Qed.

Lemma at_hole_node c K l a k v r :
  at_hole c K (Node l a k v r) ->
  (a =? 0) = false /\
  node_at a c = inr ({| parent := hole_parent K; value := v; key := k; left := ptr l; right := ptr r |}, c).
Proof. intros [_ (Ha & Hn & _) _]. split; [by apply Z.eqb_neq|by apply node_at_eq]. Qed.

Lemma add_loop_spec k t : forall fuel c K,
  at_hole c K t -> (length (entries t) < fuel)%nat -> sorted (entries t) -> between k K ->
  exists K', add_loop fuel k (hole_slot K) (hole_parent K) c = inr ((hole_slot K', hole_parent K'), c) /\
    plug K' Leaf = plug K t /\ at_hole c K' Leaf /\ between k K'.
Proof.
  induction t as [|l IHl a k0 v r IHr]; intros fuel c K Hc Hf Hs Hb; (destruct fuel as [|fuel]; [lia|]); cbn [add_loop];
    rewrite (bindM_inr _ _ _ _ _ (load_hole c K _ (ah_ctx _ _ _ Hc))).
  - exists K. by split_and!.
  - destruct (at_hole_node _ _ _ _ _ _ _ Hc) as [Ha Hn]. cbn [ptr]. rewrite Ha, (bindM_inr _ _ _ _ _ Hn). cbn [key].
    rewrite size_node in Hf. destruct (Z.ltb_spec k k0).
    + apply (IHl fuel c (InL K a k0 v r)); [by apply down_left|lia|by eapply sorted_left|].
      eapply between_left; [done..|lia].
    + apply (IHr fuel c (InR K l a k0 v)); [by apply down_right|lia|by eapply sorted_right|].
      by eapply between_right.
Qed.

Lemma size_holds c t : holds c t -> size (nodes c) = length (entries t).
Proof.
  intros [_ _ Hn Hd]. transitivity (size (dom (nodes c))); [by rewrite size_dom|].
  assert (dom (nodes c) = list_to_set (addrs t)) as ->.
  { apply set_eq. intros a. rewrite elem_of_dom, Hd. by rewrite elem_of_list_to_set. }
  rewrite size_list_to_set by done. unfold addrs. by rewrite length_fmap.
Qed.

Lemma node_fuel_ok c t : holds c t -> (length (entries t) < node_fuel c)%nat.
Proof. intros H. unfold node_fuel. rewrite (size_holds c t H). lia. Qed.

Lemma holds_top c t : holds c t -> at_hole c Top t.
Proof. intros H. by apply (holds_at_hole c Top t). Qed.

(** What the search returns: nothing when every key is smaller (or different),
    or the node of an entry with the key, or with the least greater key. *)
Definition found (es : list (Z * (Z * Z))) (k : Z) (greater : bool) (n : Z) : Prop :=
  (n = 0 /\ forall e, e ∈ es -> if greater then ekey e < k else ekey e <> k) \/
  (exists k' v, (n, (k', v)) ∈ es /\
    (k' = k \/ greater = true /\ k < k' /\ forall e, e ∈ es -> ekey e < k \/ k' <= ekey e)).

Definition strictly (k : Z) (K : ctx) : Prop :=
  (forall e, e ∈ pre K -> ekey e < k) /\ (forall e, e ∈ post K -> k < ekey e).

(** The best candidate on the way down. *)
Definition best (greater : bool) (K : ctx) : Z :=
  if greater then match post K with [] => 0 | e :: _ => e.1 end else 0.

Lemma find_loop_spec k greater t : forall fuel c K,
  at_hole c K t -> (length (entries t) < fuel)%nat -> sorted (entries (plug K t)) -> strictly k K ->
  exists n, find_loop fuel k greater (ptr t) (best greater K) c = inr (n, c) /\
    found (entries (plug K t)) k greater n.
Proof.
  induction t as [|l IHl a k0 v r IHr]; intros fuel c K Hc Hf Hs Hb; (destruct fuel as [|fuel]; [lia|]); cbn [find_loop].
  - exists (best greater K). split; [done|]. rewrite entries_plug in *. cbn [entries app] in *. destruct Hb as [Hp Hq].
    unfold best, found. destruct greater; [destruct (post K) as [|[b [kb vb]] q] eqn:Eq|].
    + left. split; [done|]. intros e He. rewrite app_nil_r in He. by apply Hp.
    + right. exists kb, vb. cbn. split; [set_solver|right]. specialize (Hq (b, (kb, vb)) ltac:(left)) as Hk.
      split_and!; [done|done|]. intros e [He|He]%elem_of_app; [left; by apply Hp|right].
      apply sorted_app in Hs as (_ & Hs & _). apply sorted_cons in Hs as [_ Hs].
      apply elem_of_cons in He as [->|He]; [done|]. by apply Hs.
    + left. split; [done|]. intros e [He|He]%elem_of_app; [specialize (Hp e He)|specialize (Hq e He)]; lia.
  - destruct (at_hole_node _ _ _ _ _ _ _ Hc) as [Ha Hn]. cbn [ptr]. rewrite Ha, (bindM_inr _ _ _ _ _ Hn). cbn [key left right].
    destruct (Z.eqb_spec k0 k) as [->|Hne].
    { exists a. split; [done|]. right. exists k, v. split; [|by left]. rewrite entries_plug. cbn [entries]. set_solver. }
    rewrite size_node in Hf. pose proof Hs as Hs'. rewrite entries_plug in Hs'. apply sorted_app in Hs' as (_ & Hs' & _).
    apply sorted_app in Hs' as (Hs' & _ & Hpost). cbn [entries] in Hs', Hpost.
    apply sorted_app in Hs' as (_ & Hr & Hlr). apply sorted_cons in Hr as [_ Hr]. destruct Hb as [Hp Hq].
    destruct (Z.ltb_spec k k0).
    + replace (if greater && true then a else best greater K) with (best greater (InL K a k0 v r)) by (by destruct greater).
      apply (IHl fuel c (InL K a k0 v r)); [by apply down_left|lia|done|]. split; cbn [pre post]; [done|].
      intros e He. apply elem_of_cons in He as [->|He]; [done|]. apply elem_of_app in He as [He|He]; [|by apply Hq].
      specialize (Hr e He). unfold ekey in *. cbn in *. lia.
    + rewrite andb_false_r.
      apply (IHr fuel c (InR K l a k0 v)); [by apply down_right|lia|done|]. split; cbn [pre post]; [|done].
      intros e He. rewrite !elem_of_app in He. destruct He as [He|[He|He]]; [by apply Hp| |].
      * specialize (Hlr e (a, (k0, v)) He ltac:(left)). unfold ekey in *. cbn in *. lia.
      * apply list_elem_of_singleton in He as ->. unfold ekey. cbn. lia.
Qed.

Lemma find_spec c t k greater :
  holds c t -> sorted (entries t) ->
  exists n, bst_find_node k greater c = inr (n, c) /\ found (entries t) k greater n.
Proof.
  intros Hc Hs. unfold bst_find_node, bindM, getM. rewrite (h_root _ _ Hc).
  replace 0 with (best greater Top) by (by destruct greater).
  apply (find_loop_spec k greater t (node_fuel c) c Top); [by apply holds_top|by apply node_fuel_ok|done|].
  split; intros e He; by apply elem_of_nil in He.
Qed.

(** ** Adding *)

(** Filling an empty hole with a tree already in memory. *)
Lemma fill_hole c c' K t u :
  at_hole c K t -> rep_ctx c' K (ptr u) -> rep (nodes c') (hole_parent K) u ->
  NoDup (ctx_addrs K ++ addrs u) -> (forall x, is_Some (nodes c' !! x) <-> x ∈ ctx_addrs K ++ addrs u) ->
  holds c' (plug K u).
Proof. intros _ Hc Hr Hn Hd. by apply holds_at_hole. Qed.

Lemma nodup_ctx c K t : at_hole c K t -> NoDup (ctx_addrs K).
Proof. intros H. pose proof (ah_nodup _ _ _ H) as Hn. by apply NoDup_app in Hn as (? & _ & _). Qed.

Lemma elems_plug K t : elems (plug K t) = (pre K).*2 ++ elems t ++ (post K).*2.
Proof. unfold elems. by rewrite entries_plug, !fmap_app. Qed.

Lemma sorted_elems l : sorted l <-> StronglySorted Z.le (l.*2).*1.
Proof. unfold sorted. by rewrite <- list_fmap_compose. Qed.

Lemma sorted_insert k v a K :
  sorted (entries (plug K Leaf)) -> between k K -> sorted (entries (plug K (Node Leaf a k v Leaf))).
Proof.
  rewrite !entries_plug. cbn [entries app]. intros Hs [Hp Hq]. apply sorted_app in Hs as (Ha & Hb & Hab).
  apply sorted_app. split_and!; [done|by apply sorted_cons|].
  intros x y Hx Hy. apply elem_of_cons in Hy as [->|Hy]; [by apply Hp|by apply Hab].
Qed.

Lemma sorted_remove a x b : sorted (a ++ x :: b) -> sorted (a ++ b).
Proof.
  intros (Ha & Hb & Hab)%sorted_app. apply sorted_cons in Hb as [Hb _]. apply sorted_app. split_and!; [done..|].
  intros u w Hu Hw. apply Hab; [done|by right].
Qed.

Section Add.
Context `{NodeMalloc}.

Lemma add_spec c t k v :
  holds c t -> sorted (entries t) ->
  exists K c', plug K Leaf = t /\ between k K /\ locked c' = locked c /\
    match node_malloc (dom (nodes c)) with
    | Some a => bst_add k v c = inr (true, c') /\ holds c' (plug K (Node Leaf a k v Leaf))
    | None => bst_add k v c = inr (false, c') /\ holds c' t
    end.
Proof.
  intros Hc Hs. pose proof (holds_top c t Hc) as Ht.
  destruct (add_loop_spec k t (node_fuel c) c Top Ht (node_fuel_ok c t Hc) Hs) as (K & Hadd & HK & Hh & Hb).
  { split; intros e He; by apply elem_of_nil in He. }
  cbn [plug] in HK. subst t. apply holds_at_hole in Hc as [_ Hd]. cbn [addrs entries] in Hd. rewrite app_nil_r in Hd.
  assert (bst_add k v c = (a <- bst_create_node (hole_parent K) v k ;; store_slot (hole_slot K) a ;;; ret (negb (a =? 0))) c) as ->.
  { unfold bst_add, bindM at 1, getM. by rewrite (bindM_inr _ _ _ _ _ Hadd). }
  unfold bst_create_node. destruct (node_malloc (dom (nodes c))) as [a|] eqn:Em.
  - destruct (node_malloc_fresh _ _ Em) as [Ha Hnew]. rewrite elem_of_dom, Hd in Hnew.
    set (c1 := set_nodes c (<[a := {| parent := hole_parent K; value := v; key := k; left := 0; right := 0 |}]> (nodes c))).
    assert (rep_ctx c1 K 0) as Hc1.
    { eapply rep_ctx_frame; [apply (ah_ctx _ _ _ Hh)|done|]. intros q Hq. apply lookup_insert_ne. by intros <-. }
    destruct (store_hole c1 K 0 a Hc1 (nodup_ctx _ _ _ Hh)) as (c2 & Hst & Hc2 & Hl2 & Hf2 & Hd2).
    exists K, c2. split_and!; [done|done|done| |].
    + unfold bindM at 1 2, getM. rewrite Em. unfold bindM at 1 2, put_node, modM. fold c1. unfold ret at 1.
      unfold bindM. rewrite Hst. unfold ret. apply Z.eqb_neq in Ha. by rewrite Ha.
    + eapply fill_hole; [exact Hh|done|..].
      * cbn [rep]. split_and!; [done| |done|done]. rewrite Hf2 by done. by apply lookup_insert_eq.
      * change (addrs (Node Leaf a k v Leaf)) with [a]. apply NoDup_app. split_and!; [by eapply nodup_ctx| |apply NoDup_singleton].
        intros x Hx ->%list_elem_of_singleton. done.
      * intros x. change (addrs (Node Leaf a k v Leaf)) with [a]. rewrite Hd2. cbn [set_nodes nodes c1].
        rewrite elem_of_app, list_elem_of_singleton, <- Hd.
        destruct (decide (x = a)) as [->|Hne]; [rewrite lookup_insert_eq|rewrite lookup_insert_ne by done]; naive_solver.
  - destruct (store_hole c K 0 0 (ah_ctx _ _ _ Hh) (nodup_ctx _ _ _ Hh)) as (c2 & Hst & Hc2 & Hl2 & Hf2 & Hd2).
    exists K, c2. split_and!; [done|done|done| |].
    + unfold bindM at 1 2, getM. rewrite Em. unfold bindM, ret. by rewrite Hst.
    + eapply fill_hole; [exact Hh|done|done|..]; unfold addrs; cbn; rewrite app_nil_r.
      * by eapply nodup_ctx.
      * intros x. by rewrite Hd2.
Qed.
End Add.

(** ** Removing *)

(** The root of a plugged tree is above the hole. *)
Lemma ptr_plug K : forall t, t <> Leaf -> ptr (plug K t) = ptr t \/ ptr (plug K t) ∈ ctx_addrs K.
Proof.
  unfold ctx_addrs. induction K as [|K IH q kq vq rq|K IH lq q kq vq]; intros t Ht; cbn [plug pre post]; [by left|..];
    right; (edestruct IH as [->|Hin]; [done|..|revert Hin]); cbn [ptr]; rewrite ?fmap_cons, ?fmap_app; cbn; set_solver.
Qed.

Lemma root_in_ctx c K t : at_hole c K t -> K <> Top -> t <> Leaf -> root c ∈ ctx_addrs K.
Proof.
  intros Hc HK Ht. destruct (proj2 (rep_plug c K t) (conj (ah_ctx _ _ _ Hc) (ah_rep _ _ _ Hc))) as [-> _].
  clear -HK Ht. unfold ctx_addrs. destruct K as [|K q kq vq rq|K lq q kq vq]; [done|..]; cbn [plug pre post];
    (edestruct (ptr_plug K) as [->|Hin]; [done|..|revert Hin]); cbn [ptr]; unfold ctx_addrs;
    rewrite ?fmap_cons, ?fmap_app; cbn; set_solver.
Qed.

(** The node in the hole is not above it. *)
Lemma node_not_above c K t : at_hole c K t -> t <> Leaf -> ptr t ∉ ctx_addrs K.
Proof.
  intros Hc Ht Hx. pose proof (ah_nodup _ _ _ Hc) as Hnd. apply NoDup_app in Hnd as (_ & Hnd & _).
  apply (Hnd _ Hx). by apply ptr_in.
Qed.

Lemma node_ref_spec c K l n k v r :
  at_hole c K (Node l n k v r) -> node_ref n c = inr (hole_slot K, c).
Proof.
  intros Hc. destruct (at_hole_node _ _ _ _ _ _ _ Hc) as [Hn0 Hn]. apply Z.eqb_neq in Hn0.
  pose proof (node_not_above c K _ Hc ltac:(done)) as HnK. cbn [ptr] in HnK.
  assert (K <> Top -> root c <> n) as Hroot.
  { intros HK Hr. apply HnK. rewrite <- Hr. by eapply root_in_ctx. }
  unfold node_ref, bindM at 1, getM. destruct (Z.eqb_spec (root c) n) as [Hr|Hr].
  { destruct K; [done|by destruct (Hroot ltac:(done))..]. }
  rewrite (bindM_inr _ _ _ _ _ Hn). cbn [parent].
  pose proof (ah_ctx _ _ _ Hc) as HK. destruct K as [|K q kq vq rq|K lq q kq vq]; cbn [rep_ctx hole_parent hole_slot ptr] in *.
  - done.
  - destruct HK as (_ & Hq & _). rewrite (bindM_inr _ _ _ _ _ (node_at_eq _ _ _ Hq)). cbn [left]. by rewrite Z.eqb_refl.
  - destruct HK as (_ & Hq & _). rewrite (bindM_inr _ _ _ _ _ (node_at_eq _ _ _ Hq)). cbn [left].
    destruct (Z.eqb_spec (ptr lq) n) as [E|E]; [|done]. destruct HnK. rewrite <- E. unfold ctx_addrs. cbn [pre].
    rewrite !fmap_app. destruct lq; [by cbn in E|]. pose proof (ptr_in (Node lq1 a k0 v0 lq2) ltac:(done)) as Hp.
    unfold addrs in Hp. set_solver.
Qed.

(** The only child of a node, if any. *)
Definition child_of (l r : tree) : tree := match l with Leaf => r | _ => l end.

Lemma child_facts c K l n k v r (u := child_of l r) :
  at_hole c K (Node l n k v r) -> l = Leaf \/ r = Leaf ->
  rep (nodes c) n u /\ n ∉ addrs u /\ NoDup (ctx_addrs K ++ addrs u) /\
  (forall x, x ∈ addrs (Node l n k v r) <-> x = n \/ x ∈ addrs u) /\
  ptr u = if negb (ptr l =? 0) then ptr l else ptr r.
Proof.
  intros [_ (Hn0 & _ & Hl & Hr) Hnd] Hlr. unfold u, addrs in *. cbn [entries] in *.
  rewrite fmap_app, fmap_cons in *. cbn [fst] in *.
  apply NoDup_app in Hnd as (HndK & Hdis & Hnd). apply NoDup_app in Hnd as (Hndl & Hdl & Hnd).
  apply NoDup_cons in Hnd as [Hnr Hndr].
  destruct l as [|l1 al kl vl l2]; cbn [child_of].
  - split_and!; [done|done| |set_solver|done]. apply NoDup_app. split_and!; [done| |done]. intros x Hx Hx'. apply (Hdis x Hx). set_solver.
  - destruct Hlr as [| ->]; [done|]. pose proof Hl as (Hal & _). clear Hr Hnr Hndr.
    change al with (ptr (Node l1 al kl vl l2)) in Hal.
    revert Hl Hndl Hdl Hdis Hal. generalize (Node l1 al kl vl l2) as u'. intros u' Hl Hndl Hdl Hdis Hal.
    split; [done|]. split_and!; [| |set_solver|].
    + intros Hx. apply (Hdl n Hx). left.
    + apply NoDup_app. split_and!; [done| |done]. intros x Hx Hx'. apply (Hdis x Hx). set_solver.
    + apply Z.eqb_neq in Hal. by rewrite Hal.
Qed.

(** The child of an unlinked node gets its parent. *)
Lemma adopt_spec c n p u :
  rep (nodes c) n u -> NoDup (addrs u) ->
  exists c', (if negb (ptr u =? 0) then cn <- node_at (ptr u) ;; put_node (ptr u) (set_parent cn p) else ret tt) c = inr (tt, c') /\
    root c' = root c /\ locked c' = locked c /\ rep (nodes c') p u /\
    (forall x, x ∉ addrs u -> nodes c' !! x = nodes c !! x) /\
    (forall x, is_Some (nodes c' !! x) <-> is_Some (nodes c !! x)).
Proof.
  intros Hu Hnd. destruct u as [|ul a ka va ur]; [by exists c|].
  pose proof Hu as (Ha & Hna & _). cbn [ptr]. apply Z.eqb_neq in Ha. rewrite Ha. cbn [negb].
  rewrite (bindM_inr _ _ _ _ _ (node_at_eq _ _ _ Hna)). eexists. split; [reflexivity|]. cbn [set_nodes nodes root locked].
  split_and!; [done|done|by apply (rep_reparent _ n)|..].
  - intros x Hx. apply lookup_insert_ne. intros <-. apply Hx. by apply (ptr_in (Node ul a ka va ur)).
  - intros x. destruct (decide (x = a)) as [->|Hne]; [rewrite lookup_insert_eq, Hna|rewrite lookup_insert_ne by done]; naive_solver.
Qed.

(** Unlinking a node with at most one child. *)
Lemma unlink_spec c K l n k v r :
  holds c (plug K (Node l n k v r)) -> l = Leaf \/ r = Leaf ->
  exists c', unlink n (hole_slot K) c = inr (tt, c') /\ locked c' = locked c /\ holds c' (plug K (child_of l r)).
Proof.
  intros Hc Hlr. apply holds_at_hole in Hc as [Hc Hd]. destruct (at_hole_node _ _ _ _ _ _ _ Hc) as [_ Hn].
  pose proof (node_not_above c K _ Hc ltac:(done)) as HnK. cbn [ptr] in HnK.
  destruct (child_facts _ _ _ _ _ _ _ Hc Hlr) as (Hu & Hnu & Hndu & Hin & Hpu). set (u := child_of l r) in *.
  pose proof (proj1 (NoDup_app _ _) Hndu) as (_ & Hdis & Hndu').
  destruct (store_hole c K n (ptr u) (ah_ctx _ _ _ Hc) (nodup_ctx _ _ _ Hc)) as (c1 & Hst & Hc1 & Hl1 & Hf1 & Hd1).
  assert (rep (nodes c1) n u) as Hu1.
  { eapply rep_frame; [exact Hu|]. intros x Hx. apply Hf1. intros HxK. by apply (Hdis x). }
  destruct (adopt_spec c1 n (hole_parent K) u Hu1 Hndu') as (c2 & Hst2 & Hr2 & Hl2 & Hu2 & Hf2 & Hd2).
  exists (set_nodes c2 (delete n (nodes c2))). split_and!.
  - unfold unlink. rewrite (bindM_inr _ _ _ _ _ Hn). cbn [left right parent]. rewrite <- Hpu.
    rewrite (bindM_inr _ _ _ _ _ Hst), (bindM_inr _ _ _ _ _ Hst2). reflexivity.
  - cbn. congruence.
  - apply holds_at_hole. split; [split|]; cbn [set_nodes nodes]; try done.
    + eapply rep_ctx_frame; [exact Hc1|done|]. intros q Hq. cbn [set_nodes nodes].
      rewrite lookup_delete_ne by (by intros <-). apply Hf2. intros Hx. by apply (Hdis q).
    + eapply rep_frame; [exact Hu2|]. intros x Hx. apply lookup_delete_ne. by intros <-.
    + intros x. destruct (decide (x = n)) as [->|Hne].
      * rewrite lookup_delete_eq. split; [by intros [? [=]]|]. rewrite elem_of_app. by intros [?|?].
      * rewrite lookup_delete_ne by done. rewrite Hd2, Hd1, Hd, !elem_of_app, Hin. naive_solver.
Qed.

(** The way to the leftmost node. *)
Fixpoint spine (K : ctx) (t : tree) : ctx * tree :=
  match t with
  | Node (Node _ _ _ _ _ as l) a k v r => spine (InL K a k v r) l
  | _ => (K, t)
  end.

Lemma spine_node K a k v l r : l <> Leaf -> spine K (Node l a k v r) = spine (InL K a k v r) l.
Proof. by destruct l. Qed.

Lemma spine_plug t : forall K, plug (spine K t).1 (spine K t).2 = plug K t.
Proof.
  induction t as [|l IH a k v r _]; intros K; [done|]. destruct l as [|ll al kl vl rl]; [done|].
  rewrite spine_node by done. by rewrite IH.
Qed.

Lemma spine_pre t : forall K, pre (spine K t).1 = pre K.
Proof.
  induction t as [|l IH a k v r _]; intros K; [done|]. destruct l as [|ll al kl vl rl]; [done|].
  rewrite spine_node by done. by rewrite IH.
Qed.

Lemma spine_indep t : forall K K', hole_slot K = hole_slot K' ->
  (spine K t).2 = (spine K' t).2 /\ hole_slot (spine K t).1 = hole_slot (spine K' t).1.
Proof.
  induction t as [|l IH a k v r _]; intros K K' HK; [done|]. destruct l as [|ll al kl vl rl]; [done|].
  rewrite !spine_node by done. by apply IH.
Qed.

Lemma spine_leftmost t : t <> Leaf -> forall K, exists m k v r, (spine K t).2 = Node Leaf m k v r.
Proof.
  induction t as [|l IH a k v r _]; [done|]. intros _ K. destruct l as [|ll al kl vl rl]; [by repeat eexists|].
  rewrite spine_node by done. by apply IH.
Qed.

Lemma min_loop_spec t : forall fuel c K,
  at_hole c K t -> t <> Leaf -> (length (entries t) < fuel)%nat ->
  min_loop fuel (hole_slot K) c = inr (hole_slot (spine K t).1, c).
Proof.
  induction t as [|l IH a k v r _]; intros fuel c K Hc Ht Hf; [done|]. destruct fuel as [|fuel]; [lia|]. cbn [min_loop].
  rewrite (bindM_inr _ _ _ _ _ (load_hole c K _ (ah_ctx _ _ _ Hc))). cbn [ptr].
  destruct (at_hole_node _ _ _ _ _ _ _ Hc) as [_ Hn]. rewrite (bindM_inr _ _ _ _ _ Hn). cbn [left].
  rewrite size_node in Hf. pose proof (down_left _ _ _ _ _ _ _ Hc) as Hl. destruct l as [|ll al kl vl rl]; [done|].
  destruct (at_hole_node _ _ _ _ _ _ _ Hl) as [E _]. cbn [ptr]. rewrite E, spine_node by done.
  apply (IH fuel c (InL K a k v r)); [done|done|lia].
Qed.

(** Giving a node the key and value of another. *)
Lemma set_pair_spec c K l n k v r mn :
  holds c (plug K (Node l n k v r)) ->
  let nd := {| parent := hole_parent K; value := v; key := k; left := ptr l; right := ptr r |} in
  holds (set_nodes c (<[n := set_pair nd mn]> (nodes c))) (plug K (Node l n (key mn) (value mn) r)).
Proof.
  intros Hc nd. apply holds_at_hole in Hc as [Hc Hd]. pose proof Hc as [HcK (Hn0 & Hn & Hl & Hr) Hnd].
  pose proof (node_not_above c K _ Hc ltac:(done)) as HnK. cbn [ptr] in HnK.
  pose proof (down_left _ _ _ _ _ _ _ Hc) as Hdl. pose proof (down_right _ _ _ _ _ _ _ Hc) as Hdr.
  pose proof (proj1 (NoDup_app _ _) (ah_nodup _ _ _ Hdl)) as (_ & Hdl' & _).
  pose proof (proj1 (NoDup_app _ _) (ah_nodup _ _ _ Hdr)) as (_ & Hdr' & _).
  apply holds_at_hole. unfold addrs in Hnd, Hd |- *. cbn [entries] in *. rewrite !fmap_app, !fmap_cons in *.
  cbn [fst] in *. split; [split|]; cbn [set_nodes nodes ptr].
  - eapply rep_ctx_frame; [exact HcK|done|]. intros q Hq. apply lookup_insert_ne. by intros <-.
  - cbn [rep]. split_and!; [done|by rewrite lookup_insert_eq|..].
    + eapply rep_frame; [exact Hl|]. intros x Hx. apply lookup_insert_ne. intros <-.
      apply (Hdl' n); [apply (hole_in (InL K n k v r)); done|done].
    + eapply rep_frame; [exact Hr|]. intros x Hx. apply lookup_insert_ne. intros <-.
      apply (Hdr' n); [apply (hole_in (InR K l n k v)); done|done].
  - unfold addrs. cbn [entries]. by rewrite fmap_app, fmap_cons.
  - intros x. rewrite <- Hd. destruct (decide (x = n)) as [->|Hne]; [rewrite lookup_insert_eq, Hn|rewrite lookup_insert_ne by done]; naive_solver.
Qed.

Lemma bst_remove_spec c K l n k v r :
  holds c (plug K (Node l n k v r)) ->
  exists c' t', bst_remove 2 n c = inr (tt, c') /\ locked c' = locked c /\ holds c' t' /\
    elems t' = (pre K).*2 ++ (elems l ++ elems r) ++ (post K).*2.
Proof.
  intros Hc. pose proof (proj1 (proj1 (holds_at_hole _ _ _) Hc)) as Hh.
  destruct (at_hole_node _ _ _ _ _ _ _ Hh) as [_ Hn]. set (nd := {| parent := _; value := _ |}) in Hn.
  cbn [bst_remove]. rewrite (bindM_inr _ _ _ _ _ (node_ref_spec _ _ _ _ _ _ _ Hh)), (bindM_inr _ _ _ _ _ Hn).
  pose proof Hh as [_ (_ & _ & Hl & Hr) _]. pose proof (ptr_zero _ _ _ Hl) as El. pose proof (ptr_zero _ _ _ Hr) as Er.
  cbn [nd left right]. destruct (Z.eqb_spec (ptr l) 0) as [Zl|Zl].
  { destruct (unlink_spec c K l n k v r Hc) as (c' & Hu & Hlk & Hh'); [left; by apply El|]. exists c'. eexists. split_and!; [exact Hu|done|exact Hh'|].
    rewrite elems_plug. apply El in Zl as ->. done. }
  destruct (Z.eqb_spec (ptr r) 0) as [Zr|Zr]; cbn [negb andb].
  { destruct (unlink_spec c K l n k v r Hc) as (c' & Hu & Hlk & Hh'); [right; by apply Er|]. exists c'. eexists. split_and!; [exact Hu|done|exact Hh'|].
    rewrite elems_plug. apply Er in Zr as ->. destruct l; [by destruct Zl|]. cbn [child_of]. by rewrite app_nil_r. }
  assert (r <> Leaf) as Hr0 by (intros ->; by apply Zr). unfold bindM at 1, getM.
  pose proof (down_right _ _ _ _ _ _ _ Hh) as Hd.
  assert (length (entries r) < node_fuel c)%nat as Hfuel.
  { pose proof (node_fuel_ok _ _ Hc) as Hf. rewrite entries_plug, !length_app, size_node in Hf. lia. }
  rewrite (bindM_inr _ _ _ _ _ (min_loop_spec r _ c (InR K l n k v) Hd Hr0 Hfuel)).
  destruct (spine_leftmost r Hr0 (InR K l n k v)) as (m & km & vm & r' & Em).
  assert (at_hole c (spine (InR K l n k v) r).1 (Node Leaf m km vm r')) as Hm.
  { rewrite <- Em. apply holds_at_hole. by rewrite spine_plug. }
  rewrite (bindM_inr _ _ _ _ _ (load_hole _ _ _ (ah_ctx _ _ _ Hm))). cbn [ptr].
  destruct (at_hole_node _ _ _ _ _ _ _ Hm) as [_ Hmn]. rewrite (bindM_inr _ _ _ _ _ Hmn).
  set (mn := {| value := vm |}). pose proof (set_pair_spec c K l n k v r mn Hc) as Hc1. fold nd in Hc1.
  cbv zeta in Hc1. cbn [mn key value] in Hc1. set (c1 := set_nodes c _) in *.
  erewrite bindM_inr by reflexivity. fold c1.
  set (K' := (spine (InR K l n km vm) r).1).
  assert (plug K' (Node Leaf m km vm r') = plug K (Node l n km vm r)) as HK'.
  { unfold K'. rewrite <- Em. destruct (spine_indep r (InR K l n k v) (InR K l n km vm) eq_refl) as [-> _]. by rewrite spine_plug. }
  rewrite <- HK' in Hc1. destruct (unlink_spec c1 K' Leaf m km vm r' Hc1 ltac:(by left)) as (c' & Hu & Hlk & Hh').
  exists c'. eexists. split_and!; [|by rewrite Hlk|exact Hh'|].
  - pose proof (proj1 (proj1 (holds_at_hole _ _ _) Hc1)) as Hh1.
    rewrite (bindM_inr _ _ _ _ _ (node_ref_spec _ _ _ _ _ _ _ Hh1)).
    destruct (at_hole_node _ _ _ _ _ _ _ Hh1) as [_ Hmn1]. rewrite (bindM_inr _ _ _ _ _ Hmn1). exact Hu.
  - assert (elems (plug K' (Node Leaf m km vm r')) = elems (plug K (Node l n km vm r))) as He by (by rewrite HK').
    rewrite !elems_plug in *. unfold K' in He |- *. rewrite spine_pre in He |- *. cbn [pre] in He |- *.
    rewrite !fmap_app in He |- *. cbn [elems entries app child_of] in He |- *. unfold elems in He |- *. cbn [entries app] in He.
    rewrite !fmap_app, !fmap_cons, <- !app_assoc in He. rewrite <- !app_assoc.
    apply app_inv_head, app_inv_head in He. cbn in He. injection He as He. cbn. by rewrite He.
Qed.

(** ** The operations on the contents *)

Section Refines.
Context `{NodeMalloc}.

Lemma contents_new : contents container_bst_new [].
Proof.
  exists Leaf. split_and!; [|done|constructor|done]. split; [done|done|constructor|].
  intros a. cbn [container_bst_new nodes]. rewrite lookup_empty. split; [by intros [? [=]]|intros E; by apply elem_of_nil in E].
Qed.

(** The sorted contents an insertion gives: the new entry after those with a
    smaller or equal key. *)
Definition added (k v : Z) (l l' : list (Z * Z)) : Prop :=
  exists l1 l2, l = l1 ++ l2 /\ l' = l1 ++ (k, v) :: l2.

(** What a removal returns and leaves. *)
Definition taken (greater : bool) (k : Z) (l : list (Z * Z)) (r : Z) (l' : list (Z * Z)) : Prop :=
  (r = NULL_VAL /\ l' = l /\ forall e, e ∈ l -> if greater then e.1 < k else e.1 <> k) \/
  (exists k' l1 l2, l = l1 ++ (k', r) :: l2 /\ l' = l1 ++ l2 /\
    (k' = k \/ greater = true /\ k < k' /\ forall e, e ∈ l -> e.1 < k \/ k' <= e.1)).

Lemma add_refines (c : container_bst) (l : list (Z * Z)) (k v : Z) (Hc : contents c l) :
  exists c', match node_malloc (dom (nodes c)) with
  | Some _ => bst_add k v c = inr (true, c') /\ exists l', added k v l l' /\ contents c' l'
  | None => bst_add k v c = inr (false, c') /\ contents c' l
  end.
Proof.
  destruct Hc as (t & Ht & <- & Hs & Hl). apply sorted_elems in Hs.
  destruct (add_spec c t k v Ht Hs) as (K & c' & <- & Hb & Hlk & Hadd). exists c'.
  destruct (node_malloc _) as [a|]; destruct Hadd as [Hadd Hc']; (split; [done|]).
  - exists (elems (plug K (Node Leaf a k v Leaf))). split.
    + rewrite !elems_plug. by exists (pre K).*2, (post K).*2.
    + eexists. split_and!; [exact Hc'|done| |by rewrite Hlk]. apply sorted_elems. by apply sorted_insert.
  - eexists. split_and!; [exact Hc'|done|by apply sorted_elems|by rewrite Hlk].
Qed.

Lemma StronglySorted_remove {A} (R : A -> A -> Prop) a x b :
  StronglySorted R (a ++ x :: b) -> StronglySorted R (a ++ b).
Proof.
  induction a as [|y a IH]; cbn; intros [Hs Hf]%StronglySorted_inv; [done|]. constructor; [by apply IH|].
  apply Forall_app in Hf as [Hfa Hfb]. apply Forall_cons in Hfb as [_ Hfb]. by apply Forall_app.
Qed.

Lemma elems_plug_node K l n k v r :
  elems (plug K (Node l n k v r)) = ((pre K).*2 ++ elems l) ++ (k, v) :: (elems r ++ (post K).*2).
Proof. rewrite elems_plug. unfold elems. cbn [entries]. by rewrite fmap_app, fmap_cons, <- !app_assoc. Qed.

(** A node of the tree is at a hole. *)
Lemma find_hole t n k v : forall K, (n, (k, v)) ∈ entries t ->
  exists K' l r, plug K t = plug K' (Node l n k v r).
Proof.
  induction t as [|l IHl a ka va r IHr]; intros K; cbn [entries]; [intros E; by apply elem_of_nil in E|].
  rewrite elem_of_app, elem_of_cons. intros [Hl|[Ha|Hr]].
  - destruct (IHl (InL K a ka va r) Hl) as (K' & l' & r' & E). by exists K', l', r'.
  - injection Ha as -> -> ->. by exists K, l, r.
  - destruct (IHr (InR K l a ka va) Hr) as (K' & l' & r' & E). by exists K', l', r'.
Qed.

Lemma best_get_rm_spec c t k greater :
  holds c t -> sorted (entries t) ->
  exists r c' t', best_get_rm k greater c = inr (r, c') /\ holds c' t' /\ locked c' = locked c /\
    sorted (entries t') /\ taken greater k (elems t) r (elems t').
Proof.
  intros Hc Hs. destruct (find_spec c t k greater Hc Hs) as (n & Hf & Hfound). unfold best_get_rm.
  rewrite (bindM_inr _ _ _ _ _ Hf).
  assert (forall e, e ∈ entries t -> e.1 <> 0) as Hnz.
  { intros e He. eapply rep_nonzero; [apply (h_rep _ _ Hc)|]. apply list_elem_of_fmap. by exists e. }
  destruct Hfound as [[-> Hno]|(k' & v & Hin & Hk)].
  - exists NULL_VAL, c, t. split_and!; [done..|]. left. split_and!; [done|done|].
    intros e (x & -> & Hx)%list_elem_of_fmap. by apply Hno.
  - assert (n =? 0 = false) as -> by (apply Z.eqb_neq; apply (Hnz _ Hin)).
    destruct (find_hole t n k' v Top Hin) as (K & l & r & E). cbn [plug] in E. subst t.
    pose proof (proj1 (proj1 (holds_at_hole _ _ _) Hc)) as Hh. destruct (at_hole_node _ _ _ _ _ _ _ Hh) as [_ Hnode].
    rewrite (bindM_inr _ _ _ _ _ Hnode). destruct (bst_remove_spec c K l n k' v r Hc) as (c' & t' & Hrm & Hlk & Hc' & He).
    rewrite (bindM_inr _ _ _ _ _ Hrm). exists v, c', t'. rewrite <- app_assoc, app_assoc in He. split_and!; [done..| |].
    + apply sorted_elems. change ((entries t').*2) with (elems t'). rewrite He. apply sorted_elems in Hs.
      change ((entries (plug K (Node l n k' v r))).*2) with (elems (plug K (Node l n k' v r))) in Hs.
      rewrite elems_plug_node, fmap_app, fmap_cons in Hs. rewrite fmap_app. by eapply StronglySorted_remove.
    + right. exists k', ((pre K).*2 ++ elems l), (elems r ++ (post K).*2). split_and!; [apply elems_plug_node|done|].
      destruct Hk as [->|(? & ? & Hk)]; [by left|right]. split_and!; [done|done|].
      intros e (x & -> & Hx)%list_elem_of_fmap. by apply Hk.
Qed.

Lemma get_rm_refines (c : container_bst) (l : list (Z * Z)) (k : Z) (greater : bool) (Hc : contents c l) :
  exists r c' l', (if greater then bst_get_rm_ge k else bst_get_rm_eq k) c = inr (r, c') /\
    contents c' l' /\ taken greater k l r l'.
Proof.
  destruct Hc as (t & Ht & <- & Hs & Hl). apply sorted_elems in Hs.
  assert (holds (set_locked c true) t) as Ht1 by (by destruct Ht).
  destruct (best_get_rm_spec (set_locked c true) t k greater Ht1 Hs) as (r & c' & t' & Hrm & Hc' & Hlk & Hs' & Htk).
  exists r, (set_locked c' false), (elems t'). split_and!; [| |done].
  - destruct greater; unfold bst_get_rm_ge, bst_get_rm_eq, mutex_lock, bindM, getM, putM; by rewrite Hl, Hrm.
  - exists t'. split_and!; [by destruct Hc'|done|by apply sorted_elems|done].
Qed.

(** [bst_add] inserts the entry, keeping the others and the order, with
    all nodes linked both ways; when no node can be allocated it returns false
    and the contents stay. *)
Theorem bst_add_refines (c : container_bst) (l : list (Z * Z)) (k v : Z) (Hc : contents c l) :
  exists c', match node_malloc (dom (nodes c)) with
  | Some _ => bst_add k v c = inr (true, c') /\ exists l', added k v l l' /\ contents c' l'
  | None => bst_add k v c = inr (false, c') /\ contents c' l
  end.
Proof. by apply add_refines. Qed.

(** C18. [bst_get_rm_ge] (and [bst_get_rm_eq]) takes out an entry whose key is
    the one asked for, or, failing that, the least greater one (no other), and
    returns its value; when there is none it returns [NULL_VAL] and the
    contents stay.  The tree is again well-formed, the node freed, the mutex
    released. *)
Theorem bst_get_rm_refines (c : container_bst) (l : list (Z * Z)) (k : Z) (greater : bool) (Hc : contents c l) :
  exists r c' l', (if greater then bst_get_rm_ge k else bst_get_rm_eq k) c = inr (r, c') /\
    contents c' l' /\ taken greater k l r l'.
Proof. by apply get_rm_refines. Qed.

(** Deleting the container frees every node. *)
Lemma bst_delete_spec t : forall fuel c p,
  rep (nodes c) p t -> NoDup (addrs t) -> (length (entries t) < fuel)%nat ->
  exists c', bst_delete fuel (ptr t) c = inr (tt, c') /\
    (forall x, nodes c' !! x = if bool_decide (x ∈ addrs t) then None else nodes c !! x).
Proof.
  induction t as [|l IHl a k v r IHr]; intros fuel c p Hr Hnd Hf; (destruct fuel as [|fuel]; [lia|]); cbn [bst_delete ptr].
  - exists c. split; [done|]. intros x. by rewrite bool_decide_eq_false_2 by (apply not_elem_of_nil).
  - destruct Hr as (Ha & Hn & Hl & Hr). apply Z.eqb_neq in Ha as Ea. rewrite Ea, (bindM_inr _ _ _ _ _ (node_at_eq _ _ _ Hn)).
    rewrite size_node in Hf. unfold addrs in *. cbn [entries left right] in *. rewrite fmap_app, fmap_cons in *. cbn [fst] in *.
    apply NoDup_app in Hnd as (Hndl & Hdl & Hnd). apply NoDup_cons in Hnd as [Har Hndr].
    destruct (IHl fuel c a Hl Hndl ltac:(lia)) as (c1 & E1 & H1). rewrite (bindM_inr _ _ _ _ _ E1).
    assert (rep (nodes c1) a r) as Hr1.
    { eapply rep_frame; [exact Hr|]. intros x Hx. rewrite H1, bool_decide_eq_false_2; [done|].
      intros Hx'. apply (Hdl x Hx'). by right. }
    destruct (IHr fuel c1 a Hr1 Hndr ltac:(lia)) as (c2 & E2 & H2). rewrite (bindM_inr _ _ _ _ _ E2).
    eexists. split; [reflexivity|]. intros x. cbn [set_nodes nodes]. destruct (decide (x = a)) as [->|Hne].
    + rewrite lookup_delete_eq, bool_decide_eq_true_2; [done|]. set_solver.
    + rewrite lookup_delete_ne by done. rewrite H2, H1. repeat case_bool_decide; try done; set_solver.
Qed.

Lemma container_bst_delete_spec c l :
  contents c l -> exists c', container_bst_delete c = inr (tt, c') /\ nodes c' = ∅.
Proof.
  intros (t & Ht & _). unfold container_bst_delete, bindM at 1, getM. rewrite (h_root _ _ Ht).
  destruct (bst_delete_spec t (node_fuel c) c 0 (h_rep _ _ Ht) (h_nodup _ _ Ht) (node_fuel_ok _ _ Ht)) as (c' & E & Hx).
  exists c'. split; [done|]. apply map_empty. intros x. rewrite Hx. case_bool_decide as Hin; [done|].
  destruct (nodes c !! x) eqn:En; [|done]. destruct Hin. apply (h_dom _ _ Ht). by rewrite En.
Qed.
End Refines.
