(* ===== verification/ObjHeap.v ===== *)
(** ObjHeap: the memory and the state of the allocator of libpmemobj.

    The layout of the pool (src/src/libpmemobj/backend_persistent.h), the
    structures of bucket.h, arena.h, pool.h and backend.h, and the accesses to
    persistent memory.  The memory is one address space; the pool is mapped in
    it at an address.  A store that the backend makes durable at once
    (b->persist, b->pmemcpy, b->pmemset) is recorded as a durable write, any
    other store as a plain one. *)

From stdpp Require Import strings.
From S2P Require Import Prelude Mem Util Prog StateM.

#[local] Open Scope stateM_scope.

(** ** Layout *)

Definition PERSISTENT_BACKEND_MAJOR : Z := 1.
Definition PERSISTENT_BACKEND_MINOR : Z := 0.
Definition MAX_INFO_SLOT : Z := 1024.
Definition MAX_CHUNK : Z := 65535.
Definition CHUNKSIZE : Z := 1024 * 256.
Definition POOL_SIGNATURE : list byte :=
  [x4d; x45; x4d; x4f; x52; x59; x5f; x50; x4f; x4f; x4c; x5f; x48; x44; x52; x00].
Definition CHUNK_HEADER_MAGIC : Z := 0xC3F0.
Definition ZONE_MIN_SIZE : Z := 32 * CHUNKSIZE.
Definition INFO_SLOT_DATA_SIZE : Z := 28.

Definition CHUNK_FLAG_USED : Z := 1.
Definition POOL_STATE_OPEN : Z := 1.
Definition POOL_STATE_CLOSED : Z := 2.
Definition CHUNK_TYPE_UNKNOWN : Z := 0.
Definition CHUNK_TYPE_BASE : Z := 1.
Definition MAX_CHUNK_TYPE : Z := 4.
Definition INFO_SLOT_TYPE_UNKNOWN : Z := 0.
Definition INFO_SLOT_TYPE_ALLOC : Z := 1.
Definition INFO_SLOT_TYPE_REALLOC : Z := 2.
Definition INFO_SLOT_TYPE_FREE : Z := 3.
Definition MAX_INFO_SLOT_TYPE : Z := 4.
Definition NULL_OFFSET : Z := 0.

(** Sizes of the structures, and offsets inside the pool. *)
Definition SIZEOF_HDR : Z := 1024.
Definition SIZEOF_SLOT : Z := 32.
Definition SIZEOF_CHUNK_HDR : Z := 16.
Definition SIZEOF_ZONE : Z := SIZEOF_HDR + SIZEOF_CHUNK_HDR * MAX_CHUNK + CHUNKSIZE * MAX_CHUNK.

Definition slot_off (i : Z) : Z := SIZEOF_HDR + SIZEOF_SLOT * i.
Definition zone_off (z : Z) : Z := SIZEOF_HDR + SIZEOF_SLOT * MAX_INFO_SLOT + SIZEOF_ZONE * z.
Definition chunk_hdr_off (z i : Z) : Z := zone_off z + SIZEOF_HDR + SIZEOF_CHUNK_HDR * i.
Definition chunk_data_off (z i : Z) : Z := zone_off z + SIZEOF_HDR + SIZEOF_CHUNK_HDR * MAX_CHUNK + CHUNKSIZE * i.

(** struct backend_pool_header: the fields, the reserved bytes, the checksum. *)
Record backend_pool_header := {
  bh_flags : Z; bh_state : Z; bh_major : Z; bh_minor : Z; bh_size : Z; bh_chunk_size : Z; bh_chunks_per_zone : Z;
}.
Definition backend_pool_header_bytes (h : backend_pool_header) : list byte :=
  POOL_SIGNATURE ++ le_enc 4 (bh_flags h) ++ le_enc 4 (bh_state h) ++ le_enc 8 (bh_major h) ++ le_enc 8 (bh_minor h) ++
  le_enc 8 (bh_size h) ++ le_enc 8 (bh_chunk_size h) ++ le_enc 8 (bh_chunks_per_zone h) ++ replicate 952 x00 ++ le_enc 8 0.
Definition HDR_STATE : Z := 20.
Definition HDR_MAJOR : Z := 24.
Definition HDR_SIZE : Z := 40.
Definition HDR_CHUNK_SIZE : Z := 48.
Definition HDR_CHUNKS_PER_ZONE : Z := 56.
Definition HDR_CHECKSUM : Z := 1016.

(** struct backend_chunk_header *)
Record chunk_header := { magic : Z; type_specific : Z; type : Z; flags : Z; size_idx : Z }.
Definition chunk_header_bytes (c : chunk_header) : list byte :=
  le_enc 4 (magic c) ++ le_enc 4 (type_specific c) ++ le_enc 2 (type c) ++ le_enc 2 (flags c) ++ le_enc 4 (size_idx c).
Definition chunk_header_of (m : mem) (a : Z) : chunk_header :=
  {| magic := get32 m a; type_specific := get32 m (a + 4); type := get_le 2 m (a + 8);
     flags := get_le 2 m (a + 10); size_idx := get32 m (a + 12) |}.

(** ** State *)

Record bucket_object := { real_size : Z; data_offset : Z; obj_size_idx : Z; unique_id : Z }.
Definition no_object : bucket_object := {| real_size := 0; data_offset := 0; obj_size_idx := 0; unique_id := 0 |}.

Record backend_persistent := {
  b_pool : Z;               (* where the pool is mapped *)
  pool_size : Z;
  max_zone : Z;
  is_pmem : bool;
  zones_exhausted : Z;
}.

Inductive backend := BACKEND_NOOP | BACKEND_PERSISTENT (b : backend_persistent).

Record arena := {
  associated_threads : Z;
  a_locked : bool;
  a_id : Z;
  a_buckets : list Z;       (* pointers to buckets, NULL is 0 *)
}.

Record pmalloc_pool := {
  bucket_classes : list Z;  (* unit sizes, 0 for a free entry *)
  p_locked : bool;
  arenas : list (option arena);
  p_backend : backend;
  p_buckets : list Z;       (* pointers to buckets, NULL is 0 *)
}.

(** The stores to memory, in order. *)
Inductive heap_event :=
| HWrite (off : Z) (bs : list byte)      (* stored and persisted *)
| HZero (off n : Z)                      (* pmemset to zero *)
| HStore (off : Z) (bs : list byte).     (* stored only *)

Section Heap.
Context {C : Type}.

Record bucket := { unit_size : Z; objects : C }.

Record heap := {
  h_mem : mem;
  h_log : list heap_event;
  h_buckets : gmap Z bucket;             (* the buckets allocated *)
  h_pool : pmalloc_pool;
  h_arena_id : Z;                        (* the thread's arena_id, -1 at first *)
}.

Definition set_h_mem (h : heap) (m : mem) (ev : heap_event) : heap :=
  {| h_mem := m; h_log := h_log h ++ [ev]; h_buckets := h_buckets h; h_pool := h_pool h; h_arena_id := h_arena_id h |}.
Definition set_h_buckets (h : heap) (b : gmap Z bucket) : heap :=
  {| h_mem := h_mem h; h_log := h_log h; h_buckets := b; h_pool := h_pool h; h_arena_id := h_arena_id h |}.
Definition set_h_pool (h : heap) (p : pmalloc_pool) : heap :=
  {| h_mem := h_mem h; h_log := h_log h; h_buckets := h_buckets h; h_pool := p; h_arena_id := h_arena_id h |}.
Definition set_h_arena_id (h : heap) (i : Z) : heap :=
  {| h_mem := h_mem h; h_log := h_log h; h_buckets := h_buckets h; h_pool := h_pool h; h_arena_id := i |}.

Definition set_arenas (p : pmalloc_pool) (l : list (option arena)) : pmalloc_pool :=
  {| bucket_classes := bucket_classes p; p_locked := p_locked p; arenas := l; p_backend := p_backend p; p_buckets := p_buckets p |}.
Definition set_classes (p : pmalloc_pool) (l : list Z) : pmalloc_pool :=
  {| bucket_classes := l; p_locked := p_locked p; arenas := arenas p; p_backend := p_backend p; p_buckets := p_buckets p |}.
Definition set_p_buckets (p : pmalloc_pool) (l : list Z) : pmalloc_pool :=
  {| bucket_classes := bucket_classes p; p_locked := p_locked p; arenas := arenas p; p_backend := p_backend p; p_buckets := l |}.
Definition set_p_locked (p : pmalloc_pool) (b : bool) : pmalloc_pool :=
  {| bucket_classes := bucket_classes p; p_locked := b; arenas := arenas p; p_backend := p_backend p; p_buckets := p_buckets p |}.
Definition set_backend (p : pmalloc_pool) (b : backend) : pmalloc_pool :=
  {| bucket_classes := bucket_classes p; p_locked := p_locked p; arenas := arenas p; p_backend := b; p_buckets := p_buckets p |}.

(** ** Accesses to memory *)

Abbreviation Heap := (M heap).

Definition load (n : nat) (a : Z) : Heap Z := h <- getM ;; ret (get_le n (h_mem h) a).
Definition load_bytes (a n : Z) : Heap (list byte) := h <- getM ;; ret (mread (h_mem h) a n).
Definition store_plain (a : Z) (bs : list byte) : Heap unit :=
  modM (fun h => set_h_mem h (mwrite (h_mem h) a bs) (HStore a bs)).
Definition store_persist (a : Z) (bs : list byte) : Heap unit :=
  modM (fun h => set_h_mem h (mwrite (h_mem h) a bs) (HWrite a bs)).
(** b->pmemset(dest, 0, len) *)
Definition pmemzero (a n : Z) : Heap unit :=
  modM (fun h => set_h_mem h (mzero (h_mem h) a n) (HZero a n)).
(** b->pmemcpy(dest, src, len) *)
Definition pmemcpy (dest src n : Z) : Heap unit := bs <- load_bytes src n ;; store_persist dest bs.
End Heap.

Arguments bucket : clear implicits.
Arguments heap : clear implicits.
