(* ===== verification/Bucket.v ===== *)
(** Bucket: src/src/libpmemobj/container.h and the part of bucket.c that does
    not call the backend.

    [Container] is struct container_operations, the interface between a bucket
    and the structure that holds its free blocks; [ContainerLaws] is what the
    allocator relies on.  The search tree of [Bst] and the empty container of
    container_noop.c are instances. *)

From S2P Require Import Prelude Mem Prog StateM Bst BstSpec ObjHeap.
From Stdlib Require Import Sorting.Sorted.

#[local] Open Scope stateM_scope.

Class Container (C : Type) := {
  c_new : C;
  c_add : Z -> Z -> M C bool;        (* key value *)
  c_get_rm_eq : Z -> M C Z;
  c_get_rm_ge : Z -> M C Z;
  c_delete : M C unit;
}.

(** A container holds a list of key-value pairs sorted by key; it may be unable
    to take a new pair. *)
Class ContainerLaws (C : Type) `{Container C} := {
  c_contents : C -> list (Z * Z) -> Prop;
  c_new_ok : c_contents c_new [];
  c_add_ok : forall c l k v, c_contents c l ->
    exists b c' l', c_add k v c = inr (b, c') /\ c_contents c' l' /\ if b : bool then added k v l l' else l' = l;
  c_get_rm_ge_ok : forall c l k, c_contents c l ->
    exists r c' l', c_get_rm_ge k c = inr (r, c') /\ c_contents c' l' /\ taken true k l r l';
  c_get_rm_eq_ok : forall c l k, c_contents c l ->
    exists r c' l', c_get_rm_eq k c = inr (r, c') /\ c_contents c' l' /\ taken false k l r l';
  c_sorted : forall c l, c_contents c l -> StronglySorted Z.le l.*1;
}.

#[export] Instance container_bst_ops `{NodeMalloc} : Container container_bst := {
  c_new := container_bst_new;
  c_add := bst_add;
  c_get_rm_eq := bst_get_rm_eq;
  c_get_rm_ge := bst_get_rm_ge;
  c_delete := container_bst_delete;
}.

#[export] Program Instance container_bst_laws `{NodeMalloc} : ContainerLaws container_bst := {
  c_contents := contents;
}.
Next Obligation. intros. apply contents_new. Qed.
Next Obligation.
  intros H0 c l k v Hc. destruct (add_refines c l k v Hc) as (c' & Hadd). cbn [c_add container_bst_ops].
  destruct (node_malloc _).
  - destruct Hadd as (E & l' & Ha & Hc'). by exists true, c', l'.
  - destruct Hadd as [E Hc']. by exists false, c', l.
Qed.
Next Obligation. intros H0 c l k Hc. by apply (get_rm_refines c l k true). Qed.
Next Obligation. intros H0 c l k Hc. by apply (get_rm_refines c l k false). Qed.
Next Obligation. intros H0 c l (t & _ & <- & Hs & _). done. Qed.

(** container_noop.c *)
Inductive container_noop := Container_noop.
Definition noop_add (k v : Z) : M container_noop bool := ret false.
Definition noop_get_rm_eq (k : Z) : M container_noop Z := ret NULL_VAL.
Definition noop_get_rm_ge (k : Z) : M container_noop Z := ret NULL_VAL.

#[export] Instance container_noop_ops : Container container_noop := {
  c_new := Container_noop;
  c_add := noop_add;
  c_get_rm_eq := noop_get_rm_eq;
  c_get_rm_ge := noop_get_rm_ge;
  c_delete := ret tt;
}.

Definition MAX_BUCKETS : Z := 1024.

(** Malloc of a bucket (with its container): a new address or NULL, as for the
    nodes of the tree. *)
Class BucketMalloc := {
  bucket_malloc : gset Z -> option Z;
  bucket_malloc_fresh : forall s a, bucket_malloc s = Some a -> a <> 0 /\ a ∉ s;
}.

Section Bucket.
Context {C : Type} `{Container C} `{BucketMalloc}.
Abbreviation Heap := (M (heap C)).

(** A bucket class for a size: there is one. *)
Definition get_bucket_class_id_by_size (size : Z) : Z := 0.

(** "for (i = 0; i < MAX_BUCKETS; ++i) if (...unit_size == 0) ..." *)
Fixpoint register_loop (c : Z) (i : nat) (l : list Z) : option nat :=
  match l with
  | [] => None
  | u :: l => if u =? 0 then Some i else register_loop c (S i) l
  end.

Definition bucket_register_class (c : Z) : Heap Z :=
  h <- getM ;;
  match register_loop c 0 (bucket_classes (h_pool h)) with
  | Some i => modM (fun h => set_h_pool h (set_classes (h_pool h) (<[i := c]> (bucket_classes (h_pool h))))) ;;; ret (Z.of_nat i)
  | None => ret (-1)
  end.

Definition bucket_unregister_class (class_id : Z) : Heap bool :=
  h <- getM ;;
  u <- validM (bucket_classes (h_pool h) !! Z.to_nat class_id) ;;
  if u =? 0 then ret false
  else
    modM (fun h => set_h_pool h (set_classes (h_pool h) (<[Z.to_nat class_id := 0]> (bucket_classes (h_pool h))))) ;;;
    ret true.

(** The bucket and its container are allocated, or NULL is returned. *)
Definition bucket_new (class_id : Z) : Heap Z :=
  h <- getM ;;
  u <- validM (bucket_classes (h_pool h) !! Z.to_nat class_id) ;;
  match bucket_malloc (dom (h_buckets h)) with
  | None => ret 0
  | Some b =>
      modM (fun h => set_h_buckets h (<[b := {| unit_size := u; objects := c_new |}]> (h_buckets h))) ;;; ret b
  end.

Definition bucket_at (b : Z) : Heap (bucket C) := h <- getM ;; validM (h_buckets h !! b).

(** Run a container operation on the objects of a bucket. *)
Definition in_container {A} (b : Z) (m : M C A) : Heap A :=
  bk <- bucket_at b ;;
  fun h => match m (objects bk) with
           | inl f => inl f
           | inr (a, c) => inr (a, set_h_buckets h (<[b := {| unit_size := unit_size bk; objects := c |}]> (h_buckets h)))
           end.

Definition bucket_delete (b : Z) : Heap unit :=
  in_container b c_delete ;;; modM (fun h => set_h_buckets h (delete b (h_buckets h))).

(** bucket_transfer_objects is a stub that returns NULL. *)
Definition bucket_transfer_objects (b : Z) : Heap Z := ret 0.

Definition bucket_calc_units (b size : Z) : Heap Z :=
  bk <- bucket_at b ;; ret (u32 (u64 (size - 1) / unit_size bk)).

Definition OBJ_KEY (u s : Z) : Z := Z.lor (Z.shiftl u 32) s.

Definition bucket_add_object (b : Z) (obj : bucket_object) : Heap bool :=
  in_container b (c_add (OBJ_KEY (unique_id obj) (obj_size_idx obj)) (unique_id obj)).
End Bucket.
