(* ===== verification/Backend.v ===== *)
(** Backend: src/src/libpmemobj/backend_persistent.c, the layout of a pool on
    persistent memory, its recovery and its check.

    An access to a chunk header through a computed index faults when the header
    is not inside the pool.  The release build is modelled: ASSERT does
    nothing. *)

From S2P Require Import Prelude Mem Util Prog StateM ObjHeap Bucket.

#[local] Open Scope stateM_scope.

(** ** Chunk ids *)

Definition UID_PACK (c z : Z) : Z := Z.lor (u32 (Z.shiftl (u32 c) 16)) z.
Definition UID_CHUNK_IDX (u : Z) : Z := u16 (Z.shiftr (Z.land u 0xFFFF0000) 16).
Definition UID_ZONE_IDX (u : Z) : Z := u16 (Z.land u 0xFFFF).

(** ** Sizes *)

Definition zone_max_size : Z := SIZEOF_ZONE + MAX_CHUNK * CHUNKSIZE.

Fixpoint max_zones_loop (fuel : nat) (rawsize max_zone : Z) : Z :=
  match fuel with
  | O => max_zone
  | S fuel =>
      if ZONE_MIN_SIZE <? rawsize
      then max_zones_loop fuel (rawsize - (if rawsize <? zone_max_size then rawsize else zone_max_size)) (max_zone + 1)
      else max_zone
  end.

(** Every turn but the last takes a whole zone. *)
Definition get_max_zones (rawsize : Z) : Z := max_zones_loop (Z.to_nat (rawsize / zone_max_size + 2)) rawsize 0.

Definition get_zone_size_idx (zone_idx max_zone pool_size : Z) : Z :=
  if zone_idx <? max_zone - 1 then MAX_CHUNK
  else
    let zone_raw_size := u64 (pool_size - zone_idx * SIZEOF_ZONE) in
    let zone_raw_size := u64 (zone_raw_size - (SIZEOF_HDR + SIZEOF_CHUNK_HDR * MAX_CHUNK)) in
    u32 (zone_raw_size / CHUNKSIZE).

(** ** Checks, on a mapped pool *)

Definition verify_header (m : mem) (a : Z) : bool :=
  let h := mread m a SIZEOF_HDR in
  fst (util_checksum h HDR_CHECKSUM false) && bool_decide (take 16 h = POOL_SIGNATURE).

Fixpoint check_zone_loop (fuel : nat) (m : mem) (pool id i zsize : Z) : fault + bool :=
  match fuel with
  | O => inl OutOfFuel
  | S fuel =>
      if i <? zsize then
        let c := chunk_header_of m (pool + chunk_hdr_off id i) in
        if negb (magic c =? CHUNK_HEADER_MAGIC) then inr (i =? 0)
        else if (MAX_CHUNK_TYPE <? type c) || (type c =? CHUNK_TYPE_UNKNOWN) then inr false
        else if zsize <? size_idx c then inr false
        else if size_idx c =? 0 then inr false
        else check_zone_loop fuel m pool id (u32 (i + size_idx c)) zsize
      else inr (i =? zsize)
  end.

Definition check_zone (m : mem) (pool id zsize : Z) : fault + bool :=
  check_zone_loop (S (Z.to_nat zsize)) m pool id 0 zsize.

Definition check_slot_alloc (m : mem) (slot pool_size : Z) : bool :=
  if negb (get32 m (slot + 4) =? 0) || negb (get64 m (slot + 16) =? 0) || negb (get64 m (slot + 24) =? 0) then false
  else negb (pool_size <? get64 m (slot + 8)).
Definition check_slot_realloc (m : mem) (slot pool_size : Z) : bool :=
  if negb (get32 m (slot + 4) =? 0) || negb (get64 m (slot + 24) =? 0) then false
  else if pool_size <? get64 m (slot + 8) then false
  else negb (pool_size <? get64 m (slot + 16)).
Definition check_slot_free (m : mem) (slot pool_size : Z) : bool := check_slot_alloc m slot pool_size.

Definition check_info_slot (m : mem) (pool id pool_size : Z) : bool :=
  let slot := pool + slot_off id in
  let t := get32 m slot in
  if MAX_INFO_SLOT_TYPE <=? t then false
  else if t =? INFO_SLOT_TYPE_UNKNOWN then true
  else if t =? INFO_SLOT_TYPE_ALLOC then check_slot_alloc m slot pool_size
  else if t =? INFO_SLOT_TYPE_REALLOC then check_slot_realloc m slot pool_size
  else check_slot_free m slot pool_size.

(** The loop over the zones: every zone is checked, and one valid header is
    enough. *)
Fixpoint check_zones (m : mem) (pool size max_zone : Z) (ids : list Z) (ok valid_header : bool) : fault + bool :=
  match ids with
  | [] => inr (ok && valid_header)
  | i :: ids =>
      match check_zone m pool i (get_zone_size_idx i max_zone size) with
      | inl f => inl f
      | inr r => check_zones m pool size max_zone ids (ok && r)
                   (if verify_header m (pool + zone_off i) then true else valid_header)
      end
  end.

Definition backend_persistent_consistency_check (m : mem) (pool size : Z) : fault + bool :=
  if pool =? 0 then inr false
  else
    let valid_header := verify_header m pool in
    let ok := forallb (fun i => check_info_slot m pool i size) (seqZ 0 MAX_INFO_SLOT) in
    let max_zone := get_max_zones size in
    check_zones m pool size max_zone (seqZ 0 max_zone) ok valid_header.

Section Backend.
Context {C : Type} `{Container C} `{BucketMalloc}.
Abbreviation Heap := (M (heap C)).

(** ** Headers *)

Section Open.
Context (b : backend_persistent).

Definition copy_header (left right : Z) : Heap unit := pmemcpy left right SIZEOF_HDR.

Fixpoint recover_primary_header (ids : list Z) : Heap bool :=
  match ids with
  | [] => ret false
  | i :: ids =>
      h <- getM ;;
      if verify_header (h_mem h) (b_pool b + zone_off i)
      then copy_header (b_pool b) (b_pool b + zone_off i) ;;; ret true
      else recover_primary_header ids
  end.

Definition zero_info_slots : Heap unit := pmemzero (b_pool b + slot_off 0) (SIZEOF_SLOT * MAX_INFO_SLOT).

Definition fresh_header : backend_pool_header :=
  {| bh_flags := 0; bh_state := POOL_STATE_CLOSED; bh_major := PERSISTENT_BACKEND_MAJOR;
     bh_minor := PERSISTENT_BACKEND_MINOR; bh_size := pool_size b; bh_chunk_size := CHUNKSIZE;
     bh_chunks_per_zone := MAX_CHUNK |}.

Definition write_primary_pool_header : Heap unit :=
  store_persist (b_pool b) (snd (util_checksum (backend_pool_header_bytes fresh_header) HDR_CHECKSUM true)).

Definition write_backup_pool_headers : Heap unit :=
  forM (fun i => copy_header (b_pool b + zone_off i) (b_pool b)) (seqZ 0 (max_zone b)).

Definition write_pool_layout : Heap unit :=
  zero_info_slots ;;; write_primary_pool_header ;;; write_backup_pool_headers.

Definition get_pool_state : Heap Z := load 4 (b_pool b + HDR_STATE).

(** Only the checksum is persisted. *)
Definition set_pool_state (state : Z) : Heap unit :=
  store_plain (b_pool b + HDR_STATE) (le_enc 4 state) ;;;
  hdr <- load_bytes (b_pool b) SIZEOF_HDR ;;
  store_persist (b_pool b + HDR_CHECKSUM) (drop 1016 (snd (util_checksum hdr HDR_CHECKSUM true))) ;;;
  write_backup_pool_headers.

(** ** Chunks *)

(** &pool->zone[z].chunk_header[i], to be accessed *)
Definition chunk_at (z i : Z) : Heap Z :=
  if (0 <=? i) && (i <? MAX_CHUNK) && (0 <=? z) && (chunk_hdr_off z i + SIZEOF_CHUNK_HDR <=? pool_size b)
  then ret (b_pool b + chunk_hdr_off z i) else fail Undefined.

Definition load_chunk (a : Z) : Heap chunk_header := h <- getM ;; ret (chunk_header_of (h_mem h) a).

Definition set_chunk_flag (a flag : Z) : Heap bool :=
  c <- load_chunk a ;;
  if negb (Z.land (flags c) flag =? 0) then ret false
  else store_persist (a + 10) (le_enc 2 (Z.lor (flags c) flag)) ;;; ret true.

Definition clear_chunk_flag (a flag : Z) : Heap bool :=
  c <- load_chunk a ;;
  if Z.land (flags c) flag =? 0 then ret false
  else store_persist (a + 10) (le_enc 2 (Z.land (flags c) (Z.lnot flag))) ;;; ret true.

(** The zone and chunk a data offset is in, and the address of the header. *)
Definition chunk_of_offset (data_offset : Z) : Z * Z :=
  let data_offset := u64 (data_offset - (SIZEOF_HDR + SIZEOF_SLOT * MAX_INFO_SLOT)) in
  let zone_idx := u16 (data_offset / SIZEOF_ZONE) in
  let zone_offset := u64 (data_offset - zone_idx * SIZEOF_ZONE - SIZEOF_HDR - SIZEOF_CHUNK_HDR * MAX_CHUNK) in
  (zone_idx, u16 (zone_offset / CHUNKSIZE)).

Definition get_chunk_by_offset (data_offset : Z) : Heap Z :=
  let '(zone_idx, chunk_idx) := chunk_of_offset data_offset in chunk_at zone_idx chunk_idx.

(** ** Recovery of the info slots *)

Definition recover_slot_unknown (slot : Z) : Heap unit := pmemzero slot SIZEOF_SLOT.

Definition recover_slot_alloc (slot : Z) : Heap unit :=
  destination_addr <- load 8 (slot + 8) ;;
  let p := u64 (destination_addr + b_pool b) in
  v <- load 8 p ;;
  (if negb (v =? 0) then
     c <- get_chunk_by_offset v ;;
     clear_chunk_flag c CHUNK_FLAG_USED ;;;
     store_persist p (le_enc 8 NULL_OFFSET)
   else ret tt) ;;;
  pmemzero slot SIZEOF_SLOT.

Definition recover_slot_realloc (slot : Z) : Heap unit :=
  destination_addr <- load 8 (slot + 8) ;;
  old_alloc <- load 8 (slot + 16) ;;
  let p := u64 (destination_addr + b_pool b) in
  v <- load 8 p ;;
  (if negb (v =? 0) && negb (old_alloc =? 0) && negb (v =? old_alloc) then
     c <- get_chunk_by_offset v ;;
     clear_chunk_flag c CHUNK_FLAG_USED ;;;
     store_persist p (le_enc 8 old_alloc)
   else ret tt) ;;;
  pmemzero slot SIZEOF_SLOT.

Definition recover_slot_free (slot : Z) : Heap unit :=
  free_addr <- load 8 (slot + 8) ;;
  let p := u64 (free_addr + b_pool b) in
  v <- load 8 p ;;
  (if negb (v =? 0) then
     c <- get_chunk_by_offset v ;; set_chunk_flag c CHUNK_FLAG_USED ;;; ret tt
   else ret tt) ;;;
  pmemzero slot SIZEOF_SLOT.

Definition recover_info_slot (slot : Z) : Heap unit :=
  t <- load 4 slot ;;
  data <- load_bytes (slot + 4) INFO_SLOT_DATA_SIZE ;;
  if negb (t =? INFO_SLOT_TYPE_UNKNOWN) || negb (bool_decide (data = replicate 28 x00)) then
    if t =? INFO_SLOT_TYPE_UNKNOWN then recover_slot_unknown slot
    else if t =? INFO_SLOT_TYPE_ALLOC then recover_slot_alloc slot
    else if t =? INFO_SLOT_TYPE_REALLOC then recover_slot_realloc slot
    else if t =? INFO_SLOT_TYPE_FREE then recover_slot_free slot
    else fail Undefined
  else ret tt.

(** ** Opening and closing *)

Definition can_open_pool : Heap bool :=
  h <- getM ;;
  let m := h_mem h in
  ret (if negb (get64 m (b_pool b + HDR_SIZE) =? pool_size b) then false
       else if negb (get64 m (b_pool b + HDR_MAJOR) =? PERSISTENT_BACKEND_MAJOR) then false
       else if negb (get64 m (b_pool b + HDR_CHUNK_SIZE) =? CHUNKSIZE) then false
       else get64 m (b_pool b + HDR_CHUNKS_PER_ZONE) =? MAX_CHUNK).

(** The switch on the state of the pool. *)
Definition enter_pool : Heap bool :=
  state <- get_pool_state ;;
  if state =? POOL_STATE_CLOSED then set_pool_state POOL_STATE_OPEN ;;; ret true
  else if state =? POOL_STATE_OPEN then
    forM (fun i => recover_info_slot (b_pool b + slot_off i)) (seqZ 0 MAX_INFO_SLOT) ;;;
    write_backup_pool_headers ;;;
    ret true
  else ret false.

Definition open_pmem_storage : Heap bool :=
  h <- getM ;;
  pool_valid <- (if verify_header (h_mem h) (b_pool b) then ret true
                 else recover_primary_header (seqZ 0 (max_zone b))) ;;
  if pool_valid : bool then
    ok <- can_open_pool ;;
    if ok : bool then enter_pool else ret false
  else write_pool_layout ;;; enter_pool.

Definition close_pmem_storage : Heap unit := set_pool_state POOL_STATE_CLOSED.
End Open.

(** Malloc of the backend may fail; [pmem] is the answer of pmem_is_pmem. *)
Definition backend_persistent_open (malloc_ok pmem : bool) (ptr size : Z) : Heap (option backend_persistent) :=
  if negb malloc_ok then ret None
  else
    let b := {| b_pool := ptr; pool_size := size; max_zone := get_max_zones size; is_pmem := pmem; zones_exhausted := 0 |} in
    ok <- open_pmem_storage b ;;
    ret (if ok : bool then Some b else None).

Definition backend_persistent_close (b : backend_persistent) : Heap unit := close_pmem_storage b.

(** ** The operations of the backend *)

Section Ops.
Context (b : backend_persistent).

Definition persistent_set_alloc_ptr (ptr value : Z) : Heap unit := store_persist ptr (le_enc 8 value).

Definition write_chunk_header (a size : Z) : Heap unit :=
  store_persist a (chunk_header_bytes
    {| magic := 0; type_specific := 0; type := CHUNK_TYPE_BASE; flags := 0; size_idx := size |}) ;;;
  store_persist a (le_enc 4 CHUNK_HEADER_MAGIC).

Definition set_chunk_size (a new_size : Z) : Heap unit := store_persist (a + 12) (le_enc 4 new_size).

(** CHUNKSIZE * c->size_idx is computed in 32 bits. *)
Definition add_chunk (zone_idx chunk_idx : Z) (c : chunk_header) (data_offset : Z) : Heap unit :=
  let obj := {| real_size := u32 (CHUNKSIZE * size_idx c); data_offset := data_offset;
                obj_size_idx := size_idx c; unique_id := UID_PACK chunk_idx zone_idx |} in
  h <- getM ;;
  bk <- validM (p_buckets (h_pool h) !! Z.to_nat (get_bucket_class_id_by_size (real_size obj))) ;;
  bucket_add_object bk obj ;;; ret tt.

Fixpoint fill_loop (fuel : nat) (idx zone_size_idx i : Z) : Heap unit :=
  match fuel with
  | O => fail OutOfFuel
  | S fuel =>
      if i <? zone_size_idx then
        a <- chunk_at b idx i ;;
        c <- load_chunk a ;;
        (if negb (magic c =? CHUNK_HEADER_MAGIC) then write_chunk_header a zone_size_idx else ret tt) ;;;
        c <- load_chunk a ;;
        (if Z.land (flags c) CHUNK_FLAG_USED =? 0 then add_chunk idx i c (chunk_data_off idx i) else ret tt) ;;;
        fill_loop fuel idx zone_size_idx (u32 (i + size_idx c))
      else ret tt
  end.

Definition set_zones_exhausted (n : Z) : backend_persistent :=
  {| b_pool := b_pool b; pool_size := pool_size b; max_zone := max_zone b; is_pmem := is_pmem b; zones_exhausted := n |}.

Definition persistent_fill_buckets : Heap unit :=
  let idx := zones_exhausted b in
  modM (fun h => set_h_pool h (set_backend (h_pool h) (BACKEND_PERSISTENT (set_zones_exhausted (idx + 1))))) ;;;
  let zone_size_idx := get_zone_size_idx idx (max_zone b) (pool_size b) in
  fill_loop (S (Z.to_nat zone_size_idx)) idx zone_size_idx 0.

Definition persistent_bucket_classes : Heap unit := bucket_register_class CHUNKSIZE ;;; ret tt.

(** Splits the block when it is larger than asked for. *)
Definition persistent_init_bucket_obj (obj : bucket_object) : Heap bucket_object :=
  let chunk_idx := UID_CHUNK_IDX (unique_id obj) in
  let zone_idx := UID_ZONE_IDX (unique_id obj) in
  a <- chunk_at b zone_idx chunk_idx ;;
  c <- load_chunk a ;;
  (if obj_size_idx obj <? size_idx c then
     let nsize := u32 (size_idx c - obj_size_idx obj) in
     let nc_idx := u32 (chunk_idx + obj_size_idx obj) in
     na <- chunk_at b zone_idx nc_idx ;;
     write_chunk_header na nsize ;;;
     set_chunk_size a (obj_size_idx obj) ;;;
     nc <- load_chunk na ;;
     add_chunk zone_idx nc_idx nc (chunk_data_off zone_idx nc_idx)
   else ret tt) ;;;
  c <- load_chunk a ;;
  ret {| real_size := u32 (size_idx c * CHUNKSIZE); data_offset := chunk_data_off zone_idx chunk_idx;
         obj_size_idx := size_idx c; unique_id := unique_id obj |}.

Inductive bucket_obj_state := BUCKET_OBJ_STATE_ALLOCATED | BUCKET_OBJ_STATE_FREE.

Definition persistent_set_bucket_obj_state (obj : bucket_object) (state : bucket_obj_state) : Heap bool :=
  let chunk_idx := UID_CHUNK_IDX (unique_id obj) in
  let zone_idx := UID_ZONE_IDX (unique_id obj) in
  a <- chunk_at b zone_idx chunk_idx ;;
  match state with
  | BUCKET_OBJ_STATE_ALLOCATED =>
      pmemzero (b_pool b + chunk_data_off zone_idx chunk_idx) (real_size obj) ;;;
      set_chunk_flag a CHUNK_FLAG_USED
  | BUCKET_OBJ_STATE_FREE => clear_chunk_flag a CHUNK_FLAG_USED
  end.

(** NULL when there is no allocated object at the offset. *)
Definition persistent_locate_bucket_obj (data_offset : Z) : Heap (option bucket_object) :=
  let '(zone_idx, chunk_idx) := chunk_of_offset data_offset in
  a <- chunk_at b zone_idx chunk_idx ;;
  c <- load_chunk a ;;
  ret (if negb (magic c =? CHUNK_HEADER_MAGIC) then None
       else if Z.land (flags c) CHUNK_FLAG_USED =? 0 then None
       else Some {| real_size := u32 (CHUNKSIZE * size_idx c); data_offset := data_offset;
                    obj_size_idx := size_idx c; unique_id := UID_PACK chunk_idx zone_idx |}).

Definition persistent_get_direct (ptr : Z) : Z := u64 (b_pool b + ptr).

Definition persistent_copy_content (dest src : bucket_object) : Heap unit :=
  pmemcpy (b_pool b + data_offset dest) (b_pool b + data_offset src) (real_size src).

(** ** Guards *)

Inductive guard_type := GUARD_TYPE_MALLOC | GUARD_TYPE_REALLOC | GUARD_TYPE_FREE.

(** The stores to a slot are made durable together, by one persist; the reserved
    word keeps its contents. *)
Definition persistent_set_guard (arena_id : Z) (t : guard_type) (ptr : Z) : Heap unit :=
  let slot := b_pool b + slot_off arena_id in
  reserved <- load_bytes (slot + 4) 4 ;;
  value <- load 8 ptr ;;
  let rptr := le_enc 8 (u64 (ptr - b_pool b)) in
  match t with
  | GUARD_TYPE_MALLOC => store_persist slot (le_enc 4 INFO_SLOT_TYPE_ALLOC ++ reserved ++ rptr)
  | GUARD_TYPE_REALLOC => store_persist slot (le_enc 4 INFO_SLOT_TYPE_REALLOC ++ reserved ++ rptr ++ le_enc 8 value)
  | GUARD_TYPE_FREE => store_persist slot (le_enc 4 INFO_SLOT_TYPE_FREE ++ reserved ++ rptr)
  end.

Definition persistent_clear_guard (arena_id : Z) : Heap unit := pmemzero (b_pool b + slot_off arena_id) SIZEOF_SLOT.
End Ops.
End Backend.
