(* ===== verification/Pmalloc.v ===== *)
(** Pmalloc: src/src/libpmemobj/backend.c, backend_noop.c, the rest of bucket.c,
    arena.c, pool.c and pmalloc.c: the allocator over a backend.

    Each function of struct bucket_backend_operations, arena_backend_operations
    and pool_backend_operations is a case distinction on the backend.  One
    thread runs; its [arena_id] is part of the state. *)

From S2P Require Import Prelude Mem Util Prog StateM ObjHeap Bucket Backend.

#[local] Open Scope stateM_scope.

(** What Malloc of a pool, a lock, an arena answers, and pmem_is_pmem. *)
Record obj_env := { oe_malloc : Z -> bool; oe_is_pmem : bool }.

Definition SIZEOF_MUTEX_T : Z := 40.
Definition SIZEOF_ARENA : Z := 8232.
Definition SIZEOF_PMALLOC_POOL : Z := 12392.
Definition SIZEOF_BACKEND : Z := 88.
Definition MAX_ARENAS : Z := 10.

Section Pmalloc.
Context (e : obj_env) {C : Type} `{Container C} `{BucketMalloc}.
Abbreviation Heap := (M (heap C)).

(** ** backend.c *)

Inductive backend_type := TYPE_NOOP | TYPE_PERSISTENT.

Definition backend_open (t : backend_type) (ptr size : Z) : Heap (option backend) :=
  match t with
  | TYPE_NOOP => ret (if oe_malloc e 32 then Some BACKEND_NOOP else None)
  | TYPE_PERSISTENT =>
      r <- backend_persistent_open (oe_malloc e SIZEOF_BACKEND) (oe_is_pmem e) ptr size ;;
      ret (BACKEND_PERSISTENT <$> r)
  end.

Definition backend_close (b : backend) : Heap unit :=
  match b with BACKEND_NOOP => ret tt | BACKEND_PERSISTENT b => backend_persistent_close b end.

Definition backend_consistency_check (t : backend_type) (m : mem) (ptr size : Z) : fault + bool :=
  match t with TYPE_NOOP => inr true | TYPE_PERSISTENT => backend_persistent_consistency_check m ptr size end.

Definition the_backend : Heap backend := h <- getM ;; ret (p_backend (h_pool h)).

Definition init_bucket_obj (obj : bucket_object) : Heap bucket_object :=
  bk <- the_backend ;; match bk with BACKEND_NOOP => ret obj | BACKEND_PERSISTENT b => persistent_init_bucket_obj b obj end.
Definition set_bucket_obj_state (obj : bucket_object) (s : bucket_obj_state) : Heap bool :=
  bk <- the_backend ;; match bk with BACKEND_NOOP => ret true | BACKEND_PERSISTENT b => persistent_set_bucket_obj_state b obj s end.
Definition set_alloc_ptr (ptr value : Z) : Heap unit :=
  bk <- the_backend ;; match bk with BACKEND_NOOP => ret tt | BACKEND_PERSISTENT b => persistent_set_alloc_ptr ptr value end.
Definition set_guard (arena_id : Z) (t : guard_type) (ptr : Z) : Heap unit :=
  bk <- the_backend ;; match bk with BACKEND_NOOP => ret tt | BACKEND_PERSISTENT b => persistent_set_guard b arena_id t ptr end.
Definition clear_guard (arena_id : Z) : Heap unit :=
  bk <- the_backend ;; match bk with BACKEND_NOOP => ret tt | BACKEND_PERSISTENT b => persistent_clear_guard b arena_id end.
Definition fill_buckets : Heap unit :=
  bk <- the_backend ;; match bk with BACKEND_NOOP => ret tt | BACKEND_PERSISTENT b => persistent_fill_buckets b end.
Definition create_bucket_classes : Heap unit :=
  bk <- the_backend ;; match bk with BACKEND_NOOP => ret tt | BACKEND_PERSISTENT b => persistent_bucket_classes end.
(** NULL for the noop backend. *)
Definition get_direct (ptr : Z) : Heap Z :=
  bk <- the_backend ;; match bk with BACKEND_NOOP => ret 0 | BACKEND_PERSISTENT b => ret (persistent_get_direct b ptr) end.
Definition locate_bucket_obj (data_offset : Z) : Heap (option bucket_object) :=
  bk <- the_backend ;; match bk with BACKEND_NOOP => ret (Some no_object) | BACKEND_PERSISTENT b => persistent_locate_bucket_obj b data_offset end.
Definition copy_content (dest src : bucket_object) : Heap unit :=
  bk <- the_backend ;; match bk with BACKEND_NOOP => ret tt | BACKEND_PERSISTENT b => persistent_copy_content b dest src end.

(** ** bucket.c *)

Definition bucket_object_locate (ptr : Z) : Heap (option bucket_object) := locate_bucket_obj ptr.

(** The object, and whether it has the required size. *)
Definition bucket_get_object (b units : Z) : Heap (option bucket_object * bucket_object) :=
  v <- in_container b (c_get_rm_ge (OBJ_KEY 0 units)) ;;
  let obj := {| real_size := 0; data_offset := 0; obj_size_idx := units; unique_id := u32 v |} in
  if unique_id obj =? u32 (-1) then ret (None, obj)
  else
    obj <- init_bucket_obj obj ;;
    if units <=? obj_size_idx obj then ret (Some obj, obj)
    else bucket_add_object b obj ;;; ret (None, obj).

Definition bucket_mark_allocated (obj : bucket_object) : Heap bool := set_bucket_obj_state obj BUCKET_OBJ_STATE_ALLOCATED.

(** ** arena.c *)

Definition arena_at (i : Z) : Heap arena :=
  h <- getM ;;
  (* p->arenas[-1] and an empty entry are not arenas *)
  if (0 <=? i) && (i <? MAX_ARENAS) then validM (mjoin (arenas (h_pool h) !! Z.to_nat i)) else fail Undefined.

Definition put_arena (i : Z) (a : option arena) : Heap unit :=
  modM (fun h => set_h_pool h (set_arenas (h_pool h) (<[Z.to_nat i := a]> (arenas (h_pool h))))).

Definition arena_new (arena_id : Z) : Heap (option arena) :=
  h <- getM ;;
  if oe_malloc e SIZEOF_ARENA && oe_malloc e SIZEOF_MUTEX_T then
    b0 <- validM (p_buckets (h_pool h) !! 0%nat) ;;
    ret (Some {| associated_threads := 0; a_locked := false; a_id := arena_id;
                 a_buckets := b0 :: replicate 1023 0 |})
  else ret None.

(** bucket 0 belongs to the pool *)
Definition arena_delete (a : arena) : Heap unit :=
  forM (fun b => if b =? 0 then ret tt else bucket_delete b) (tail (a_buckets a)).

Definition set_a_locked (a : arena) (l : bool) : arena :=
  {| associated_threads := associated_threads a; a_locked := l; a_id := a_id a; a_buckets := a_buckets a |}.

Definition arena_guard_up (i ptr : Z) (t : guard_type) : Heap unit :=
  a <- arena_at i ;;
  if a_locked a then fail Blocked
  else put_arena i (Some (set_a_locked a true)) ;;; set_guard (a_id a) t ptr.

(** The mutex is released before the guard is cleared. *)
Definition arena_guard_down (i : Z) : Heap unit :=
  a <- arena_at i ;;
  put_arena i (Some (set_a_locked a false)) ;;; clear_guard (a_id a).

Definition arena_select_bucket (i size : Z) : Heap Z :=
  let class_id := get_bucket_class_id_by_size size in
  a <- arena_at i ;;
  b <- validM (a_buckets a !! Z.to_nat class_id) ;;
  if b =? 0 then
    b <- bucket_new class_id ;;
    put_arena i (Some {| associated_threads := associated_threads a; a_locked := a_locked a; a_id := a_id a;
                         a_buckets := <[Z.to_nat class_id := b]> (a_buckets a) |}) ;;;
    ret b
  else ret b.

(** ** pool.c *)

Definition create_default_buckets : Heap unit :=
  forM (fun i =>
    h <- getM ;;
    u <- validM (bucket_classes (h_pool h) !! Z.to_nat i) ;;
    if u =? 0 then ret tt
    else
      b <- bucket_new i ;;
      modM (fun h => set_h_pool h (set_p_buckets (h_pool h) (<[Z.to_nat i := b]> (p_buckets (h_pool h))))))
    (seqZ 0 MAX_BUCKETS).

Definition new_pool (b : backend) : pmalloc_pool :=
  {| bucket_classes := replicate 1024 0; p_locked := false; arenas := replicate 10 None; p_backend := b;
     p_buckets := replicate 1024 0 |}.

(** The pool is the state's [h_pool]; false stands for NULL. *)
Definition pool_new (ptr size : Z) (t : backend_type) : Heap bool :=
  if negb (oe_malloc e SIZEOF_PMALLOC_POOL) then ret false
  else
    r <- backend_open t ptr size ;;
    match r with
    | None => ret false
    | Some b =>
        if negb (oe_malloc e SIZEOF_MUTEX_T) then backend_close b ;;; ret false
        else
          modM (fun h => set_h_pool h (new_pool b)) ;;;
          create_bucket_classes ;;;
          create_default_buckets ;;;
          fill_buckets ;;;
          ret true
    end.

Definition pool_delete : Heap unit :=
  h <- getM ;;
  forM (fun b => if b =? 0 then ret tt else bucket_delete b) (p_buckets (h_pool h)) ;;;
  forM (fun i => match mjoin (arenas (h_pool h) !! Z.to_nat i) with Some a => arena_delete a | None => ret tt end) (seqZ 0 MAX_ARENAS) ;;;
  backend_close (p_backend (h_pool h)).

(** min_arena_threads starts as ~0, which is -1. *)
Fixpoint select_arena_loop (l : list (option arena)) (i id min_arena_threads : Z) : Z :=
  match l with
  | [] => id
  | None :: _ => i
  | Some a :: l =>
      if associated_threads a <? min_arena_threads
      then select_arena_loop l (i + 1) i (associated_threads a)
      else select_arena_loop l (i + 1) id min_arena_threads
  end.

Definition select_arena_id (p : pmalloc_pool) : Z := select_arena_loop (arenas p) 0 (-1) (Z.lnot 0).

Definition inc_threads (a : arena) : arena :=
  {| associated_threads := associated_threads a + 1; a_locked := a_locked a; a_id := a_id a; a_buckets := a_buckets a |}.

(** The index of the arena, or -1 for NULL. *)
Definition select_thread_arena_slow : Heap Z :=
  h <- getM ;;
  if p_locked (h_pool h) then fail Blocked
  else
    modM (fun h => set_h_pool h (set_p_locked (h_pool h) true)) ;;;
    (if h_arena_id h =? -1 then modM (fun h => set_h_arena_id h (select_arena_id (h_pool h))) else ret tt) ;;;
    h <- getM ;;
    let id := h_arena_id h in
    (* p->arenas[-1] is out of bounds *)
    cur <- (if (0 <=? id) && (id <? MAX_ARENAS) then validM (arenas (h_pool h) !! Z.to_nat id) else fail Undefined) ;;
    a <- (match cur with Some a => ret (Some a) | None => arena_new id end) ;;
    (match a with Some a => put_arena id (Some (inc_threads a)) | None => ret tt end) ;;;
    modM (fun h => set_h_pool h (set_p_locked (h_pool h) false)) ;;;
    ret (match a with Some _ => id | None => -1 end).

Definition pool_select_arena : Heap Z :=
  h <- getM ;;
  if h_arena_id h =? -1 then select_thread_arena_slow
  else match mjoin (arenas (h_pool h) !! Z.to_nat (h_arena_id h)) with
       | None => select_thread_arena_slow
       | Some _ => ret (h_arena_id h)
       end.

Definition pool_recycle_object (obj : bucket_object) : Heap bool :=
  let class_id := get_bucket_class_id_by_size (real_size obj) in
  h <- getM ;;
  b <- validM (p_buckets (h_pool h) !! Z.to_nat class_id) ;;
  b <- (if b =? 0 then
          b <- bucket_new class_id ;;
          modM (fun h => set_h_pool h (set_p_buckets (h_pool h) (<[Z.to_nat class_id := b]> (p_buckets (h_pool h))))) ;;;
          ret b
        else ret b) ;;
  if b =? 0 then ret false
  else
    ok <- set_bucket_obj_state obj BUCKET_OBJ_STATE_FREE ;;
    if negb ok then ret false
    else if negb (unique_id obj =? u32 (-1)) then bucket_add_object b obj
    else ret true.

(** ** pmalloc.c *)

Definition pool_open (ptr size : Z) (noop : bool) : Heap bool :=
  pool_new ptr size (if noop then TYPE_NOOP else TYPE_PERSISTENT).

Definition pool_close : Heap unit := pool_delete.

Definition pool_check (m : mem) (ptr size : Z) (noop : bool) : fault + bool :=
  backend_consistency_check (if noop then TYPE_NOOP else TYPE_PERSISTENT) m ptr size.

(** The object filled in (all zero when nothing was touched). *)
Definition alloc_from_bucket (b ptr size : Z) : Heap bucket_object :=
  units <- bucket_calc_units b size ;;
  r <- bucket_get_object b units ;;
  match r with
  | (None, obj) => ret obj
  | (Some obj, _) =>
      set_alloc_ptr ptr (data_offset obj) ;;;
      bucket_mark_allocated obj ;;;
      ret obj
  end.

Definition pmalloc (ptr size : Z) : Heap unit :=
  i <- pool_select_arena ;;
  if i =? -1 then ret tt
  else
    arena_guard_up i ptr GUARD_TYPE_MALLOC ;;;
    b <- arena_select_bucket i size ;;
    (if b =? 0 then ret tt else alloc_from_bucket b ptr size ;;; ret tt) ;;;
    arena_guard_down i.

Definition pfree (ptr : Z) : Heap unit :=
  v <- load 8 ptr ;;
  if v =? NULL_OFFSET then ret tt
  else
    i <- pool_select_arena ;;
    if i =? -1 then ret tt
    else
      r <- bucket_object_locate v ;;
      match r with
      | None => ret tt
      | Some obj =>
          arena_guard_up i ptr GUARD_TYPE_FREE ;;;
          ok <- pool_recycle_object obj ;;
          (if ok : bool then set_alloc_ptr ptr NULL_OFFSET else ret tt) ;;;
          arena_guard_down i
      end.

Definition prealloc (ptr size : Z) : Heap unit :=
  if size =? 0 then pfree ptr
  else
    v <- load 8 ptr ;;
    if v =? NULL_OFFSET then pmalloc ptr size
    else
      r <- bucket_object_locate v ;;
      let obj := match r with Some obj => obj | None => no_object end in
      if size <=? real_size obj then ret tt
      else
        i <- pool_select_arena ;;
        if i =? -1 then ret tt
        else
          arena_guard_up i ptr GUARD_TYPE_REALLOC ;;;
          b <- arena_select_bucket i size ;;
          (if b =? 0 then ret tt
           else
             new_obj <- alloc_from_bucket b ptr size ;;
             if obj_size_idx new_obj =? 0 then ret tt
             else
               copy_content new_obj obj ;;;
               pool_recycle_object obj ;;;
               ret tt) ;;;
          arena_guard_down i.

Definition pdirect (ptr : Z) : Heap Z := get_direct ptr.
End Pmalloc.
