(* ===== verification/BackendSpec.v ===== *)
(** BackendSpec: zones of chunks.

    The chunks of a zone are a list of sizes and used flags; [zone_at] says that
    the headers in memory are those of the list and tile the zone.  The check of
    a zone accepts exactly the tiled zones and the unused ones, and each access
    of backend_persistent.c to a header or an info slot is described as the
    durable writes it makes. *)

From S2P Require Import Prelude Mem Util Prog StateM ObjHeap Bucket Backend.

#[local] Open Scope stateM_scope.

(** A chunk: its number of units, and whether it is in use. *)
Definition chunk : Type := Z * bool.

Fixpoint total (l : list chunk) : Z := match l with [] => 0 | c :: l => c.1 + total l end.

Section Zone.
Context (pool z : Z).

Definition hdr (i : Z) : Z := pool + chunk_hdr_off z i.

Definition is_chunk (m : mem) (i : Z) (c : chunk) : Prop :=
  let h := chunk_header_of m (hdr i) in
  magic h = CHUNK_HEADER_MAGIC /\ CHUNK_TYPE_BASE <= type h <= MAX_CHUNK_TYPE /\ size_idx h = c.1 /\
  Z.land (flags h) CHUNK_FLAG_USED = Z.b2z c.2.

(** The chunks from index [i] to the end [n] of the zone. *)
Fixpoint zone_at (m : mem) (i : Z) (l : list chunk) (n : Z) : Prop :=
  match l with
  | [] => i = n
  | c :: l => 0 < c.1 /\ is_chunk m i c /\ zone_at m (i + c.1) l n
  end.

Lemma hdr_add i k : hdr (i + k) = hdr i + 16 * k.
Proof. unfold hdr, chunk_hdr_off, SIZEOF_CHUNK_HDR. lia. Qed.

Lemma total_app l1 l2 : total (l1 ++ l2) = total l1 + total l2.
Proof. induction l1 as [|c l1 IH]; cbn; [done|]. rewrite IH. lia. Qed.

Lemma zone_at_app m l1 l2 n : forall i,
  zone_at m i (l1 ++ l2) n <-> zone_at m i l1 (i + total l1) /\ zone_at m (i + total l1) l2 n.
Proof.
  induction l1 as [|c l1 IH]; intros i; cbn.
  - rewrite Z.add_0_r. tauto.
  - rewrite IH. rewrite Z.add_assoc. tauto.
Qed.

Lemma zone_at_total m l n : forall i, zone_at m i l n -> n = i + total l /\ 0 <= total l.
Proof.
  induction l as [|c l IH]; intros i; cbn; [intros ->; lia|].
  intros (Hc & _ & Hl). apply IH in Hl as [-> ?]. lia.
Qed.

Lemma is_chunk_agree m m' i c : agree m' m (hdr i) 16 -> is_chunk m i c -> is_chunk m' i c.
Proof.
  intros Ha. unfold is_chunk, chunk_header_of. cbn. fold get32.
  rewrite !(get_le_agree _ m' m) by (eapply agree_sub; [exact Ha|lia|lia]). done.
Qed.

Lemma zone_at_agree m m' l n : forall i,
  agree m' m (hdr i) (16 * (n - i)) -> zone_at m i l n -> zone_at m' i l n.
Proof.
  induction l as [|c l IH]; intros i Ha; cbn; [done|].
  intros (Hc & Hi & Hl). destruct (zone_at_total _ _ _ _ Hl) as [E ?].
  split_and!; [done|..].
  - eapply is_chunk_agree; [|done]. eapply agree_sub; [exact Ha|lia|lia].
  - apply IH; [|done]. rewrite hdr_add. eapply agree_sub; [exact Ha|lia|lia].
Qed.

(** Replace one chunk by chunks that cover the same units; only the headers
    before and after it must stay. *)
Lemma zone_at_splice m m' l1 c l2 l n (i := total l1) :
  zone_at m 0 (l1 ++ c :: l2) n ->
  agree m' m (hdr 0) (16 * i) -> agree m' m (hdr (i + c.1)) (16 * (n - (i + c.1))) ->
  zone_at m' i l (i + c.1) -> zone_at m' 0 (l1 ++ l ++ l2) n.
Proof.
  intros [H1 H2]%zone_at_app Ha Hb Hl. cbn [zone_at] in H2. destruct H2 as (Hc & _ & H2).
  rewrite Z.add_0_l in *. fold i in H1, H2. apply zone_at_app. rewrite Z.add_0_l. fold i. split.
  - eapply zone_at_agree; [|done]. by rewrite Z.sub_0_r.
  - apply zone_at_app. destruct (zone_at_total _ _ _ _ Hl) as [<- _]. split; [done|]. by eapply zone_at_agree.
Qed.

Lemma zone_at_mid m l1 c l2 n :
  zone_at m 0 (l1 ++ c :: l2) n ->
  is_chunk m (total l1) c /\ 0 <= total l1 /\ 0 < c.1 /\ total l1 + c.1 <= n.
Proof.
  intros [H1 H2]%zone_at_app. cbn [zone_at] in H2. destruct H2 as (Hc & Hi & H2).
  apply zone_at_total in H1, H2. rewrite Z.add_0_l in *. split_and!; [done|lia..].
Qed.

(** ** The check of a zone *)

(** The flags decide the chunk. *)
Lemma land_used f : Z.land f CHUNK_FLAG_USED = Z.b2z (Z.odd f).
Proof.
  unfold CHUNK_FLAG_USED. change 1 with (Z.ones 1). rewrite Z.land_ones by lia. change (2 ^ 1) with 2.
  rewrite Zmod_odd. by destruct (Z.odd f).
Qed.

Lemma chunk_header_range m a :
  let c := chunk_header_of m a in
  0 <= magic c < 2 ^ 32 /\ 0 <= type c < 2 ^ 16 /\ 0 <= flags c < 2 ^ 16 /\ 0 <= size_idx c < 2 ^ 32.
Proof. cbn. split_and!; apply (get_le_range 4) || apply (get_le_range 2). Qed.

Lemma is_chunk_of m i : 
  let h := chunk_header_of m (hdr i) in
  magic h = CHUNK_HEADER_MAGIC -> CHUNK_TYPE_BASE <= type h <= MAX_CHUNK_TYPE ->
  is_chunk m i (size_idx h, Z.odd (flags h)).
Proof. intros h Hm Ht. unfold is_chunk. by rewrite land_used. Qed.

Definition unused (m : mem) : Prop := magic (chunk_header_of m (hdr 0)) <> CHUNK_HEADER_MAGIC.

Lemma check_zone_loop_spec (m : mem) n fuel : forall i,
  0 <= i < 2 ^ 31 + n -> n < 2 ^ 31 -> Z.max 0 (n - i) < Z.of_nat fuel ->
  exists r, check_zone_loop fuel m pool z i n = inr r /\
    (r = true <-> (exists l, zone_at m i l n) \/ i = 0 /\ 0 < n /\ unused m).
Proof.
  induction fuel as [|fuel IH]; intros i Hi Hn Hf; [lia|]. cbn [check_zone_loop]. fold (hdr i).
  set (h := chunk_header_of m (hdr i)). pose proof (chunk_header_range m (hdr i)) as Hr. cbn zeta in Hr. fold h in Hr.
  assert (forall c l, zone_at m i (c :: l) n -> magic h = CHUNK_HEADER_MAGIC /\ CHUNK_TYPE_BASE <= type h <= MAX_CHUNK_TYPE /\
    0 < size_idx h /\ size_idx h <= n - i /\ zone_at m (i + size_idx h) l n) as Hinv.
  { intros c l (Hc & (Hm & Ht & Hs & _) & Hl). destruct (zone_at_total _ _ _ _ Hl). fold h in Hm, Ht, Hs. rewrite Hs.
    split_and!; try done; lia. }
  destruct (Z.ltb_spec i n) as [Hin|Hin].
  2: { exists (i =? n). split; [done|]. rewrite Z.eqb_eq. split; [intros ->; left; by exists []|].
       intros [[[|c l] Hl]|(-> & ? & _)]; [done| |lia]. apply Hinv in Hl. lia. }
  destruct (Z.eqb_spec (magic h) CHUNK_HEADER_MAGIC) as [Hm|Hm]; cbn [negb].
  2: { exists (i =? 0). split; [done|]. rewrite Z.eqb_eq. split.
       - intros ->. right. split_and!; [done|lia|done].
       - intros [[[|c l] Hl]|(-> & _)]; [cbn in Hl; lia|apply Hinv in Hl; tauto|done]. }
  assert (forall P : Prop, ~ P -> exists r, (inr false : fault + bool) = inr r /\ (r = true <-> P)) as Hno.
  { intros P HP. by exists false. }
  assert (~ (i = 0 /\ 0 < n /\ unused m)) as Hused by (intros (-> & _ & Hu); by apply Hu).
  assert ((exists l, zone_at m i l n) -> exists l, zone_at m i l n /\ l <> []) as Hne.
  { intros [[|c l] Hl]; [cbn in Hl; lia|]. by exists (c :: l). }
  destruct (_ || _) eqn:Et; [|apply orb_false_iff in Et as [Et1 Et2]; bools; destruct (Z.ltb_spec n (size_idx h)) as [Hs|Hs];
    [|destruct (Z.eqb_spec (size_idx h) 0) as [Hz|Hz]]].
  - apply Hno. intros [Hl|Hu]; [|done]. destruct (Hne Hl) as ([|c l] & Hl' & ?); [done|]. apply Hinv in Hl' as (_ & Ht & _).
    apply orb_true_iff in Et as [E|E]; [apply Z.ltb_lt in E|apply Z.eqb_eq in E]; unfold CHUNK_TYPE_BASE, CHUNK_TYPE_UNKNOWN in *; lia.
  - apply Hno. intros [Hl|Hu]; [|done]. destruct (Hne Hl) as ([|c l] & Hl' & ?); [done|]. apply Hinv in Hl'. lia.
  - apply Hno. intros [Hl|Hu]; [|done]. destruct (Hne Hl) as ([|c l] & Hl' & ?); [done|]. apply Hinv in Hl'. lia.
  - assert (u32 (i + size_idx h) = i + size_idx h) as E by (apply u32_id; lia). rewrite E.
    destruct (IH (i + size_idx h)) as (r & -> & Hiff); [lia..|]. exists r. split; [done|]. rewrite Hiff. split.
    + intros [(l & Hl)|(? & _)]; [|lia]. left. exists ((size_idx h, Z.odd (flags h)) :: l). cbn [zone_at fst]. split_and!; [lia| |done].
      apply is_chunk_of; [done|]. unfold CHUNK_TYPE_UNKNOWN, CHUNK_TYPE_BASE in *. fold h. lia.
    + intros [Hl|Hu]; [|done]. left. destruct (Hne Hl) as ([|c l] & Hl' & ?); [done|]. exists l. by apply Hinv in Hl' as (_ & _ & _ & _ & Hl').
Qed.

End Zone.

(** ** Headers in memory *)

Lemma get_le_mwrite_sub k m off bs (o : nat) a :
  a = off + Z.of_nat o -> (o + k <= length bs)%nat -> get_le k (mwrite m off bs) a = le_at bs o k.
Proof. intros -> H. unfold get_le. rewrite mread_mwrite_sub by lia. by rewrite Nat2Z.id. Qed.

Section Headers.
Context (pool z : Z).
Abbreviation hdr := (hdr pool z).
Abbreviation is_chunk := (is_chunk pool z).

Definition with_flags (m : mem) (i f : Z) : mem := mwrite m (hdr i + 10) (le_enc 2 f).
Definition with_size (m : mem) (i s : Z) : mem := mwrite m (hdr i + 12) (le_enc 4 s).
Definition new_header (s : Z) : list byte :=
  chunk_header_bytes {| magic := 0; type_specific := 0; type := CHUNK_TYPE_BASE; flags := 0; size_idx := s |}.
Definition with_header (m : mem) (i s : Z) : mem :=
  mwrite (mwrite m (hdr i) (new_header s)) (hdr i) (le_enc 4 CHUNK_HEADER_MAGIC).

Ltac fields :=
  unfold BackendSpec.is_chunk, chunk_header_of; cbn [magic type flags size_idx fst snd];
  repeat match goal with
  | |- context [get_le ?k (mwrite ?m ?o ?b) ?a] => rewrite (get_le_mwrite_out k m o b a) by len
  end.

Lemma is_chunk_flags m i c f u :
  0 <= f < 2 ^ 16 -> Z.land f CHUNK_FLAG_USED = Z.b2z u -> is_chunk m i c -> is_chunk (with_flags m i f) i (c.1, u).
Proof.
  intros Hf Hu. unfold with_flags. fields. rewrite get_le_mwrite_eq, Z.mod_small by done. intros (? & ? & ? & _). done.
Qed.

Lemma is_chunk_size m i c s :
  0 <= s < 2 ^ 32 -> is_chunk m i c -> is_chunk (with_size m i s) i (s, c.2).
Proof.
  intros Hs. unfold with_size. fields. rewrite get_le_mwrite_eq, Z.mod_small by done. intros (? & ? & _ & ?). done.
Qed.

Lemma length_new_header s : length (new_header s) = 16%nat.
Proof. unfold new_header, chunk_header_bytes. len. Qed.
#[local] Hint Rewrite length_new_header : lens.

Lemma is_chunk_new m i s : 0 <= s < 2 ^ 32 -> is_chunk (with_header m i s) i (s, false).
Proof.
  intros Hs. unfold with_header. fields. rewrite get_le_mwrite_eq.
  rewrite (get_le_mwrite_sub 2 m (hdr i) _ 8), (get_le_mwrite_sub 2 m (hdr i) _ 10), (get_le_mwrite_sub 4 m (hdr i) _ 12) by len.
  unfold new_header, chunk_header_bytes. cbn [magic type_specific type flags size_idx]. field.
  rewrite !le_at_enc by (len). split_and!; try done. by rewrite Z.mod_small.
Qed.
End Headers.
#[export] Hint Rewrite length_new_header : lens.

(** ** The durable writes of the backend *)

Definition of_event (ev : event) : heap_event :=
  match ev with EvWrite off bs => HWrite off bs | EvZero off n => HZero off n end.

Section Ops.
Context {C : Type} `{Container C} `{BucketMalloc}.
Implicit Type h : heap C.

Definition put h (ev : event) : heap C := set_h_mem h (apply_event (h_mem h) ev) (of_event ev).
Fixpoint puts h (evs : list event) : heap C := match evs with [] => h | ev :: evs => puts (put h ev) evs end.

Lemma h_mem_puts evs : forall h, h_mem (puts h evs) = apply_events (h_mem h) evs.
Proof. induction evs as [|ev evs IH]; intros h; [done|]. cbn. by rewrite IH. Qed.

Lemma h_log_puts evs : forall h, h_log (puts h evs) = h_log h ++ (of_event <$> evs).
Proof.
  induction evs as [|ev evs IH]; intros h; cbn; [by rewrite app_nil_r|]. rewrite IH. cbn. by rewrite <- app_assoc.
Qed.

Lemma puts_keeps evs : forall h,
  h_buckets (puts h evs) = h_buckets h /\ h_pool (puts h evs) = h_pool h /\ h_arena_id (puts h evs) = h_arena_id h.
Proof. induction evs as [|ev evs IH]; intros h; [done|]. cbn. destruct (IH (put h ev)) as (-> & -> & ->). done. Qed.

Context (b : backend_persistent).
Abbreviation hdr := (hdr (b_pool b)).

Lemma chunk_at_ok z i h :
  0 <= i < MAX_CHUNK -> 0 <= z -> chunk_hdr_off z i + 16 <= pool_size b -> chunk_at b z i h = inr (hdr z i, h).
Proof. intros. unfold chunk_at, SIZEOF_CHUNK_HDR. by repeat ztrue. Qed.

Lemma load_chunk_eq a h : load_chunk a h = inr (chunk_header_of (h_mem h) a, h).
Proof. done. Qed.

Lemma set_flag_eq z i c h : is_chunk (b_pool b) z (h_mem h) i c ->
  let f := flags (chunk_header_of (h_mem h) (hdr z i)) in
  set_chunk_flag (hdr z i) CHUNK_FLAG_USED h =
    if c.2 then inr (false, h)
    else inr (true, put h (EvWrite (hdr z i + 10) (le_enc 2 (Z.lor f CHUNK_FLAG_USED)))).
Proof.
  intros (_ & _ & _ & Hu) f. unfold set_chunk_flag. stepM (load_chunk_eq (hdr z i) h). unfold f. rewrite Hu. by destruct c.2.
Qed.

Lemma clear_flag_eq z i c h : is_chunk (b_pool b) z (h_mem h) i c ->
  let f := flags (chunk_header_of (h_mem h) (hdr z i)) in
  clear_chunk_flag (hdr z i) CHUNK_FLAG_USED h =
    if c.2 then inr (true, put h (EvWrite (hdr z i + 10) (le_enc 2 (Z.land f (Z.lnot CHUNK_FLAG_USED)))))
    else inr (false, h).
Proof.
  intros (_ & _ & _ & Hu) f. unfold clear_chunk_flag. stepM (load_chunk_eq (hdr z i) h). unfold f. rewrite Hu. by destruct c.2.
Qed.

Lemma write_chunk_header_eq a s h :
  write_chunk_header a s h = inr (tt, puts h [EvWrite a (new_header s); EvWrite a (le_enc 4 CHUNK_HEADER_MAGIC)]).
Proof. done. Qed.

(** The zone and the chunk of the offset of a chunk's data. *)
Lemma chunk_of_data_off i : 0 <= i < MAX_CHUNK -> chunk_of_offset (chunk_data_off 0 i) = (0, i).
Proof.
  intros Hi. unfold MAX_CHUNK in Hi. unfold chunk_of_offset, chunk_data_off, zone_off.
  assert (SIZEOF_ZONE = 17180656624) as HZ by (vm_compute; reflexivity).
  change SIZEOF_HDR with 1024. change (SIZEOF_SLOT * MAX_INFO_SLOT) with 32768. change (SIZEOF_CHUNK_HDR * MAX_CHUNK) with 1048560.
  change CHUNKSIZE with 262144. rewrite HZ.
  replace (u64 _) with (1049584 + 262144 * i) by (rewrite u64_id; lia).
  replace ((1049584 + 262144 * i) / 17180656624) with 0 by (symmetry; apply Z.div_small; lia).
  change (u16 0) with 0. replace (u64 _) with (i * 262144) by (rewrite u64_id; lia).
  rewrite Z.div_mul by done. unfold u16. rewrite Z.mod_small by lia. done.
Qed.

(** ** Ids *)

Lemma UID_fields i : 0 <= i < MAX_CHUNK ->
  UID_PACK i 0 = i * 2 ^ 16 /\ UID_CHUNK_IDX (UID_PACK i 0) = i /\ UID_ZONE_IDX (UID_PACK i 0) = 0.
Proof.
  unfold MAX_CHUNK. intros Hi. assert (UID_PACK i 0 = i * 2 ^ 16) as E.
  { unfold UID_PACK. rewrite Z.lor_0_r, (u32_id i), Z.shiftl_mul_pow2, u32_id by lia. done. }
  rewrite E. split_and!; [done|..]; unfold UID_CHUNK_IDX, UID_ZONE_IDX, u16.
  - change 0xFFFF0000 with (Z.shiftl (Z.ones 16) 16). rewrite <- Z.shiftl_mul_pow2 by lia.
    rewrite <- Z.shiftl_land, Z.shiftr_shiftl_l, Z.shiftl_0_r by lia. rewrite Z.land_ones, Z.mod_mod by lia. apply Z.mod_small. lia.
  - change 0xFFFF with (Z.ones 16). rewrite Z.land_ones, Z.mod_mod by lia. by rewrite Z.mod_mul.
Qed.

Lemma OBJ_KEY_eq u s : 0 <= s < 2 ^ 32 -> OBJ_KEY u s = u * 2 ^ 32 + s.
Proof.
  intros Hs. unfold OBJ_KEY. rewrite <- Z.shiftl_mul_pow2 by lia.
  rewrite Z.add_nocarry_lxor, Z.lxor_lor; [done|..]; apply Z.bits_inj'; intros k Hk; rewrite Z.land_spec, Z.bits_0;
    (destruct (Z.ltb_spec k 32); [rewrite Z.shiftl_spec_low by lia; done|]);
    rewrite <- (Z.mod_small s (2 ^ 32)), Z.mod_pow2_bits_high, andb_false_r by lia; done.
Qed.
End Ops.
