(* ===== verification/HeapLogic.v ===== *)
(** HeapLogic: a crash logic for the allocator.

    [wpc m Q R h]: the routine [m] runs from the heap [h] without a fault, what
    it returns satisfies [Q], the stores it makes are all made durable at once,
    and a power failure during any of them leaves a memory in [R].  [R] is the
    same for a routine and its parts, so the rule for sequences is that of a
    weakest precondition. *)

From S2P Require Import Prelude Mem Util Prog StateM Persist Pmem Durable ObjHeap Bucket Backend BackendSpec.

#[local] Open Scope stateM_scope.

(** Every memory a power failure can leave during one of the writes is in [R]. *)
Fixpoint safe (R : mem -> Prop) (m : mem) (evs : list event) : Prop :=
  match evs with
  | [] => True
  | ev :: evs => (forall m', torn_event m ev m' -> R m') /\ safe R (apply_event m ev) evs
  end.

Lemma safe_app R e1 e2 : forall m, safe R m e1 -> safe R (apply_events m e1) e2 -> safe R m (e1 ++ e2).
Proof. induction e1 as [|ev e1 IH]; intros m; cbn; [done|]. intros [H1 H2] H3. split; [done|]. by apply IH. Qed.

Lemma safe_crashed R evs : forall m m', safe R m evs -> crashed m evs m' -> m' ≡ m \/ R m'.
Proof.
  induction evs as [|ev evs IH]; intros m m' Hs Hc; inversion Hc; subst; [by left|..]; destruct Hs as [Hs1 Hs2]; right.
  - by apply Hs1.
  - destruct (IH _ _ Hs2 H3) as [E|]; [|done]. apply Hs1. destruct ev as [off bs|off k]; cbn in *.
    + intros w. right. intros a _. apply E.
    + intros w. right. intros a _. rewrite (E a). apply mzero_write.
Qed.

Section Wpc.
Context {C : Type}.
Implicit Type h : heap C.
Abbreviation Heap := (M (heap C)).

Definition wpc {A} (m : Heap A) (Q : A -> heap C -> Prop) (R : mem -> Prop) h : Prop :=
  exists a h' evs, m h = inr (a, h') /\ h_mem h' = apply_events (h_mem h) evs /\
    h_log h' = h_log h ++ (of_event <$> evs) /\ safe R (h_mem h) evs /\ Q a h'.

Lemma wpc_bind {A B} (m : Heap A) (k : A -> Heap B) Q R h :
  wpc m (fun a => wpc (k a) Q R) R h -> wpc (bindM m k) Q R h.
Proof.
  intros (a & h1 & e1 & E1 & Hm1 & Hl1 & Hs1 & (a2 & h2 & e2 & E2 & Hm2 & Hl2 & Hs2 & HQ)).
  exists a2, h2, (e1 ++ e2). rewrite (bindM_inr _ _ _ _ _ E1). split_and!; [done|..|done].
  - unfold apply_events. rewrite fold_left_app. fold (apply_events (h_mem h) e1). by rewrite Hm2, Hm1.
  - by rewrite Hl2, Hl1, fmap_app, app_assoc.
  - apply safe_app; [done|]. by rewrite <- Hm1.
Qed.

Lemma wpc_assoc {A B D} (m : Heap A) (k : A -> Heap B) (j : B -> Heap D) Q R h :
  wpc (bindM (bindM m k) j) Q R h -> wpc (bindM m (fun a => bindM (k a) j)) Q R h.
Proof. unfold wpc. by rewrite bindM_assoc. Qed.

Lemma wpc_mono {A} (m : Heap A) (P Q : A -> heap C -> Prop) R h :
  wpc m P R h -> (forall a h', P a h' -> Q a h') -> wpc m Q R h.
Proof. intros (a & h1 & e1 & ?) HPQ. exists a, h1, e1. naive_solver. Qed.

Lemma wpc_seq {A B} (m : Heap A) (k : A -> Heap B) (P : A -> heap C -> Prop) Q R h :
  wpc m P R h -> (forall a h', P a h' -> wpc (k a) Q R h') -> wpc (bindM m k) Q R h.
Proof. intros Hm Hk. apply wpc_bind. by eapply wpc_mono. Qed.

(** A routine that stores nothing. *)
Lemma wpc_pure {A} (m : Heap A) (Q : A -> heap C -> Prop) R h a h' :
  m h = inr (a, h') -> h_mem h' = h_mem h -> h_log h' = h_log h -> Q a h' -> wpc m Q R h.
Proof. intros E Hm Hl HQ. exists a, h', []. split_and!; try done. cbn. by rewrite app_nil_r. Qed.

Lemma wpc_step {A} (m : Heap A) {B} (k : A -> Heap B) Q R h a :
  m h = inr (a, h) -> wpc (k a) Q R h -> wpc (bindM m k) Q R h.
Proof. intros E Hk. apply wpc_bind. by eapply wpc_pure. Qed.

Lemma wpc_ret {A} (a : A) (Q : A -> heap C -> Prop) R h : Q a h -> wpc (ret a) Q R h.
Proof. intros HQ. by eapply wpc_pure. Qed.

Lemma wpc_store a bs (Q : unit -> heap C -> Prop) R h :
  (forall m', torn (h_mem h) a bs m' -> R m') -> Q tt (put h (EvWrite a bs)) -> wpc (store_persist a bs) Q R h.
Proof. intros HR HQ. by exists tt, (put h (EvWrite a bs)), [EvWrite a bs]. Qed.

Lemma wpc_zero a n (Q : unit -> heap C -> Prop) R h :
  (forall m', torn (h_mem h) a (replicate (Z.to_nat n) x00) m' -> R m') -> Q tt (put h (EvZero a n)) -> wpc (pmemzero a n) Q R h.
Proof. intros HR HQ. by exists tt, (put h (EvZero a n)), [EvZero a n]. Qed.

Lemma wpc_forM (I : list Z -> heap C -> Prop) (f : Z -> Heap unit) l (Q : unit -> heap C -> Prop) R h :
  I l h -> (forall i l' h', i ∈ l -> I (i :: l') h' -> wpc (f i) (fun _ => I l') R h') ->
  (forall h', I [] h' -> Q tt h') -> wpc (forM f l) Q R h.
Proof.
  intros HI Hf HQ.
  assert (forall l', (forall i, i ∈ l' -> i ∈ l) -> forall h', I l' h' -> wpc (forM f l') Q R h') as HL; [|by apply HL].
  induction l' as [|i l' IH]; intros Hin h' HI'; cbn [forM]; [by apply wpc_ret, HQ|].
  eapply wpc_seq; [apply Hf; [apply Hin, elem_of_cons; by left|done]|].
  intros u h1 H1. apply IH; [|done]. intros j Hj. apply Hin, elem_of_cons. by right.
Qed.

Lemma wpc_wp {A} (m : Heap A) Q R h : wpc m Q R h -> wp m Q h.
Proof. intros (a & h' & evs & E & _ & _ & _ & HQ). by eapply wp_intro. Qed.

Lemma wpc_elim {A} (m : Heap A) Q R h : wpc m Q R h -> exists a h' evs, m h = inr (a, h') /\
  h_log h' = h_log h ++ (of_event <$> evs) /\ Q a h' /\ forall m', crashed (h_mem h) evs m' -> m' ≡ h_mem h \/ R m'.
Proof.
  intros (a & h' & evs & E & _ & Hl & Hs & HQ). exists a, h', evs. split_and!; try done. intros m'. by apply safe_crashed.
Qed.
End Wpc.
