(* ===== verification/HeapSpec.v ===== *)
(** HeapSpec: the state of the allocator and what its parts do to it.

    [st m sl l v] is the persistent half: the chunks of the zone are [l], the
    info slot of the running arena holds [sl], the other slots are empty, the
    location the caller gave holds [v].  [vol h bk fl lk] is the volatile half:
    the bucket [bk] holds the free chunks [fl], and [lk] is the arena that is
    locked.  One zone is used: the code fills the buckets once, from the first. *)

From S2P Require Import Prelude Mem Util Prog StateM Durable ObjHeap Bucket Backend Pmalloc BackendSpec HeapLogic BstSpec Bst.

#[local] Open Scope stateM_scope.

Definition zeros (n : nat) : list byte := replicate n x00.

(** The units of the first zone of a pool with one zone. *)
Definition nunits (b : backend_persistent) : Z := get_zone_size_idx 0 1 (pool_size b).

(** A pool of one zone, mapped at a multiple of 8. *)
Record pool_ok (b : backend_persistent) : Prop := {
  po_addr : 0 < b_pool b;
  po_align : b_pool b mod 8 = 0;
  po_zones : max_zone b = 1;
  po_size : ZONE_MIN_SIZE < pool_size b < 1049584 + 65536 * CHUNKSIZE;
  po_end : b_pool b + chunk_data_off 0 MAX_CHUNK < 2 ^ 64;
}.

(** What opening a pool tests of its header. *)
Definition header_ok (b : backend_persistent) (m : mem) : Prop :=
  verify_header m (b_pool b) = true /\ get32 m (b_pool b + HDR_STATE) = POOL_STATE_OPEN /\
  get64 m (b_pool b + HDR_SIZE) = pool_size b /\ get64 m (b_pool b + HDR_MAJOR) = PERSISTENT_BACKEND_MAJOR /\
  get64 m (b_pool b + HDR_CHUNK_SIZE) = CHUNKSIZE /\ get64 m (b_pool b + HDR_CHUNKS_PER_ZONE) = MAX_CHUNK.

(** The entry of a bucket for the free chunk of [s] units at index [i]. *)
Definition entry (i s : Z) : Z * Z := (OBJ_KEY (UID_PACK i 0) s, UID_PACK i 0).

Fixpoint free_entries (i : Z) (l : list chunk) : list (Z * Z) :=
  match l with
  | [] => []
  | (s, u) :: l => (if u : bool then [] else [entry i s]) ++ free_entries (i + s) l
  end.

Lemma free_entries_app l1 l2 : forall i, free_entries i (l1 ++ l2) = free_entries i l1 ++ free_entries (i + total l1) l2.
Proof.
  induction l1 as [|[s u] l1 IH]; intros i; cbn [app free_entries total fst]; [by rewrite Z.add_0_r|].
  by rewrite IH, <- app_assoc, Z.add_assoc.
Qed.

Lemma free_entries_in e l : forall i, e ∈ free_entries i l ->
  exists l1 s l2, l = l1 ++ (s, false) :: l2 /\ e = entry (i + total l1) s.
Proof.
  induction l as [|[s u] l IH]; intros i; cbn [free_entries]; [intros E; by apply elem_of_nil in E|].
  rewrite elem_of_app. intros [He|He].
  - destruct u; [by apply elem_of_nil in He|]. apply list_elem_of_singleton in He as ->. exists [], s, l. cbn. by rewrite Z.add_0_r.
  - apply IH in He as (l1 & s' & l2 & -> & ->). exists ((s, u) :: l1), s', l2. cbn. by rewrite Z.add_assoc.
Qed.

(** Where the data of a chunk is. *)
Definition data_addr (b : backend_persistent) (i : Z) : Z := b_pool b + chunk_data_off 0 i.

Lemma data_addr_add b i k : data_addr b (i + k) = data_addr b i + CHUNKSIZE * k.
Proof. unfold data_addr, chunk_data_off. lia. Qed.

Definition in_free (b : backend_persistent) (l : list chunk) (a : Z) : Prop :=
  exists l1 s l2, l = l1 ++ (s, false) :: l2 /\ data_addr b (total l1) <= a < data_addr b (total l1 + s).

(** The addresses the allocator does not own: outside its metadata and the free
    chunks. *)
Definition foreign (b : backend_persistent) (l : list chunk) (a : Z) : Prop :=
  ~ (b_pool b <= a < data_addr b 0) /\ ~ in_free b l a.

(** The eight bytes a pointer to an allocation lives in. *)
Record ptr_ok (b : backend_persistent) (l : list chunk) (ptr : Z) : Prop := {
  pt_align : ptr mod 8 = 0;
  pt_range : 0 <= ptr /\ ptr + 8 <= 2 ^ 64;
  pt_foreign : forall a, ptr <= a < ptr + 8 -> foreign b l a;
}.

Section Layout.
Context (b : backend_persistent) (Hb : pool_ok b).

Lemma nunits_bounds : 27 <= nunits b <= MAX_CHUNK.
Proof.
  unfold nunits, get_zone_size_idx.
  destruct (po_size _ Hb). unfold ZONE_MIN_SIZE, SIZEOF_HDR, SIZEOF_CHUNK_HDR, MAX_CHUNK in *. change CHUNKSIZE with 262144 in *.
  change (0 <? 1 - 1) with false. cbn iota. rewrite Z.mul_0_l, Z.sub_0_r. rewrite (u64_id (pool_size b)) by lia.
  rewrite u64_id by lia. rewrite u32_id; Z.div_mod_to_equations; lia.
Qed.

Lemma hdr_bound i : 0 <= i <= MAX_CHUNK -> hdr (b_pool b) 0 i = b_pool b + 34816 + 16 * i /\ b_pool b + 34816 + 16 * i <= data_addr b 0.
Proof.
  unfold hdr, data_addr, chunk_hdr_off, chunk_data_off, zone_off. change SIZEOF_HDR with 1024. change (SIZEOF_SLOT * MAX_INFO_SLOT) with 32768.
  unfold SIZEOF_CHUNK_HDR, MAX_CHUNK. lia.
Qed.

Lemma data_addr_0 : data_addr b 0 = b_pool b + 1083376.
Proof. unfold data_addr. f_equal. Qed.

Lemma chunk_at_in i (C : Type) (h : heap C) : 0 <= i < nunits b -> chunk_at b 0 i h = inr (hdr (b_pool b) 0 i, h).
Proof.
  intros Hi. pose proof nunits_bounds. apply chunk_at_ok; [lia..|]. destruct (po_size _ Hb). 
  pose proof (hdr_bound i). unfold hdr, ZONE_MIN_SIZE in *. change CHUNKSIZE with 262144 in *. unfold MAX_CHUNK in *. lia.
Qed.
End Layout.

(** ** The persistent half *)

(** [m'] is [m] except in a range. *)
Definition same_but (m m' : mem) (a n : Z) : Prop := forall x, x < a \/ a + n <= x -> m' x = m x.

Lemma torn_same m a bs m' : torn m a bs m' -> same_but m m' a (Z.of_nat (length bs)).
Proof. intros Ht x. by apply torn_out. Qed.

Lemma mwrite_same m a bs : same_but m (mwrite m a bs) a (Z.of_nat (length bs)).
Proof. intros x. apply mwrite_out. Qed.

Lemma mzero_same m a n : same_but m (mzero m a n) a n.
Proof. intros x. apply mzero_out. Qed.

Lemma same_agree m m' a n a' n' : same_but m m' a n -> a' + n' <= a \/ a + n <= a' -> agree m' m a' n'.
Proof. intros Hs Hd x Hx. apply Hs. lia. Qed.

Lemma same_trans m m1 m2 a n : same_but m m1 a n -> same_but m1 m2 a n -> same_but m m2 a n.
Proof. intros H1 H2 x Hx. rewrite H2 by done. by apply H1. Qed.

Lemma same_sub m m' a n a' n' : same_but m m' a n -> a' <= a -> a + n <= a' + n' -> same_but m m' a' n'.
Proof. intros Hs ? ? x Hx. apply Hs. lia. Qed.

Section St.
Context (b : backend_persistent) (Hb : pool_ok b) (ar : Z) (Har : 0 <= ar < 10).
Context (m0 : mem) (l0 : list chunk) (ptr : Z) (Hptr : ptr_ok b l0 ptr) (Hl0 : BackendSpec.zone_at (b_pool b) 0 m0 0 l0 (nunits b)).
Abbreviation n := (nunits b).
Abbreviation zone_at := (zone_at (b_pool b) 0).
Abbreviation is_chunk := (is_chunk (b_pool b) 0).
Abbreviation hdr := (hdr (b_pool b) 0).
Definition slot_addr (j : Z) : Z := b_pool b + slot_off j.

(** The caller's memory is as it was. *)
Definition user_kept (m : mem) : Prop := forall a, foreign b l0 a -> ~ (ptr <= a < ptr + 8) -> m a = m0 a.

Record st (m : mem) (sl : list byte) (l : list chunk) (v : Z) : Prop := {
  st_zone : zone_at m 0 l n;
  st_slot : mread m (slot_addr ar) 32 = sl;
  st_slots : forall j, 0 <= j < MAX_INFO_SLOT -> j <> ar -> mread m (slot_addr j) 32 = zeros 32;
  st_header : agree m m0 (b_pool b) SIZEOF_HDR;
  st_ptr : get64 m ptr = v;
  st_user : user_kept m;
}.

Lemma slot_addr_eq j : slot_addr j = b_pool b + 1024 + 32 * j.
Proof. unfold slot_addr, slot_off, SIZEOF_HDR, SIZEOF_SLOT. lia. Qed.

Lemma hdr_eq j : hdr j = b_pool b + 34816 + 16 * j.
Proof. unfold BackendSpec.hdr, chunk_hdr_off, zone_off. change SIZEOF_HDR with 1024. change (SIZEOF_SLOT * MAX_INFO_SLOT) with 32768. unfold SIZEOF_CHUNK_HDR. lia. Qed.

Lemma ptr_outside : ptr + 8 <= b_pool b \/ data_addr b 0 <= ptr.
Proof.
  rewrite data_addr_0. destruct (Z.le_gt_cases (ptr + 8) (b_pool b)); [by left|].
  destruct (Z.le_gt_cases (b_pool b + 1083376) ptr); [by right|]. exfalso.
  set (a := Z.max ptr (b_pool b)). destruct (pt_foreign _ _ _ Hptr a) as [Hf _]; [lia|].
  apply Hf. rewrite data_addr_0. lia.
Qed.

Lemma free_above a : in_free b l0 a -> data_addr b 0 <= a.
Proof.
  intros (l1 & s & l2 & E & Hx). pose proof Hl0 as Hz. rewrite E in Hz. destruct (zone_at_mid _ _ _ _ _ _ _ Hz) as (_ & ? & _).
  rewrite <- (Z.add_0_l (total l1)), data_addr_add in Hx. unfold CHUNKSIZE in Hx. lia.
Qed.

Lemma hdr_below j : 0 <= j <= n -> hdr j <= data_addr b 0.
Proof. intros Hj. pose proof (nunits_bounds b Hb). rewrite hdr_eq, data_addr_0. unfold MAX_CHUNK in *. lia. Qed.

Lemma st_agree m m' sl l v :
  st m sl l v -> agree m' m (b_pool b) 33792 -> agree m' m (hdr 0) (16 * n) -> agree m' m ptr 8 ->
  (forall x, foreign b l0 x -> m' x = m x) -> st m' sl l v.
Proof.
  intros [] Hm Hh Hp Hu. pose proof slot_addr_eq as Hsa. constructor.
  - eapply zone_at_agree; [|done]. by rewrite Z.sub_0_r.
  - rewrite (mread_agree m' m); [done|]. eapply agree_sub; [exact Hm|rewrite Hsa; lia..].
  - intros j Hj Hne. rewrite (mread_agree m' m); [by apply st_slots0|]. unfold MAX_INFO_SLOT in Hj.
    eapply agree_sub; [exact Hm|rewrite Hsa; lia..].
  - eapply agree_trans; [|done]. eapply agree_sub; [exact Hm|unfold SIZEOF_HDR; lia..].
  - by rewrite (get_le_agree 8 m' m).
  - intros x Hx Hn. rewrite Hu by done. by apply st_user0.
Qed.

Lemma foreign_meta x : foreign b l0 x -> x < b_pool b \/ data_addr b 0 <= x.
Proof. intros [Hf _]. lia. Qed.

(** A store to the data of free chunks. *)
Lemma st_free m m' a k sl l v :
  st m sl l v -> same_but m m' a k -> (forall x, a <= x < a + k -> in_free b l0 x) -> st m' sl l v.
Proof.
  intros Hst Hs Hf. assert (forall x, ~ in_free b l0 x -> m' x = m x) as E.
  { intros x Hx. apply Hs. destruct (Z.le_gt_cases a x), (Z.le_gt_cases (a + k) x); try lia. destruct Hx. apply Hf. lia. }
  assert (forall x, x < data_addr b 0 -> m' x = m x) as Em by (intros x Hx; apply E; intros Hi%free_above; lia).
  pose proof (hdr_below n ltac:(pose proof (nunits_bounds b Hb); lia)) as Hn. rewrite hdr_eq in Hn. pose proof (data_addr_0 b).
  eapply st_agree; [done|..].
  - intros x Hx. apply Em. lia.
  - intros x Hx. apply Em. rewrite hdr_eq in Hx. lia.
  - intros x Hx. apply E. by apply (pt_foreign _ _ _ Hptr).
  - intros x [_ Hx]. by apply E.
Qed.

(** A store to the table of headers. *)
Lemma st_headers m m' a k sl l l' v :
  st m sl l v -> same_but m m' a k -> hdr 0 <= a -> a + k <= hdr n -> zone_at m' 0 l' n -> st m' sl l' v.
Proof.
  intros [] Hs Ha Hk Hz. pose proof (hdr_below n ltac:(pose proof (nunits_bounds b Hb); lia)) as Hn.
  pose proof ptr_outside as Hp. rewrite hdr_eq in Ha.
  assert (forall x y, x + y <= a \/ a + k <= x -> agree m' m x y) as Ea by (intros; by eapply same_agree).
  constructor; [done|..].
  - rewrite (mread_agree m' m); [done|]. apply Ea. rewrite slot_addr_eq. lia.
  - intros j Hj Hne. rewrite (mread_agree m' m); [by apply st_slots0|]. apply Ea. unfold MAX_INFO_SLOT in Hj. rewrite slot_addr_eq. lia.
  - eapply agree_trans; [|done]. apply Ea. unfold SIZEOF_HDR. lia.
  - rewrite (get_le_agree 8 m' m); [done|]. apply Ea. lia.
  - intros x Hx Hxp. rewrite <- st_user0 by done. apply Hs. apply foreign_meta in Hx. lia.
Qed.

(** A store to a header that is not the first of a chunk. *)
Lemma st_inner m m' j sl l1 s u l2 v :
  st m sl (l1 ++ (s, u) :: l2) v -> same_but m m' (hdr j) 16 -> total l1 < j < total l1 + s ->
  st m' sl (l1 ++ (s, u) :: l2) v.
Proof.
  intros Hst Hs Hj. destruct (zone_at_mid _ _ _ _ _ _ _ (st_zone _ _ _ _ Hst)) as (Hc & ? & ? & ?). cbn [fst] in *.
  assert (forall a k, a + k <= hdr j \/ hdr j + 16 <= a -> agree m' m a k) as Ea by (intros; by eapply same_agree).
  eapply st_headers; [done|done|rewrite !hdr_eq; lia..|].
  apply (zone_at_splice _ _ m m' l1 (s, u) l2 [(s, u)] n); [apply Hst|apply Ea; cbn [fst]; rewrite !hdr_eq; lia..|].
  cbn. split_and!; [lia| |done]. eapply is_chunk_agree; [apply Ea; rewrite !hdr_eq; lia|done].
Qed.

(** A store to the header of a chunk that leaves a chunk there, or splits it. *)
Lemma st_chunk m m' sl l1 s u l2 l v :
  st m sl (l1 ++ (s, u) :: l2) v -> same_but m m' (hdr (total l1)) 16 ->
  zone_at m' (total l1) l (total l1 + s) -> st m' sl (l1 ++ l ++ l2) v.
Proof.
  intros Hst Hs Hl. destruct (zone_at_mid _ _ _ _ _ _ _ (st_zone _ _ _ _ Hst)) as (Hc & ? & ? & ?). cbn [fst] in *.
  eapply st_headers; [done|done|rewrite !hdr_eq; lia..|].
  eapply (zone_at_splice _ _ m m' l1 (s, u) l2 l n); [apply Hst|eapply same_agree; [done|cbn [fst]; rewrite !hdr_eq; lia]..|done].
Qed.

Lemma st_flags m sl l1 s u l2 v f u' :
  st m sl (l1 ++ (s, u) :: l2) v -> 0 <= f < 2 ^ 16 -> Z.land f CHUNK_FLAG_USED = Z.b2z u' ->
  st (mwrite m (hdr (total l1) + 10) (le_enc 2 f)) sl (l1 ++ (s, u') :: l2) v.
Proof.
  intros Hst Hf Hu. destruct (zone_at_mid _ _ _ _ _ _ _ (st_zone _ _ _ _ Hst)) as (Hc & ? & ? & ?). cbn [fst] in *.
  apply (st_chunk m _ sl l1 s u l2 [(s, u')]); [done|eapply same_sub; [apply mwrite_same|len..]|].
  cbn. split_and!; [lia| |done]. by apply (is_chunk_flags _ _ m _ (s, u)).
Qed.

Lemma st_split m sl l1 s u l2 v k :
  st m sl (l1 ++ (s, u) :: l2) v -> 0 < k < s -> is_chunk m (total l1 + k) (s - k, false) ->
  st (mwrite m (hdr (total l1) + 12) (le_enc 4 k)) sl (l1 ++ (k, u) :: (s - k, false) :: l2) v.
Proof.
  intros Hst Hk Hnc. destruct (zone_at_mid _ _ _ _ _ _ _ (st_zone _ _ _ _ Hst)) as (Hc & ? & ? & ?). cbn [fst] in *.
  pose proof (nunits_bounds b Hb). unfold MAX_CHUNK in *.
  assert (same_but m (mwrite m (hdr (total l1) + 12) (le_enc 4 k)) (hdr (total l1)) 16) as Hs by (eapply same_sub; [apply mwrite_same|len..]).
  apply (st_chunk m _ sl l1 s u l2 [(k, u); (s - k, false)]); [done|done|].
  cbn. split_and!; [lia| |lia| |lia].
  - apply (is_chunk_size _ _ m _ (s, u)); [lia|done].
  - eapply is_chunk_agree; [|done]. eapply same_agree; [done|]. rewrite !hdr_eq. lia.
Qed.

(** A store to the slot of the running arena. *)
Lemma st_slot_any m m' sl l v :
  st m sl l v -> same_but m m' (slot_addr ar) 32 -> st m' (mread m' (slot_addr ar) 32) l v.
Proof.
  intros [] Hs. pose proof (nunits_bounds b Hb). pose proof (hdr_below n ltac:(lia)) as Hn.
  pose proof ptr_outside as Hp. rewrite !hdr_eq in Hn.
  assert (forall x y, x + y <= slot_addr ar \/ slot_addr ar + 32 <= x -> agree m' m x y) as Ea by (intros; by eapply same_agree).
  rewrite slot_addr_eq in Ea. constructor.
  - eapply zone_at_agree; [|done]. apply Ea. rewrite hdr_eq. lia.
  - done.
  - intros j Hj Hne. rewrite (mread_agree m' m); [by apply st_slots0|]. apply Ea. unfold MAX_INFO_SLOT in Hj. rewrite slot_addr_eq. lia.
  - eapply agree_trans; [|done]. apply Ea. unfold SIZEOF_HDR. lia.
  - rewrite (get_le_agree 8 m' m); [done|]. apply Ea. lia.
  - intros x Hx Hxp. rewrite <- st_user0 by done. apply Hs. apply foreign_meta in Hx. rewrite slot_addr_eq. lia.
Qed.

(** A store to the pointer. *)
Lemma st_pointer m m' sl l v : st m sl l v -> same_but m m' ptr 8 -> st m' sl l (get64 m' ptr).
Proof.
  intros [] Hs. pose proof (nunits_bounds b Hb). pose proof (hdr_below n ltac:(lia)) as Hn.
  pose proof ptr_outside as Hp. rewrite !hdr_eq in Hn. pose proof slot_addr_eq as Hsa.
  assert (forall x y, b_pool b <= x -> x + y <= data_addr b 0 -> agree m' m x y) as Ea by (intros; eapply same_agree; [done|lia]).
  constructor.
  - eapply zone_at_agree; [|done]. apply Ea; rewrite hdr_eq; lia.
  - rewrite (mread_agree m' m); [done|]. apply Ea; rewrite Hsa; lia.
  - intros j Hj Hne. rewrite (mread_agree m' m); [by apply st_slots0|]. unfold MAX_INFO_SLOT in Hj. apply Ea; rewrite Hsa; lia.
  - eapply agree_trans; [|done]. apply Ea; unfold SIZEOF_HDR; lia.
  - done.
  - intros x Hx Hxp. rewrite <- st_user0 by done. apply Hs. lia.
Qed.

Lemma st_proper m m' sl l v : m' ≡ m -> st m sl l v -> st m' sl l v.
Proof. intros E Hst. eapply st_agree; [done|intros x _; apply E..]. Qed.

(** A store inside a word is done or not. *)
Lemma st_torn m m' a bs sl l v sl' l' v' :
  torn m a bs m' -> 0 < Z.of_nat (length bs) -> a mod 8 + Z.of_nat (length bs) <= 8 ->
  st m sl l v -> st (mwrite m a bs) sl' l' v' -> st m' sl l v \/ st m' sl' l' v'.
Proof. intros Ht H1 H2 Hm Hw. destruct (torn_word _ _ _ _ Ht H1 H2) as [E|E]; [left|right]; by eapply st_proper. Qed.

Lemma hdr_mod j k : 0 <= k < 8 -> (hdr j + (8 + k)) mod 8 = k.
Proof.
  intros Hk. rewrite hdr_eq. replace (b_pool b + 34816 + 16 * j + (8 + k)) with (b_pool b + (k + (4353 + 2 * j) * 8)) by lia.
  rewrite Z.add_assoc, Z.mod_add, Z.add_mod, (po_align _ Hb), Z.add_0_l, Z.mod_mod by lia. by apply Z.mod_small.
Qed.
End St.
