(* ===== verification/PmallocSpec.v ===== *)
(** PmallocSpec: pmalloc and pfree on the state of HeapSpec, with what a power
    failure can leave during each of their steps. *)

From S2P Require Import Prelude Mem Util Prog StateM Durable ObjHeap Bucket Backend Pmalloc BackendSpec HeapLogic BstSpec Bst HeapSpec.

#[local] Open Scope stateM_scope.

(** The slot of an arena while a guard is up. *)
Definition guard_bytes (b : backend_persistent) (t : guard_type) (ptr v : Z) : list byte :=
  let rptr := le_enc 8 (u64 (ptr - b_pool b)) in
  match t with
  | GUARD_TYPE_MALLOC => le_enc 4 INFO_SLOT_TYPE_ALLOC ++ zeros 4 ++ rptr ++ zeros 16
  | GUARD_TYPE_REALLOC => le_enc 4 INFO_SLOT_TYPE_REALLOC ++ zeros 4 ++ rptr ++ le_enc 8 v ++ zeros 8
  | GUARD_TYPE_FREE => le_enc 4 INFO_SLOT_TYPE_FREE ++ zeros 4 ++ rptr ++ zeros 16
  end.

Section Vol.
Context {C : Type} `{ContainerLaws C} `{BucketMalloc} (b : backend_persistent).
Implicit Type h : heap C.

Definition arena_ok (bk : Z) (lk : option Z) (i : nat) (a : arena) : Prop :=
  a_id a = Z.of_nat i /\ a_locked a = bool_decide (lk = Some (Z.of_nat i)) /\ a_buckets a !! 0%nat = Some bk /\
  0 <= associated_threads a.

(** The volatile half of the state. *)
Record vol h (bk : Z) (fl : list (Z * Z)) (lk : option Z) : Prop := {
  v_backend : p_backend (h_pool h) = BACKEND_PERSISTENT b;
  v_bucket : p_buckets (h_pool h) !! 0%nat = Some bk /\ bk <> 0;
  v_objects : exists c, h_buckets h !! bk = Some {| unit_size := CHUNKSIZE; objects := c |} /\ c_contents c fl;
  v_lock : p_locked (h_pool h) = false;
  v_len : length (arenas (h_pool h)) = 10%nat;
  v_arenas : forall i a, arenas (h_pool h) !! i = Some (Some a) -> arena_ok bk lk i a;
  v_thread : h_arena_id h = -1 /\ (exists i, arenas (h_pool h) !! i = Some None) \/ 0 <= h_arena_id h < 10;
}.

Lemma vol_put h bk fl lk ev : vol h bk fl lk -> vol (put h ev) bk fl lk.
Proof. by intros []. Qed.

Definition present h (i : Z) : Prop := 0 <= i < 10 /\ exists a, arenas (h_pool h) !! Z.to_nat i = Some (Some a).

Lemma arena_at_ok h bk fl lk i : vol h bk fl lk -> present h i ->
  exists a, arena_at i h = inr (a, h) /\ arenas (h_pool h) !! Z.to_nat i = Some (Some a) /\
    a_id a = i /\ a_locked a = bool_decide (lk = Some i) /\ a_buckets a !! 0%nat = Some bk.
Proof.
  intros Hv (Hi & a & Ha). exists a. destruct (v_arenas _ _ _ _ Hv _ _ Ha) as (E1 & E2 & E3 & E4).
  rewrite Z2Nat.id in E1, E2 by lia. split_and!; try done.
  unfold arena_at. unfold bindM, getM, MAX_ARENAS. repeat ztrue. cbn [andb]. rewrite Ha. done.
Qed.

(** Locking and unlocking an arena. *)
Lemma vol_lock h bk fl lk i a l : vol h bk fl lk -> lk = None \/ lk = Some i -> 0 <= i < 10 ->
  arenas (h_pool h) !! Z.to_nat i = Some (Some a) ->
  let h' := set_h_pool h (set_arenas (h_pool h) (<[Z.to_nat i := Some (set_a_locked a l)]> (arenas (h_pool h)))) in
  vol h' bk fl (if l then Some i else None) /\ present h' i.
Proof.
  intros Hv Hlk Hi Ha h'. pose proof (lookup_lt_Some _ _ _ Ha) as Hlt.
  destruct (v_arenas _ _ _ _ Hv _ _ Ha) as (E1 & E2 & E3 & E4). destruct Hv. split.
  - constructor; cbn; try done; [by rewrite length_insert| |].
    + intros j a' [(<- & Ej & _)|(Hne & Ej)]%list_lookup_insert_Some.
      * injection Ej as <-. split_and!; [done| |done|done]. cbn. rewrite Z2Nat.id by lia. destruct l; [|done].
        symmetry. by apply bool_decide_eq_true.
      * destruct (v_arenas0 _ _ Ej) as (F1 & F2 & F3 & F4). split_and!; [done| |done|done]. rewrite F2. apply bool_decide_ext.
        destruct Hlk as [-> | ->]; destruct l; split; intros [=]; subst; try (by rewrite Nat2Z.id in Hne).
    + destruct v_thread0 as [[? (j & Hj)]|]; [left|by right]. split; [done|]. exists j.
      rewrite list_lookup_insert_ne; [done|]. intros <-. by rewrite Ha in Hj.
  - split; [done|]. eexists. cbn. by apply list_lookup_insert_eq.
Qed.

(** ** Choosing an arena *)

Lemma select_arena_loop_spec l : forall i,
  (forall a, Some a ∈ l -> 0 <= associated_threads a) -> None ∈ l ->
  exists j : nat, select_arena_loop l i (-1) (-1) = i + Z.of_nat j /\ l !! j = Some None.
Proof.
  induction l as [|[a|] l IH]; intros i Ha Hn; [by apply elem_of_nil in Hn| |].
  - cbn [select_arena_loop]. assert (0 <= associated_threads a) by (apply Ha, elem_of_cons; by left). ztrue.
    apply elem_of_cons in Hn as [[=]|Hn]. destruct (IH (i + 1)) as (j & -> & Hj); [|done|].
    + intros a' Ha'. apply Ha, elem_of_cons. by right.
    + exists (S j). split; [lia|done].
  - exists 0%nat. split; [cbn; lia|done].
Qed.

Lemma select_arena_id_spec h bk fl lk : vol h bk fl lk -> (exists i, arenas (h_pool h) !! i = Some None) ->
  0 <= select_arena_id (h_pool h) < 10.
Proof.
  intros Hv (i & Hi). unfold select_arena_id.
  destruct (select_arena_loop_spec (arenas (h_pool h)) 0) as (j & E & Hj).
  - intros a (k & Hk)%list_elem_of_lookup. by apply (v_arenas _ _ _ _ Hv) in Hk as (_ & _ & _ & ?).
  - by eapply list_elem_of_lookup_2.
  - change (Z.lnot 0) with (-1). rewrite E. apply lookup_lt_Some in Hj. rewrite (v_len _ _ _ _ Hv) in Hj. lia.
Qed.

(** The arena of the thread becomes the given one, new or used once more. *)
Lemma vol_put_arena h h1 bk fl id a : vol h bk fl None -> 0 <= id < 10 ->
  h_arena_id h1 = id -> h_buckets h1 = h_buckets h -> 
  h_pool h1 = set_p_locked (set_arenas (h_pool h) (<[Z.to_nat id := Some a]> (arenas (h_pool h)))) false ->
  arena_ok bk None (Z.to_nat id) a -> vol h1 bk fl None /\ present h1 id.
Proof.
  intros [] Hid E1 E2 E3 Ha. split.
  - constructor; rewrite ?E3, ?E2, ?E1; cbn; try done; [by rewrite length_insert| |by right].
    intros j a' [(<- & Ej & _)|(Hne & Ej)]%list_lookup_insert_Some; [by injection Ej as <-|auto].
  - split; [done|]. exists a. rewrite E3. cbn. apply list_lookup_insert_eq. rewrite v_len0. lia.
Qed.

Context (e : obj_env).

Definition slow_post (h : heap C) bk fl (i : Z) (h' : heap C) : Prop :=
  h_mem h' = h_mem h /\ h_log h' = h_log h /\ vol h' bk fl None /\ (i = -1 \/ present h' i) /\
  (oe_malloc e SIZEOF_ARENA = true -> oe_malloc e SIZEOF_MUTEX_T = true -> i <> -1).

Lemma select_slow_spec h bk fl : vol h bk fl None -> wp (select_thread_arena_slow e) (slow_post h bk fl) h.
Proof.
  intros Hv. unfold select_thread_arena_slow. apply wp_bind, wp_getM. rewrite (v_lock _ _ _ _ Hv).
  apply wp_bind, wp_modM. set (h1 := set_h_pool h _). apply wp_bind.
  set (id := if h_arena_id h =? -1 then select_arena_id (h_pool h) else h_arena_id h).
  assert (0 <= id < 10) as Hid.
  { unfold id. destruct (v_thread _ _ _ _ Hv) as [[-> Hn]|?]; [|by ztrue]. by eapply select_arena_id_spec. }
  apply (wp_intro _ _ _ tt (set_h_arena_id h1 id)).
  { unfold id. cbn [h_arena_id h1 set_h_pool]. destruct (h_arena_id h =? -1); [done|]. by destruct h. }
  apply wp_bind, wp_getM. cbn [h_arena_id set_h_arena_id]. unfold MAX_ARENAS. repeat ztrue. cbn [andb].
  destruct (lookup_lt_is_Some_2 (arenas (h_pool h)) (Z.to_nat id)) as (cur & Hcur); [rewrite (v_len _ _ _ _ Hv); lia|].
  apply wp_bind. eapply wp_validM; [exact Hcur|]. cbn beta.
  assert (forall a h', arena_ok bk None (Z.to_nat id) a -> h' = set_h_arena_id h1 id ->
    wp (put_arena id (Some (inc_threads a));;; modM (fun h => set_h_pool h (set_p_locked (h_pool h) false));;; ret id)%stateM
      (slow_post h bk fl) h') as Hend.
  { intros a h' Ha ->. unfold put_arena. apply wp_bind, wp_modM. apply wp_bind, wp_modM. apply wp_ret.
    destruct (vol_put_arena h (set_h_pool (set_h_arena_id h1 id) (set_p_locked (set_arenas (h_pool h) (<[Z.to_nat id := Some (inc_threads a)]> (arenas (h_pool h)))) false)) bk fl id (inc_threads a)) as [Hv' Hp]; try done.
    { destruct Ha as (?&?&?&?). split_and!; try done. cbn. lia. }
    unfold slow_post. split_and!; [done|done|exact Hv'|right; exact Hp|lia]. }
  destruct cur as [a|].
  - apply wp_bind, wp_ret. apply Hend; [|done]. by apply (v_arenas _ _ _ _ Hv).
  - apply wp_bind. unfold arena_new. apply wp_bind, wp_getM. destruct (v_bucket _ _ _ _ Hv) as [Hbk Hne].
    destruct (oe_malloc e SIZEOF_ARENA) eqn:E1, (oe_malloc e SIZEOF_MUTEX_T) eqn:E2; cbn [andb].
    { apply wp_bind. eapply wp_validM; [exact Hbk|]. cbn beta. apply wp_ret. apply Hend; [|done].
      split_and!; [cbn; by rewrite Z2Nat.id by lia|done|done|done]. }
    all: apply wp_ret; apply wp_bind, wp_ret; apply wp_bind, wp_modM; apply wp_ret; unfold slow_post;
      split_and!; [done|done| |by left|congruence]; destruct Hv; constructor; cbn; try done; by right.
Qed.

Lemma select_arena_spec h bk fl : vol h bk fl None -> wp (pool_select_arena e) (slow_post h bk fl) h.
Proof.
  intros Hv. unfold pool_select_arena. apply wp_bind, wp_getM. destruct (Z.eqb_spec (h_arena_id h) (-1)).
  { by apply select_slow_spec. }
  destruct (v_thread _ _ _ _ Hv) as [[? _]|Hid]; [done|].
  destruct (arenas (h_pool h) !! Z.to_nat (h_arena_id h)) as [[a|]|] eqn:E; cbn [mjoin option_join]; [|by apply select_slow_spec..].
  apply wp_ret. unfold slow_post. split_and!; [done|done|done|right|lia]. split; [done|by exists a].
Qed.
End Vol.
