(* ===== verification/PmallocOps.v ===== *)
(** PmallocOps: the steps of pmalloc and pfree in the crash logic.

    [good sl l v] are the combinations of slot, chunks and pointer that a power
    failure may leave while one operation runs; every step keeps the memory in
    it. *)

From S2P Require Import Prelude Mem Util Prog StateM Durable ObjHeap Bucket Backend Pmalloc BackendSpec HeapLogic BstSpec Bst HeapSpec PmallocSpec.

#[local] Open Scope stateM_scope.

(** The chunks after [k] of the [s] units of a chunk were carved off it. *)
Definition rest (k s : Z) : list chunk := if k <? s then [(s - k, false)] else [].
Definition carve (l1 : list chunk) (k s : Z) (u : bool) (l2 : list chunk) : list chunk := l1 ++ (k, u) :: rest k s ++ l2.

(** The entry of the bucket that is tried for a number of units: the first whose
    key is large enough, that is the first chunk when it is large enough, and
    the next free chunk by address otherwise. *)
Definition tried (units : Z) (fl : list (Z * Z)) (x : Z * Z) : Prop :=
  x ∈ fl /\ units <= x.1 /\ forall y, y ∈ fl -> y.1 < units \/ x.1 <= y.1.

Section Ops.
Context {C : Type} `{ContainerLaws C} `{BucketMalloc} (b : backend_persistent) (Hb : pool_ok b).
Context (ar : Z) (Har : 0 <= ar < 10) (m0 : mem) (l0 : list chunk) (ptr : Z) (Hptr : ptr_ok b l0 ptr).
Context (Hl0 : zone_at (b_pool b) 0 m0 0 l0 (nunits b)).
Context (good : list byte -> list chunk -> Z -> Prop) (gb : list byte).
Implicit Type h : heap C.

(** A property of the volatile half is kept by a store. *)
Definition volatile (P : heap C -> Prop) : Prop := forall h ev, P h -> P (put h ev).

Lemma volatile_vol bk fl lk : volatile (fun h => vol b h bk fl lk).
Proof. intros h ev. apply vol_put. Qed.

Lemma volatile_and P P' : volatile P -> volatile P' -> volatile (fun h => P h /\ P' h).
Proof. intros HP HP' h ev []. split; [by apply HP|by apply HP']. Qed.

Lemma volatile_pool p : volatile (fun h => h_pool h = p).
Proof. intros h ev. by cbn. Qed.
#[local] Hint Resolve volatile_vol volatile_and volatile_pool : nvm.

Abbreviation st := (st b ar m0 l0 ptr).
Abbreviation sa := (slot_addr b ar).
Abbreviation hdr := (hdr (b_pool b) 0).

(** A memory the power may fail in: if the store to the slot was done wholly or
    not at all, the state is a good one. *)
Definition recoverable (m : mem) : Prop :=
  let sl := mread m sa 32 in
  sl = zeros 32 \/ sl = gb -> exists l v, st m sl l v /\ good sl l v.

Lemma st_recoverable m sl l v : st m sl l v -> good sl l v -> recoverable m.
Proof. intros Hst Hg _. exists l, v. by rewrite (st_slot _ _ _ _ _ _ _ _ _ Hst). Qed.

(** ** Guards *)

Lemma slot_write_recoverable m bs l v m' :
  st m (mread m sa 32) l v -> torn m sa bs m' -> Z.of_nat (length bs) <= 32 -> good (zeros 32) l v -> good gb l v -> recoverable m'.
Proof.
  intros Hst Ht Hlen Hz Hg [E|E]; exists l, v; (split; [|by rewrite E]); eapply st_slot_any; try done;
    (eapply same_sub; [by apply torn_same|lia..]).
Qed.

Lemma mread_prefix m a bs : Z.of_nat (length bs) <= 32 -> mread m a 32 = zeros 32 ->
  mread (mwrite m a bs) a 32 = bs ++ zeros (32 - length bs).
Proof.
  intros Hlen E. replace 32 with (Z.of_nat (length bs) + (32 - Z.of_nat (length bs))) at 1 by lia.
  rewrite mread_app, mread_mwrite_eq, mread_mwrite_out by lia. f_equal.
  replace (a + Z.of_nat (length bs)) with (a + Z.of_nat (length bs)) by lia.
  rewrite <- (mread_sub m a 32) by lia. rewrite E. unfold zeros. rewrite drop_replicate, take_replicate. f_equal. lia.
Qed.

Lemma set_guard_spec t l v h bk fl lk (Q : unit -> heap C -> Prop) :
  st (h_mem h) (zeros 32) l v -> vol b h bk fl lk -> gb = guard_bytes b t ptr v ->
  good (zeros 32) l v -> good gb l v ->
  (forall h', st (h_mem h') gb l v -> vol b h' bk fl lk -> h_pool h' = h_pool h -> Q tt h') ->
  wpc (set_guard ar t ptr) Q recoverable h.
Proof.
  intros Hst Hv Hgb Hz Hg HQ. unfold set_guard. eapply wpc_step; [done|]. cbn beta. rewrite (v_backend _ _ _ _ _ Hv).
  unfold persistent_set_guard. fold (slot_addr b ar).
  assert (mread (h_mem h) sa 32 = zeros 32) as Es by apply (st_slot _ _ _ _ _ _ _ _ _ Hst).
  eapply wpc_step; [done|]. cbn beta. eapply wpc_step; [done|]. cbn beta.
  rewrite (st_ptr _ _ _ _ _ _ _ _ _ Hst).
  replace (mread (h_mem h) (sa + 4) 4) with (zeros 4).
  2: { rewrite <- (mread_sub (h_mem h) sa 32 4) by lia. by rewrite Es. }
  assert (forall t' bs', bs' = match t' with
    | GUARD_TYPE_MALLOC => le_enc 4 INFO_SLOT_TYPE_ALLOC ++ zeros 4 ++ le_enc 8 (u64 (ptr - b_pool b))
    | GUARD_TYPE_REALLOC => le_enc 4 INFO_SLOT_TYPE_REALLOC ++ zeros 4 ++ le_enc 8 (u64 (ptr - b_pool b)) ++ le_enc 8 v
    | GUARD_TYPE_FREE => le_enc 4 INFO_SLOT_TYPE_FREE ++ zeros 4 ++ le_enc 8 (u64 (ptr - b_pool b)) end ->
    gb = guard_bytes b t' ptr v -> wpc (store_persist sa bs') Q recoverable h) as HW.
  { intros t' bs' Hbs Hgb'. assert (Z.of_nat (length bs') <= 32) as Hlen by (rewrite Hbs; unfold zeros; destruct t'; len).
    apply wpc_store.
    - intros m' Ht. eapply slot_write_recoverable; try done. by rewrite Es.
    - apply HQ; [|by apply vol_put|done]. cbn [h_mem put set_h_mem apply_event].
      replace gb with (mread (mwrite (h_mem h) sa bs') sa 32).
      + eapply st_slot_any; try done. eapply same_sub; [apply mwrite_same|lia..].
      + rewrite mread_prefix by done. rewrite Hgb', Hbs. unfold guard_bytes, zeros.
        destruct t'; rewrite <- !app_assoc; repeat f_equal; len. }
  destruct t; [by apply (HW GUARD_TYPE_MALLOC)|by apply (HW GUARD_TYPE_REALLOC)|by apply (HW GUARD_TYPE_FREE)].
Qed.

Lemma guard_up_spec t l v h bk fl (Q : unit -> heap C -> Prop) :
  st (h_mem h) (zeros 32) l v -> vol b h bk fl None -> present h ar -> gb = guard_bytes b t ptr v ->
  good (zeros 32) l v -> good gb l v ->
  (forall h', st (h_mem h') gb l v -> vol b h' bk fl (Some ar) -> present h' ar -> Q tt h') ->
  wpc (arena_guard_up ar ptr t) Q recoverable h.
Proof.
  intros Hst Hv Hp Hgb Hz Hg HQ. destruct (arena_at_ok b _ _ _ _ _ Hv Hp) as (a & Ea & Hin & Eid & Elk & _).
  unfold arena_guard_up. eapply wpc_step; [exact Ea|]. cbn beta. rewrite Elk, Eid. cbn [bool_decide decide].
  rewrite bool_decide_eq_false_2 by done.
  destruct (vol_lock b _ _ _ _ _ a true Hv ltac:(by left) Har Hin) as [Hv1 Hp1].
  apply wpc_bind. unfold put_arena. eapply wpc_pure; [done|done|done|].
  eapply set_guard_spec; try done. intros h' ? ? Epool. apply HQ; try done. unfold present. by rewrite Epool.
Qed.

Lemma zero_slot_spec P sl l v h (Q : unit -> heap C -> Prop) :
  st (h_mem h) sl l v -> P h -> volatile P -> sl = zeros 32 \/ sl = gb ->
  good (zeros 32) l v -> good gb l v ->
  (forall h', st (h_mem h') (zeros 32) l v -> P h' -> same_but (h_mem h) (h_mem h') sa 32 -> Q tt h') ->
  wpc (pmemzero sa SIZEOF_SLOT) Q recoverable h.
Proof.
  intros Hst Hp HP Hsl Hz Hg HQ. change SIZEOF_SLOT with 32. apply wpc_zero.
  - intros m' Ht. eapply (slot_write_recoverable _ _ l v); [|done|len|done..].
    by rewrite (st_slot _ _ _ _ _ _ _ _ _ Hst).
  - apply HQ; [|by apply HP|apply mzero_same]. cbn [h_mem put set_h_mem apply_event].
    replace (zeros 32) with (mread (mzero (h_mem h) sa 32) sa 32) by (rewrite mread_mzero by lia; done).
    eapply st_slot_any; try done. apply mzero_same.
Qed.

Lemma guard_down_spec l v h bk fl (Q : unit -> heap C -> Prop) :
  st (h_mem h) gb l v -> vol b h bk fl (Some ar) -> present h ar ->
  good (zeros 32) l v -> good gb l v ->
  (forall h', st (h_mem h') (zeros 32) l v -> vol b h' bk fl None -> same_but (h_mem h) (h_mem h') sa 32 -> Q tt h') ->
  wpc (arena_guard_down ar) Q recoverable h.
Proof.
  intros Hst Hv Hp Hz Hg HQ. destruct (arena_at_ok b _ _ _ _ _ Hv Hp) as (a & Ea & Hin & Eid & Elk & _).
  unfold arena_guard_down. eapply wpc_step; [exact Ea|]. cbn beta.
  destruct (vol_lock b _ _ _ _ _ a false Hv ltac:(by right) Har Hin) as [Hv1 Hp1].
  apply wpc_bind. unfold put_arena. eapply wpc_pure; [done|done|done|].
  unfold clear_guard. eapply wpc_step; [done|]. cbn beta. rewrite (v_backend _ _ _ _ _ Hv1), Eid.
  unfold persistent_clear_guard. fold (slot_addr b ar).
  eapply (zero_slot_spec (fun h => vol b h bk fl None)); [exact Hst|done|auto with nvm|by right|done|done|].
  intros h' ???. by apply HQ.
Qed.

(** A store inside a word between two good states. *)
Lemma word_recoverable m m' a bs sl l v sl' l' v' :
  torn m a bs m' -> 0 < Z.of_nat (length bs) -> a mod 8 + Z.of_nat (length bs) <= 8 ->
  st m sl l v -> st (mwrite m a bs) sl' l' v' -> good sl l v -> good sl' l' v' -> recoverable m'.
Proof.
  intros Ht H1' H2 Hst Hst' Hg Hg'.
  destruct (st_torn b ar Har m0 l0 ptr _ _ _ _ _ _ _ _ _ _ Ht H1' H2 Hst Hst'); by eapply st_recoverable.
Qed.

(** ** The pointer *)

Lemma store_ptr_spec P x sl l v h (Q : unit -> heap C -> Prop) :
  st (h_mem h) sl l v -> P h -> volatile P -> 0 <= x < 2 ^ 64 -> good sl l v -> good sl l x ->
  (forall h', st (h_mem h') sl l x -> P h' -> same_but (h_mem h) (h_mem h') ptr 8 -> Q tt h') ->
  wpc (store_persist ptr (le_enc 8 x)) Q recoverable h.
Proof.
  intros Hst Hp HP Hx Hg Hgx HQ.
  assert (same_but (h_mem h) (mwrite (h_mem h) ptr (le_enc 8 x)) ptr 8) as Hsame by apply mwrite_same.
  assert (st (mwrite (h_mem h) ptr (le_enc 8 x)) sl l x) as Hst'.
  { replace x with (get64 (mwrite (h_mem h) ptr (le_enc 8 x)) ptr) at 2 by (rewrite get_le_mwrite_eq; by apply Z.mod_small).
    by eapply st_pointer. }
  apply wpc_store; [|apply HQ; [done|by apply HP|done]].
  intros m' Ht. eapply (word_recoverable _ _ _ _ _ _ _ _ _ _ Ht); first [done|rewrite (pt_align _ _ _ Hptr); len|len].
Qed.

Lemma set_ptr_spec x sl l v h bk fl lk (Q : unit -> heap C -> Prop) :
  st (h_mem h) sl l v -> vol b h bk fl lk -> 0 <= x < 2 ^ 64 -> good sl l v -> good sl l x ->
  (forall h', st (h_mem h') sl l x -> vol b h' bk fl lk -> h_pool h' = h_pool h ->
    same_but (h_mem h) (h_mem h') ptr 8 -> Q tt h') ->
  wpc (set_alloc_ptr ptr x) Q recoverable h.
Proof.
  intros Hst Hv Hx Hg Hgx HQ. unfold set_alloc_ptr. eapply wpc_step; [done|]. cbn beta. rewrite (v_backend _ _ _ _ _ Hv).
  eapply (store_ptr_spec (fun h' => vol b h' bk fl lk /\ h_pool h' = h_pool h)); try done; [auto with nvm|].
  intros h' ? [] ?. by apply HQ.
Qed.

(** ** Flags *)

Lemma flags_set m i c : is_chunk (b_pool b) 0 m i c ->
  let f := Z.lor (flags (chunk_header_of m (hdr i))) CHUNK_FLAG_USED in 0 <= f < 2 ^ 16 /\ Z.land f CHUNK_FLAG_USED = 1.
Proof.
  intros _ f. pose proof (chunk_header_range m (hdr i)) as (_ & _ & Hr & _). split.
  - change 16 with (Z.of_nat 16). unfold f, CHUNK_FLAG_USED. 
    assert (0 <= Z.lor (flags (chunk_header_of m (hdr i))) 1) by (apply Z.lor_nonneg; lia). split; [done|].
    apply Z.log2_lt_cancel. rewrite Z.log2_lor by lia. change (Z.log2 1) with 0. rewrite Z.max_l by apply Z.log2_nonneg.
    rewrite Z.log2_pow2 by lia. destruct (Z.eq_dec (flags (chunk_header_of m (hdr i))) 0) as [-> |]; [done|].
    apply Z.log2_lt_pow2; [lia|]. apply Hr.
  - unfold f, CHUNK_FLAG_USED. rewrite Z.land_lor_distr_l. change (Z.land 1 1) with 1.
    rewrite land_used. by destruct (Z.odd _).
Qed.

Lemma flags_clear m i c : is_chunk (b_pool b) 0 m i c ->
  let f := Z.land (flags (chunk_header_of m (hdr i))) (Z.lnot CHUNK_FLAG_USED) in 0 <= f < 2 ^ 16 /\ Z.land f CHUNK_FLAG_USED = 0.
Proof.
  intros _ f. pose proof (chunk_header_range m (hdr i)) as (_ & _ & Hr & _). split.
  - unfold f. set (g := flags _) in *. assert (0 <= Z.land g (Z.lnot CHUNK_FLAG_USED)) as H0' by (apply Z.land_nonneg; lia).
    split; [done|]. rewrite <- (Z.mod_small g (2 ^ 16)) by done. rewrite <- Z.land_ones by lia.
    rewrite <- Z.land_assoc, (Z.land_comm (Z.ones 16)), Z.land_assoc, Z.land_ones by lia. by apply Z.mod_pos_bound.
  - unfold f. rewrite <- Z.land_assoc, (Z.land_comm (Z.lnot _)), Z.land_lnot_diag. apply Z.land_0_r.
Qed.

(** A store of flags to the header of a chunk. *)
Lemma store_flags_spec f u' l1 s u l2 sl v P h (Q : unit -> heap C -> Prop) :
  st (h_mem h) sl (l1 ++ (s, u) :: l2) v -> P h -> volatile P ->
  0 <= f < 2 ^ 16 -> Z.land f CHUNK_FLAG_USED = Z.b2z u' ->
  good sl (l1 ++ (s, u) :: l2) v -> good sl (l1 ++ (s, u') :: l2) v ->
  (forall h', st (h_mem h') sl (l1 ++ (s, u') :: l2) v -> P h' ->
    same_but (h_mem h) (h_mem h') (hdr (total l1)) 16 -> Q tt h') ->
  wpc (store_persist (hdr (total l1) + 10) (le_enc 2 f)) Q recoverable h.
Proof.
  intros Hst Hp HP Hf Hu Hg Hg' HQ.
  assert (st (mwrite (h_mem h) (hdr (total l1) + 10) (le_enc 2 f)) sl (l1 ++ (s, u') :: l2) v) as Hst' by (by eapply st_flags).
  apply wpc_store.
  - intros m' Ht. pose proof (hdr_mod b Hb (total l1) 2 ltac:(lia)) as Hmod. rewrite Z.add_assoc in Hmod.
    replace (hdr (total l1) + 8 + 2) with (hdr (total l1) + 10) in Hmod by lia.
    eapply (word_recoverable _ _ _ _ _ _ _ _ _ _ Ht); first [done|rewrite Hmod; len|len].
  - apply HQ; [done|by apply HP|]. eapply same_sub; [apply mwrite_same|len..].
Qed.

Lemma set_flag_spec l1 s l2 sl v P h (Q : bool -> heap C -> Prop) :
  st (h_mem h) sl (l1 ++ (s, false) :: l2) v -> P h -> volatile P ->
  good sl (l1 ++ (s, false) :: l2) v -> good sl (l1 ++ (s, true) :: l2) v ->
  (forall h', st (h_mem h') sl (l1 ++ (s, true) :: l2) v -> P h' ->
    same_but (h_mem h) (h_mem h') (hdr (total l1)) 16 -> Q true h') ->
  wpc (set_chunk_flag (hdr (total l1)) CHUNK_FLAG_USED) Q recoverable h.
Proof.
  intros Hst Hp HP Hg Hg' HQ. destruct (zone_at_mid _ _ _ _ _ _ _ (st_zone _ _ _ _ _ _ _ _ _ Hst)) as (Hc & _).
  destruct (flags_set _ _ _ Hc) as [Hf Hu]. destruct Hc as (_ & _ & _ & Hu0).
  unfold set_chunk_flag. eapply wpc_step; [apply load_chunk_eq|]. cbn beta. rewrite Hu0. cbn [Z.b2z snd Z.eqb negb].
  apply wpc_bind. eapply (store_flags_spec _ true); try done. intros h' ???. apply wpc_ret. auto.
Qed.

Lemma clear_flag_spec l1 s l2 sl v P h (Q : bool -> heap C -> Prop) :
  st (h_mem h) sl (l1 ++ (s, true) :: l2) v -> P h -> volatile P ->
  good sl (l1 ++ (s, true) :: l2) v -> good sl (l1 ++ (s, false) :: l2) v ->
  (forall h', st (h_mem h') sl (l1 ++ (s, false) :: l2) v -> P h' ->
    same_but (h_mem h) (h_mem h') (hdr (total l1)) 16 -> Q true h') ->
  wpc (clear_chunk_flag (hdr (total l1)) CHUNK_FLAG_USED) Q recoverable h.
Proof.
  intros Hst Hp HP Hg Hg' HQ. destruct (zone_at_mid _ _ _ _ _ _ _ (st_zone _ _ _ _ _ _ _ _ _ Hst)) as (Hc & _).
  destruct (flags_clear _ _ _ Hc) as [Hf Hu]. destruct Hc as (_ & _ & _ & Hu0).
  unfold clear_chunk_flag. eapply wpc_step; [apply load_chunk_eq|]. cbn beta. rewrite Hu0. cbn [Z.b2z snd Z.eqb negb].
  apply wpc_bind. eapply (store_flags_spec _ false); try done. intros h' ???. apply wpc_ret. auto.
Qed.

(** ** The bucket *)

Lemma in_container_spec {A} (m : M C A) bk c a c' h fl fl' lk : vol b h bk fl lk ->
  h_buckets h !! bk = Some {| unit_size := CHUNKSIZE; objects := c |} ->
  m c = inr (a, c') -> c_contents c' fl' ->
  exists h', in_container bk m h = inr (a, h') /\ vol b h' bk fl' lk /\ h_mem h' = h_mem h /\ h_log h' = h_log h /\ h_pool h' = h_pool h.
Proof.
  intros Hv Hbk Hm Hc. unfold in_container. erewrite bindM_inr.
  2: { unfold bucket_at. unfold bindM, getM. by rewrite Hbk. }
  cbn [objects unit_size]. rewrite Hm. eexists. split; [done|]. split_and!; [|done..].
  destruct Hv. constructor; cbn; try done. exists c'. split; [|done]. apply lookup_insert_eq.
Qed.

(** A node can be allocated for any entry. *)
Definition has_room (fl : list (Z * Z)) : Prop :=
  forall (c : C) k v, c_contents c fl -> exists c', c_add k v c = inr (true, c').

Lemma add_object_spec obj R bk fl lk h (Q : bool -> heap C -> Prop) : vol b h bk fl lk ->
  (forall ok h' fl', h_mem h' = h_mem h -> h_pool h' = h_pool h -> vol b h' bk fl' lk ->
    fl' ≡ₚ (if ok : bool then (OBJ_KEY (unique_id obj) (obj_size_idx obj), unique_id obj) :: fl else fl) ->
    (ok = false -> ~ has_room fl) -> Q ok h') ->
  wpc (bucket_add_object bk obj) Q R h.
Proof.
  intros Hv HQ. destruct (v_objects _ _ _ _ _ Hv) as (c & Hbk & Hc).
  destruct (c_add_ok c fl (OBJ_KEY (unique_id obj) (obj_size_idx obj)) (unique_id obj) Hc) as (ok & c' & fl' & E & Hc' & Ha).
  destruct (in_container_spec _ bk c ok c' h fl fl' lk Hv Hbk E Hc') as (h' & E' & Hv' & Hm & Hl & Hp).
  eapply wpc_pure; [exact E'|done|done|]. apply (HQ ok h' fl'); try done.
  - destruct ok; [|by subst]. destruct Ha as (l1 & l2 & -> & ->). by rewrite Permutation_middle.
  - intros -> Hr. destruct (Hr c (OBJ_KEY (unique_id obj) (obj_size_idx obj)) (unique_id obj) Hc) as (c2 & E2). rewrite E in E2. done.
Qed.

Lemma get_rm_spec units R bk fl lk h (Q : Z -> heap C -> Prop) : vol b h bk fl lk ->
  (forall h', h_mem h' = h_mem h -> h_pool h' = h_pool h -> vol b h' bk fl lk -> (forall x, x ∈ fl -> x.1 < units) -> Q NULL_VAL h') ->
  (forall k v h' fl', h_mem h' = h_mem h -> h_pool h' = h_pool h -> vol b h' bk fl' lk ->
    fl ≡ₚ (k, v) :: fl' -> tried units fl (k, v) -> Q v h') ->
  wpc (in_container bk (c_get_rm_ge units)) Q R h.
Proof.
  intros Hv HN HS. destruct (v_objects _ _ _ _ _ Hv) as (c & Hbk & Hc).
  destruct (c_get_rm_ge_ok c fl units Hc) as (r & c' & fl' & E & Hc' & Ht).
  destruct (in_container_spec _ bk c r c' h fl fl' lk Hv Hbk E Hc') as (h' & E' & Hv' & Hm & Hl & Hp).
  eapply wpc_pure; [exact E'|done|done|]. destruct Ht as [(-> & -> & Hno)|(k & l1 & l2 & Efl & -> & Hk)]; [by apply HN|].
  apply (HS k r h' (l1 ++ l2)); try done; [by rewrite Efl, Permutation_middle|]. split; [rewrite Efl; set_solver|].
  cbn [fst]. destruct Hk as [->|(_ & Hlt & Hmin)]; [|split; [lia|done]]. split; [lia|]. intros y Hy. lia.
Qed.

Lemma carve_all l1 k s u l2 : s <= k -> carve l1 (Z.min k s) s u l2 = l1 ++ (s, u) :: l2.
Proof. intros Hk. unfold carve, rest. rewrite Z.min_r by done. by ztrue. Qed.

Lemma carve_part l1 k s u l2 : k < s -> carve l1 (Z.min k s) s u l2 = l1 ++ (k, u) :: (s - k, false) :: l2.
Proof. intros Hk. unfold carve, rest. rewrite Z.min_l by lia. by ztrue. Qed.

(** Splitting a free chunk: the header of the rest is written inside the chunk,
    where it is not yet a header, and the store of the size makes it one. *)
Lemma split_spec l1 s l2 k sl v bk fl lk h (Q : unit -> heap C -> Prop) :
  let i := total l1 in
  st (h_mem h) sl (l1 ++ (s, false) :: l2) v -> vol b h bk fl lk -> 0 < k < s ->
  good sl (l1 ++ (s, false) :: l2) v -> good sl (l1 ++ (k, false) :: (s - k, false) :: l2) v ->
  (forall h', st (h_mem h') sl (l1 ++ (k, false) :: (s - k, false) :: l2) v -> vol b h' bk fl lk -> h_pool h' = h_pool h -> Q tt h') ->
  wpc (write_chunk_header (hdr (i + k)) (s - k);;; set_chunk_size (hdr i) k)%stateM Q recoverable h.
Proof.
  intros i Hst Hv Hk Hg Hg' HQ. destruct (zone_at_mid _ _ _ _ _ _ _ (st_zone _ _ _ _ _ _ _ _ _ Hst)) as (Hc & Hi & _ & Hn).
  cbn [fst] in Hn. pose proof (nunits_bounds b Hb) as Hnb. unfold MAX_CHUNK in Hnb.
  assert (forall m m', st m sl (l1 ++ (s, false) :: l2) v -> same_but m m' (hdr (i + k)) 16 -> st m' sl (l1 ++ (s, false) :: l2) v) as Hin.
  { intros m m' Hm Hs. eapply st_inner; try done. fold i. lia. }
  apply wpc_bind. unfold write_chunk_header. apply wpc_bind. apply wpc_store.
  { intros m' Ht. eapply st_recoverable; [|exact Hg]. eapply Hin; [done|]. eapply same_sub; [by apply torn_same|lia|]. fold (new_header (s - k)). len. }
  fold (new_header (s - k)). set (h1 := put h _).
  assert (st (h_mem h1) sl (l1 ++ (s, false) :: l2) v) as Hst1.
  { eapply Hin; [done|]. eapply same_sub; [apply mwrite_same|lia|len]. }
  apply wpc_store.
  { intros m' Ht. eapply st_recoverable; [|exact Hg]. eapply Hin; [exact Hst1|]. eapply same_sub; [by apply torn_same|lia|len]. }
  set (h2 := put h1 _). assert (st (h_mem h2) sl (l1 ++ (s, false) :: l2) v) as Hst2.
  { eapply Hin; [exact Hst1|]. eapply same_sub; [apply mwrite_same|lia|len]. }
  assert (is_chunk (b_pool b) 0 (h_mem h2) (i + k) (s - k, false)) as Hnc by (apply is_chunk_new; lia).
  pose proof (st_split _ Hb _ Har _ _ _ Hptr _ _ _ _ _ _ _ k Hst2 Hk Hnc) as Hst3.
  unfold set_chunk_size. apply wpc_store; [|apply HQ; [exact Hst3|by apply vol_put, vol_put, vol_put|done]].
  intros m' Ht. pose proof (hdr_mod b Hb i 4 ltac:(lia)) as Hmod. replace (hdr i + (8 + 4)) with (hdr i + 12) in Hmod by lia.
  eapply (word_recoverable _ _ _ _ _ _ _ _ _ _ Ht); first [done|rewrite Hmod; len|len].
Qed.

Lemma init_obj_spec l1 s l2 k sl v bk fl lk h (Q : bucket_object -> heap C -> Prop) obj :
  let i := total l1 in let k' := Z.min k s in
  st (h_mem h) sl (l1 ++ (s, false) :: l2) v -> vol b h bk fl lk -> 0 < k ->
  unique_id obj = UID_PACK i 0 -> obj_size_idx obj = k ->
  good sl (l1 ++ (s, false) :: l2) v -> good sl (carve l1 k' s false l2) v ->
  (forall h' fl', st (h_mem h') sl (carve l1 k' s false l2) v -> vol b h' bk fl' lk -> h_pool h' = h_pool h ->
    fl' ⊆+ free_entries (i + k') (rest k' s) ++ fl ->
    Q {| real_size := u32 (k' * CHUNKSIZE); data_offset := chunk_data_off 0 i; obj_size_idx := k'; unique_id := UID_PACK i 0 |} h') ->
  wpc (init_bucket_obj obj) Q recoverable h.
Proof.
  intros i k' Hst Hv Hk Hu Hs Hg Hg' HQ. destruct (zone_at_mid _ _ _ _ _ _ _ (st_zone _ _ _ _ _ _ _ _ _ Hst)) as (Hc & Hi & Hs0 & Hn).
  cbn [fst] in Hn, Hs0. fold i in Hc, Hi, Hn. pose proof (nunits_bounds b Hb) as Hnb. assert (MAX_CHUNK = 65535) as HM by done.
  unfold init_bucket_obj. eapply wpc_step; [done|]. cbn beta. rewrite (v_backend _ _ _ _ _ Hv). unfold persistent_init_bucket_obj.
  destruct (UID_fields i) as (_ & E1 & E2); [lia|]. rewrite Hu, E1, E2, Hs.
  eapply wpc_step; [apply (chunk_at_in b Hb i); lia|]. cbn beta. eapply wpc_step; [apply load_chunk_eq|]. cbn beta.
  destruct Hc as (_ & _ & Hsz & _). cbn [fst] in Hsz. rewrite Hsz.
  assert (forall h' fl', st (h_mem h') sl (carve l1 k' s false l2) v -> vol b h' bk fl' lk -> h_pool h' = h_pool h ->
    fl' ⊆+ free_entries (i + k') (rest k' s) ++ fl ->
    wpc (c <- load_chunk (hdr i);; ret {| real_size := u32 (size_idx c * CHUNKSIZE); data_offset := chunk_data_off 0 i;
         obj_size_idx := size_idx c; unique_id := UID_PACK i 0 |})%stateM Q recoverable h') as Hend.
  { intros h' fl' Hst' Hv' Hp Hfl. eapply wpc_step; [apply load_chunk_eq|]. cbn beta. apply wpc_ret.
    destruct (zone_at_mid _ _ _ _ _ _ _ (st_zone _ _ _ _ _ _ _ _ _ Hst')) as ((_ & _ & E & _) & _). cbn [fst] in E. fold i in E.
    rewrite E. by eapply HQ. }
  destruct (Z.ltb_spec k s) as [Hlt|Hge].
  2: { apply wpc_bind, wpc_ret. apply (Hend h fl); try done.
       - unfold k'. by rewrite carve_all. 
       - by apply submseteq_inserts_l. }
  rewrite !u32_id by lia. unfold k' in *. rewrite carve_part in Hg', Hend by done.
  apply wpc_bind. eapply wpc_step; [apply (chunk_at_in b Hb (i + k)); lia|]. cbn beta.
  apply wpc_assoc.
  apply wpc_bind. eapply (split_spec l1 s l2 k); try done. intros h' Hst' Hv' Hp.
  eapply wpc_step; [apply load_chunk_eq|]. cbn beta. unfold add_chunk. eapply wpc_step; [done|]. cbn beta.
  eapply wpc_step. { change (Z.to_nat _) with 0%nat. by rewrite (proj1 (v_bucket _ _ _ _ _ Hv')). } cbn beta.
  apply wpc_bind. eapply add_object_spec; [done|]. intros ok h2 fl2 Hm2 Hp2 Hv2 Hfl2 _. apply wpc_ret.
  apply (Hend h2 fl2); [by rewrite Hm2|done|by rewrite Hp2|].
  assert (is_chunk (b_pool b) 0 (h_mem h') (i + k) (s - k, false)) as (_ & _ & E & _).
  { pose proof (st_zone _ _ _ _ _ _ _ _ _ Hst') as Hz. 
    replace (l1 ++ (k, false) :: (s - k, false) :: l2) with ((l1 ++ [(k, false)]) ++ (s - k, false) :: l2) in Hz by (by rewrite <- app_assoc).
    apply zone_at_mid in Hz as (Hz & _). rewrite total_app in Hz. cbn [total fst] in Hz. by rewrite Z.add_0_r in Hz. }
  cbn [unique_id obj_size_idx fst] in Hfl2, E. rewrite E in Hfl2. fold (entry (i + k) (s - k)) in Hfl2.
  unfold rest. rewrite Z.min_l by lia. ztrue. cbn [free_entries app]. rewrite Hfl2. destruct ok; [done|]. by apply submseteq_cons.
Qed.

Lemma entry_inj i s i' s' : 0 <= i < MAX_CHUNK -> 0 <= i' < MAX_CHUNK -> 0 <= s < 2 ^ 32 -> 0 <= s' < 2 ^ 32 ->
  (entry i s).1 = (entry i' s').1 -> i = i' /\ s = s'.
Proof.
  intros Hi Hi' Hs Hs'. unfold entry. cbn [fst]. rewrite !OBJ_KEY_eq by done.
  destruct (UID_fields i) as (-> & _); [done|]. destruct (UID_fields i') as (-> & _); [done|]. lia.
Qed.

Lemma mid_bounds m l1 s u l2 : zone_at (b_pool b) 0 m 0 (l1 ++ (s, u) :: l2) (nunits b) ->
  0 <= total l1 /\ 0 < s /\ total l1 + s <= MAX_CHUNK.
Proof. intros (_ & ? & ? & ?)%zone_at_mid. pose proof (nunits_bounds b Hb). cbn [fst] in *. lia. Qed.

Lemma free_carve l1 k s u l2 : 0 < k <= s ->
  free_entries 0 (carve l1 k s u l2) =
  free_entries 0 l1 ++ (if u then [] else [entry (total l1) k]) ++ free_entries (total l1 + k) (rest k s) ++ free_entries (total l1 + s) l2.
Proof.
  intros Hk. unfold carve. rewrite free_entries_app, Z.add_0_l. cbn [free_entries]. rewrite free_entries_app. do 4 f_equal.
  unfold rest. destruct (Z.ltb_spec k s); cbn; lia.
Qed.

Lemma get_object_spec l units sl v bk fl lk h (Q : option bucket_object * bucket_object -> heap C -> Prop) :
  st (h_mem h) sl l v -> vol b h bk fl lk -> fl ⊆+ free_entries 0 l -> 0 < units < 2 ^ 32 -> good sl l v ->
  (forall l1 s l2, l = l1 ++ (s, false) :: l2 -> good sl (carve l1 (Z.min units s) s false l2) v) ->
  (forall h' obj fl', st (h_mem h') sl l v -> vol b h' bk fl' lk -> h_pool h' = h_pool h -> fl' ⊆+ free_entries 0 l ->
    (forall l1 s l2, l = l1 ++ (s, false) :: l2 -> tried units fl (entry (total l1) s) -> s < units) -> Q (None, obj) h') ->
  (forall h' fl' l1 s l2, l = l1 ++ (s, false) :: l2 -> units <= s -> tried units fl (entry (total l1) s) ->
    st (h_mem h') sl (carve l1 units s false l2) v -> vol b h' bk fl' lk -> h_pool h' = h_pool h ->
    fl' ⊆+ free_entries 0 (carve l1 units s true l2) ->
    let obj := {| real_size := u32 (units * CHUNKSIZE); data_offset := chunk_data_off 0 (total l1);
                  obj_size_idx := units; unique_id := UID_PACK (total l1) 0 |} in Q (Some obj, obj) h') ->
  wpc (bucket_get_object bk units) Q recoverable h.
Proof.
  intros Hst Hv Hfl Hu Hg Hgc HN HS. pose proof (st_zone _ _ _ _ _ _ _ _ _ Hst) as Hz. unfold bucket_get_object.
  replace (OBJ_KEY 0 units) with units by (by rewrite OBJ_KEY_eq by lia).
  apply wpc_bind. eapply get_rm_spec; [done|..].
  { intros h' Hm Hp Hv' Hno. cbn [unique_id]. change (u32 NULL_VAL =? u32 (-1)) with true. cbn iota. apply wpc_ret.
    apply (HN h' _ fl); try done; [by rewrite Hm|]. intros l1 s l2 _ (Hin & Hle & _). apply Hno in Hin. lia. }
  intros k r h1 fl1 Hm1 Hp1 Hv1 Hperm Htried.
  destruct (free_entries_in (k, r) l 0) as (l1 & s & l2 & -> & E).
  { eapply elem_of_submseteq; [|exact Hfl]. apply Htried. }
  rewrite Z.add_0_l in E. destruct (mid_bounds _ _ _ _ _ Hz) as (Hi & Hs & Hn). rewrite E in Htried.
  injection E as -> ->. destruct (UID_fields (total l1)) as (Eu & _ & _); [lia|]. cbn [unique_id obj_size_idx].
  assert (MAX_CHUNK = 65535) as HM by done.
  replace (u32 (UID_PACK (total l1) 0)) with (UID_PACK (total l1) 0) by (rewrite Eu; symmetry; apply u32_id; lia).
  change (u32 (-1)) with 4294967295. destruct (Z.eqb_spec (UID_PACK (total l1) 0) 4294967295) as [E|_]; [rewrite Eu in E; lia|].
  assert (fl1 ⊆+ free_entries 0 l1 ++ free_entries (total l1 + s) l2) as Hfl1.
  { rewrite Hperm, free_entries_app in Hfl. cbn [free_entries app] in Hfl. rewrite Z.add_0_l in Hfl.
    apply (submseteq_app_inv_l _ _ [entry (total l1) s]). cbn [app]. etrans; [exact Hfl|]. by rewrite <- Permutation_middle. }
  apply wpc_bind. eapply (init_obj_spec l1 s l2 units); [by rewrite Hm1|done|lia|done|done|done|by apply Hgc|].
  intros h2 fl2 Hst2 Hv2 Hp2 Hfl2. cbn [obj_size_idx]. destruct (Z.leb_spec units (Z.min units s)) as [Hle|Hgt].
  - apply wpc_ret. assert (units <= s) as Hus by lia. rewrite (Z.min_l _ _ Hus) in *.
    eapply (HS h2 fl2); try done; [by rewrite Hp2|]. rewrite free_carve by lia. cbn [app].
    etrans; [exact Hfl2|]. etrans; [by apply submseteq_skips_l, Hfl1|]. rewrite !app_assoc. apply submseteq_skips_r.
    by rewrite (Permutation_app_comm (free_entries 0 l1)).
  - rewrite (Z.min_r units s) in * by lia. unfold carve, rest in Hst2. unfold rest in Hfl2.
    replace (s <? s) with false in * by (symmetry; apply Z.ltb_ge; lia). cbn [free_entries app] in Hst2, Hfl2.
    apply wpc_bind. eapply add_object_spec; [done|]. intros ok h3 fl3 Hm3 Hp3 Hv3 Hfl3 _. apply wpc_ret. cbn [unique_id obj_size_idx] in Hfl3.
    apply (HN h3 _ fl3); [by rewrite Hm3|done|by rewrite Hp3, Hp2| |].
    + rewrite free_entries_app. cbn [free_entries app]. rewrite Z.add_0_l, Hfl3. destruct ok.
      * rewrite <- Permutation_middle. apply submseteq_skip. by etrans.
      * etrans; [exact Hfl2|]. etrans; [exact Hfl1|]. apply submseteq_skips_l. by apply submseteq_cons.
    + intros l1' s' l2' E' Ht'. rewrite E' in Hz. destruct (mid_bounds _ _ _ _ _ Hz) as (Hi' & Hs' & Hn').
      destruct (entry_inj (total l1) s (total l1') s') as [_ <-]; try lia.
      destruct Htried as (Hin & Hk & Hmin), Ht' as (Hin' & Hk' & Hmin'). specialize (Hmin _ Hin'). specialize (Hmin' _ Hin). lia.
Qed.

(** ** Marking a block allocated *)

Lemma mark_spec l1 k l2 v bk fl lk h (Q : bool -> heap C -> Prop) obj :
  let i := total l1 in
  st (h_mem h) gb (l1 ++ (k, false) :: l2) v -> vol b h bk fl lk ->
  unique_id obj = UID_PACK i 0 -> 0 <= real_size obj ->
  (forall x, data_addr b i <= x < data_addr b i + real_size obj -> in_free b l0 x) ->
  good gb (l1 ++ (k, false) :: l2) v -> good gb (l1 ++ (k, true) :: l2) v ->
  (forall h', st (h_mem h') gb (l1 ++ (k, true) :: l2) v -> vol b h' bk fl lk -> h_pool h' = h_pool h ->
    (forall x, data_addr b i <= x < data_addr b i + real_size obj -> h_mem h' x = x00) -> Q true h') ->
  wpc (bucket_mark_allocated obj) Q recoverable h.
Proof.
  intros i Hst Hv Hu Hrs Hfree Hg Hg' HQ. destruct (mid_bounds _ _ _ _ _ (st_zone _ _ _ _ _ _ _ _ _ Hst)) as (Hi & Hk & Hn). fold i in Hi, Hn.
  destruct (zone_at_mid _ _ _ _ _ _ _ (st_zone _ _ _ _ _ _ _ _ _ Hst)) as (_ & _ & _ & Hn'). cbn [fst] in Hn'. fold i in Hn'.
  destruct (UID_fields i) as (_ & E1 & E2); [lia|].
  unfold bucket_mark_allocated, set_bucket_obj_state. eapply wpc_step; [done|]. cbn beta. rewrite (v_backend _ _ _ _ _ Hv).
  unfold persistent_set_bucket_obj_state. rewrite Hu, E1, E2. eapply wpc_step; [apply (chunk_at_in b Hb i); lia|]. cbn beta.
  fold (data_addr b i). apply wpc_bind. apply wpc_zero.
  - intros m' Ht. eapply st_recoverable; [|exact Hg].
    refine (st_free b Hb ar Har m0 l0 ptr Hptr Hl0 _ _ _ (real_size obj) _ _ _ Hst _ Hfree).
    eapply same_sub; [by apply torn_same|lia|rewrite length_replicate; lia].
  - set (h1 := put h _). assert (st (h_mem h1) gb (l1 ++ (k, false) :: l2) v) as Hst1.
    { refine (st_free b Hb ar Har m0 l0 ptr Hptr Hl0 _ _ _ (real_size obj) _ _ _ Hst _ Hfree). apply mzero_same. }
    eapply (set_flag_spec l1 k l2 _ _ (fun h' => vol b h' bk fl lk /\ h_pool h' = h_pool h)); [exact Hst1|split; [by apply vol_put|done]|auto with nvm|done|done|].
    intros h' Hst' [Hv' Hp] Hsame. apply HQ; [done..|]. intros x Hx. rewrite Hsame.
    + cbn [h1 put set_h_mem h_mem apply_event]. by apply mzero_in.
    + right. pose proof (hdr_below b Hb (i + 1)) as Hh. rewrite hdr_add in Hh. 
      replace i with (0 + i) in Hx at 1 by lia. rewrite data_addr_add in Hx. unfold CHUNKSIZE in Hx. fold i. lia.
Qed.

End Ops.
