(* ===== verification/PmallocTop.v ===== *)
(** PmallocTop: pmalloc and pfree as a whole: the invariant of the heap, what
    the operations do to it on every branch, and what a power failure leaves. *)

From S2P Require Import Prelude Mem Util Prog StateM Durable ObjHeap Bucket Backend Pmalloc.
From S2P Require Import BackendSpec HeapLogic BstSpec Bst HeapSpec PmallocSpec PmallocOps.

#[local] Open Scope stateM_scope.

(** The info slots are empty. *)
Definition idle (b : backend_persistent) (m : mem) : Prop :=
  forall j, 0 <= j < MAX_INFO_SLOT -> mread m (slot_addr b j) 32 = zeros 32.

(** A zone tiled by the chunks [l], no operation under way, a header that opens. *)
Record media_ok (b : backend_persistent) (m : mem) (l : list chunk) : Prop := {
  mo_zone : zone_at (b_pool b) 0 m 0 l (nunits b);
  mo_idle : idle b m;
  mo_header : header_ok b m;
}.

(** The number of units [pmalloc] looks for: one less than the size needs. *)
Definition units_of (size : Z) : Z := (size - 1) / CHUNKSIZE.

Lemma units_bounds size : CHUNKSIZE < size < 2 ^ 48 -> 0 < units_of size < 2 ^ 32.
Proof. unfold units_of. change CHUNKSIZE with 262144. intros ?. Z.div_mod_to_equations. lia. Qed.

Section Good.
Context (ptr units : Z) (l0 : list chunk).

(** What a power failure may leave during [pmalloc]: the slot, the chunks and
    the pointer. *)
Inductive pmalloc_good (gb : list byte) : list byte -> list chunk -> Z -> Prop :=
| pg_before sl : sl = zeros 32 \/ sl = gb -> pmalloc_good gb sl l0 0
| pg_split l1 s l2 sl : l0 = l1 ++ (s, false) :: l2 -> sl = zeros 32 \/ sl = gb ->
    pmalloc_good gb sl (carve l1 (Z.min units s) s false l2) 0
| pg_pointer l1 s l2 : l0 = l1 ++ (s, false) :: l2 -> units <= s ->
    pmalloc_good gb gb (carve l1 units s false l2) (chunk_data_off 0 (total l1))
| pg_after l1 s l2 sl : l0 = l1 ++ (s, false) :: l2 -> units <= s -> sl = zeros 32 \/ sl = gb ->
    pmalloc_good gb sl (carve l1 units s true l2) (chunk_data_off 0 (total l1)).

(** The same for [pfree] of the chunk between [l1] and [l2]; without room in the
    bucket the chunk is free and the pointer still leads to it. *)
Inductive pfree_good (room : Prop) (l1 : list chunk) (s : Z) (l2 : list chunk) (gb : list byte) :
  list byte -> list chunk -> Z -> Prop :=
| fg_before sl : sl = zeros 32 \/ sl = gb -> pfree_good room l1 s l2 gb sl (l1 ++ (s, true) :: l2) (chunk_data_off 0 (total l1))
| fg_freed : pfree_good room l1 s l2 gb gb (l1 ++ (s, false) :: l2) (chunk_data_off 0 (total l1))
| fg_stuck sl : ~ room -> sl = zeros 32 \/ sl = gb -> pfree_good room l1 s l2 gb sl (l1 ++ (s, false) :: l2) (chunk_data_off 0 (total l1))
| fg_after sl : sl = zeros 32 \/ sl = gb -> pfree_good room l1 s l2 gb sl (l1 ++ (s, false) :: l2) 0.
End Good.

Section Top.
Context (e : obj_env) {C : Type} `{ContainerLaws C} `{BucketMalloc} (b : backend_persistent) (Hb : pool_ok b).
Implicit Type h : heap C.

(** The invariant of an open heap with the chunks [l] and the bucket [fl]. *)
Record heap_ok h (l : list chunk) (fl : list (Z * Z)) : Prop := {
  ho_media : media_ok b (h_mem h) l;
  ho_vol : exists bk, vol b h bk fl None;
  ho_free : fl ⊆+ free_entries 0 l;
}.

Section Alloc.
Context (ar : Z) (Har : 0 <= ar < 10) (m0 : mem) (l0 : list chunk) (ptr : Z) (Hptr : ptr_ok b l0 ptr).
Context (Hl0 : zone_at (b_pool b) 0 m0 0 l0 (nunits b)).
Context (size : Z) (Hsize : CHUNKSIZE < size < 2 ^ 48).
Abbreviation st := (st b ar m0 l0 ptr).
Abbreviation units := (units_of size).
Abbreviation gb := (guard_bytes b GUARD_TYPE_MALLOC ptr 0).
Abbreviation good := (pmalloc_good units l0 gb).
Abbreviation R := (recoverable b ar m0 l0 ptr good gb).

(** The block that is found, and its data set to zero. *)
Definition allocated (fl : list (Z * Z)) (m : mem) (l1 : list chunk) (s : Z) (l2 : list chunk) : Prop :=
  l0 = l1 ++ (s, false) :: l2 /\ units <= s /\ tried units fl (entry (total l1) s) /\
  forall x, data_addr b (total l1) <= x < data_addr b (total l1) + u32 (units * CHUNKSIZE) -> m x = x00.

Definition not_found (fl : list (Z * Z)) : Prop :=
  forall l1 s l2, l0 = l1 ++ (s, false) :: l2 -> tried units fl (entry (total l1) s) -> s < units.

(** What [pmalloc] does to slot, chunks, bucket and pointer. *)
Definition pmalloc_post (fl : list (Z * Z)) (bk : Z) (sl : list byte) (lk : option Z) (h : heap C) : Prop :=
  exists l fl' v, st (h_mem h) sl l v /\ vol b h bk fl' lk /\ fl' ⊆+ free_entries 0 l /\ good (zeros 32) l v /\ good gb l v /\
    (l = l0 /\ v = 0 /\ not_found fl \/
     exists l1 s l2, allocated fl (h_mem h) l1 s l2 /\ l = carve l1 units s true l2 /\ v = chunk_data_off 0 (total l1)).

Lemma carve_in_free l1 s l2 x : l0 = l1 ++ (s, false) :: l2 -> units <= s ->
  data_addr b (total l1) <= x < data_addr b (total l1) + u32 (units * CHUNKSIZE) -> in_free b l0 x.
Proof.
  intros E Hs Hx. exists l1, s, l2. split; [done|]. rewrite data_addr_add.
  assert (u32 (units * CHUNKSIZE) <= units * CHUNKSIZE).
  { pose proof (units_bounds size Hsize). apply Z.mod_le; [unfold CHUNKSIZE; lia|done]. }
  unfold CHUNKSIZE in *. lia.
Qed.

Lemma alloc_from_bucket_spec h bk fl (Q : bucket_object -> heap C -> Prop) :
  st (h_mem h) gb l0 0 -> vol b h bk fl (Some ar) -> present h ar -> fl ⊆+ free_entries 0 l0 ->
  (forall obj h', pmalloc_post fl bk gb (Some ar) h' -> present h' ar -> Q obj h') ->
  wpc (alloc_from_bucket bk ptr size) Q R h.
Proof.
  intros Hst Hv Hp Hfl HQ. pose proof (units_bounds size Hsize) as Hu. destruct (v_objects _ _ _ _ _ Hv) as (c & Hbk & _).
  unfold alloc_from_bucket. apply (wpc_step _ _ _ _ _ units).
  { unfold bucket_calc_units, bucket_at. unfold bindM, getM. rewrite Hbk. cbn [validM ret unit_size].
    rewrite u64_id by (unfold CHUNKSIZE in *; lia). rewrite u32_id; [done|]. fold (units_of size). lia. }
  apply wpc_bind. eapply (get_object_spec _ Hb _ Har); try done.
  { apply pg_before. by right. }
  { intros l1 s l2 E. eapply pg_split; [done|by right]. }
  { intros h' obj fl' Hst' Hv' Hpool Hfl' Hno. apply wpc_ret. apply HQ; [|unfold present; by rewrite Hpool].
    exists l0, fl', 0. split_and!; try done; [apply pg_before; by left|apply pg_before; by right|by left]. }
  intros h1 fl' l1 s l2 E Hs Ht Hst1 Hv1 Hp1 Hfl' obj. cbn beta iota. apply wpc_bind. subst obj. cbn [data_offset].
  assert (0 <= total l1 /\ 0 < s /\ total l1 + s <= MAX_CHUNK) as Hmb by (rewrite E in Hl0; by eapply mid_bounds).
  eapply (set_ptr_spec _ Hb _ Har); try done.
  { unfold chunk_data_off, zone_off, SIZEOF_HDR, SIZEOF_SLOT, MAX_INFO_SLOT, SIZEOF_CHUNK_HDR, MAX_CHUNK in *. change CHUNKSIZE with 262144. lia. }
  { replace (carve l1 units s false l2) with (carve l1 (Z.min units s) s false l2) by (by rewrite Z.min_l). eapply pg_split; [done|by right]. }
  { by eapply pg_pointer. }
  intros h2 Hst2 Hv2 Hp2 _. apply wpc_bind. eapply (mark_spec _ Hb _ Har m0 l0 ptr Hptr Hl0 _ _ l1 units (rest units s ++ l2)); try done.
  { cbn. apply u32_range. }
  { intros x Hx. by eapply carve_in_free. }
  { by eapply pg_pointer. }
  { eapply pg_after; [done|done|by right]. }
  intros h3 Hst3 Hv3 Hp3 Hz. apply wpc_ret. apply HQ; [|unfold present; by rewrite Hp3, Hp2, Hp1].
  exists (carve l1 units s true l2), fl', (chunk_data_off 0 (total l1)). split_and!; try done.
  - eapply pg_after; [done|done|by left].
  - eapply pg_after; [done|done|by right].
  - right. exists l1, s, l2. done.
Qed.

Lemma slot_below : slot_addr b ar + 32 <= data_addr b 0.
Proof. rewrite slot_addr_eq, data_addr_0. lia. Qed.

Lemma pmalloc_body_spec h bk fl (Q : unit -> heap C -> Prop) :
  st (h_mem h) (zeros 32) l0 0 -> vol b h bk fl None -> present h ar -> fl ⊆+ free_entries 0 l0 ->
  (forall h', pmalloc_post fl bk (zeros 32) None h' -> Q tt h') ->
  wpc (arena_guard_up ar ptr GUARD_TYPE_MALLOC ;;;
       bk <- arena_select_bucket ar size ;;
       (if bk =? 0 then ret tt else alloc_from_bucket bk ptr size ;;; ret tt) ;;;
       arena_guard_down ar) Q R h.
Proof.
  intros Hst Hv Hp Hfl HQ. apply wpc_bind.
  eapply (guard_up_spec _ Hb _ Har); try done; [apply pg_before; by left|apply pg_before; by right|].
  intros h1 Hst1 Hv1 Hp1. destruct (arena_at_ok b _ _ _ _ _ Hv1 Hp1) as (a & Ea & Hin & Eid & Elk & Ebk).
  destruct (v_bucket _ _ _ _ _ Hv1) as [_ Hne].
  eapply wpc_step.
  { unfold arena_select_bucket. erewrite bindM_inr by exact Ea. erewrite bindM_inr by (change (Z.to_nat _) with 0%nat; by rewrite Ebk).
    by rewrite (proj2 (Z.eqb_neq bk 0) Hne). }
  cbn beta. rewrite (proj2 (Z.eqb_neq bk 0) Hne). apply wpc_bind. apply wpc_bind.
  eapply alloc_from_bucket_spec; try done. intros obj h2 (l & fl' & v & Hst2 & Hv2 & Hfl2 & Hg1 & Hg2 & Hcase) Hp2. apply wpc_ret.
  eapply (guard_down_spec _ Hb _ Har); try done. intros h3 Hst3 Hv3 Hsame. apply HQ.
  exists l, fl', v. split_and!; try done. destruct Hcase as [?|(l1 & s & l2 & Hal & El & Ev)]; [by left|right].
  exists l1, s, l2. split_and!; try done. destruct Hal as (E & ? & ? & Hz). split_and!; try done. intros x Hx.
  rewrite Hsame; [by apply Hz|]. right. pose proof slot_below. rewrite E in Hl0.
  destruct (mid_bounds b Hb _ _ _ _ _ Hl0) as (? & _). rewrite <- (Z.add_0_l (total l1)), data_addr_add in Hx. unfold CHUNKSIZE in Hx. lia.
Qed.
End Alloc.

(** ** pfree *)

Section Free.
Context (ar : Z) (Har : 0 <= ar < 10) (m0 : mem) (l1 : list chunk) (s : Z) (l2 : list chunk).
Abbreviation l0 := (l1 ++ (s, true) :: l2).
Abbreviation lf := (l1 ++ (s, false) :: l2).
Abbreviation v0 := (chunk_data_off 0 (total l1)).
Context (ptr : Z) (Hptr : ptr_ok b l0 ptr) (Hl0 : zone_at (b_pool b) 0 m0 0 l0 (nunits b)).
Context (fl : list (Z * Z)) (Hfl : fl ⊆+ free_entries 0 l0).
Abbreviation st := (st b ar m0 l0 ptr).
Abbreviation gb := (guard_bytes b GUARD_TYPE_FREE ptr v0).
Abbreviation good := (pfree_good (has_room fl) l1 s l2 gb).
Abbreviation R := (recoverable b ar m0 l0 ptr good gb).

Lemma free_pos : 0 <= total l1 /\ 0 < s /\ total l1 + s <= MAX_CHUNK.
Proof. by eapply mid_bounds. Qed.

Lemma locate_spec h sl bk lk : st (h_mem h) sl l0 v0 -> vol b h bk fl lk ->
  bucket_object_locate v0 h = inr (Some {| real_size := u32 (CHUNKSIZE * s); data_offset := v0; obj_size_idx := s;
    unique_id := UID_PACK (total l1) 0 |}, h).
Proof.
  intros Hst Hv. unfold bucket_object_locate, locate_bucket_obj. erewrite bindM_inr by reflexivity. rewrite (v_backend _ _ _ _ _ Hv).
  destruct free_pos as (Hi & Hs & Hn). unfold persistent_locate_bucket_obj. rewrite chunk_of_data_off by lia.
  destruct (zone_at_mid _ _ _ _ _ _ _ (st_zone _ _ _ _ _ _ _ _ _ Hst)) as ((Hm & _ & Hsz & Hu) & _ & _ & Hn'). cbn [fst snd] in *.
  erewrite bindM_inr by (apply (chunk_at_in b Hb); lia). erewrite bindM_inr by apply load_chunk_eq.
  rewrite Hm, Hu, Hsz. done.
Qed.

(** What [pfree] leaves: the chunk is free and, when the bucket had room, in the
    bucket, with the pointer cleared. *)
Definition pfree_post (bk : Z) (h : heap C) : Prop :=
  exists fl' v, st (h_mem h) (zeros 32) lf v /\ vol b h bk fl' None /\ fl' ⊆+ free_entries 0 lf /\
    (v = 0 /\ fl' ≡ₚ entry (total l1) s :: fl \/ ~ has_room fl /\ v = v0 /\ fl' ≡ₚ fl).

Lemma free_entries_freed : fl ⊆+ free_entries 0 l1 ++ free_entries (total l1 + s) l2.
Proof. pose proof Hfl as Hf. rewrite free_entries_app in Hf. cbn [free_entries app] in Hf. by rewrite Z.add_0_l in Hf. Qed.

Lemma recycle_spec h bk (Q : bool -> heap C -> Prop) :
  st (h_mem h) gb l0 v0 -> vol b h bk fl (Some ar) -> present h ar ->
  (forall ok h' fl', st (h_mem h') gb lf v0 -> vol b h' bk fl' (Some ar) -> present h' ar ->
    fl' ≡ₚ (if ok : bool then entry (total l1) s :: fl else fl) -> (ok = false -> ~ has_room fl) -> Q ok h') ->
  wpc (pool_recycle_object {| real_size := u32 (CHUNKSIZE * s); data_offset := v0; obj_size_idx := s; unique_id := UID_PACK (total l1) 0 |}) Q R h.
Proof.
  intros Hst Hv Hp HQ. destruct free_pos as (Hi & Hs & Hn). destruct (UID_fields (total l1)) as (Eu & E1 & E2); [lia|].
  assert (MAX_CHUNK = 65535) as HM by done. destruct (v_bucket _ _ _ _ _ Hv) as [Hbk Hne].
  destruct (zone_at_mid _ _ _ _ _ _ _ (st_zone _ _ _ _ _ _ _ _ _ Hst)) as (_ & _ & _ & Hn'). cbn [fst] in Hn'.
  unfold pool_recycle_object. eapply wpc_step; [done|]. cbn beta. eapply (wpc_step _ _ _ _ _ bk).
  { change (Z.to_nat _) with 0%nat. by rewrite Hbk. }
  rewrite (proj2 (Z.eqb_neq bk 0) Hne). apply wpc_bind, wpc_ret. rewrite (proj2 (Z.eqb_neq bk 0) Hne).
  apply wpc_bind. unfold set_bucket_obj_state. eapply wpc_step; [done|]. cbn beta. rewrite (v_backend _ _ _ _ _ Hv).
  unfold persistent_set_bucket_obj_state. cbn [unique_id]. rewrite E1, E2. eapply wpc_step; [apply (chunk_at_in b Hb); lia|]. cbn beta.
  eapply (clear_flag_spec b Hb ar Har m0 l0 ptr Hptr good gb l1 s l2 gb v0 (fun h' => vol b h' bk fl (Some ar) /\ h_pool h' = h_pool h));
    [done|done|intros ?? []; split; [by apply vol_put|done]|apply fg_before; by right|apply fg_freed|].
  intros h1 Hst1 [Hv1 Hp1] _. cbn [negb]. change (u32 (-1)) with 4294967295.
  destruct (Z.eqb_spec (UID_PACK (total l1) 0) 4294967295) as [E|_]; [rewrite Eu in E; lia|]. cbn [negb].
  eapply add_object_spec; [done|]. intros ok h2 fl2 Hm2 Hp2 Hv2 Hfl2 Hok. eapply HQ; try done; [by rewrite Hm2|].
  unfold present. by rewrite Hp2, Hp1.
Qed.

Lemma pfree_body_spec h bk (Q : unit -> heap C -> Prop) :
  st (h_mem h) (zeros 32) l0 v0 -> vol b h bk fl None -> present h ar ->
  (forall h', pfree_post bk h' -> Q tt h') ->
  wpc (r <- bucket_object_locate v0 ;;
       match r with
       | None => ret tt
       | Some obj =>
           arena_guard_up ar ptr GUARD_TYPE_FREE ;;;
           ok <- pool_recycle_object obj ;;
           (if ok : bool then set_alloc_ptr ptr NULL_OFFSET else ret tt) ;;;
           arena_guard_down ar
       end) Q R h.
Proof.
  intros Hst Hv Hp HQ. eapply wpc_step; [by eapply locate_spec|]. cbn beta iota. apply wpc_bind.
  eapply (guard_up_spec _ Hb _ Har); try done; [apply fg_before; by left|apply fg_before; by right|].
  intros h1 Hst1 Hv1 Hp1. apply wpc_bind. eapply recycle_spec; [done..|]. intros ok h2 fl2 Hst2 Hv2 Hp2 Hfl2 Hok.
  assert (fl2 ⊆+ free_entries 0 lf) as Hsub.
  { rewrite Hfl2, free_entries_app. cbn [free_entries app]. rewrite Z.add_0_l, <- Permutation_middle. pose proof free_entries_freed.
    destruct ok; [by apply submseteq_skip|by apply submseteq_cons]. }
  apply wpc_bind. destruct ok.
  - eapply (set_ptr_spec _ Hb _ Har); try done; [apply fg_freed|apply fg_after; by right|].
    intros h3 Hst3 Hv3 Hp3 _. eapply (guard_down_spec _ Hb _ Har); try done; [unfold present; by rewrite Hp3|apply fg_after; by left|apply fg_after; by right|].
    intros h4 Hst4 Hv4 _. apply HQ. exists fl2, 0. split_and!; try done. by left.
  - apply wpc_ret. eapply (guard_down_spec _ Hb _ Har); try done; [apply fg_stuck; [by apply Hok|by left]|apply fg_freed|].
    intros h4 Hst4 Hv4 _. apply HQ. exists fl2, v0. split_and!; try done. right. split_and!; [by apply Hok|done|done].
Qed.
End Free.
End Top.
