(* ===== verification/PmallocRecover.v ===== *)
(** PmallocRecover: opening a pool: recovery of the info slots and filling the
    bucket. *)

From S2P Require Import Prelude Mem Util Prog StateM Durable ObjHeap Bucket Backend Pmalloc.
From S2P Require Import BackendSpec HeapLogic BstSpec Bst HeapSpec PmallocSpec PmallocOps.
From S2P Require Import PmallocTop.

#[local] Open Scope stateM_scope.

Section Recover.
Context {C : Type} `{ContainerLaws C} `{BucketMalloc} (b : backend_persistent) (Hb : pool_ok b).
Context (ar : Z) (Har : 0 <= ar < 10) (m0 : mem) (l0 : list chunk) (ptr : Z) (Hptr : ptr_ok b l0 ptr).
Context (Hl0 : zone_at (b_pool b) 0 m0 0 l0 (nunits b)).
Context (good : list byte -> list chunk -> Z -> Prop) (gb : list byte).
Implicit Type h : heap C.
Abbreviation st := (st b ar m0 l0 ptr).
Abbreviation sa := (slot_addr b ar).
Abbreviation hdr := (hdr (b_pool b) 0).
Abbreviation R := (recoverable b ar m0 l0 ptr good gb).

(** ** One slot *)

Lemma slot_field k (o : nat) m j bs : mread m (slot_addr b j) 32 = bs -> (o + k <= 32)%nat ->
  get_le k m (slot_addr b j + Z.of_nat o) = le_at bs o k.
Proof. intros <- Ho. rewrite le_at_mread by lia. done. Qed.

Lemma slot_type m j bs : mread m (slot_addr b j) 32 = bs -> get32 m (slot_addr b j) = le_at bs 0 4.
Proof. intros E. rewrite <- (slot_field 4 0 m j bs E), Z.add_0_r by lia. done. Qed.

Lemma slot_noop j h : mread (h_mem h) (slot_addr b j) 32 = zeros 32 -> recover_info_slot b (b_pool b + slot_off j) h = inr (tt, h).
Proof.
  intros E. fold (slot_addr b j).
  assert (load 4 (slot_addr b j) h = inr (0, h)) as E1.
  { unfold load, bindM, getM, ret. rewrite (slot_type _ _ _ E). done. }
  assert (load_bytes (slot_addr b j + 4) INFO_SLOT_DATA_SIZE h = inr (zeros 28, h)) as E2.
  { unfold load_bytes, bindM, getM, ret. rewrite <- (mread_sub (h_mem h) (slot_addr b j) 32 4) by (unfold INFO_SLOT_DATA_SIZE; lia).
    by rewrite E. }
  unfold recover_info_slot. rewrite (bindM_inr _ _ _ _ _ E1), (bindM_inr _ _ _ _ _ E2).
  by rewrite bool_decide_eq_true_2.
Qed.

Lemma ptr_back : u64 (u64 (ptr - b_pool b) + b_pool b) = ptr.
Proof.
  unfold u64. rewrite Z.add_mod_idemp_l by done. replace (ptr - b_pool b + b_pool b) with ptr by lia.
  apply Z.mod_small. pose proof (pt_range _ _ _ Hptr). lia.
Qed.

Section Slot.
Context (P : heap C -> Prop) (HP : volatile P).

(** The test and the dispatch of [recover_info_slot] on a guard. *)
Lemma recover_dispatch h l v t (Q : unit -> heap C -> Prop) :
  st (h_mem h) gb l v -> gb = guard_bytes b t ptr 0 -> t <> GUARD_TYPE_REALLOC ->
  wpc (match t with GUARD_TYPE_MALLOC => recover_slot_alloc b sa | _ => recover_slot_free b sa end) Q R h ->
  wpc (recover_info_slot b sa) Q R h.
Proof.
  intros Hst Hgb Hne Hw. pose proof (st_slot _ _ _ _ _ _ _ _ _ Hst) as Es. unfold recover_info_slot.
  eapply wpc_step; [done|]. eapply wpc_step; [done|]. cbn beta.
  assert (le_at gb 0 4 = match t with GUARD_TYPE_MALLOC => INFO_SLOT_TYPE_ALLOC | _ => INFO_SLOT_TYPE_FREE end) as E.
  { rewrite Hgb. destruct t; [|done|]; unfold guard_bytes; rewrite le_at_app_l by (rewrite length_le_enc; lia); by rewrite le_at_enc. }
  rewrite (slot_type _ _ _ Es), E. destruct t; [|done|]; exact Hw.
Qed.

(** The address in the slot is that of the pointer. *)
Lemma slot_address h l v t : st (h_mem h) gb l v -> gb = guard_bytes b t ptr 0 ->
  u64 (get64 (h_mem h) (sa + 8) + b_pool b) = ptr.
Proof.
  intros Hst ->. pose proof (st_slot _ _ _ _ _ _ _ _ _ Hst) as Es.
  change (sa + 8) with (sa + Z.of_nat 8). rewrite (slot_field 8 8 _ _ _ Es) by lia. rewrite <- ptr_back at 2. do 2 f_equal.
  unfold guard_bytes, zeros. destruct t; field; apply Z.mod_small, u64_range.
Qed.

Lemma chunk_of_pointer h l1 s u l2 sl v : st (h_mem h) sl (l1 ++ (s, u) :: l2) v ->
  get_chunk_by_offset b (chunk_data_off 0 (total l1)) h = inr (hdr (total l1), h) /\ chunk_data_off 0 (total l1) <> 0.
Proof.
  intros Hst. destruct (zone_at_mid _ _ _ _ _ _ _ (st_zone _ _ _ _ _ _ _ _ _ Hst)) as (_ & ? & ? & ?). cbn [fst] in *.
  pose proof (nunits_bounds b Hb). split.
  - unfold get_chunk_by_offset. rewrite chunk_of_data_off by lia. apply (chunk_at_in b Hb). lia.
  - unfold chunk_data_off, zone_off, SIZEOF_HDR, SIZEOF_SLOT, MAX_INFO_SLOT, SIZEOF_CHUNK_HDR, MAX_CHUNK, CHUNKSIZE. lia.
Qed.

(** An allocation under way is undone. *)
Lemma recover_alloc_null h l (Q : unit -> heap C -> Prop) :
  st (h_mem h) gb l 0 -> P h -> gb = guard_bytes b GUARD_TYPE_MALLOC ptr 0 -> good (zeros 32) l 0 -> good gb l 0 ->
  (forall h', st (h_mem h') (zeros 32) l 0 -> P h' -> Q tt h') ->
  wpc (recover_slot_alloc b sa) Q R h.
Proof.
  intros Hst Hp Hgb Hz Hg HQ. unfold recover_slot_alloc. eapply wpc_step; [done|]. cbn beta.
  rewrite (slot_address _ _ _ _ Hst Hgb). eapply wpc_step; [done|]. cbn beta. rewrite (st_ptr _ _ _ _ _ _ _ _ _ Hst). cbn [Z.eqb negb].
  apply wpc_bind, wpc_ret. eapply (zero_slot_spec b Hb ar Har m0 l0 ptr Hptr good gb P); try done; [by right|]. intros h' ???. by apply HQ.
Qed.

Lemma recover_alloc_chunk h l1 s u l2 (Q : unit -> heap C -> Prop) :
  let v := chunk_data_off 0 (total l1) in
  st (h_mem h) gb (l1 ++ (s, u) :: l2) v -> P h -> gb = guard_bytes b GUARD_TYPE_MALLOC ptr 0 ->
  good gb (l1 ++ (s, u) :: l2) v -> good gb (l1 ++ (s, false) :: l2) v ->
  good gb (l1 ++ (s, false) :: l2) 0 -> good (zeros 32) (l1 ++ (s, false) :: l2) 0 ->
  (forall h', st (h_mem h') (zeros 32) (l1 ++ (s, false) :: l2) 0 -> P h' -> Q tt h') ->
  wpc (recover_slot_alloc b sa) Q R h.
Proof.
  intros v Hst Hp Hgb Hg1 Hg2 Hg3 Hg4 HQ. unfold recover_slot_alloc. eapply wpc_step; [done|]. cbn beta.
  rewrite (slot_address _ _ _ _ Hst Hgb). eapply wpc_step; [done|]. cbn beta. rewrite (st_ptr _ _ _ _ _ _ _ _ _ Hst).
  destruct (chunk_of_pointer _ _ _ _ _ _ _ Hst) as [Ec Hv]. fold v in Ec, Hv. rewrite (proj2 (Z.eqb_neq v 0) Hv). cbn [negb].
  apply wpc_bind. eapply wpc_step; [exact Ec|]. cbn beta.
  assert (forall h', st (h_mem h') gb (l1 ++ (s, false) :: l2) v -> P h' ->
    wpc (store_persist ptr (le_enc 8 NULL_OFFSET)) (fun _ => wpc (pmemzero sa SIZEOF_SLOT) Q R) R h') as Hend.
  { intros h' Hst' Hp'. eapply (store_ptr_spec b Hb ar Har m0 l0 ptr Hptr good gb P NULL_OFFSET); try done.
    intros h2 Hst2 Hp2 _. eapply (zero_slot_spec b Hb ar Har m0 l0 ptr Hptr good gb P); try done; [by right|]. intros h3 ???. by apply HQ. }
  apply wpc_bind. destruct u.
  - eapply (clear_flag_spec b Hb ar Har m0 l0 ptr Hptr good gb l1 s l2 gb v P); try done. intros h' ???. by apply Hend.
  - destruct (zone_at_mid _ _ _ _ _ _ _ (st_zone _ _ _ _ _ _ _ _ _ Hst)) as (Hc & _). pose proof (clear_flag_eq b _ _ _ h Hc) as E.
    cbn [snd] in E. eapply wpc_pure; [exact E|done|done|]. by apply Hend.
Qed.

(** A release that did not get to the pointer is undone, one that did is done. *)
Lemma recover_free_null h l (Q : unit -> heap C -> Prop) :
  st (h_mem h) gb l 0 -> P h -> gb = guard_bytes b GUARD_TYPE_FREE ptr 0 -> good (zeros 32) l 0 -> good gb l 0 ->
  (forall h', st (h_mem h') (zeros 32) l 0 -> P h' -> Q tt h') ->
  wpc (recover_slot_free b sa) Q R h.
Proof.
  intros Hst Hp Hgb Hz Hg HQ. unfold recover_slot_free. eapply wpc_step; [done|]. cbn beta.
  rewrite (slot_address _ _ _ _ Hst Hgb). eapply wpc_step; [done|]. cbn beta. rewrite (st_ptr _ _ _ _ _ _ _ _ _ Hst). cbn [Z.eqb negb].
  apply wpc_bind, wpc_ret. eapply (zero_slot_spec b Hb ar Har m0 l0 ptr Hptr good gb P); try done; [by right|]. intros h' ???. by apply HQ.
Qed.

Lemma recover_free_chunk h l1 s u l2 (Q : unit -> heap C -> Prop) :
  let v := chunk_data_off 0 (total l1) in
  st (h_mem h) gb (l1 ++ (s, u) :: l2) v -> P h -> gb = guard_bytes b GUARD_TYPE_FREE ptr 0 ->
  good gb (l1 ++ (s, u) :: l2) v -> good gb (l1 ++ (s, true) :: l2) v -> good (zeros 32) (l1 ++ (s, true) :: l2) v ->
  (forall h', st (h_mem h') (zeros 32) (l1 ++ (s, true) :: l2) v -> P h' -> Q tt h') ->
  wpc (recover_slot_free b sa) Q R h.
Proof.
  intros v Hst Hp Hgb Hg1 Hg2 Hg3 HQ. unfold recover_slot_free. eapply wpc_step; [done|]. cbn beta.
  rewrite (slot_address _ _ _ _ Hst Hgb). eapply wpc_step; [done|]. cbn beta. rewrite (st_ptr _ _ _ _ _ _ _ _ _ Hst).
  destruct (chunk_of_pointer _ _ _ _ _ _ _ Hst) as [Ec Hv]. fold v in Ec, Hv. rewrite (proj2 (Z.eqb_neq v 0) Hv). cbn [negb].
  apply wpc_bind. eapply wpc_step; [exact Ec|]. cbn beta.
  assert (forall h', st (h_mem h') gb (l1 ++ (s, true) :: l2) v -> P h' -> wpc (pmemzero sa SIZEOF_SLOT) Q R h') as Hend.
  { intros h' Hst' Hp'. eapply (zero_slot_spec b Hb ar Har m0 l0 ptr Hptr good gb P); try done; [by right|]. intros h3 ???. by apply HQ. }
  apply wpc_bind. destruct u.
  - destruct (zone_at_mid _ _ _ _ _ _ _ (st_zone _ _ _ _ _ _ _ _ _ Hst)) as (Hc & _). pose proof (set_flag_eq b _ _ _ h Hc) as E.
    cbn [snd] in E. eapply wpc_pure; [exact E|done|done|]. apply wpc_ret. by apply Hend.
  - eapply (set_flag_spec b Hb ar Har m0 l0 ptr Hptr good gb l1 s l2 gb v P); try done. intros h' ???. apply wpc_ret. by apply Hend.
Qed.

(** ** The header *)

Lemma agree_verify m m' : agree m' m (b_pool b) SIZEOF_HDR -> verify_header m' (b_pool b) = verify_header m (b_pool b).
Proof. intros Ha. unfold verify_header. by rewrite (mread_agree m' m). Qed.

Lemma header_agree m m' : agree m' m (b_pool b) SIZEOF_HDR -> header_ok b m -> header_ok b m'.
Proof.
  intros Ha. unfold header_ok. rewrite (agree_verify _ _ Ha). unfold SIZEOF_HDR in Ha.
  rewrite !(get_le_agree _ m' m); [done|..]; (eapply agree_sub; [exact Ha|..]);
    unfold HDR_STATE, HDR_SIZE, HDR_MAJOR, HDR_CHUNK_SIZE, HDR_CHUNKS_PER_ZONE; lia.
Qed.

Lemma backup_spec sl l v h (Q : unit -> heap C -> Prop) :
  st (h_mem h) sl l v -> P h -> good sl l v ->
  (forall h', st (h_mem h') sl l v -> P h' -> Q tt h') -> wpc (write_backup_pool_headers b) Q R h.
Proof.
  intros Hst Hp Hg HQ. unfold write_backup_pool_headers. rewrite (po_zones _ Hb). change (seqZ 0 1) with [0]. cbn [forM].
  apply wpc_bind. unfold copy_header, pmemcpy. eapply wpc_step; [done|]. cbn beta.
  assert (b_pool b + zone_off 0 = b_pool b + 33792) as -> by done.
  assert (forall m', same_but (h_mem h) m' (b_pool b + 33792) 1024 -> st m' sl l v) as Hst'.
  { intros m' Hs. pose proof (ptr_outside b l0 ptr Hptr) as Ho. pose proof (data_addr_0 b). eapply (st_agree b ar Har m0 l0 ptr); [done|..].
    - eapply same_agree; [done|lia].
    - eapply same_agree; [done|]. rewrite hdr_eq. lia.
    - eapply same_agree; [done|lia].
    - intros x Hx. apply (foreign_meta b l0) in Hx. apply Hs. lia. }
  apply wpc_store.
  - intros m' Ht. eapply st_recoverable; [|exact Hg]. apply Hst'. eapply same_sub; [by apply torn_same|lia|]. rewrite length_mread. done.
  - apply wpc_ret. apply HQ; [|by apply HP]. apply Hst'. eapply same_sub; [apply mwrite_same|lia|]. rewrite length_mread. done.
Qed.

(** Opening a pool that was not closed: the slots are recovered one by one. *)
Lemma open_spec h sl l v l' v' (Q : bool -> heap C -> Prop) :
  st (h_mem h) sl l v -> P h -> header_ok b m0 -> good (zeros 32) l' v' ->
  (forall h, st (h_mem h) sl l v -> P h -> wpc (recover_info_slot b sa) (fun _ h' => st (h_mem h') (zeros 32) l' v' /\ P h') R h) ->
  (forall h', st (h_mem h') (zeros 32) l' v' -> P h' -> Q true h') ->
  wpc (open_pmem_storage b) Q R h.
Proof.
  intros Hst Hp Hh Hg Hrec HQ. assert (header_ok b (h_mem h)) as (E1 & E2 & E3 & E4 & E5 & E6) by (eapply header_agree; [apply Hst|done]).
  unfold open_pmem_storage. eapply wpc_step; [done|]. cbn beta. rewrite E1. apply wpc_bind, wpc_ret.
  eapply wpc_step. { unfold can_open_pool, bindM, getM, ret. cbn [h_mem]. by rewrite E3, E4, E5, E6, !Z.eqb_refl. } cbn beta iota.
  unfold enter_pool. eapply (wpc_step _ _ _ _ _ POOL_STATE_OPEN); [by unfold get_pool_state, load, bindM, getM, ret; rewrite E2|].
  cbn [Z.eqb POOL_STATE_CLOSED POOL_STATE_OPEN Pos.eqb]. apply wpc_bind.
  apply (wpc_forM (fun rest h => (ar ∈ rest /\ st (h_mem h) sl l v \/ st (h_mem h) (zeros 32) l' v') /\ P h)).
  - split; [|done]. left. split; [apply elem_of_seqZ; unfold MAX_INFO_SLOT; lia|done].
  - intros i rest h1 Hi%elem_of_seqZ [Hcase Hp1]. destruct Hcase as [[Hin Hst1]|Hst1].
    + apply elem_of_cons in Hin as [<-|Hin].
      * eapply wpc_mono; [by apply Hrec|]. cbn. intros _ h2 [? ?]. split; [by right|done].
      * destruct (decide (i = ar)) as [->|Hne].
        -- eapply wpc_mono; [by apply Hrec|]. cbn. intros _ h2 [? ?]. split; [by right|done].
        -- eapply wpc_pure; [apply slot_noop; apply (st_slots _ _ _ _ _ _ _ _ _ Hst1); [lia|done]|done|done|]. split; [by left|done].
    + eapply wpc_pure; [|done|done|split; [by right|done]]. apply slot_noop. destruct (decide (i = ar)) as [->|Hne].
      * apply (st_slot _ _ _ _ _ _ _ _ _ Hst1).
      * apply (st_slots _ _ _ _ _ _ _ _ _ Hst1); [lia|done].
  - intros h1 [[[Hin _]|Hst1] Hp1]; [by apply elem_of_nil in Hin|]. apply wpc_bind. eapply backup_spec; try done.
    intros h2 Hst2 Hp2. apply wpc_ret. by apply HQ.
Qed.
End Slot.
End Recover.
