(* ===== verification/PmallocOpen.v ===== *)
(** PmallocOpen: pool_open on a pool that was not closed: the slots are
    recovered, the bucket class is registered, and the free chunks of the zone
    are put in the bucket. *)

From S2P Require Import Prelude Mem Util Prog StateM Durable ObjHeap Bucket Backend Pmalloc.
From S2P Require Import BackendSpec HeapLogic BstSpec Bst HeapSpec PmallocSpec PmallocOps.
From S2P Require Import PmallocTop PmallocRecover.

#[local] Open Scope stateM_scope.

(** The backend of a pool that is being opened, and once the bucket is filled. *)
Definition opened (pmem : bool) (pool size : Z) : backend_persistent :=
  {| b_pool := pool; pool_size := size; max_zone := get_max_zones size; is_pmem := pmem; zones_exhausted := 0 |}.
Definition filled (pmem : bool) (pool size : Z) : backend_persistent := set_zones_exhausted (opened pmem pool size) 1.

Lemma get_max_zones_one size : ZONE_MIN_SIZE < size < 1049584 + 65536 * CHUNKSIZE -> get_max_zones size = 1.
Proof.
  assert (zone_max_size = 34360263664) as HZ by (by vm_compute). assert (ZONE_MIN_SIZE = 8388608) as HM by done.
  change CHUNKSIZE with 262144. intros Hs. unfold get_max_zones.
  rewrite HZ, Z.div_small by lia. change (Z.to_nat (0 + 2)) with 2%nat. cbn [max_zones_loop]. rewrite HM, HZ in *.
  repeat ztrue. replace (size - size) with 0 by lia. done.
Qed.

Lemma pool_ok_opened b pmem : pool_ok b -> pool_ok (opened pmem (b_pool b) (pool_size b)).
Proof. intros []. constructor; cbn; try done. by apply get_max_zones_one. Qed.

Lemma pool_ok_filled b pmem : pool_ok b -> pool_ok (filled pmem (b_pool b) (pool_size b)).
Proof. intros []. constructor; cbn; try done. by apply get_max_zones_one. Qed.

Section Open.
Context (e : obj_env) {C : Type} `{ContainerLaws C} `{BucketMalloc} (pool size : Z).
Abbreviation b := (opened (oe_is_pmem e) pool size).
Abbreviation b1 := (filled (oe_is_pmem e) pool size).
Context (Hb : pool_ok b).
Implicit Type h : heap C.
Implicit Type R : mem -> Prop.

(** Filling the bucket from a tiled zone. *)
Lemma fill_loop_spec bk R l : forall i fuel h fl (Q : unit -> heap C -> Prop),
  zone_at pool 0 (h_mem h) i l (nunits b) -> 0 <= i -> (Z.to_nat (nunits b - i) < fuel)%nat -> vol b1 h bk fl None ->
  (forall h' fl', h_mem h' = h_mem h -> vol b1 h' bk fl' None -> fl' ⊆+ free_entries i l ++ fl -> Q tt h') ->
  wpc (fill_loop b fuel 0 (nunits b) i) Q R h.
Proof.
  pose proof (nunits_bounds b Hb) as Hnb. unfold MAX_CHUNK in Hnb.
  induction l as [|[s u] l IH]; intros i [|fuel] h fl Q Hz Hi Hf Hv HQ; cbn [zone_at] in Hz; try lia; cbn [fill_loop].
  { subst i. ztrue. apply wpc_ret. by apply (HQ h fl). }
  destruct Hz as (Hs & Hc & Hz). cbn [fst] in Hs, Hz. pose proof (zone_at_total _ _ _ _ _ _ Hz) as [E ?].
  ztrue. eapply wpc_step; [apply (chunk_at_in b Hb i); lia|]. cbn beta. eapply wpc_step; [apply load_chunk_eq|]. cbn beta.
  destruct Hc as (Hm & _ & Hsz & Hu). cbn [fst snd b_pool opened] in *. rewrite Hm. cbn [Z.eqb Pos.eqb negb CHUNK_HEADER_MAGIC].
  apply wpc_bind, wpc_ret. eapply wpc_step; [apply load_chunk_eq|]. cbn beta. rewrite Hu, Hsz.
  assert (forall h' fl', h_mem h' = h_mem h -> vol b1 h' bk fl' None ->
    fl' ⊆+ (if u then [] else [entry i s]) ++ fl -> wpc (fill_loop b fuel 0 (nunits b) (u32 (i + s))) Q R h') as Hrest.
  { intros h' fl' Hm' Hv' Hfl'. rewrite u32_id by lia. eapply IH; [by rewrite Hm'|lia|lia|done|].
    intros h2 fl2 Hm2 Hv2 Hfl2. apply (HQ h2 fl2); [by rewrite Hm2|done|]. cbn [free_entries]. etrans; [exact Hfl2|].
    etrans; [by apply submseteq_skips_l, Hfl'|]. by rewrite !app_assoc, (Permutation_app_comm (free_entries _ _)). }
  destruct u; cbn [Z.b2z Z.eqb].
  { apply wpc_bind, wpc_ret. by apply (Hrest h fl). }
  apply wpc_bind. unfold add_chunk. eapply wpc_step; [done|]. cbn beta.
  eapply wpc_step. { change (Z.to_nat _) with 0%nat. by rewrite (proj1 (v_bucket _ _ _ _ _ Hv)). } cbn beta.
  apply wpc_bind. eapply (add_object_spec b1); [done|]. intros ok h2 fl2 Hm2 _ Hv2 Hfl2 _. apply wpc_ret.
  apply (Hrest h2 fl2); [done|done|]. cbn [unique_id obj_size_idx] in Hfl2. rewrite Hsz in Hfl2. fold (entry i s) in Hfl2. rewrite Hfl2.
  destruct ok; [done|]. by apply submseteq_cons.
Qed.

(** The pool just made: one bucket, empty, and no arena. *)
Definition pool0 (bk : Z) : pmalloc_pool :=
  set_p_buckets (set_classes (new_pool (BACKEND_PERSISTENT b)) (<[0%nat := CHUNKSIZE]> (replicate 1024 0)))
    (<[0%nat := bk]> (replicate 1024 0)).

Lemma buckets_spec R h bk (Q : unit -> heap C -> Prop) :
  bucket_malloc (dom (h_buckets h)) = Some bk -> p_backend (h_pool h) = BACKEND_PERSISTENT b -> h_pool h = new_pool (BACKEND_PERSISTENT b) ->
  Q tt (set_h_buckets (set_h_pool h (pool0 bk)) (<[bk := {| unit_size := CHUNKSIZE; objects := c_new |}]> (h_buckets h))) ->
  wpc (create_bucket_classes ;;; create_default_buckets) Q R h.
Proof.
  intros Hbk Hbe Hp HQ. apply wpc_bind. unfold create_bucket_classes. eapply wpc_step; [done|]. cbn beta. rewrite Hbe.
  unfold persistent_bucket_classes, bucket_register_class. apply wpc_bind. eapply wpc_step; [done|]. cbn beta. rewrite Hp.
  change (register_loop CHUNKSIZE 0 (bucket_classes (new_pool (BACKEND_PERSISTENT b)))) with (Some 0%nat).
  eapply wpc_pure; [done|done|done|]. apply wpc_ret. rewrite Hp. set (h1 := set_h_pool _ _).
  unfold create_default_buckets. change (seqZ 0 MAX_BUCKETS) with (0 :: seqZ 1 1023). cbn [forM]. apply wpc_bind.
  eapply wpc_step; [done|]. cbn beta. eapply (wpc_step _ _ _ _ _ CHUNKSIZE); [done|]. cbn [Z.eqb CHUNKSIZE Z.mul Pos.mul].
  unfold bucket_new. apply wpc_bind. eapply wpc_step; [done|]. cbn beta. eapply (wpc_step _ _ _ _ _ CHUNKSIZE); [done|]. cbn beta.
  change (h_buckets h1) with (h_buckets h). rewrite Hbk. eapply wpc_pure; [done|done|done|]. eapply wpc_pure; [done|done|done|].
  set (h2 := set_h_pool _ _). apply (wpc_forM (fun _ h => h = h2)); [done| |].
  - intros i rest h' Hi%elem_of_seqZ ->. eapply wpc_step; [done|]. cbn beta. eapply (wpc_step _ _ _ _ _ 0).
    { cbn [h2 h1 h_pool set_h_pool set_p_buckets bucket_classes set_classes new_pool set_h_buckets].
      rewrite list_lookup_insert_ne by lia. rewrite lookup_replicate_2 by lia. done. }
    cbn [Z.eqb]. by apply wpc_ret.
  - intros h' ->. exact HQ.
Qed.

Lemma vol_pool0 h bk : bk <> 0 -> h_arena_id h = -1 ->
  vol b (set_h_buckets (set_h_pool h (pool0 bk)) (<[bk := {| unit_size := CHUNKSIZE; objects := c_new |}]> (h_buckets h))) bk [] None.
Proof.
  intros Hbk Ha. constructor; cbn; try done.
  - exists c_new. split; [apply lookup_insert_eq|apply c_new_ok].
  - intros i a Hi. exfalso. do 10 (destruct i; [done|]). done.
  - left. split; [done|]. by exists 0%nat.
Qed.

(** ** pool_open *)

Context (ar : Z) (Har : 0 <= ar < 10) (m0 : mem) (l0 : list chunk) (ptr : Z) (Hptr : ptr_ok b l0 ptr).
Context (Hl0 : zone_at pool 0 m0 0 l0 (nunits b)) (Hhdr : header_ok b m0).
Context (good : list byte -> list chunk -> Z -> Prop) (gb : list byte).
Abbreviation st := (st b ar m0 l0 ptr).

(** Malloc answers when a pool is opened. *)
Definition can_open : Prop :=
  oe_malloc e SIZEOF_PMALLOC_POOL = true /\ oe_malloc e SIZEOF_BACKEND = true /\ oe_malloc e SIZEOF_MUTEX_T = true.

(** A thread that has no arena yet, and room for a bucket. *)
Definition fresh_thread h : Prop := h_arena_id h = -1 /\ exists bk, bucket_malloc (dom (h_buckets h)) = Some bk.

Lemma volatile_fresh : volatile fresh_thread.
Proof. by intros h ev. Qed.

Lemma pool_open_spec h sl l v l' v' (Q : bool -> heap C -> Prop) : can_open ->
  st (h_mem h) sl l v -> fresh_thread h -> good (zeros 32) l' v' ->
  (forall h, st (h_mem h) sl l v -> fresh_thread h ->
    wpc (recover_info_slot b (slot_addr b ar)) (fun _ h' => st (h_mem h') (zeros 32) l' v' /\ fresh_thread h') (recoverable b ar m0 l0 ptr good gb) h) ->
  (forall h' bk fl, st (h_mem h') (zeros 32) l' v' -> vol b1 h' bk fl None -> fl ⊆+ free_entries 0 l' -> Q true h') ->
  wpc (pool_open e pool size false) Q (recoverable b ar m0 l0 ptr good gb) h.
Proof.
  intros (Hm1 & Hm2 & Hm3) Hst Hfr Hg Hrec HQ. unfold pool_open, pool_new. rewrite Hm1. cbn [negb].
  unfold backend_open. rewrite Hm2. apply wpc_bind, wpc_bind. unfold backend_persistent_open. cbn [negb]. fold b. apply wpc_bind.
  eapply (open_spec b Hb ar Har m0 l0 ptr Hptr good gb fresh_thread volatile_fresh); try done.
  intros h1 Hst1 (Ha & bk & Hbk). apply wpc_ret. cbn [fmap option_fmap option_map]. apply wpc_ret. rewrite Hm3. cbn [negb].
  destruct (bucket_malloc_fresh _ _ Hbk) as [Hne _].
  apply wpc_bind. eapply wpc_pure; [done|done|done|]. apply wpc_assoc, wpc_bind.
  eapply (buckets_spec _ _ bk); [done..|]. set (h2 := set_h_buckets _ _).
  pose proof (vol_pool0 h1 bk Hne Ha) as Hv. fold h2 in Hv.
  apply wpc_bind. unfold fill_buckets. eapply wpc_step; [done|]. cbn beta.
  unfold persistent_fill_buckets. apply wpc_bind. eapply wpc_pure; [done|done|done|]. set (h3 := set_h_pool _ _).
  change (get_zone_size_idx (zones_exhausted b) (max_zone b) (pool_size b)) with (get_zone_size_idx 0 (max_zone b) (pool_size b)).
  rewrite (po_zones _ Hb). fold (nunits b). change (zones_exhausted b) with 0.
  eapply (fill_loop_spec bk _ l' 0 _ h3 []); [apply Hst1|lia|pose proof (nunits_bounds b Hb); lia| |].
  - destruct Hv. constructor; try done.
  - intros h' fl Hm' Hv' Hfl. apply wpc_ret. rewrite app_nil_r in Hfl. eapply HQ; [by rewrite Hm'|done|done].
Qed.
End Open.
