(* ===== verification/PmallocCrash.v ===== *)
(** PmallocCrash: the theorems on pmalloc and pfree: the heap invariant, what
    is allocated and released, progress, and power failure followed by
    pool_open. *)

From S2P Require Import Prelude Mem Util Prog StateM Durable ObjHeap Bucket Backend Pmalloc.
From S2P Require Import BackendSpec HeapLogic BstSpec Bst HeapSpec PmallocSpec PmallocOps.
From S2P Require Import PmallocTop PmallocRecover PmallocOpen.

#[local] Open Scope stateM_scope.

(** ** The two views of the memory *)

Lemma st_of_media b ar m l ptr : 0 <= ar < 10 -> media_ok b m l -> st b ar m l ptr m (zeros 32) l (get64 m ptr).
Proof.
  intros Har [Hz Hi Hh]. constructor; try done.
  - apply Hi. unfold MAX_INFO_SLOT. lia.
  - intros j Hj _. by apply Hi.
Qed.

Lemma media_of_st b ar m0 l0 ptr m l v : st b ar m0 l0 ptr m (zeros 32) l v -> header_ok b m0 -> media_ok b m l.
Proof.
  intros [Hz Hsl Hsls Hhdr Hp Hu] Hh. constructor; [done| |by eapply header_agree].
  intros j Hj. destruct (decide (j = ar)) as [->|]; [done|by apply Hsls].
Qed.

(** Only the address and the size of a pool matter to its contents. *)
Section Same.
Context (b b' : backend_persistent) (Hp : b_pool b' = b_pool b) (Hs : pool_size b' = pool_size b).

Lemma nunits_same : nunits b' = nunits b.
Proof. unfold nunits. by rewrite Hs. Qed.

Lemma foreign_same l a : foreign b' l a <-> foreign b l a.
Proof. unfold foreign, in_free, data_addr. by rewrite Hp. Qed.

Lemma ptr_ok_same l ptr : ptr_ok b l ptr -> ptr_ok b' l ptr.
Proof. intros [Ha Hr Hf]. constructor; try done. intros a Hin. apply foreign_same. auto. Qed.

Lemma header_same m : header_ok b m -> header_ok b' m.
Proof. unfold header_ok. by rewrite Hp, Hs. Qed.

Lemma st_same ar m0 l0 ptr m sl l v : st b ar m0 l0 ptr m sl l v -> st b' ar m0 l0 ptr m sl l v.
Proof.
  intros [Hz Hsl Hsls Hhdr Hpt Hu]. unfold slot_addr in *. constructor; unfold slot_addr; rewrite ?nunits_same, ?Hp; try done.
  intros a Ha. apply Hu. by apply foreign_same.
Qed.

Lemma slot_addr_same j : slot_addr b' j = slot_addr b j.
Proof. unfold slot_addr. by rewrite Hp. Qed.
End Same.

(** Carving a used chunk frees nothing. *)
Lemma app_eq_mid {A} (a b c d : list A) x : a ++ x :: b = c ++ d ->
  (exists k, c = a ++ x :: k /\ b = k ++ d) \/ exists k, a = c ++ k /\ d = k ++ x :: b.
Proof.
  revert c. induction a as [|y a IH]; intros [|z c] E; cbn in E.
  - right. by exists [].
  - injection E as -> ->. left. by exists c.
  - right. by exists (y :: a).
  - injection E as -> E. destruct (IH _ E) as [(k & -> & ->)|(k & -> & ->)]; [left|right]; by exists k.
Qed.

Lemma carve_free b la k s lb a : 0 < k <= s -> in_free b (carve la k s true lb) a -> in_free b (la ++ (s, false) :: lb) a.
Proof.
  intros Hk (l1 & t & l2 & E & Ha). unfold carve in E. symmetry in E. apply app_eq_mid in E as [(r & -> & E)|(r & Er & E)].
  - exists l1, t, (r ++ (s, false) :: lb). split; [by rewrite <- app_assoc|done].
  - destruct r as [|[k' u'] r]; [by injection E|]. injection E as <- <- E.
    unfold rest in E. destruct (Z.ltb_spec k s) as [Hlt|Hge]; cbn [app] in E.
    + destruct r as [|x r]; injection E as E1 E2.
      * subst t lb. rewrite Er in Ha. exists la, s, l2. split; [done|]. rewrite total_app in Ha. cbn [total fst] in Ha.
        rewrite !data_addr_add in *. unfold CHUNKSIZE in *. lia.
      * subst x lb. rewrite Er in Ha. exists (la ++ (s, false) :: r), t, l2. split; [by rewrite <- app_assoc|].
        rewrite !total_app in *. cbn [total fst] in *. replace (total la + (s + total r)) with (total la + (k + ((s - k) + total r))) by lia. done.
    + assert (k = s) as -> by lia. subst lb. rewrite Er in Ha. exists (la ++ (s, false) :: r), t, l2. split; [by rewrite <- app_assoc|].
      rewrite !total_app in *. done.
Qed.

Section Theorems.
Context (e : obj_env) {C : Type} `{ContainerLaws C} `{BucketMalloc}.
Implicit Type h : heap C.

(** Malloc of an arena answers. *)
Definition arena_malloc_ok : Prop := oe_malloc e SIZEOF_ARENA = true /\ oe_malloc e SIZEOF_MUTEX_T = true.

(** The slot of the arena [ar] was stored wholly or not at all. *)
Definition slot_whole (b : backend_persistent) (ar : Z) (gb : list byte) (m : mem) : Prop :=
  let sl := mread m (slot_addr b ar) 32 in sl = zeros 32 \/ sl = gb.

(** ** Running pmalloc *)

Lemma pmalloc_run b h l fl ptr size : pool_ok b -> heap_ok b h l fl -> ptr_ok b l ptr -> get64 (h_mem h) ptr = 0 ->
  CHUNKSIZE < size < 2 ^ 48 ->
  let gb := guard_bytes b GUARD_TYPE_MALLOC ptr 0 in
  (exists ar bk, 0 <= ar < 10 /\ wpc (pmalloc e ptr size)
    (fun _ h' => pmalloc_post b ar (h_mem h) l ptr size fl bk (zeros 32) None h')
    (recoverable b ar (h_mem h) l ptr (pmalloc_good (units_of size) l gb) gb) h) \/
  ~ arena_malloc_ok /\ exists h', pmalloc e ptr size h = inr (tt, h') /\ h_mem h' = h_mem h /\ h_log h' = h_log h /\ heap_ok b h' l fl.
Proof.
  intros Hb [Hm [bk Hv] Hfl] Hptr Hnull Hsize gb. destruct (wp_elim _ _ _ (select_arena_spec b e h bk fl Hv)) as (i & h1 & E & Em & El & Hv1 & Hi & Hok).
  destruct Hi as [->|Hp].
  - right. split; [intros [E1 E2]; by apply (Hok E1 E2)|]. exists h1. split_and!; [|done|done|].
    + unfold pmalloc. by rewrite (bindM_inr _ _ _ _ _ E).
    + constructor; [by rewrite Em|by exists bk|done].
  - left. pose proof (proj1 Hp) as Har. exists i, bk. split; [done|]. unfold pmalloc. apply wpc_bind.
    eapply wpc_pure; [exact E|done|done|]. cbn beta. assert (i =? -1 = false) as -> by (apply Z.eqb_neq; lia).
    eapply (pmalloc_body_spec b Hb i Har (h_mem h) l ptr Hptr (mo_zone _ _ _ Hm)); try done.
    rewrite Em, <- Hnull. by apply st_of_media.
Qed.

(** The states of the chunks and the pointer after [pmalloc] of [units] units. *)
Definition pmalloc_result (b : backend_persistent) (l : list chunk) (fl : list (Z * Z)) (ptr size : Z) (m : mem) (l' : list chunk) : Prop :=
  l' = l /\ get64 m ptr = 0 /\ (~ arena_malloc_ok \/ not_found l size fl) \/
  exists l1 s l2, allocated b l size fl m l1 s l2 /\ l' = carve l1 (units_of size) s true l2 /\
    get64 m ptr = chunk_data_off 0 (total l1).

Lemma pmalloc_core b h l fl ptr size : pool_ok b -> heap_ok b h l fl -> ptr_ok b l ptr -> get64 (h_mem h) ptr = 0 ->
  CHUNKSIZE < size < 2 ^ 48 ->
  exists h' l' fl', pmalloc e ptr size h = inr (tt, h') /\ heap_ok b h' l' fl' /\
    user_kept b (h_mem h) l ptr (h_mem h') /\ pmalloc_result b l fl ptr size (h_mem h') l'.
Proof.
  intros Hb Hh Hptr Hnull Hsize. destruct (pmalloc_run b h l fl ptr size Hb Hh Hptr Hnull Hsize) as [(ar & bk & Har & Hw)|(Hno & h' & E & Em & _ & Hh')].
  - apply wpc_elim in Hw as ([] & h' & evs & E & _ & (l' & fl' & v & Hst & Hv & Hfl' & _ & _ & Hcase) & _).
    exists h', l', fl'. split_and!; [done| |apply Hst|].
    + constructor; [eapply media_of_st; [done|apply Hh]|by exists bk|done].
    + destruct Hcase as [(-> & -> & Hnf)|(l1 & s & l2 & Ha & -> & ->)].
      * left. split_and!; [done|apply Hst|by right].
      * right. exists l1, s, l2. split_and!; [done|done|apply Hst].
  - exists h', l, fl. split_and!; [done|done| |].
    + rewrite Em. done.
    + left. rewrite Em. split_and!; [done|done|by left].
Qed.


(** The first entry whose key is large enough. *)
Lemma tried_exists units fl x : x ∈ fl -> units <= x.1 -> exists y, tried units fl y.
Proof.
  intros Hx Hle. assert (forall k, exists y, y ∈ fl /\ units <= y.1 /\ forall z, z ∈ take k fl -> z.1 < units \/ y.1 <= z.1) as HK.
  { induction k as [|k (y & Hy & Hyu & Hmin)]; [exists x; split_and!; [done|done|]; intros z Hz; by apply elem_of_nil in Hz|].
    destruct (fl !! k) as [z|] eqn:Ek.
    - rewrite (take_S_r _ _ _ Ek). assert (z ∈ fl) by (by eapply list_elem_of_lookup_2).
      destruct (Z.le_gt_cases units z.1); [destruct (Z.le_gt_cases y.1 z.1)|].
      + exists y. split_and!; [done|done|]. intros w [Hw|Hw]%elem_of_app; [auto|]. apply list_elem_of_singleton in Hw as ->. by right.
      + exists z. split_and!; [done|done|]. intros w [Hw|Hw]%elem_of_app; [destruct (Hmin _ Hw); [by left|right; lia]|].
        apply list_elem_of_singleton in Hw as ->. right. lia.
      + exists y. split_and!; [done|done|]. intros w [Hw|Hw]%elem_of_app; [auto|]. apply list_elem_of_singleton in Hw as ->. by left.
    - apply lookup_ge_None in Ek. exists y. split_and!; [done|done|]. rewrite take_ge by lia. rewrite take_ge in Hmin by lia. done. }
  destruct (HK (length fl)) as (y & Hy & Hyu & Hmin). exists y. split_and!; [done|done|]. rewrite firstn_all in Hmin. done.
Qed.

(** Progress: when an arena can be allocated, the bucket is not empty and
    every free chunk has the units that are looked for, [pmalloc] returns with
    a pointer to a block. *)
Theorem pmalloc_succeeds (b : backend_persistent) (h : heap C) (l : list chunk) (fl : list (Z * Z)) (ptr size : Z)
  (Hb : pool_ok b) (Hh : heap_ok b h l fl) (Hptr : ptr_ok b l ptr) (Hnull : get64 (h_mem h) ptr = 0)
  (Hsize : CHUNKSIZE < size < 2 ^ 48) (Hm : arena_malloc_ok) (Hne : fl <> [])
  (Hfit : forall s, (s, false) ∈ l -> units_of size <= s) :
  exists h' l', pmalloc e ptr size h = inr (tt, h') /\ get64 (h_mem h') ptr <> 0 /\
    exists l1 s l2, allocated b l size fl (h_mem h') l1 s l2 /\ l' = carve l1 (units_of size) s true l2 /\
      exists fl', heap_ok b h' l' fl'.
Proof.
  destruct (pmalloc_core b h l fl ptr size Hb Hh Hptr Hnull Hsize) as (h' & l' & fl' & E & Hh' & _ & Hr).
  exists h', l'. split; [done|]. destruct Hr as [(-> & Hz & [Hno|Hnf])|(l1 & s & l2 & Ha & -> & Hp)]; [done| |].
  - exfalso. destruct fl as [|x fl]; [done|]. pose proof (ho_free _ _ _ _ Hh) as Hsub.
    assert (forall y, y ∈ x :: fl -> exists l1 s l2, l = l1 ++ (s, false) :: l2 /\ y = entry (total l1) s) as Hent.
    { intros y Hy. destruct (free_entries_in y l 0) as (l1 & s & l2 & ? & ?); [by eapply elem_of_submseteq|]. by exists l1, s, l2. }
    assert (forall l1 s l2, l = l1 ++ (s, false) :: l2 -> units_of size <= (entry (total l1) s).1 /\ units_of size <= s) as Hkey.
    { intros l1 s l2 ->. assert (units_of size <= s) by (apply Hfit; set_solver). split; [|done].
      destruct (mid_bounds b Hb _ _ _ _ _ (mo_zone _ _ _ (ho_media _ _ _ _ Hh))) as (? & ? & ?). unfold entry. cbn [fst]. assert (MAX_CHUNK = 65535) by done.
      rewrite OBJ_KEY_eq by lia. destruct (UID_fields (total l1)) as (-> & _); lia. }
    destruct (Hent x) as (l1 & s & l2 & El & ->); [by left|]. destruct (Hkey _ _ _ El) as [Hk _].
    destruct (tried_exists (units_of size) (entry (total l1) s :: fl) (entry (total l1) s) ltac:(by left) Hk) as (y & Hy).
    destruct (Hent y (proj1 Hy)) as (l1' & s' & l2' & El' & ->). pose proof (Hnf _ _ _ El' Hy). destruct (Hkey _ _ _ El'). lia.
  - split.
    + rewrite Hp. unfold chunk_data_off, zone_off, SIZEOF_HDR, SIZEOF_SLOT, MAX_INFO_SLOT, SIZEOF_CHUNK_HDR, MAX_CHUNK, CHUNKSIZE.
      destruct Ha as (-> & _). destruct (mid_bounds b Hb _ _ _ _ _ (mo_zone _ _ _ (ho_media _ _ _ _ Hh))) as (? & _). lia.
    + exists l1, s, l2. split_and!; [done|done|by exists fl'].
Qed.

(** The block [pmalloc] hands out is always smaller than the size asked for:
    the units are rounded down where the comment rounds up. *)
Theorem pmalloc_too_small (b : backend_persistent) (l : list chunk) (fl : list (Z * Z)) (ptr size : Z) (m : mem) (l' : list chunk)
  (Hsize : CHUNKSIZE < size < 2 ^ 48) (Hr : pmalloc_result b l fl ptr size m l') (Hp : get64 m ptr <> 0) :
  exists l1 k l2, l' = l1 ++ (k, true) :: l2 /\ get64 m ptr = chunk_data_off 0 (total l1) /\ k * CHUNKSIZE < size.
Proof.
  destruct Hr as [(_ & Hz & _)|(l1 & s & l2 & _ & -> & E)]; [done|]. exists l1, (units_of size), (rest (units_of size) s ++ l2).
  split_and!; [done|done|]. unfold units_of. change CHUNKSIZE with 262144 in *. Z.div_mod_to_equations. lia.
Qed.

(** ** Opening after a power failure *)

Lemma of_event_inj (evs evs' : list event) : (of_event <$> evs) = (of_event <$> evs') -> evs = evs'.
Proof.
  revert evs'. induction evs as [|ev evs IH]; intros [|ev' evs']; cbn; try done. intros [= E1 E2]. f_equal; [|by apply IH].
  destruct ev, ev'; cbn in E1; congruence.
Qed.

Lemma recoverable_proper b ar m0 l0 ptr good gb m m' : 0 <= ar < 10 -> m' ≡ m ->
  recoverable b ar m0 l0 ptr good gb m -> recoverable b ar m0 l0 ptr good gb m'.
Proof.
  intros Har E Hr. unfold recoverable. rewrite (mread_agree m' m) by (intros x _; apply E). intros Hw.
  destruct (Hr Hw) as (l & v & Hst & Hg). exists l, v. split; [|done]. by eapply st_proper.
Qed.

(** The power may fail again, and again, while the pool is opened. *)
Inductive fails_again (b : backend_persistent) (ar : Z) (gb : list byte) : mem -> mem -> Prop :=
| fa_once m : fails_again b ar gb m m
| fa_again hr r h1 evs m1 m' : fresh_thread hr ->
    pool_open e (b_pool b) (pool_size b) false hr = inr (r, h1) -> h_log h1 = h_log hr ++ (of_event <$> evs) ->
    crashed (h_mem hr) evs m1 -> slot_whole b ar gb m1 -> fails_again b ar gb m1 m' ->
    fails_again b ar gb (h_mem hr) m'.

(** Opening the pool succeeds with a good heap that is as described. *)
Definition reopens (b : backend_persistent) (m : mem) (outcome : mem -> list chunk -> Prop) : Prop :=
  forall hr, h_mem hr = m -> fresh_thread hr -> exists h1 l1 fl1, pool_open e (b_pool b) (pool_size b) false hr = inr (true, h1) /\
    heap_ok (filled (oe_is_pmem e) (b_pool b) (pool_size b)) h1 l1 fl1 /\ outcome (h_mem h1) l1.

Section Reopen.
Context (b : backend_persistent) (Hb : pool_ok b) (ar : Z) (Har : 0 <= ar < 10).
Context (m0 : mem) (l0 : list chunk) (ptr : Z) (Hptr : ptr_ok b l0 ptr) (Hm0 : media_ok b m0 l0) (Hopen : can_open e).
Context (good : list byte -> list chunk -> Z -> Prop) (gb : list byte).
Abbreviation b' := (opened (oe_is_pmem e) (b_pool b) (pool_size b)).
Abbreviation R := (recoverable b' ar m0 l0 ptr good gb).

(** Recovery of the slot leads from one state to another. *)
Definition recovers (sl : list byte) (l : list chunk) (v : Z) (l' : list chunk) (v' : Z) : Prop :=
  forall h, st b' ar m0 l0 ptr (h_mem h) sl l v -> fresh_thread h ->
    wpc (recover_info_slot b' (slot_addr b' ar)) (fun _ h' => st b' ar m0 l0 ptr (h_mem h') (zeros 32) l' v' /\ fresh_thread h') R h.

Lemma recovers_zeros l v : recovers (zeros 32) l v l v.
Proof. intros h Hst Hf. eapply wpc_pure; [apply slot_noop, Hst|done|done|done]. Qed.

(** Every state a power failure may leave leads to a state with [outcome]. *)
Context (outcome : list chunk -> Z -> Prop).
Context (Hgood : forall sl l v, good sl l v -> sl = zeros 32 \/ sl = gb ->
  exists l' v', good (zeros 32) l' v' /\ recovers sl l v l' v' /\ outcome l' v').

Definition outcome_mem (m : mem) (l : list chunk) : Prop := user_kept b m0 l0 ptr m /\ outcome l (get64 m ptr).

Lemma Hb' : pool_ok b'.
Proof. by apply pool_ok_opened. Qed.
Lemma Hptr' : ptr_ok b' l0 ptr.
Proof. by apply (ptr_ok_same b b'). Qed.
Lemma Hhdr' : header_ok b' m0.
Proof. eapply (header_same b b'); [done|done|apply Hm0]. Qed.

Lemma reopen_wpc hr : recoverable b ar m0 l0 ptr good gb (h_mem hr) -> slot_whole b ar gb (h_mem hr) -> fresh_thread hr ->
  wpc (pool_open e (b_pool b) (pool_size b) false)
    (fun r h1 => r = true /\ exists l1 fl1, heap_ok (filled (oe_is_pmem e) (b_pool b) (pool_size b)) h1 l1 fl1 /\ outcome_mem (h_mem h1) l1) R hr.
Proof.
  intros Hr Hw Hf. destruct (Hr Hw) as (l & v & Hst & Hg). destruct (Hgood _ _ _ Hg Hw) as (l' & v' & Hg' & Hrec & Hout).
  eapply (pool_open_spec e (b_pool b) (pool_size b) Hb' ar Har m0 l0 ptr Hptr' Hhdr' good gb); [exact Hopen| |done|exact Hg'|exact Hrec|].
  - eapply (st_same b b'); [done|done|exact Hst].
  - intros h1 bk fl Hst1 Hv1 Hfl1. split; [done|]. exists l', fl.
    assert (st (filled (oe_is_pmem e) (b_pool b) (pool_size b)) ar m0 l0 ptr (h_mem h1) (zeros 32) l' v') as Hst2 by (eapply (st_same b'); done).
    split.
    + constructor; [|by exists bk|done]. eapply media_of_st; [exact Hst2|]. by eapply (header_same b'); [..|apply Hhdr'].
    + split; [|by rewrite (st_ptr _ _ _ _ _ _ _ _ _ Hst1)]. intros a Ha. apply (st_user _ _ _ _ _ _ _ _ _ Hst1).
      by eapply (foreign_same b b').
Qed.

Lemma recoverable_same m : recoverable b' ar m0 l0 ptr good gb m -> recoverable b ar m0 l0 ptr good gb m.
Proof.
  intros Hr. unfold recoverable. intros Hw. destruct (Hr Hw) as (l & v & Hst & Hg). exists l, v. split; [|done].
  by eapply (st_same b' b).
Qed.

Lemma reopen_core m m' : recoverable b ar m0 l0 ptr good gb m -> slot_whole b ar gb m -> fails_again b ar gb m m' ->
  reopens b m' outcome_mem.
Proof.
  intros Hr Hw Hf. induction Hf as [m|hr r h1 evs m1 m' Hfr E El Hc Hw1 _ IH].
  - intros hr <- Hfr. destruct (wpc_elim _ _ _ _ (reopen_wpc hr Hr Hw Hfr)) as (r & h1 & evs & E & _ & (-> & l1 & fl1 & Hh & Ho) & _).
    by exists h1, l1, fl1.
  - apply IH; [|done]. destruct (wpc_elim _ _ _ _ (reopen_wpc hr Hr Hw Hfr)) as (r2 & h2 & evs2 & E2 & El2 & _ & Hc2).
    rewrite E2 in E. injection E as <- <-. rewrite El2 in El. apply app_inv_head, of_event_inj in El as <-.
    destruct (Hc2 _ Hc) as [Eq|HR]; [by eapply recoverable_proper|by apply recoverable_same].
Qed.
End Reopen.

(** ** pmalloc and power failure *)

(** Not allocated (a free chunk may have been split), or allocated. *)
Definition old_or_new (units : Z) (l0 l : list chunk) (v : Z) : Prop :=
  v = 0 /\ (l = l0 \/ exists l1 s l2, l0 = l1 ++ (s, false) :: l2 /\ l = carve l1 (Z.min units s) s false l2) \/
  exists l1 s l2, l0 = l1 ++ (s, false) :: l2 /\ units <= s /\ l = carve l1 units s true l2 /\ v = chunk_data_off 0 (total l1).

Section PmallocCrash.
Context (b : backend_persistent) (Hb : pool_ok b) (ar : Z) (Har : 0 <= ar < 10).
Context (m0 : mem) (l0 : list chunk) (ptr : Z) (Hptr : ptr_ok b l0 ptr) (units : Z).
Abbreviation b' := (opened (oe_is_pmem e) (b_pool b) (pool_size b)).
Abbreviation gb := (guard_bytes b GUARD_TYPE_MALLOC ptr 0).

Lemma pmalloc_recovers sl l v : pmalloc_good units l0 gb sl l v -> sl = zeros 32 \/ sl = gb ->
  exists l' v', pmalloc_good units l0 gb (zeros 32) l' v' /\
    recovers b ar m0 l0 ptr (pmalloc_good units l0 gb) gb sl l v l' v' /\ old_or_new units l0 l' v'.
Proof.
  intros Hg Hw. pose proof (pool_ok_opened b (oe_is_pmem e) Hb) as Hb'. assert (ptr_ok b' l0 ptr) as Hptr' by (by apply (ptr_ok_same b b')).
  assert (forall l, pmalloc_good units l0 gb (zeros 32) l 0 -> pmalloc_good units l0 gb gb l 0 ->
    recovers b ar m0 l0 ptr (pmalloc_good units l0 gb) gb gb l 0 l 0) as Hnull.
  { intros l2 Hz2 Hg2 h Hst Hf.
    apply (recover_dispatch b' ar m0 l0 ptr _ gb h l2 0 GUARD_TYPE_MALLOC); [done..|].
    eapply (recover_alloc_null b' Hb' ar Har m0 l0 ptr Hptr' _ gb fresh_thread volatile_fresh); done. }
  assert (forall l1 s l2 u, l0 = l1 ++ (s, false) :: l2 -> units <= s ->
    pmalloc_good units l0 gb gb (carve l1 units s u l2) (chunk_data_off 0 (total l1)) ->
    recovers b ar m0 l0 ptr (pmalloc_good units l0 gb) gb gb (carve l1 units s u l2) (chunk_data_off 0 (total l1)) (carve l1 (Z.min units s) s false l2) 0) as Hchunk.
  { intros l1 s l2 u E Hs Hg2 h Hst Hf.
    assert (forall sl, sl = zeros 32 \/ sl = gb -> pmalloc_good units l0 gb sl (carve l1 units s false l2) 0) as Hsp.
    { intros sl' Hsl'. replace (carve l1 units s false l2) with (carve l1 (Z.min units s) s false l2) by (by rewrite Z.min_l). by eapply pg_split. }
    apply (recover_dispatch b' ar m0 l0 ptr _ gb h (carve l1 units s u l2) (chunk_data_off 0 (total l1)) GUARD_TYPE_MALLOC); [done..|].
    rewrite Z.min_l by done.
    eapply (recover_alloc_chunk b' Hb' ar Har m0 l0 ptr Hptr' _ gb fresh_thread volatile_fresh h l1 units u); try done.
    - by eapply pg_pointer.
    - apply Hsp. by right.
    - apply Hsp. by left. }
  destruct Hg as [sl Hsl|l1 s l2 sl E Hsl|l1 s l2 E Hs|l1 s l2 sl E Hs Hsl].
  - exists l0, 0. split_and!; [apply pg_before; by left| |by left; split; [|left]].
    destruct Hsl as [-> | ->]; [apply recovers_zeros|]. apply Hnull; apply pg_before; auto.
  - exists (carve l1 (Z.min units s) s false l2), 0. split_and!; [eapply pg_split; [done|by left]| |left; split; [done|right; by exists l1, s, l2]].
    destruct Hsl as [-> | ->]; [apply recovers_zeros|]. apply Hnull; eapply pg_split; auto.
  - exists (carve l1 (Z.min units s) s false l2), 0. split_and!; [eapply pg_split; [done|by left]| |left; split; [done|right; by exists l1, s, l2]].
    apply Hchunk; try done. by eapply pg_pointer.
  - destruct Hsl as [-> | ->].
    + exists (carve l1 units s true l2), (chunk_data_off 0 (total l1)). split_and!; [eapply pg_after; [done|done|by left]|apply recovers_zeros|].
      right. by exists l1, s, l2.
    + exists (carve l1 (Z.min units s) s false l2), 0. split_and!; [eapply pg_split; [done|by left]| |left; split; [done|right; by exists l1, s, l2]].
      apply Hchunk; try done. eapply pg_after; [done|done|by right].
Qed.
End PmallocCrash.

(** The runs of an operation, and where a power failure during one leads when
    the pool is opened again, possibly after more failures. *)
Definition crash_atomic (b : backend_persistent) (h h' : heap C) (ar : Z) (gb : list byte) (outcome : mem -> list chunk -> Prop) : Prop :=
  exists evs, h_log h' = h_log h ++ (of_event <$> evs) /\
    forall m m', crashed (h_mem h) evs m -> slot_whole b ar gb m -> fails_again b ar gb m m' -> reopens b m' outcome.

(** C9. Power failure anywhere in [pmalloc] with the store to the info slot done
    wholly or not at all, followed by pool_open, itself interrupted any number
    of times, gives a good heap where the pointer is null and nothing is
    allocated, or the pointer leads to a used chunk carved off a free one; all
    other chunks and bytes are as they were. *)
Theorem pmalloc_crash_atomic (b : backend_persistent) (h : heap C) (l : list chunk) (fl : list (Z * Z)) (ptr size : Z)
  (Hb : pool_ok b) (Hh : heap_ok b h l fl) (Hptr : ptr_ok b l ptr) (Hnull : get64 (h_mem h) ptr = 0)
  (Hsize : CHUNKSIZE < size < 2 ^ 48) (Hopen : can_open e) :
  exists ar h', 0 <= ar < 10 /\ pmalloc e ptr size h = inr (tt, h') /\
    crash_atomic b h h' ar (guard_bytes b GUARD_TYPE_MALLOC ptr 0)
      (fun m l' => user_kept b (h_mem h) l ptr m /\ old_or_new (units_of size) l l' (get64 m ptr)).
Proof.
  pose proof (ho_media _ _ _ _ Hh) as Hm.
  assert (forall ar, 0 <= ar < 10 -> recoverable b ar (h_mem h) l ptr (pmalloc_good (units_of size) l (guard_bytes b GUARD_TYPE_MALLOC ptr 0)) (guard_bytes b GUARD_TYPE_MALLOC ptr 0) (h_mem h)) as Hinit.
  { intros ar Har. eapply st_recoverable; [by apply st_of_media|]. rewrite Hnull. apply pg_before. by left. }
  assert (forall ar m m', 0 <= ar < 10 -> recoverable b ar (h_mem h) l ptr (pmalloc_good (units_of size) l (guard_bytes b GUARD_TYPE_MALLOC ptr 0)) (guard_bytes b GUARD_TYPE_MALLOC ptr 0) m ->
    slot_whole b ar (guard_bytes b GUARD_TYPE_MALLOC ptr 0) m -> fails_again b ar (guard_bytes b GUARD_TYPE_MALLOC ptr 0) m m' ->
    reopens b m' (outcome_mem b (h_mem h) l ptr (old_or_new (units_of size) l))) as Hre.
  { intros ar m m' Har Hr Hw Hf. eapply (reopen_core b Hb ar Har (h_mem h) l ptr Hptr Hm Hopen); [|done..].
    intros sl l1 v. by apply pmalloc_recovers. }
  destruct (pmalloc_run b h l fl ptr size Hb Hh Hptr Hnull Hsize) as [(ar & bk & Har & Hw)|(Hno & h' & E & Em & El & Hh')].
  - apply wpc_elim in Hw as ([] & h' & evs & E & El & _ & Hc). exists ar, h'. split_and!; [lia|lia|done|].
    exists evs. split; [done|]. intros m m' Hcr Hwh Hf. eapply Hre; try done.
    destruct (Hc _ Hcr) as [Eq|HR]; [|done]. eapply recoverable_proper; [done|exact Eq|by apply Hinit].
  - exists 0, h'. split_and!; [lia..|done|]. exists []. split; [by rewrite El, app_nil_r|].
    intros m m' Hcr Hwh Hf. inversion Hcr; subst. apply (Hre 0 m); try done. eapply recoverable_proper; [|done|]; [lia|]. apply Hinit. lia.
Qed.

(** ** pfree *)

Section Pfree.
Context (b : backend_persistent) (Hb : pool_ok b) (h : heap C) (l1 : list chunk) (s : Z) (l2 : list chunk) (fl : list (Z * Z)) (ptr : Z).
Abbreviation l := (l1 ++ (s, true) :: l2).
Abbreviation lf := (l1 ++ (s, false) :: l2).
Abbreviation v0 := (chunk_data_off 0 (total l1)).
Abbreviation gb := (guard_bytes b GUARD_TYPE_FREE ptr v0).
Abbreviation good room := (pfree_good room l1 s l2 gb).
Context (Hh : heap_ok b h l fl) (Hptr : ptr_ok b l ptr) (Hv : get64 (h_mem h) ptr = v0).

Lemma offset_nonzero : v0 <> 0.
Proof.
  destruct (mid_bounds b Hb _ _ _ _ _ (mo_zone _ _ _ (ho_media _ _ _ _ Hh))) as (? & _).
  unfold chunk_data_off, zone_off, SIZEOF_HDR, SIZEOF_SLOT, MAX_INFO_SLOT, SIZEOF_CHUNK_HDR, MAX_CHUNK, CHUNKSIZE. lia.
Qed.

Lemma pfree_run :
  (exists ar bk, 0 <= ar < 10 /\ wpc (pfree e ptr) (fun _ h' => pfree_post b ar (h_mem h) l1 s l2 ptr fl bk h')
    (recoverable b ar (h_mem h) l ptr (good (has_room fl)) gb) h) \/
  ~ arena_malloc_ok /\ exists h', pfree e ptr h = inr (tt, h') /\ h_mem h' = h_mem h /\ h_log h' = h_log h /\ heap_ok b h' l fl.
Proof.
  destruct Hh as [Hm [bk Hvol] Hfl]. assert (load 8 ptr h = inr (v0, h)) as El by (unfold load, bindM, getM, ret; by rewrite Hv).
  destruct (wp_elim _ _ _ (select_arena_spec b e h bk fl Hvol)) as (i & h1 & E & Em & Elog & Hv1 & Hi & Hok).
  pose proof (proj2 (Z.eqb_neq _ _) offset_nonzero) as Hnz. destruct Hi as [->|Hp].
  - right. split; [intros [E1 E2]; by apply (Hok E1 E2)|]. exists h1. split_and!; [|done|done|].
    + unfold pfree. rewrite (bindM_inr _ _ _ _ _ El). unfold NULL_OFFSET. rewrite Hnz. by rewrite (bindM_inr _ _ _ _ _ E).
    + constructor; [by rewrite Em|by exists bk|done].
  - left. pose proof (proj1 Hp) as Har. exists i, bk. split; [done|]. unfold pfree. eapply wpc_step; [exact El|]. cbn beta.
    unfold NULL_OFFSET at 1. rewrite Hnz. apply wpc_bind. eapply wpc_pure; [exact E|done|done|]. cbn beta.
    assert (i =? -1 = false) as -> by (apply Z.eqb_neq; lia).
    eapply (pfree_body_spec b Hb i Har (h_mem h) l1 s l2 ptr Hptr (mo_zone _ _ _ Hm) fl Hfl); try done.
    rewrite Em, <- Hv. by apply st_of_media.
Qed.

(** Kept, released, or released with the pointer left behind for want of room. *)
Definition pfree_result (m : mem) (l' : list chunk) (fl' : list (Z * Z)) : Prop :=
  (l' = l /\ fl' = fl /\ get64 m ptr = v0 /\ ~ arena_malloc_ok) \/
  (l' = lf /\ fl' ≡ₚ entry (total l1) s :: fl /\ get64 m ptr = 0) \/
  (l' = lf /\ fl' ≡ₚ fl /\ get64 m ptr = v0 /\ ~ has_room fl).

Lemma pfree_core : exists h' l' fl', pfree e ptr h = inr (tt, h') /\ heap_ok b h' l' fl' /\
  user_kept b (h_mem h) l ptr (h_mem h') /\ pfree_result (h_mem h') l' fl'.
Proof.
  destruct pfree_run as [(ar & bk & Har & Hw)|(Hno & h' & E & Em & _ & Hh')].
  - apply wpc_elim in Hw as ([] & h' & evs & E & _ & (fl' & v & Hst & Hvol & Hfl' & Hcase) & _).
    exists h', lf, fl'. split_and!; [done| |apply Hst|].
    + constructor; [eapply media_of_st; [done|apply Hh]|by exists bk|done].
    + right. rewrite (st_ptr _ _ _ _ _ _ _ _ _ Hst). destruct Hcase as [(-> & Hfl2)|(Hr & -> & Hfl2)]; [by left|by right].
  - exists h', l, fl. split_and!; [done|done|by rewrite Em|]. left. by rewrite Em.
Qed.
End Pfree.

(** C12. [pfree] keeps the heap invariant and touches no byte of another chunk:
    the chunk is free again and in the bucket and the pointer is null; when the
    bucket has no room for it the chunk is free and the pointer still leads to
    it, and when no arena can be allocated nothing changes. *)
Theorem pfree_invariant (b : backend_persistent) (h : heap C) (l1 : list chunk) (s : Z) (l2 : list chunk) (fl : list (Z * Z)) (ptr : Z)
  (Hb : pool_ok b) (Hh : heap_ok b h (l1 ++ (s, true) :: l2) fl) (Hptr : ptr_ok b (l1 ++ (s, true) :: l2) ptr)
  (Hv : get64 (h_mem h) ptr = chunk_data_off 0 (total l1)) :
  exists h' l' fl', pfree e ptr h = inr (tt, h') /\ heap_ok b h' l' fl' /\
    user_kept b (h_mem h) (l1 ++ (s, true) :: l2) ptr (h_mem h') /\ pfree_result l1 s l2 fl ptr (h_mem h') l' fl'.
Proof. by apply pfree_core. Qed.

Lemma pfree_recovers b ar m0 l1 s l2 ptr sl l v (room : Prop) : pool_ok b -> 0 <= ar < 10 -> ptr_ok b (l1 ++ (s, true) :: l2) ptr -> room ->
  let gb := guard_bytes b GUARD_TYPE_FREE ptr (chunk_data_off 0 (total l1)) in
  pfree_good room l1 s l2 gb sl l v -> sl = zeros 32 \/ sl = gb ->
  exists l' v', pfree_good room l1 s l2 gb (zeros 32) l' v' /\
    recovers b ar m0 (l1 ++ (s, true) :: l2) ptr (pfree_good room l1 s l2 gb) gb sl l v l' v' /\
    (l' = l1 ++ (s, true) :: l2 /\ v' = chunk_data_off 0 (total l1) \/ l' = l1 ++ (s, false) :: l2 /\ v' = 0).
Proof.
  intros Hb Har Hptr Hroom gb Hg Hw. pose proof (pool_ok_opened b (oe_is_pmem e) Hb) as Hb'.
  set (b' := opened (oe_is_pmem e) (b_pool b) (pool_size b)) in *.
  assert (ptr_ok b' (l1 ++ (s, true) :: l2) ptr) as Hptr' by (by apply (ptr_ok_same b b')).
  set (v0 := chunk_data_off 0 (total l1)) in *.
  assert (forall u, pfree_good room l1 s l2 gb gb (l1 ++ (s, u) :: l2) v0 ->
    recovers b ar m0 (l1 ++ (s, true) :: l2) ptr (pfree_good room l1 s l2 gb) gb gb (l1 ++ (s, u) :: l2) v0 (l1 ++ (s, true) :: l2) v0) as Hchunk.
  { intros u Hg2 h Hst Hf.
    apply (recover_dispatch b' ar m0 _ ptr _ gb h (l1 ++ (s, u) :: l2) v0 GUARD_TYPE_FREE); [done..|].
    eapply (recover_free_chunk b' Hb' ar Har m0 _ ptr Hptr' _ gb fresh_thread volatile_fresh h l1 s u l2); try done; apply fg_before; auto. }
  destruct Hg as [sl Hsl| |sl Hno Hsl|sl Hsl]; [| |done|].
  - exists (l1 ++ (s, true) :: l2), v0. split_and!; [apply fg_before; by left| |by left].
    destruct Hsl as [-> | ->]; [apply recovers_zeros|]. apply Hchunk. apply fg_before. by right.
  - exists (l1 ++ (s, true) :: l2), v0. split_and!; [apply fg_before; by left| |by left]. apply Hchunk, fg_freed.
  - exists (l1 ++ (s, false) :: l2), 0. split_and!; [apply fg_after; by left| |by right].
    destruct Hsl as [-> | ->]; [apply recovers_zeros|]. intros h Hst Hf.
    apply (recover_dispatch b' ar m0 _ ptr _ gb h (l1 ++ (s, false) :: l2) 0 GUARD_TYPE_FREE); [done..|].
    eapply (recover_free_null b' Hb' ar Har m0 _ ptr Hptr' _ gb fresh_thread volatile_fresh); try done; apply fg_after; auto.
Qed.


(** A block that [pmalloc] hands out is taken back by [pfree]: with an arena
    and room in the bucket, the pointer is null again, its units are free, and
    the heap invariant holds. *)
Theorem pmalloc_pfree_roundtrip (b : backend_persistent) (h : heap C) (l : list chunk) (fl : list (Z * Z)) (ptr size : Z)
  (Hb : pool_ok b) (Hh : heap_ok b h l fl) (Hptr : ptr_ok b l ptr) (Hnull : get64 (h_mem h) ptr = 0)
  (Hsize : CHUNKSIZE < size < 2 ^ 48) (Hm : arena_malloc_ok) (Hroom : forall fl, has_room fl) :
  exists h1 h2 l2 fl2, pmalloc e ptr size h = inr (tt, h1) /\ pfree e ptr h1 = inr (tt, h2) /\
    heap_ok b h2 l2 fl2 /\ get64 (h_mem h2) ptr = 0 /\ user_kept b (h_mem h) l ptr (h_mem h2) /\
    (l2 = l \/ exists la s lb, l = la ++ (s, false) :: lb /\ l2 = carve la (units_of size) s false lb).
Proof.
  destruct (pmalloc_core b h l fl ptr size Hb Hh Hptr Hnull Hsize) as (h1 & l' & fl' & E1 & Hh1 & Hu1 & Hr).
  destruct Hr as [(-> & Hz & _)|(la & s & lb & Ha & -> & Hp)].
  - exists h1, h1, l, fl'. split_and!; try done; [|by left]. unfold pfree. rewrite (bindM_inr _ _ _ 0 h1).
    + done.
    + unfold load, bindM, getM, ret. by rewrite Hz.
  - destruct Ha as (-> & Hle & _). destruct (mid_bounds b Hb _ _ _ _ _ (mo_zone _ _ _ (ho_media _ _ _ _ Hh))) as (Hla & Hs & Hn).
    pose proof (units_bounds size Hsize) as Hu.
    assert (forall a, in_free b (carve la (units_of size) s true lb) a -> in_free b (la ++ (s, false) :: lb) a) as Hin.
    { intros a. apply carve_free; lia. }
    assert (ptr_ok b (carve la (units_of size) s true lb) ptr) as Hptr1.
    { destruct Hptr as [Hpa Hpr Hpf]. constructor; [done|done|]. intros a Hia. destruct (Hpf a Hia) as [Hf1 Hf2]. split; [done|]. intros Hi. by apply Hf2, Hin. }
    destruct (pfree_core b Hb h1 la (units_of size) (rest (units_of size) s ++ lb) fl' ptr Hh1 Hptr1 Hp) as (h2 & l2 & fl2 & E2 & Hh2 & Hu2 & Hr2).
    exists h1, h2, l2, fl2. destruct Hr2 as [(_ & _ & _ & Hno)|[(-> & _ & Hz)|(_ & _ & _ & Hno)]]; [done| |by destruct Hno].
    split_and!; try done.
    + intros a Hf Hna. rewrite Hu2; [by apply Hu1| |done]. destruct Hf as [Hf1 Hf2]. split; [done|]. intros Hi. by apply Hf2, Hin.
    + right. by exists la, s, lb.
Qed.
End Theorems.
