(* ===== verification/PmallocFresh.v ===== *)
(** PmallocFresh: pool_open on memory that holds no pool yet, and closing and
    opening again. *)

From S2P Require Import Prelude Mem Util Prog StateM Durable ObjHeap Bucket Backend Pmalloc.
From S2P Require Import BackendSpec HeapLogic BstSpec Bst HeapSpec PmallocSpec PmallocOps.
From S2P Require Import PmallocTop PmallocRecover PmallocOpen PmallocCrash.

#[local] Open Scope stateM_scope.

(** ** The header *)

(** Every field but the state, of a header with its checksum. *)
Record header_fields (size : Z) (bs : list byte) : Prop := {
  hf_len : length bs = 1024%nat;
  hf_sig : take 16 bs = POOL_SIGNATURE;
  hf_size : le_at bs 40 8 = size;
  hf_major : le_at bs 24 8 = PERSISTENT_BACKEND_MAJOR;
  hf_chunk : le_at bs 48 8 = CHUNKSIZE;
  hf_zone : le_at bs 56 8 = MAX_CHUNK;
}.

(** A header as memory has it after the state was stored and the checksum
    renewed. *)
Definition with_state (bs : list byte) (state : Z) : list byte :=
  snd (util_checksum (splice bs 20 (le_enc 4 state)) HDR_CHECKSUM true).

Lemma with_state_eq bs state : with_state bs state =
  splice (splice bs 20 (le_enc 4 state)) 1016 (le_enc 8 (csum_value (splice bs 20 (le_enc 4 state)) 1016)).
Proof. done. Qed.

Lemma length_with_state bs state : length bs = 1024%nat -> length (with_state bs state) = 1024%nat.
Proof.
  intros Hl. rewrite with_state_eq. assert (length (splice bs 20 (le_enc 4 state)) = 1024%nat) as Hl1 by (rewrite length_splice; len).
  by rewrite length_splice, Hl1 by len.
Qed.

Lemma le_at_splice_out bs off new o k :
  (off + length new <= length bs)%nat -> (o + k <= off \/ off + length new <= o)%nat -> le_at (splice bs off new) o k = le_at bs o k.
Proof.
  intros Hl Ho. unfold le_at. f_equal. unfold splice.
  rewrite <- (take_drop off bs) at 3. rewrite <- (take_drop (length new) (drop off bs)), drop_drop.
  destruct Ho as [Ho|Ho].
  - rewrite !drop_app_le, !take_app_le by len. done.
  - rewrite !app_assoc. rewrite (drop_app_ge (take off bs ++ new)), (drop_app_ge (take off bs ++ take (length new) (drop off bs))) by len.
    do 2 f_equal. len.
Qed.

Lemma with_state_fields size bs state : header_fields size bs -> 0 <= state < 2 ^ 32 ->
  header_fields size (with_state bs state) /\ le_at (with_state bs state) 20 4 = state /\
  fst (util_checksum (with_state bs state) HDR_CHECKSUM false) = true.
Proof.
  intros [Hl Hs H1 H2 H3 H4] Hst. assert (length (splice bs 20 (le_enc 4 state)) = 1024%nat) as Hl1 by (rewrite length_splice; len).
  rewrite with_state_eq. split_and!.
  - constructor; [rewrite length_splice; len| |rewrite !le_at_splice_out by len; done..].
    unfold splice at 1. rewrite take_app_le, take_take by len. unfold splice. rewrite take_app_le, take_take by len. done.
  - rewrite le_at_splice_out, le_at_splice by len. by rewrite le_dec_enc_id.
  - apply (checksum_inserted _ 1016); [done|]. rewrite Hl1. apply Nat.leb_le. done.
Qed.

(** Fields of a header in memory. *)
Lemma header_in_memory b m bs : mread m (b_pool b) SIZEOF_HDR = bs -> header_fields (pool_size b) bs ->
  fst (util_checksum bs HDR_CHECKSUM false) = true -> le_at bs 20 4 = POOL_STATE_OPEN -> header_ok b m.
Proof.
  intros E [Hl Hs H1 H2 H3 H4] Hc Hst. assert (forall k (o : nat), (o + k <= 1024)%nat -> get_le k m (b_pool b + Z.of_nat o) = le_at bs o k) as Hf.
  { intros k o Ho. rewrite <- E. rewrite le_at_mread by (unfold SIZEOF_HDR; lia). done. }
  unfold header_ok, verify_header. rewrite E, Hc, Hs. rewrite bool_decide_eq_true_2 by done.
  unfold HDR_STATE, HDR_SIZE, HDR_MAJOR, HDR_CHUNK_SIZE, HDR_CHUNKS_PER_ZONE.
  change 20 with (Z.of_nat 20). change 40 with (Z.of_nat 40). change 24 with (Z.of_nat 24). change 48 with (Z.of_nat 48). change 56 with (Z.of_nat 56).
  rewrite !Hf by (apply Nat.leb_le; done). by rewrite Hst, H1, H2, H3, H4.
Qed.

Lemma verify_zeros m a : mread m a SIZEOF_HDR = zeros 1024 -> verify_header m a = false.
Proof. intros E. unfold verify_header. rewrite E. by rewrite (bool_decide_eq_false_2 (take 16 (zeros 1024) = POOL_SIGNATURE)), andb_false_r. Qed.

Lemma fresh_header_fields b : 0 <= pool_size b < 2 ^ 64 ->
  let bs := snd (util_checksum (backend_pool_header_bytes (fresh_header b)) HDR_CHECKSUM true) in
  header_fields (pool_size b) bs /\ le_at bs 20 4 = POOL_STATE_CLOSED.
Proof.
  intros Hs bs. set (h0 := backend_pool_header_bytes (fresh_header b)) in *.
  assert (h0 = le_enc 16 (le_dec POOL_SIGNATURE) ++ le_enc 4 0 ++ le_enc 4 POOL_STATE_CLOSED ++ le_enc 8 PERSISTENT_BACKEND_MAJOR ++
    le_enc 8 PERSISTENT_BACKEND_MINOR ++ le_enc 8 (pool_size b) ++ le_enc 8 CHUNKSIZE ++ le_enc 8 MAX_CHUNK ++ replicate 952 x00 ++ le_enc 8 0) as E0.
  { change 16%nat with (length POOL_SIGNATURE). by rewrite le_enc_dec. }
  assert (length h0 = 1024%nat) as Hl by (rewrite E0; field_len).
  assert (bs = splice h0 1016 (le_enc 8 (csum_value h0 1016))) as E by done.
  assert (forall o k, (o + k <= 1016)%nat -> le_at bs o k = le_at h0 o k) as Hf by (intros o k Ho; rewrite E; apply le_at_splice_out; len).
  split.
  - constructor; rewrite ?Hf, ?E0 by lia.
    + rewrite E, length_splice; len.
    + rewrite E. unfold splice. rewrite take_app_le, take_take by len. done.
    + field. by apply Z.mod_small.
    + by field.
    + by field.
    + by field.
  - rewrite Hf, E0 by lia. by field.
Qed.

(** A store inside a range that is read. *)
Lemma mread_mwrite_splice m a (o n : nat) new : (o + length new <= n)%nat ->
  mread (mwrite m (a + Z.of_nat o) new) a (Z.of_nat n) = splice (mread m a (Z.of_nat n)) o new.
Proof.
  intros Hn. replace (Z.of_nat n) with (Z.of_nat o + (Z.of_nat (length new) + Z.of_nat (n - o - length new))) by lia.
  rewrite !mread_app by lia. rewrite mread_mwrite_out, mread_mwrite_eq, mread_mwrite_out by lia.
  set (A := mread m a (Z.of_nat o)). set (B := mread m (a + Z.of_nat o) _). set (D := mread m (a + Z.of_nat o + _) _).
  assert (length A = o) as HA by (unfold A; len). assert (length B = length new) as HB by (unfold B; len).
  unfold splice. rewrite take_app_length' by done. rewrite (app_assoc A B D), drop_app_length' by (rewrite length_app; lia). done.
Qed.

Section Fresh.
Context (e : obj_env) {C : Type} `{ContainerLaws C} `{BucketMalloc} (pool size : Z).
Abbreviation b := (opened (oe_is_pmem e) pool size).
Abbreviation b1 := (filled (oe_is_pmem e) pool size).
Context (Hb : pool_ok b).
Implicit Type h : heap C.

(** Memory is unchanged outside the first [n] bytes of the pool. *)
Definition kept_beyond (m m' : mem) : Prop := forall a, a < pool \/ pool + 1083376 <= a -> m' a = m a.

(** Storing the state, with the header renewed. *)
Lemma set_pool_state_spec h state bs (Q : unit -> heap C -> Prop) :
  mread (h_mem h) pool SIZEOF_HDR = bs -> length bs = 1024%nat ->
  (forall h', mread (h_mem h') pool SIZEOF_HDR = with_state bs state ->
    same_but (h_mem h) (h_mem h') pool 34816 -> agree (h_mem h') (h_mem h) (pool + 1024) 32768 ->
    h_arena_id h' = h_arena_id h -> h_buckets h' = h_buckets h -> h_pool h' = h_pool h -> Q tt h') ->
  wp (set_pool_state b state) Q h.
Proof.
  intros E Hl HQ. unfold set_pool_state. change (b_pool b) with pool.
  apply wp_bind. apply wp_modM. set (h1 := set_h_mem _ _ _).
  assert (mread (h_mem h1) pool SIZEOF_HDR = splice bs 20 (le_enc 4 state)) as E1.
  { cbn [h1 set_h_mem h_mem]. unfold HDR_STATE, SIZEOF_HDR in *. change 20 with (Z.of_nat 20). change 1024 with (Z.of_nat 1024) in *.
    rewrite mread_mwrite_splice by len. by rewrite E. }
  apply wp_bind, wp_bind. apply wp_getM. cbn beta. apply wp_ret. change (b_pool b) with pool. rewrite E1. fold (with_state bs state).
  apply wp_bind. set (bs1 := with_state bs state).
  assert (length bs1 = 1024%nat) as Hl1 by (by apply length_with_state).
  apply wp_modM. set (h2 := set_h_mem _ _ _).
  assert (mread (h_mem h2) pool SIZEOF_HDR = bs1) as E2.
  { cbn [h2 set_h_mem h_mem]. unfold HDR_CHECKSUM, SIZEOF_HDR in *. change 1016 with (Z.of_nat 1016). change 1024 with (Z.of_nat 1024) in *.
    rewrite mread_mwrite_splice by len. rewrite E1. unfold bs1. rewrite with_state_eq.
    set (c := splice bs 20 (le_enc 4 state)). assert (length c = 1024%nat) as Hc by (unfold c; rewrite length_splice; len).
    unfold splice. rewrite drop_app_length' by len. rewrite length_app, !length_le_enc, length_drop. rewrite !(drop_ge c) by len.
    by rewrite !app_nil_r. }
  unfold write_backup_pool_headers. rewrite (po_zones _ Hb). change (seqZ 0 1) with [0]. cbn [forM]. apply wp_bind.
  unfold copy_header, pmemcpy. apply wp_bind, wp_bind. apply wp_getM. cbn beta. apply wp_ret. apply wp_modM. apply wp_ret.
  assert (b_pool b + zone_off 0 = pool + 33792) as -> by done.
  assert (forall m a bs, pool <= a -> a + Z.of_nat (length bs) <= pool + 1024 \/ pool + 33792 <= a /\ a + Z.of_nat (length bs) <= pool + 34816 ->
    same_but m (mwrite m a bs) pool 34816 /\ agree (mwrite m a bs) m (pool + 1024) 32768) as HW.
  { intros m a bs' Ha Hb'. split; [eapply same_sub; [apply mwrite_same|lia..]|eapply same_agree; [apply mwrite_same|lia]]. }
  apply HQ; cbn [h2 h1 set_h_mem h_mem h_arena_id h_buckets h_pool]; try done.
  - rewrite mread_mwrite_out; [exact E2|]. unfold SIZEOF_HDR. lia.
  - eapply same_trans; [eapply same_trans|]; apply HW; unfold HDR_STATE, HDR_CHECKSUM; rewrite ?length_le_enc, ?length_mread; unfold SIZEOF_HDR; len.
  - eapply agree_trans; [|eapply agree_trans]; apply HW; unfold HDR_STATE, HDR_CHECKSUM; rewrite ?length_le_enc, ?length_mread; unfold SIZEOF_HDR; len.
Qed.

(** Entering a pool whose header says it was closed. *)
Definition entered (m : mem) (h' : heap C) : Prop :=
  header_ok b (h_mem h') /\ same_but m (h_mem h') pool 34816 /\ agree (h_mem h') m (pool + 1024) 32768.

Lemma enter_closed h bs (Q : bool -> heap C -> Prop) :
  mread (h_mem h) pool SIZEOF_HDR = bs -> header_fields size bs -> le_at bs 20 4 = POOL_STATE_CLOSED ->
  (forall h', entered (h_mem h) h' -> h_arena_id h' = h_arena_id h -> h_buckets h' = h_buckets h -> h_pool h' = h_pool h -> Q true h') ->
  wp (enter_pool b) Q h.
Proof.
  intros E Hf Hst HQ. unfold enter_pool, get_pool_state. apply wp_bind. apply (wp_intro _ _ _ POOL_STATE_CLOSED h).
  { unfold load, bindM, getM, ret. change (b_pool b) with pool. do 2 f_equal. rewrite <- Hst, <- E. rewrite le_at_mread by (unfold SIZEOF_HDR; lia). done. }
  rewrite Z.eqb_refl. apply wp_bind. eapply set_pool_state_spec; [exact E|apply Hf|]. intros h' E' Hs Ha H1' H2 H3. apply wp_ret.
  destruct (with_state_fields size bs POOL_STATE_OPEN Hf) as (Hf' & Hst' & Hc); [done|].
  apply HQ; try done. split_and!; try done. by eapply header_in_memory.
Qed.

(** The memory before a pool is made: the metadata is zero. *)
Definition blank (m : mem) : Prop := forall a, pool <= a < pool + 1083376 -> m a = x00.

Lemma blank_read m a n : blank m -> pool <= a -> a + Z.of_nat n <= pool + 1083376 -> mread m a (Z.of_nat n) = zeros n.
Proof.
  intros Hz H1' H2. apply list_eq. intros i. destruct (Nat.lt_ge_cases i n).
  - rewrite lookup_mread by lia. unfold zeros. rewrite lookup_replicate_2 by lia. f_equal. apply Hz. lia.
  - rewrite !lookup_ge_None_2; [done|..]; unfold zeros; len.
Qed.

Lemma open_blank h (Q : bool -> heap C -> Prop) : blank (h_mem h) ->
  (forall h', header_ok b (h_mem h') -> idle b (h_mem h') -> unused pool 0 (h_mem h') -> kept_beyond (h_mem h) (h_mem h') ->
    h_arena_id h' = h_arena_id h -> h_buckets h' = h_buckets h -> Q true h') ->
  wp (open_pmem_storage b) Q h.
Proof.
  intros Hz HQ. destruct (po_size _ Hb) as [Hs1 Hs2]. cbn [pool_size opened] in Hs1, Hs2.
  assert (forall a, pool <= a -> a + 1024 <= pool + 1083376 -> verify_header (h_mem h) a = false) as Hver.
  { intros a H1' H2. apply verify_zeros. change SIZEOF_HDR with (Z.of_nat 1024). by apply blank_read. }
  unfold open_pmem_storage. apply wp_bind, wp_getM. change (b_pool b) with pool. rewrite Hver by lia.
  rewrite (po_zones _ Hb). change (seqZ 0 1) with [0]. cbn [recover_primary_header].
  apply wp_bind, wp_bind, wp_getM. change (b_pool b) with pool. change (zone_off 0) with 33792. rewrite Hver by lia. apply wp_ret.
  apply wp_bind. unfold write_pool_layout, zero_info_slots, write_primary_pool_header.
  change (b_pool b) with pool. change (slot_off 0) with 1024. change (SIZEOF_SLOT * MAX_INFO_SLOT) with 32768.
  apply wp_bind. apply wp_modM. set (h1 := set_h_mem _ _ _).
  apply wp_bind. set (bs := snd (util_checksum (backend_pool_header_bytes (fresh_header b)) HDR_CHECKSUM true)).
  destruct (fresh_header_fields b) as [Hf Hst]; [unfold ZONE_MIN_SIZE, CHUNKSIZE in *; cbn; lia|]. fold bs in Hf, Hst.
  apply wp_modM. fold bs. set (h2 := set_h_mem _ _ _).
  unfold write_backup_pool_headers. rewrite (po_zones _ Hb). change (seqZ 0 1) with [0]. cbn [forM]. apply wp_bind.
  unfold copy_header, pmemcpy. apply wp_bind, wp_bind. apply wp_getM. cbn beta. apply wp_ret. apply wp_modM. apply wp_ret.
  assert (b_pool b + zone_off 0 = pool + 33792) as -> by done. change (b_pool b) with pool. set (h3 := set_h_mem _ _ _).
  assert (same_but (h_mem h) (h_mem h3) pool 34816) as Hsame.
  { apply (same_trans _ (h_mem h2)); [apply (same_trans _ (h_mem h1))|]; cbn [h3 h2 h1 set_h_mem h_mem].
    - eapply same_sub; [apply mzero_same|lia..].
    - eapply same_sub; [apply mwrite_same|lia|rewrite (hf_len _ _ Hf); lia].
    - eapply same_sub; [apply mwrite_same|lia|rewrite length_mread; unfold SIZEOF_HDR; lia]. }
  assert (mread (h_mem h3) pool SIZEOF_HDR = bs) as E3.
  { cbn [h3 h2 h1 set_h_mem h_mem]. rewrite mread_mwrite_out by (unfold SIZEOF_HDR; lia). rewrite mread_mwrite_eq; [done|].
    rewrite (hf_len _ _ Hf). done. }
  eapply enter_closed; [exact E3|exact Hf|exact Hst|]. intros h' (Hh & Hs & Ha) E4 E5 _.
  assert (same_but (h_mem h) (h_mem h') pool 34816) as Hs' by (by eapply same_trans).
  apply HQ; [exact Hh| | | |exact E4|exact E5].
  - intros j Hj. unfold MAX_INFO_SLOT in Hj. rewrite slot_addr_eq. cbn [b_pool opened].
    rewrite (mread_agree _ (h_mem h3)) by (eapply agree_sub; [exact Ha|lia..]).
    cbn [h3 h2 h1 set_h_mem h_mem]. rewrite !mread_mwrite_out; [|rewrite (hf_len _ _ Hf); lia|rewrite length_mread; unfold SIZEOF_HDR; lia].
    rewrite mread_mzero; [done|lia..].
  - assert (hdr pool 0 0 = pool + 34816) as Eh by done. unfold unused, chunk_header_of. cbn [magic]. rewrite Eh.
    rewrite (get_le_agree 4 _ (h_mem h)) by (eapply same_agree; [exact Hs'|lia]).
    unfold get_le. rewrite blank_read; [by vm_compute|done|lia..].
  - intros a Hout. apply Hs'. lia.
Qed.

(** A zone that was never used becomes one free chunk. *)
Lemma fill_unused h bk (Q : unit -> heap C -> Prop) :
  unused pool 0 (h_mem h) -> vol b1 h bk [] None ->
  (forall h' fl, zone_at pool 0 (h_mem h') 0 [(nunits b, false)] (nunits b) -> same_but (h_mem h) (h_mem h') (hdr pool 0 0) 16 ->
    vol b1 h' bk fl None -> fl ⊆+ [entry 0 (nunits b)] -> (@has_room C _ _ [] -> fl = [entry 0 (nunits b)]) -> Q tt h') ->
  wpc (fill_loop b (S (Z.to_nat (nunits b))) 0 (nunits b) 0) Q (fun _ => True) h.
Proof.
  intros Hu Hv HQ. pose proof (nunits_bounds b Hb) as Hnb. assert (MAX_CHUNK = 65535) as HM by done.
  cbn [fill_loop]. ztrue. eapply wpc_step; [apply (chunk_at_in b Hb 0); lia|]. cbn beta. eapply wpc_step; [apply load_chunk_eq|]. cbn beta.
  cbn [b_pool opened]. unfold unused in Hu. rewrite (proj2 (Z.eqb_neq _ _) Hu). cbn [negb].
  apply wpc_bind. unfold write_chunk_header. apply wpc_bind. apply wpc_store; [done|]. apply wpc_store; [done|].
  eapply wpc_step; [apply load_chunk_eq|]. cbn beta. fold (new_header (nunits b)).
  set (h1 := put (put h _) _).
  assert (is_chunk pool 0 (h_mem h1) 0 (nunits b, false)) as Hc by (apply is_chunk_new; lia). pose proof Hc as (_ & _ & Hsz & Hfl).
  cbn [fst snd Z.b2z] in Hsz, Hfl. rewrite Hfl, Hsz. cbn [Z.eqb].
  assert (vol b1 h1 bk [] None) as Hv1 by (by apply vol_put, vol_put).
  apply wpc_bind. unfold add_chunk. eapply wpc_step; [done|]. cbn beta.
  eapply wpc_step. { change (Z.to_nat _) with 0%nat. by rewrite (proj1 (v_bucket _ _ _ _ _ Hv1)). } cbn beta.
  apply wpc_bind. eapply (add_object_spec b1); [done|]. intros ok h2 fl2 Hm2 _ Hv2 Hfl2 Hok. apply wpc_ret.
  cbn [unique_id obj_size_idx] in Hfl2. rewrite Hsz in Hfl2. fold (entry 0 (nunits b)) in Hfl2.
  rewrite u32_id by lia. destruct (Z.to_nat (nunits b)) eqn:En; [lia|]. cbn [fill_loop]. ztrue. apply wpc_ret.
  eapply (HQ h2 fl2); [| |done|rewrite Hfl2; destruct ok; [done|apply submseteq_nil_l]|].
  - rewrite Hm2. cbn [zone_at fst]. split_and!; [lia|done|lia].
  - rewrite Hm2. cbn [h1 put set_h_mem h_mem apply_event]. apply (same_trans _ (mwrite (h_mem h) (hdr pool 0 0) (new_header (nunits b)))); (eapply same_sub; [apply mwrite_same|lia|len]).
  - intros Hr. destruct ok; [by apply Permutation_singleton_r in Hfl2|by destruct Hok].
Qed.

(** What is left of pool_open once the storage is open. *)
Lemma pool_open_wp h (Q : bool -> heap C -> Prop) : can_open e ->
  wp (open_pmem_storage b) (fun r h1 => r = true /\ fresh_thread h1 /\
    forall h3 bk, h_mem h3 = h_mem h1 -> vol b1 h3 bk [] None ->
      wpc (fill_loop b (S (Z.to_nat (nunits b))) 0 (nunits b) 0) (fun _ h' => Q true h') (fun _ => True) h3) h ->
  wp (pool_open e pool size false) Q h.
Proof.
  intros (Hm1 & Hm2 & Hm3) Ho. unfold pool_open, pool_new. rewrite Hm1. cbn [negb].
  unfold backend_open. rewrite Hm2. apply wp_bind, wp_bind. unfold backend_persistent_open. cbn [negb]. fold b. apply wp_bind.
  eapply wp_mono; [exact Ho|]. intros r h1 (-> & (Ha & bk & Hbk) & Hfill). apply wp_ret. cbn [fmap option_fmap option_map]. apply wp_ret.
  rewrite Hm3. cbn [negb]. destruct (bucket_malloc_fresh _ _ Hbk) as [Hne _].
  eapply (wpc_wp _ _ (fun _ => True)). apply wpc_bind. eapply wpc_pure; [done|done|done|]. apply wpc_assoc, wpc_bind.
  eapply (buckets_spec e pool size _ _ bk); [done..|]. set (h2 := set_h_buckets _ _).
  pose proof (vol_pool0 e pool size h1 bk Hne Ha) as Hv. fold h2 in Hv.
  apply wpc_bind. unfold fill_buckets. eapply wpc_step; [done|]. cbn beta.
  unfold persistent_fill_buckets. apply wpc_bind. eapply wpc_pure; [done|done|done|]. set (h3 := set_h_pool _ _).
  change (get_zone_size_idx (zones_exhausted b) (max_zone b) (pool_size b)) with (get_zone_size_idx 0 (max_zone b) (pool_size b)).
  rewrite (po_zones _ Hb). fold (nunits b). change (zones_exhausted b) with 0.
  assert (vol b1 h3 bk [] None) as Hv3 by (destruct Hv; constructor; done).
  eapply wpc_mono; [by apply (Hfill h3 bk)|]. intros [] h' HQ. by apply wpc_ret.
Qed.

(** ** Making, closing and opening a pool *)

Lemma fresh_core h : can_open e -> fresh_thread h -> blank (h_mem h) ->
  exists h' fl, pool_open e pool size false h = inr (true, h') /\ heap_ok b1 h' [(nunits b, false)] fl /\
    kept_beyond (h_mem h) (h_mem h') /\ (@has_room C _ _ [] -> fl = [entry 0 (nunits b)]).
Proof.
  intros Ho Hf Hz. pose proof (nunits_bounds b Hb) as Hnb. unfold MAX_CHUNK in Hnb.
  destruct (wp_elim (pool_open e pool size false) (fun r h' => r = true /\ exists fl, heap_ok b1 h' [(nunits b, false)] fl /\
    kept_beyond (h_mem h) (h_mem h') /\ (@has_room C _ _ [] -> fl = [entry 0 (nunits b)])) h) as (r & h' & E & -> & fl & ? & ? & ?).
  2: { by exists h', fl. }
  apply pool_open_wp; [done|]. apply open_blank; [done|]. intros h1 Hh Hi Hu Hk Ha Hbk.
  split; [done|]. split; [split; [by rewrite Ha; apply Hf|rewrite Hbk; apply Hf]|]. intros h3 bk Em Hv.
  eapply (fill_unused h3 bk); [by rewrite Em|done|]. intros h' fl Hzone Hs Hv' Hfl Hroom. split; [done|]. exists fl.
  rewrite Em in Hs. assert (hdr pool 0 0 = pool + 34816) as Eh by done.
  split_and!; [|intros a Hout; rewrite Hs; [by apply Hk|lia]|done]. constructor; [|by exists bk|done]. constructor.
  - done.
  - intros j Hj. rewrite (mread_agree _ (h_mem h1)); [by apply Hi|]. eapply same_agree; [done|].
    rewrite slot_addr_eq. cbn [b_pool filled opened set_zones_exhausted]. unfold MAX_INFO_SLOT in Hj. lia.
  - apply (header_same b b1); [done|done|]. eapply header_agree; [|done]. eapply same_agree; [done|]. cbn [b_pool opened]. unfold SIZEOF_HDR. lia.
Qed.

(** Opening memory that holds no pool formats it: header and backup with a
    valid checksum, empty info slots, one free chunk that fills the zone; the
    heap invariant holds, the chunk is in the bucket when a node can be
    allocated, and nothing beyond the metadata is written. *)
Theorem pool_open_fresh (h : heap C) (Hopen : can_open e) (Hf : fresh_thread h) (Hblank : blank (h_mem h)) :
  exists h' fl, pool_open e pool size false h = inr (true, h') /\ heap_ok b1 h' [(nunits b, false)] fl /\
    kept_beyond (h_mem h) (h_mem h') /\ (@has_room C _ _ [] -> fl = [entry 0 (nunits b)]).
Proof. by apply fresh_core. Qed.
End Fresh.
