(* ===== verification/Pcommon.v ===== *)
(** Pcommon: src/src/tools/pmempool/common.c without its parsers.

    Pool types, the size limits of blocks, memory tests, and the questions the
    tool asks.  The host is little-endian, so the util_convert2h and
    util_convert2le functions are the identity on bytes. *)

From S2P Require Import Prelude Mem Util BttLayout Prog StateM Blk Log.

(** ** Pool types *)

Definition PMEM_POOL_TYPE_NONE : Z := 0.
Definition PMEM_POOL_TYPE_LOG : Z := 1.
Definition PMEM_POOL_TYPE_BLK : Z := 2.
Definition PMEM_POOL_TYPE_ALL : Z := 15.
Definition PMEM_POOL_TYPE_UNKNOWN : Z := 128.

Definition pmem_pool_type_parse_hdr (h : pool_hdr) : Z :=
  if bool_decide (signature h = LOG_HDR_SIG) then PMEM_POOL_TYPE_LOG
  else if bool_decide (signature h = BLK_HDR_SIG) then PMEM_POOL_TYPE_BLK
  else PMEM_POOL_TYPE_UNKNOWN.

Definition pmem_pool_get_min_size (t : Z) : Z :=
  if t =? PMEM_POOL_TYPE_LOG then PMEMLOG_MIN_POOL
  else if t =? PMEM_POOL_TYPE_BLK then PMEMBLK_MIN_POOL
  else 0.

(** 0 when the buffer holds one value, -1 otherwise. *)
Fixpoint util_check_memory (buff : list byte) (val : byte) : Z :=
  match buff with
  | [] => 0
  | b :: buff => if negb (b2z b =? b2z val) then -1 else util_check_memory buff val
  end.

Lemma check_memory_zero bs v : util_check_memory bs v = 0 -> bs = replicate (length bs) v.
Proof.
  induction bs as [|b bs IH]; intros E; [done|]. cbn [util_check_memory] in E.
  destruct (b2z b =? b2z v) eqn:Eb; cbn [negb] in E; [|done]. apply Z.eqb_eq, b2z_inj in Eb as ->.
  cbn. by rewrite <- IH.
Qed.

Lemma check_memory_replicate n v : util_check_memory (replicate n v) v = 0.
Proof. induction n as [|n IH]; [done|]. cbn [replicate util_check_memory]. by rewrite Z.eqb_refl. Qed.

(** 1 and the buffer, or 0 and the buffer with its checksum stored. *)
Definition util_validate_checksum (bs : list byte) (csum : Z) : bool * list byte :=
  let csum_valid := fst (util_checksum bs csum false) in
  (csum_valid, if csum_valid then bs else snd (util_checksum bs csum true)).

(** ** Block sizes *)

(** sizeof (struct pmemblk) *)
Definition SIZEOF_PMEMBLK : Z := 4176.

Definition util_get_max_bsize (fsize : Z) : Z :=
  if fsize =? 0 then 0
  else
    let nfree := BTT_DEFAULT_NFREE in
    let internal_nlba := 2 * nfree in
    let flog_size := roundup (nfree * roundup (2 * BTT_FLOG_SIZE) BTT_FLOG_PAIR_ALIGN) BTT_ALIGNMENT in
    let arena_size := u64 (fsize - SIZEOF_PMEMBLK) in
    let arena_size := if BTT_MAX_ARENA <? arena_size then BTT_MAX_ARENA else arena_size in
    let arena_size := u64 (arena_size - 2 * BTT_INFO_SIZE) in
    let arena_size := u64 (arena_size - flog_size) in
    let internal_lbasize := u32 (u64 (arena_size - BTT_ALIGNMENT) / internal_nlba - BTT_MAP_ENTRY_SIZE) in
    let internal_lbasize := if internal_lbasize <? BTT_MIN_LBA_SIZE then BTT_MIN_LBA_SIZE else internal_lbasize in
    u32 (u32 (roundup internal_lbasize BTT_INTERNAL_LBA_ALIGNMENT) - BTT_INTERNAL_LBA_ALIGNMENT).

(** true when the block size is not valid *)
Definition util_check_bsize (bsize fsize : Z) : bool := negb (bsize <? util_get_max_bsize fsize).

(** ** Questions *)

Definition CHAR_y : byte := x79.
Definition CHAR_n : byte := x6e.
Definition CHAR_question : byte := x3f.
Definition CHAR_nl : byte := x0a.

Definition tolower (c : byte) : byte :=
  if (65 <=? b2z c) && (b2z c <=? 90) then z2b (b2z c + 32) else c.

(** "strchr(answers, ans) != NULL": the terminating NUL is found too. *)
Definition accepted (ans : byte) (answers : list byte) : bool := bool_decide (ans ∈ answers ++ [x00]).

(** The loop of [ask] over the characters typed: the answer and what is left.
    getchar at the end of the input gives EOF for ever, which no answer is. *)
Fixpoint ask_loop (answers : list byte) (def_ans : byte) (input : list byte) : fault + (byte * list byte) :=
  match input with
  | [] => inl Blocked
  | c :: input =>
      let ans := tolower c in
      if bool_decide (ans = CHAR_nl) then inr (def_ans, input)
      else
        match input with
        | [] => if accepted ans answers then inr (ans, []) else inl Blocked
        | _ :: input => if accepted ans answers then inr (ans, input) else ask_loop answers def_ans input
        end
  end.

Definition ask (op : byte) (answers : list byte) (def_ans : byte) : M (list byte) byte :=
  if negb (bool_decide (op = CHAR_question)) then ret op else ask_loop answers def_ans.

Definition ask_yn (op def_ans : byte) : M (list byte) byte := ask op [CHAR_y; CHAR_n] def_ans.
