(* ===== verification/Pcheck.v ===== *)
(** Pcheck: src/src/tools/pmempool/check.c, the consistency check and repair of
    a pool file: the context, the pool header and the headers of log and blk
    pools.

    The state is [struct pmempool_check]: the file behind its descriptor, the
    union of headers as bytes, the cached arenas, what the user types.  Printing
    and parsing of the command line are left out; malloc of the tool succeeds
    (err(1) ends the process otherwise). *)

From S2P Require Import Prelude Mem Util BttLayout Prog StateM Btt Blk Log Pcommon.

#[local] Open Scope stateM_scope.

(** ** The context *)

(** struct arena; the map and the flog are decoded as the code's pointers see
    them: 32-bit entries, and 64-byte slots of two flog entries and padding. *)
Record flog_slot := { fs_alpha : btt_flog; fs_beta : btt_flog; fs_pad : list byte }.

Record pc_arena := {
  ar_info : list byte;
  ar_id : Z;
  ar_valid : bool;
  ar_offset : Z;
  ar_flog : option (list flog_slot);
  ar_map : option (list Z);
}.

Definition set_ar_info (a : pc_arena) (bs : list byte) : pc_arena :=
  {| ar_info := bs; ar_id := ar_id a; ar_valid := ar_valid a; ar_offset := ar_offset a;
     ar_flog := ar_flog a; ar_map := ar_map a |}.
Definition set_ar_flog (a : pc_arena) (l : list flog_slot) : pc_arena :=
  {| ar_info := ar_info a; ar_id := ar_id a; ar_valid := ar_valid a; ar_offset := ar_offset a;
     ar_flog := Some l; ar_map := ar_map a |}.
Definition set_ar_map (a : pc_arena) (l : list Z) : pc_arena :=
  {| ar_info := ar_info a; ar_id := ar_id a; ar_valid := ar_valid a; ar_offset := ar_offset a;
     ar_flog := ar_flog a; ar_map := Some l |}.
Definition no_arena : pc_arena :=
  {| ar_info := replicate 4096 x00; ar_id := 0; ar_valid := false; ar_offset := 0; ar_flog := None; ar_map := None |}.

Inductive uuid_operation := UUID_NOP | UUID_FROM_BTT | UUID_REGENERATED.

Record pmempool_check := {
  fd_mem : mem;
  fd_size : Z;
  pc_repair : bool;
  pc_backup : bool;
  pc_exec : bool;
  pc_ptype : Z;
  pc_hdr : list byte;
  pc_uuid_op : uuid_operation;
  pc_bttc : pc_arena;
  pc_arenas : list pc_arena;
  pc_narenas : Z;
  pc_ans : byte;
  pc_input : list byte;
}.

Definition set_file (s : pmempool_check) (m : mem) (size : Z) : pmempool_check :=
  {| fd_mem := m; fd_size := size; pc_repair := pc_repair s; pc_backup := pc_backup s; pc_exec := pc_exec s;
     pc_ptype := pc_ptype s; pc_hdr := pc_hdr s; pc_uuid_op := pc_uuid_op s; pc_bttc := pc_bttc s;
     pc_arenas := pc_arenas s; pc_narenas := pc_narenas s; pc_ans := pc_ans s; pc_input := pc_input s |}.
Definition set_ptype (t : Z) (s : pmempool_check) : pmempool_check :=
  {| fd_mem := fd_mem s; fd_size := fd_size s; pc_repair := pc_repair s; pc_backup := pc_backup s; pc_exec := pc_exec s;
     pc_ptype := t; pc_hdr := pc_hdr s; pc_uuid_op := pc_uuid_op s; pc_bttc := pc_bttc s;
     pc_arenas := pc_arenas s; pc_narenas := pc_narenas s; pc_ans := pc_ans s; pc_input := pc_input s |}.
Definition set_hdr (bs : list byte) (s : pmempool_check) : pmempool_check :=
  {| fd_mem := fd_mem s; fd_size := fd_size s; pc_repair := pc_repair s; pc_backup := pc_backup s; pc_exec := pc_exec s;
     pc_ptype := pc_ptype s; pc_hdr := bs; pc_uuid_op := pc_uuid_op s; pc_bttc := pc_bttc s;
     pc_arenas := pc_arenas s; pc_narenas := pc_narenas s; pc_ans := pc_ans s; pc_input := pc_input s |}.
Definition set_uuid_op (u : uuid_operation) (s : pmempool_check) : pmempool_check :=
  {| fd_mem := fd_mem s; fd_size := fd_size s; pc_repair := pc_repair s; pc_backup := pc_backup s; pc_exec := pc_exec s;
     pc_ptype := pc_ptype s; pc_hdr := pc_hdr s; pc_uuid_op := u; pc_bttc := pc_bttc s;
     pc_arenas := pc_arenas s; pc_narenas := pc_narenas s; pc_ans := pc_ans s; pc_input := pc_input s |}.
Definition set_bttc (a : pc_arena) (s : pmempool_check) : pmempool_check :=
  {| fd_mem := fd_mem s; fd_size := fd_size s; pc_repair := pc_repair s; pc_backup := pc_backup s; pc_exec := pc_exec s;
     pc_ptype := pc_ptype s; pc_hdr := pc_hdr s; pc_uuid_op := pc_uuid_op s; pc_bttc := a;
     pc_arenas := pc_arenas s; pc_narenas := pc_narenas s; pc_ans := pc_ans s; pc_input := pc_input s |}.
Definition set_pc_arenas (l : list pc_arena) (n : Z) (s : pmempool_check) : pmempool_check :=
  {| fd_mem := fd_mem s; fd_size := fd_size s; pc_repair := pc_repair s; pc_backup := pc_backup s; pc_exec := pc_exec s;
     pc_ptype := pc_ptype s; pc_hdr := pc_hdr s; pc_uuid_op := pc_uuid_op s; pc_bttc := pc_bttc s;
     pc_arenas := l; pc_narenas := n; pc_ans := pc_ans s; pc_input := pc_input s |}.
Definition set_input (l : list byte) (s : pmempool_check) : pmempool_check :=
  {| fd_mem := fd_mem s; fd_size := fd_size s; pc_repair := pc_repair s; pc_backup := pc_backup s; pc_exec := pc_exec s;
     pc_ptype := pc_ptype s; pc_hdr := pc_hdr s; pc_uuid_op := pc_uuid_op s; pc_bttc := pc_bttc s;
     pc_arenas := pc_arenas s; pc_narenas := pc_narenas s; pc_ans := pc_ans s; pc_input := l |}.

(** check_result_t; some functions return -1, which is none of its values. *)
Inductive check_result :=
| CHECK_RESULT_CONSISTENT
| CHECK_RESULT_CONSISTENT_BREAK
| CHECK_RESULT_NOT_CONSISTENT
| CHECK_RESULT_REPAIRED
| CHECK_RESULT_CANNOT_REPAIR
| CHECK_RESULT_ERROR
| CHECK_RESULT_NEG.

#[export] Instance check_result_eq_dec : EqDecision check_result.
Proof. solve_decision. Defined.

(** What the tool takes from its environment: whether a read, a write, fsync,
    fstat and mmap succeed, opening the file and copying it to the backup. *)
Record penv := {
  pe_pread : Z -> Z -> bool;       (* size, offset *)
  pe_pwrite : Z -> Z -> bool;
  pe_fsync : bool;
  pe_fstat : bool;
  pe_mmap : bool;
  pe_open_r : bool;                (* the open for reading that finds the type *)
  pe_open : bool;
  pe_backup : bool;
  pe_mtime : Z;
  pe_uuid : list byte;             (* uuid_generate *)
}.

Definition BTT_INFO_SIG : list byte := Sig.
Definition NS_LANE : Z := 0.

(** *** The namespace of a part of the file *)

(** struct btt_context: the mapped range. *)
Record btt_context := { cx_mem : mem; cx_len : Z }.

Definition pmempool_check_nsread (c : btt_context) (lane count off : Z) : errno + list byte :=
  if cx_len c <? u64 (off + count) then inl EINVAL else inr (mread (cx_mem c) off count).
Definition pmempool_check_nswrite (c : btt_context) (lane : Z) (buf : list byte) (off : Z) : errno + btt_context :=
  if cx_len c <? u64 (off + Z.of_nat (length buf)) then inl EINVAL
  else inr {| cx_mem := mwrite (cx_mem c) off buf; cx_len := cx_len c |}.
Definition pmempool_check_nsmap (c : btt_context) (lane len off : Z) : errno + list byte :=
  if cx_len c <=? u64 (off + len) then inl EINVAL else inr (mread (cx_mem c) off len).

(** The table has no [nszero] (see [no_nszero]) and [ns_is_zeroed] is 0. *)
#[export] Instance pmempool_check_btt_ns_callback : NsOps btt_context := {
  nsread := pmempool_check_nsread;
  nswrite := pmempool_check_nswrite;
  nszero := fun _ _ _ _ => inl EINVAL;
  nsmap := pmempool_check_nsmap;
  ns_is_zeroed := fun _ => false;
}.

(** A BTT routine over a table whose [nszero] is NULL: the call is undefined. *)
Fixpoint no_nszero {S A} (p : Prog.prog S A) : Prog.prog S A :=
  match p with
  | Ret a => Ret a
  | Throw e => Throw e
  | Crash c => Crash c
  | NsRead l c o k => NsRead l c o (fun r => no_nszero (k r))
  | NsWrite l b o k => NsWrite l b o (fun r => no_nszero (k r))
  | NsZero _ _ _ _ => Crash Undefined
  | NsMap l n o k => NsMap l n o (fun r => no_nszero (k r))
  | NsIsZeroed k => NsIsZeroed (fun r => no_nszero (k r))
  | Malloc n k => Malloc n (fun r => no_nszero (k r))
  | Step g u k => Step g u (fun r => no_nszero (k r))
  end.

Section Pcheck.
Context (e : penv) `{Allocator}.
Abbreviation Pc := (M pmempool_check).

(** ** Access to the file *)

(** At most [size] bytes, fewer at the end of the file; [None] is -1. *)
Definition pread (size off : Z) : Pc (option (list byte)) :=
  s <- getM ;;
  ret (if pe_pread e size off && (0 <=? off)
       then Some (mread (fd_mem s) off (Z.max 0 (Z.min size (fd_size s - off)))) else None).

(** Whether everything was written; a write beyond the end extends the file. *)
Definition pwrite (bs : list byte) (off : Z) : Pc bool :=
  let n := Z.of_nat (length bs) in
  if pe_pwrite e n off && (0 <=? off)
  then modM (fun s => set_file s (mwrite (fd_mem s) off bs) (Z.max (fd_size s) (off + n))) ;;; ret true
  else ret false.

(** Read into a buffer: what it holds now, and whether it was filled. *)
Definition pread_into (buf : list byte) (off : Z) : Pc (list byte * bool) :=
  r <- pread (Z.of_nat (length buf)) off ;;
  ret (match r with
       | None => (buf, false)
       | Some bs => (bs ++ drop (length bs) buf, (length bs =? length buf)%nat)
       end).

(** The question, answered from the command line or by the user. *)
Definition ask_Yn : Pc byte :=
  s <- getM ;;
  zoomM pc_input set_input (ask_yn (pc_ans s) CHAR_y).

Definition is_char (b c : byte) : bool := bool_decide (b = c).

(** Starting at an offset, read every page and look for a valid info block. *)
Fixpoint first_valid_loop (fuel : nat) (infop : list byte) (offset : Z) : Pc (list byte * Z) :=
  match fuel with
  | O => fail OutOfFuel
  | S fuel =>
      r <- pread_into infop offset ;;
      let '(infop, ok) := r in
      if negb ok then ret (infop, 0)
      else if bool_decide (slice infop 0 16 = BTT_INFO_SIG) && fst (util_checksum infop INFO_CSUM false)
      then ret (infop, offset)
      else first_valid_loop fuel infop (offset + BTT_ALIGNMENT)
  end.

Definition scan_fuel (s : pmempool_check) : nat := S (S (Z.to_nat (fd_size s / BTT_ALIGNMENT))).

(** Scans into the buffer of the cached arena; 0 is "none". *)
Definition pmempool_check_get_first_valid_btt (offset : Z) : Pc Z :=
  s <- getM ;;
  r <- first_valid_loop (scan_fuel s) (ar_info (pc_bttc s)) offset ;;
  modM (fun s => set_bttc (set_ar_info (pc_bttc s) (fst r)) s) ;;;
  ret (snd r).

Definition pmempool_check_get_first_valid_arena : Pc bool :=
  offset <- pmempool_check_get_first_valid_btt (2 * BTT_ALIGNMENT) ;;
  if negb (offset =? 0) then
    modM (fun s => set_bttc {| ar_info := ar_info (pc_bttc s); ar_id := ar_id (pc_bttc s); ar_valid := true;
                               ar_offset := offset; ar_flog := ar_flog (pc_bttc s); ar_map := ar_map (pc_bttc s) |} s) ;;;
    ret true
  else ret false.

Definition pmempool_check_insert_arena (a : pc_arena) : Pc unit :=
  modM (fun s => set_pc_arenas (pc_arenas s ++ [a]) (u32 (pc_narenas s + 1)) s).

(** ** The pool header *)

(** pcp->hdr.pool, and a store to some of its fields *)
Definition hdr_pool (s : pmempool_check) : pool_hdr := pool_hdr_of (take 4096 (pc_hdr s)).
Definition set_pool (h : pool_hdr) (s : pmempool_check) : pmempool_check :=
  set_hdr (pool_hdr_bytes h ++ drop 4096 (pc_hdr s)) s.

Definition set_signature (v : list byte) (h : pool_hdr) : pool_hdr :=
  {| signature := v; major := major h; compat_features := compat_features h; incompat_features := incompat_features h;
     ro_compat_features := ro_compat_features h; uuid := uuid h; crtime := crtime h; unused := unused h; checksum := checksum h |}.
Definition set_major (v : Z) (h : pool_hdr) : pool_hdr :=
  {| signature := signature h; major := v; compat_features := compat_features h; incompat_features := incompat_features h;
     ro_compat_features := ro_compat_features h; uuid := uuid h; crtime := crtime h; unused := unused h; checksum := checksum h |}.
Definition set_compat (v : Z) (h : pool_hdr) : pool_hdr :=
  {| signature := signature h; major := major h; compat_features := v; incompat_features := incompat_features h;
     ro_compat_features := ro_compat_features h; uuid := uuid h; crtime := crtime h; unused := unused h; checksum := checksum h |}.
Definition set_incompat (v : Z) (h : pool_hdr) : pool_hdr :=
  {| signature := signature h; major := major h; compat_features := compat_features h; incompat_features := v;
     ro_compat_features := ro_compat_features h; uuid := uuid h; crtime := crtime h; unused := unused h; checksum := checksum h |}.
Definition set_ro_compat (v : Z) (h : pool_hdr) : pool_hdr :=
  {| signature := signature h; major := major h; compat_features := compat_features h; incompat_features := incompat_features h;
     ro_compat_features := v; uuid := uuid h; crtime := crtime h; unused := unused h; checksum := checksum h |}.
Definition set_uuid (v : list byte) (h : pool_hdr) : pool_hdr :=
  {| signature := signature h; major := major h; compat_features := compat_features h; incompat_features := incompat_features h;
     ro_compat_features := ro_compat_features h; uuid := v; crtime := crtime h; unused := unused h; checksum := checksum h |}.
Definition set_crtime (v : Z) (h : pool_hdr) : pool_hdr :=
  {| signature := signature h; major := major h; compat_features := compat_features h; incompat_features := incompat_features h;
     ro_compat_features := ro_compat_features h; uuid := uuid h; crtime := v; unused := unused h; checksum := checksum h |}.
Definition set_unused (v : list byte) (h : pool_hdr) : pool_hdr :=
  {| signature := signature h; major := major h; compat_features := compat_features h; incompat_features := incompat_features h;
     ro_compat_features := ro_compat_features h; uuid := uuid h; crtime := crtime h; unused := v; checksum := checksum h |}.

(** The fields LOG_FORMAT_... and BLK_FORMAT_... of the default header. *)
Record default_hdr := { d_major : Z; d_compat : Z; d_incompat : Z; d_ro_compat : Z }.
Definition default_of (t : Z) : option default_hdr :=
  if t =? PMEM_POOL_TYPE_LOG then
    Some {| d_major := LOG_FORMAT_MAJOR; d_compat := LOG_FORMAT_COMPAT; d_incompat := LOG_FORMAT_INCOMPAT;
            d_ro_compat := LOG_FORMAT_RO_COMPAT |}
  else if t =? PMEM_POOL_TYPE_BLK then
    Some {| d_major := BLK_FORMAT_MAJOR; d_compat := BLK_FORMAT_COMPAT; d_incompat := BLK_FORMAT_INCOMPAT;
            d_ro_compat := BLK_FORMAT_RO_COMPAT |}
  else None.

(** "if (field is not valid) if (ask_Yn(...) == 'y') store the default" *)
Definition offer (bad : bool) (fix_ : pool_hdr -> pool_hdr) : Pc bool :=
  if bad then
    a <- ask_Yn ;;
    if is_char a CHAR_y then modM (fun s => set_pool (fix_ (hdr_pool s)) s) ;;; ret true else ret false
  else ret false.

(** The type of a pool whose header is damaged; false: it cannot be determined. *)
Definition determine_type : Pc bool :=
  modM (fun s => set_ptype (pmem_pool_type_parse_hdr (hdr_pool s)) s) ;;;
  s <- getM ;;
  if pc_ptype s =? PMEM_POOL_TYPE_UNKNOWN then
    found <- pmempool_check_get_first_valid_arena ;;
    if found : bool then
      a <- ask_Yn ;;
      if is_char a CHAR_y then
        modM (fun s => set_pool (set_signature BLK_HDR_SIG (hdr_pool s)) s) ;;;
        modM (set_ptype PMEM_POOL_TYPE_BLK) ;;;
        ret true
      else ret false
    else ret false
  else ret true.

Definition set_defaults (d : default_hdr) : Pc unit :=
  s <- getM ;; offer (negb (major (hdr_pool s) =? d_major d)) (set_major (d_major d)) ;;;
  s <- getM ;; offer (negb (compat_features (hdr_pool s) =? d_compat d)) (set_compat (d_compat d)) ;;;
  s <- getM ;; offer (negb (incompat_features (hdr_pool s) =? d_incompat d)) (set_incompat (d_incompat d)) ;;;
  s <- getM ;; offer (negb (ro_compat_features (hdr_pool s) =? d_ro_compat d)) (set_ro_compat (d_ro_compat d)) ;;;
  s <- getM ;; offer (negb (util_check_memory (unused (hdr_pool s)) x00 =? 0)) (set_unused (replicate 4040 x00)) ;;;
  ret tt.

(** For a blk pool the UUID is taken from the info block. *)
Definition uuid_from_btt : Pc unit :=
  s <- getM ;;
  let parent_uuid := slice (ar_info (pc_bttc s)) 16 16 in
  took <- offer ((pc_ptype s =? PMEM_POOL_TYPE_BLK) && ar_valid (pc_bttc s)
                 && negb (bool_decide (uuid (hdr_pool s) = parent_uuid))) (set_uuid parent_uuid) ;;
  if took : bool then modM (set_uuid_op UUID_FROM_BTT) else ret tt.

Definition hdr_checksum_ok (s : pmempool_check) : bool := fst (util_checksum (take 4096 (pc_hdr s)) 4088 false).

(** When the checksum is still wrong: creation time, UUID, checksum. *)
Definition regenerate : Pc check_result :=
  if negb (pe_fstat e) then ret CHECK_RESULT_ERROR
  else
    s <- getM ;;
    let late := u64 (pe_mtime e) <? crtime (hdr_pool s) in
    fixed <- offer late (set_crtime (u64 (pe_mtime e))) ;;
    if late && negb fixed then ret CHECK_RESULT_CANNOT_REPAIR
    else
      s <- getM ;;
      a <- (match pc_uuid_op s with UUID_NOP => ask_Yn | _ => ret CHAR_n end) ;;
      if negb (is_char a CHAR_y) then ret CHECK_RESULT_CANNOT_REPAIR
      else
        modM (fun s => set_pool (set_uuid (take 16 (pe_uuid e)) (hdr_pool s)) s) ;;;
        modM (set_uuid_op UUID_REGENERATED) ;;;
        a <- ask_Yn ;;
        if is_char a CHAR_n then ret CHECK_RESULT_CANNOT_REPAIR
        else
          modM (fun s => set_hdr (snd (util_checksum (take 4096 (pc_hdr s)) 4088 true) ++ drop 4096 (pc_hdr s)) s) ;;;
          ret CHECK_RESULT_REPAIRED.

Definition repair_pool_hdr : Pc check_result :=
  known <- determine_type ;;
  if negb known then ret CHECK_RESULT_CANNOT_REPAIR
  else
    s <- getM ;;
    d <- validM (default_of (pc_ptype s)) ;;
    set_defaults d ;;;
    uuid_from_btt ;;;
    s <- getM ;;
    if negb (hdr_checksum_ok s) then regenerate else ret CHECK_RESULT_REPAIRED.

Definition pmempool_check_pool_hdr : Pc check_result :=
  s <- getM ;;
  r <- pread_into (take 4096 (pc_hdr s)) 0 ;;
  modM (set_hdr (fst r ++ drop 4096 (pc_hdr s))) ;;;
  if negb (snd r) then ret CHECK_RESULT_ERROR
  else
    s <- getM ;;
    if negb (util_check_memory (take 4096 (pc_hdr s)) x00 =? 0) && hdr_checksum_ok s
    then ret CHECK_RESULT_CONSISTENT
    else if negb (pc_repair s) then ret CHECK_RESULT_NOT_CONSISTENT
    else repair_pool_hdr.

(** ** The header of the log *)

(** sizeof (struct pmemlog) and the rest of the structure *)
Definition read_rest (size : Z) : Pc bool :=
  s <- getM ;;
  r <- pread_into (slice (pc_hdr s) 4096 (Z.to_nat size - 4096)) 4096 ;;
  modM (set_hdr (splice (pc_hdr s) 4096 (fst r))) ;;;
  ret (snd r).

Definition pmempool_check_read_pmemlog : Pc bool := read_rest SIZEOF_PMEMLOG.
Definition pmempool_check_read_pmemblk : Pc bool := read_rest SIZEOF_PMEMBLK.

Definition hdr_field (off : Z) (n : nat) (s : pmempool_check) : Z := le_at (pc_hdr s) (Z.to_nat off) n.
Definition set_field (off : Z) (bs : list byte) (s : pmempool_check) : pmempool_check :=
  set_hdr (splice (pc_hdr s) (Z.to_nat off) bs) s.

(** One damaged field: store a new value ([inr]) or stop with a result ([inl]). *)
Definition repair_field (bad : bool) (off : Z) (bs : list byte) (r : check_result) : Pc (check_result + check_result) :=
  if bad then
    s <- getM ;;
    if pc_repair s then
      a <- ask_Yn ;;
      if is_char a CHAR_y then modM (set_field off bs) ;;; ret (inr CHECK_RESULT_REPAIRED)
      else ret (inl CHECK_RESULT_CANNOT_REPAIR)
    else ret (inl CHECK_RESULT_NOT_CONSISTENT)
  else ret (inr r).

Definition pmempool_check_pmemlog : Pc check_result :=
  ok <- pmempool_check_read_pmemlog ;;
  if negb ok then ret CHECK_RESULT_ERROR
  else if negb (pe_fstat e) then ret CHECK_RESULT_ERROR
  else
    let d_start_offset := roundup SIZEOF_PMEMLOG LOG_FORMAT_DATA_ALIGN in
    s <- getM ;;
    let st_size := fd_size s in
    r <- repair_field (negb (hdr_field START_OFF 8 s =? d_start_offset)) START_OFF (le_enc 8 d_start_offset)
           CHECK_RESULT_CONSISTENT ;;
    match r with
    | inl stop => ret stop
    | inr res =>
        s <- getM ;;
        r <- repair_field (negb (hdr_field END_OFF 8 s =? st_size)) END_OFF (le_enc 8 st_size) res ;;
        match r with
        | inl stop => ret stop
        | inr res =>
            s <- getM ;;
            r <- repair_field ((hdr_field WRITE_OFF 8 s <? d_start_offset) || (st_size <? hdr_field WRITE_OFF 8 s))
                   WRITE_OFF (le_enc 8 st_size) res ;;
            ret (match r with inl stop => stop | inr res => res end)
        end
    end.

(** ** The header of the blk pool *)

Definition pmempool_check_pmemblk : Pc check_result :=
  ok <- pmempool_check_read_pmemblk ;;
  if negb ok then ret CHECK_RESULT_ERROR
  else
    s <- getM ;;
    (if negb (ar_valid (pc_bttc s)) then pmempool_check_get_first_valid_arena else ret true) ;;;
    s <- getM ;;
    let bsize := hdr_field BLK_BSIZE_OFF 4 s in
    if ar_valid (pc_bttc s) then
      let btt_bsize := i_external_lbasize (btt_info_of (ar_info (pc_bttc s))) in
      r <- repair_field (negb (bsize =? btt_bsize)) BLK_BSIZE_OFF (le_enc 4 btt_bsize) CHECK_RESULT_CONSISTENT ;;
      ret (match r with inl stop => stop | inr res => res end)
    else if negb (pe_fstat e) then ret CHECK_RESULT_ERROR
    else if (bsize <? BTT_MIN_LBA_SIZE) || util_check_bsize bsize (fd_size s) then ret CHECK_RESULT_CANNOT_REPAIR
    else ret CHECK_RESULT_CONSISTENT.
End Pcheck.
