(* ===== verification/PcheckBtt.v ===== *)
(** PcheckBtt: src/src/tools/pmempool/check.c, the rest: the info blocks of the
    BTT, its maps and flogs, writing the repaired structures, and the steps in
    the order they are run. *)

From S2P Require Import Prelude Mem Util BttLayout Prog StateM Btt Blk Log Pcommon Pcheck.

#[local] Open Scope stateM_scope.

Section Pcheck.
Context (e : penv) `{Allocator}.
Abbreviation Pc := (M pmempool_check).

(** ** Info blocks *)

(** 1: valid, 0: wrong checksum, -1: no signature *)
Definition pmempool_check_check_btt (infop : list byte) : Z :=
  if bool_decide (slice infop 0 16 = BTT_INFO_SIG)
  then (if fst (util_checksum infop INFO_CSUM false) then 1 else 0) else -1.

Definition new_arena (info : list byte) (id offset : Z) : pc_arena :=
  {| ar_info := info; ar_id := id; ar_valid := true; ar_offset := offset; ar_flog := None; ar_map := None |}.

(** The mapping of a part of the file, stored back when it is shared. *)
Definition store_back (shared : bool) (startoff len : Z) (c : btt_context) : Pc unit :=
  if shared then
    modM (fun s => set_file s (fun z => if (startoff <=? z) && (z <? startoff + len)
                                        then cx_mem c (z - startoff) else fd_mem s z) (fd_size s))
  else ret tt.

(** "do ... while (nextoff > 0)" over the arenas just written; the offset of the
    last one, or none when an info block is not valid. *)
Fixpoint add_arenas (fuel : nat) (m : mem) (startoff offset : Z) : Pc (option Z) :=
  match fuel with
  | O => fail OutOfFuel
  | S fuel =>
      let infop := mread m offset BTT_INFO_SIZE in
      if negb (pmempool_check_check_btt infop =? 1) then ret None
      else
        s <- getM ;;
        pmempool_check_insert_arena (new_arena infop (pc_narenas s) (u64 (offset + startoff))) ;;;
        let nextoff := i_nextoff (btt_info_of infop) in
        if 0 <? nextoff then add_arenas fuel m startoff (u64 (offset + nextoff)) else ret (Some offset)
  end.

(** The last arena of the list gets the offset of the valid arena that follows. *)
Definition link_last (nextoff : Z) (l : list pc_arena) : list pc_arena :=
  match last l with
  | None => l
  | Some a =>
      let info := splice (ar_info a) 64 (le_enc 8 nextoff) in
      removelast l ++ [set_ar_info a (snd (util_checksum info INFO_CSUM true))]
  end.

(** 0 or -1.  btt_write is given the mapping itself as its buffer, so it writes
    what lies at the start of the range once the layout is there. *)
Definition pmempool_check_btt_info_advanced_repair (startoff endoff : Z) : Pc Z :=
  if (endoff =? 0) && negb (pe_fstat e) then ret (-1)
  else
    s <- getM ;;
    let eof := endoff =? 0 in
    let endoff := if eof then fd_size s else endoff in
    let rawsize := u64 (endoff - startoff) in
    let shared := pc_repair s && pc_exec s in
    if negb (pe_mmap e) then ret (-1)
    else
      let c := {| cx_mem := fun z => fd_mem s (startoff + z); cx_len := rawsize |} in
      let lbasize := hdr_field BLK_BSIZE_OFF 4 s in
      match run (no_nszero (btt_init rawsize lbasize (uuid (hdr_pool s)) BTT_DEFAULT_NFREE))
                (Build_world c zero_btt []) with
      | (Fault f, _) => fail f
      | (Err _, w) => store_back shared startoff rawsize (w_ns w) ;;; ret (-1)
      | (Done _, w) =>
          match run (no_nszero (bind (check_lba 0) (fun _ => ensure_layout NS_LANE))) w with
          | (Fault f, _) => fail f
          | (Err _, w) => store_back shared startoff rawsize (w_ns w) ;;; ret (-1)
          | (Done _, w) =>
              let buf := mread (cx_mem (w_ns w)) 0 lbasize in
              match run (no_nszero (btt_write NS_LANE 0 buf)) w with
              | (Fault f, _) => fail f
              | (Err _, w) => store_back shared startoff rawsize (w_ns w) ;;; ret (-1)
              | (Done _, w) =>
                  store_back shared startoff rawsize (w_ns w) ;;;
                  r <- add_arenas (S (Z.to_nat (rawsize / BTT_MIN_SIZE))) (cx_mem (w_ns w)) startoff 0 ;;
                  match r with
                  | None => ret (-1)
                  | Some offset =>
                      if eof then ret 0
                      else
                        s <- getM ;;
                        let nextoff := u64 (endoff - u64 (startoff + offset)) in
                        match last (pc_arenas s) with
                        | None => fail Undefined
                        | Some a =>
                            if negb (nextoff =? u64 (i_infooff (btt_info_of (ar_info a)) + BTT_INFO_SIZE)) then ret (-1)
                            else modM (fun s => set_pc_arenas (link_last nextoff (pc_arenas s)) (pc_narenas s) s) ;;; ret 0
                        end
                  end
              end
          end
      end.

Fixpoint btt_info_loop (fuel : nat) (offset : Z) (result : check_result) : Pc check_result :=
  match fuel with
  | O => fail OutOfFuel
  | S fuel =>
      r <- pread_into e (replicate 4096 x00) offset ;;
      let '(info, ok) := r in
      if negb ok then ret CHECK_RESULT_ERROR
      else
        s <- getM ;;
        let id := pc_narenas s in
        if util_check_memory info x00 =? 0 then ret CHECK_RESULT_CONSISTENT_BREAK
        else if pmempool_check_check_btt info =? 1 then
          pmempool_check_insert_arena (new_arena info id offset) ;;;
          let nextoff := i_nextoff (btt_info_of info) in
          if 0 <? nextoff then btt_info_loop fuel (u64 (offset + nextoff)) result else ret result
        else if negb (pc_repair s) then ret CHECK_RESULT_NOT_CONSISTENT
        else
          (* the backup is in the last page of the arena *)
          b_off <- pmempool_check_get_first_valid_btt e (offset + BTT_MIN_SIZE - BTT_INFO_SIZE) ;;
          s <- getM ;;
          let found := ar_info (pc_bttc s) in
          if negb (b_off =? 0) && (u64 (offset + i_infooff (btt_info_of found)) =? b_off) then
            a <- ask_Yn ;;
            if is_char a CHAR_n then ret CHECK_RESULT_CANNOT_REPAIR
            else
              pmempool_check_insert_arena (new_arena found id offset) ;;;
              let nextoff := i_nextoff (btt_info_of found) in
              if 0 <? nextoff then btt_info_loop fuel (u64 (offset + nextoff)) CHECK_RESULT_REPAIRED
              else ret CHECK_RESULT_REPAIRED
          else
            a <- ask_Yn ;;
            if is_char a CHAR_n then ret CHECK_RESULT_CANNOT_REPAIR
            else
              r <- pmempool_check_btt_info_advanced_repair offset b_off ;;
              if negb (r =? 0) then ret CHECK_RESULT_CANNOT_REPAIR
              else
                let nextoff := if negb (b_off =? 0) then u64 (b_off - offset) else 0 in
                if 0 <? nextoff then btt_info_loop fuel (u64 (offset + nextoff)) result else ret result
  end.

(** The chain of info blocks visits an offset in the file once, or never ends. *)
Definition pmempool_check_btt_info : Pc check_result :=
  s <- getM ;; btt_info_loop (S (S (Z.to_nat (fd_size s)))) (2 * BTT_ALIGNMENT) CHECK_RESULT_CONSISTENT.

(** ** Maps and flogs *)

(** The current entry by the sequence numbers, or NULL. *)
Definition pmempool_check_check_flog (slot : flog_slot) : option btt_flog :=
  let seqc := u8 (Z.lor (Z.shiftl (Z.land (seq (fs_alpha slot)) 0xf) 4) (Z.land (seq (fs_beta slot)) 0xf)) in
  if (seqc =? 0x10) || (seqc =? 0x21) then Some (fs_alpha slot)
  else if (seqc =? 0x01) || (seqc =? 0x12) then Some (fs_beta slot)
  else None.

Definition slot_of (bs : list byte) : flog_slot :=
  {| fs_alpha := flog_of (slice bs 0 16); fs_beta := flog_of (slice bs 16 16); fs_pad := slice bs 32 32 |}.
Definition slot_bytes (s : flog_slot) : list byte := flog_bytes (fs_alpha s) ++ flog_bytes (fs_beta s) ++ fs_pad s.
Definition slots_of (bs : list byte) : list flog_slot :=
  (fun i => slot_of (slice bs (64 * i) 64)) <$> List.seq 0 (length bs / 64).
Definition slots_bytes (l : list flog_slot) : list byte := flat_map slot_bytes l.
Definition map_bytes (l : list Z) : list byte := flat_map (le_enc 4) l.

Definition flogsize (a : pc_arena) : Z :=
  roundup (i_nfree (btt_info_of (ar_info a)) * roundup (2 * BTT_FLOG_SIZE) BTT_FLOG_PAIR_ALIGN) BTT_ALIGNMENT.
Definition mapsize (a : pc_arena) : Z :=
  u32 (roundup (u32 (i_external_nlba (btt_info_of (ar_info a)) * BTT_MAP_ENTRY_SIZE)) BTT_ALIGNMENT).

Definition pmempool_check_read_flog (a : pc_arena) : Pc (option pc_arena) :=
  r <- pread_into e (replicate (Z.to_nat (flogsize a)) x00) (u64 (ar_offset a + i_flogoff (btt_info_of (ar_info a)))) ;;
  ret (if snd r then Some (set_ar_flog a (slots_of (fst r))) else None).

Definition pmempool_check_read_map (a : pc_arena) : Pc (option pc_arena) :=
  r <- pread_into e (replicate (Z.to_nat (mapsize a)) x00) (u64 (ar_offset a + i_mapoff (btt_info_of (ar_info a)))) ;;
  ret (if snd r then Some (set_ar_map a (words (fst r))) else None).

(** The first loop: used blocks and the indexes of duplicated and invalid entries. *)
Fixpoint scan_map (internal_nlba : Z) (map : list Z) (i : Z) (bitmap : gset Z) (inval : list Z) : gset Z * list Z :=
  match map with
  | [] => (bitmap, inval)
  | entry :: map =>
      let entry := if map_entry_is_initial entry then i else entry_lba entry in
      if entry <? internal_nlba then
        if bool_decide (entry ∈ bitmap) then scan_map internal_nlba map (i + 1) bitmap (i :: inval)
        else scan_map internal_nlba map (i + 1) ({[entry]} ∪ bitmap) inval
      else scan_map internal_nlba map (i + 1) bitmap (i :: inval)
  end.

(** The second loop; the block of a flog is not compared with [internal_nlba],
    so the access to the bitmap can be out of bounds. *)
Fixpoint scan_flogs (bitmapsize : Z) (slots : list flog_slot) (i : Z) (bitmap : gset Z) (inval : list Z)
  : option (gset Z * list Z) :=
  match slots with
  | [] => Some (bitmap, inval)
  | slot :: slots =>
      match pmempool_check_check_flog slot with
      | Some flog_cur =>
          let entry := entry_lba (old_map flog_cur) in
          if bitmapsize <=? entry / 8 then None
          else if bool_decide (entry ∈ bitmap) then scan_flogs bitmapsize slots (i + 1) bitmap (i :: inval)
          else scan_flogs bitmapsize slots (i + 1) ({[entry]} ∪ bitmap) inval
      | None => scan_flogs bitmapsize slots (i + 1) bitmap (i :: inval)
      end
  end.

(** The third loop: blocks that nothing uses. *)
Fixpoint scan_unmapped (n : nat) (i : Z) (bitmap : gset Z) (unmap : list Z) : list Z :=
  match n with
  | O => unmap
  | S n => scan_unmapped n (i + 1) bitmap (if bool_decide (i ∈ bitmap) then unmap else i :: unmap)
  end.

(** Pop both lists; false when there is no unmapped block left. *)
Fixpoint repair_map (map : list Z) (inval unmap : list Z) : bool * list Z * list Z :=
  match inval with
  | [] => (true, map, unmap)
  | i :: inval =>
      match unmap with
      | [] => (false, map, [])
      | b :: unmap => repair_map (<[Z.to_nat i := Z.lor b BTT_MAP_ENTRY_ERROR]> map) inval unmap
      end
  end.

Definition repaired_slot (b : Z) (slot : flog_slot) : flog_slot :=
  let entry := Z.lor b BTT_MAP_ENTRY_ERROR in
  {| fs_alpha := {| lba := 0; old_map := entry; new_map := entry; seq := 1 |}; fs_beta := Zflog; fs_pad := fs_pad slot |}.

Fixpoint repair_flogs (slots : list flog_slot) (inval unmap : list Z) : bool * list flog_slot :=
  match inval with
  | [] => (true, slots)
  | i :: inval =>
      match unmap with
      | [] => (false, slots)
      | b :: unmap => repair_flogs (alter (repaired_slot b) (Z.to_nat i) slots) inval unmap
      end
  end.

(** The result 0 of the successful case is CHECK_RESULT_CONSISTENT, repaired or not. *)
Definition map_flog_repair (ext nfree : Z) (map : list Z) (slots : list flog_slot) (internal_nlba : Z)
  : Pc (check_result * list Z * list flog_slot) :=
  _ <- validM (if (Z.of_nat (length map) <? ext) || (Z.of_nat (length slots) <? nfree) then None else Some tt) ;;
  let bitmapsize := u32 (internal_nlba + 7) / 8 in
  let '(bitmap, inval) := scan_map internal_nlba (take (Z.to_nat ext) map) 0 ∅ [] in
  r <- validM (scan_flogs bitmapsize (take (Z.to_nat nfree) slots) 0 bitmap []) ;;
  let '(bitmap, flog_inval) := r in
  let unmap := scan_unmapped (Z.to_nat internal_nlba) 0 bitmap [] in
  let count (l : list Z) := u32 (Z.of_nat (length l)) in
  s <- getM ;;
  if negb (pc_repair s) && (0 <? count unmap) then ret (CHECK_RESULT_NOT_CONSISTENT, map, slots)
  else if negb (count unmap =? u32 (count inval + count flog_inval)) then ret (CHECK_RESULT_CANNOT_REPAIR, map, slots)
  else
    a <- (if 0 <? count inval then ask_Yn else ret CHAR_y) ;;
    if is_char a CHAR_n then ret (CHECK_RESULT_CANNOT_REPAIR, map, slots)
    else
      a <- (if 0 <? count flog_inval then ask_Yn else ret CHAR_y) ;;
      if is_char a CHAR_n then ret (CHECK_RESULT_CANNOT_REPAIR, map, slots)
      else
        let '(ok, map, unmap) := repair_map map inval unmap in
        if negb ok then ret (CHECK_RESULT_ERROR, map, slots)
        else
          let '(ok, slots) := repair_flogs slots flog_inval unmap in
          ret (if ok then CHECK_RESULT_CONSISTENT else CHECK_RESULT_ERROR, map, slots).

Definition pmempool_check_arena_map_flog (a : pc_arena) : Pc (check_result * pc_arena) :=
  r <- pmempool_check_read_flog a ;;
  match r with
  | None => ret (CHECK_RESULT_ERROR, a)
  | Some a =>
      r <- pmempool_check_read_map a ;;
      match r with
      | None => ret (CHECK_RESULT_ERROR, a)
      | Some a =>
          let info := btt_info_of (ar_info a) in
          map <- validM (ar_map a) ;;
          slots <- validM (ar_flog a) ;;
          r <- map_flog_repair (i_external_nlba info) (i_nfree info) map slots (i_internal_nlba info) ;;
          let '(res, map, slots) := r in
          ret (res, set_ar_map (set_ar_flog a slots) map)
      end
  end.

Fixpoint map_flog_loop (done todo : list pc_arena) (res : check_result) : Pc check_result :=
  match todo with
  | [] => ret res
  | a :: todo =>
      r <- pmempool_check_arena_map_flog a ;;
      let '(res, a) := r in
      modM (fun s => set_pc_arenas (done ++ a :: todo) (pc_narenas s) s) ;;;
      if negb (bool_decide (res = CHECK_RESULT_CONSISTENT)) then ret res
      else map_flog_loop (done ++ [a]) todo res
  end.

Definition pmempool_check_btt_map_flog : Pc check_result :=
  s <- getM ;; map_flog_loop [] (pc_arenas s) CHECK_RESULT_ERROR.

(** ** Writing *)

(** A failed write is reported but the function returns 0. *)
Definition pmempool_check_write_flog (a : pc_arena) : Pc bool :=
  match ar_flog a with
  | None => ret false
  | Some l =>
      pwrite e (slots_bytes l) (u64 (ar_offset a + i_flogoff (btt_info_of (ar_info a)))) ;;;
      ret true
  end.

Definition pmempool_check_write_map (a : pc_arena) : Pc bool :=
  match ar_map a with
  | None => ret false
  | Some l =>
      ok <- pwrite e (map_bytes l) (u64 (ar_offset a + i_mapoff (btt_info_of (ar_info a)))) ;;
      ret (ok && pe_fsync e)
  end.

Definition pmempool_check_write_log : Pc check_result :=
  s <- getM ;;
  if negb (pc_repair s) || negb (pc_exec s) then ret CHECK_RESULT_CONSISTENT
  else
    ok <- pwrite e (take (Z.to_nat SIZEOF_PMEMLOG) (pc_hdr s)) 0 ;;
    ret (if ok && pe_fsync e then CHECK_RESULT_CONSISTENT else CHECK_RESULT_NEG).

(** One arena: info block, backup (whose failure is only reported), flog, map. *)
Definition write_arena_back (a : pc_arena) : Pc bool :=
  s <- getM ;;
  let info := match pc_uuid_op s with
              | UUID_REGENERATED =>
                  snd (util_checksum (splice (ar_info a) 16 (slice (pc_hdr s) 24 16)) INFO_CSUM true)
              | _ => ar_info a
              end in
  let a := set_ar_info a info in
  ok <- pwrite e info (ar_offset a) ;;
  if negb ok then ret false
  else
    pwrite e info (u64 (ar_offset a + i_infooff (btt_info_of info))) ;;;
    ok <- pmempool_check_write_flog a ;;
    if negb ok then ret false else pmempool_check_write_map a.

Fixpoint write_arenas (l : list pc_arena) : Pc bool :=
  match l with
  | [] => ret true
  | a :: l => ok <- write_arena_back a ;; if ok : bool then write_arenas l else ret false
  end.

Definition pmempool_check_write_blk : Pc check_result :=
  s <- getM ;;
  if negb (pc_repair s) || negb (pc_exec s) then ret CHECK_RESULT_CONSISTENT
  else
    ok <- pwrite e (take (Z.to_nat SIZEOF_PMEMBLK) (pc_hdr s)) 0 ;;
    if negb ok then ret CHECK_RESULT_NEG
    else
      ok <- write_arenas (pc_arenas s) ;;
      ret (if (ok : bool) && pe_fsync e then CHECK_RESULT_CONSISTENT else CHECK_RESULT_NEG).

(** ** The steps *)

Definition pmempool_check_steps : list (Z * Pc check_result) :=
  [(Z.lor PMEM_POOL_TYPE_ALL PMEM_POOL_TYPE_UNKNOWN, pmempool_check_pool_hdr e);
   (PMEM_POOL_TYPE_LOG, pmempool_check_pmemlog e);
   (PMEM_POOL_TYPE_BLK, pmempool_check_pmemblk e);
   (PMEM_POOL_TYPE_BLK, pmempool_check_btt_info);
   (PMEM_POOL_TYPE_BLK, pmempool_check_btt_map_flog);
   (PMEM_POOL_TYPE_LOG, pmempool_check_write_log);
   (PMEM_POOL_TYPE_BLK, pmempool_check_write_blk)].

(** Whether to stop, and the result so far. *)
Definition pmempool_check_single_step (step : Z * Pc check_result) (res : check_result) : Pc (bool * check_result) :=
  s <- getM ;;
  if Z.land (fst step) (pc_ptype s) =? 0 then ret (false, res)
  else
    r <- snd step ;;
    s <- getM ;;
    ret (match r with
         | CHECK_RESULT_CONSISTENT => (false, res)
         | CHECK_RESULT_REPAIRED => (false, r)
         | CHECK_RESULT_NOT_CONSISTENT => (negb (pc_repair s), r)
         | CHECK_RESULT_CONSISTENT_BREAK | CHECK_RESULT_CANNOT_REPAIR | CHECK_RESULT_ERROR => (true, r)
         | CHECK_RESULT_NEG => (true, res)
         end).

Fixpoint run_steps (steps : list (Z * Pc check_result)) (res : check_result) : Pc check_result :=
  match steps with
  | [] => ret res
  | step :: steps =>
      r <- pmempool_check_single_step step res ;;
      if fst r : bool then ret (snd r) else run_steps steps (snd r)
  end.

Definition pmempool_check_all_steps : Pc check_result :=
  s <- getM ;;
  if pc_repair s && pc_backup s && negb (pe_backup e) then ret CHECK_RESULT_NEG
  else if negb (pe_open e) then ret CHECK_RESULT_NEG
  else run_steps pmempool_check_steps CHECK_RESULT_CONSISTENT.

(** The pool type by the header; the size and the block size are not asked for. *)
Definition pmem_pool_parse_params : Pc Z :=
  if negb (pe_open_r e) then ret PMEM_POOL_TYPE_NONE
  else
  r <- pread_into e (replicate 4096 x00) 0 ;;
  ret (if snd r then pmem_pool_type_parse_hdr (pool_hdr_of (fst r)) else PMEM_POOL_TYPE_UNKNOWN).

Definition exit_status (r : check_result) : Z :=
  match r with
  | CHECK_RESULT_CONSISTENT | CHECK_RESULT_CONSISTENT_BREAK | CHECK_RESULT_REPAIRED | CHECK_RESULT_NEG => 0
  | CHECK_RESULT_NOT_CONSISTENT | CHECK_RESULT_CANNOT_REPAIR | CHECK_RESULT_ERROR => -1
  end.

(** The result and the exit status. *)
Definition pmempool_check_func : Pc (check_result * Z) :=
  t <- pmem_pool_parse_params ;;
  modM (set_ptype t) ;;;
  if t =? PMEM_POOL_TYPE_NONE then ret (CHECK_RESULT_CONSISTENT, -1)
  else
    res <- pmempool_check_all_steps ;;
    modM (set_pc_arenas [] 0) ;;;
    ret (res, exit_status res).
End Pcheck.

(** The options -r, -y, -N and -b; the tool exits on a conflict. *)
Record check_args := { a_repair : bool; a_yes : bool; a_exec : bool; a_backup : bool }.

Fixpoint parse_options (opts : list byte) (a : check_args) : option check_args :=
  match opts with
  | [] => Some a
  | o :: opts =>
      if bool_decide (o = x72) then
        parse_options opts {| a_repair := true; a_yes := a_yes a; a_exec := a_exec a; a_backup := a_backup a |}
      else if bool_decide (o = CHAR_y) then
        parse_options opts {| a_repair := a_repair a; a_yes := true; a_exec := a_exec a; a_backup := a_backup a |}
      else if bool_decide (o = x4e) then
        parse_options opts {| a_repair := a_repair a; a_yes := a_yes a; a_exec := false; a_backup := a_backup a |}
      else if bool_decide (o = x62) then
        parse_options opts {| a_repair := a_repair a; a_yes := a_yes a; a_exec := a_exec a; a_backup := true |}
      else if bool_decide (o = x71) || bool_decide (o = x76) then parse_options opts a
      else None
  end.

Definition pmempool_check_parse_args (opts : list byte) : option check_args :=
  match parse_options opts {| a_repair := false; a_yes := false; a_exec := true; a_backup := false |} with
  | None => None
  | Some a =>
      if negb (a_repair a) && negb (a_exec a) then None
      else if negb (a_repair a) && a_backup a then None
      else Some a
  end.

(** pmempool_check_default with the options applied, on a file. *)
Definition pmempool_check_default (a : check_args) (m : mem) (size : Z) (input : list byte) : pmempool_check :=
  {| fd_mem := m; fd_size := size; pc_repair := a_repair a; pc_backup := a_backup a; pc_exec := a_exec a;
     pc_ptype := PMEM_POOL_TYPE_UNKNOWN; pc_hdr := replicate (Z.to_nat SIZEOF_PMEMBLK) x00; pc_uuid_op := UUID_NOP;
     pc_bttc := no_arena; pc_arenas := []; pc_narenas := 0;
     pc_ans := if a_yes a then CHAR_y else CHAR_question; pc_input := input |}.
