(* ===== verification/PcommonSpec.v ===== *)
(** PcommonSpec: the block sizes pmempool accepts against the layout of the
    BTT. *)

From S2P Require Import Prelude Mem Util BttLayout Prog Btt BttInv BttSpec BttOpen BttFresh Blk Log Pcommon.

(** Files whose data area is one arena. *)
Definition one_arena (fsize : Z) : Prop := PMEMBLK_MIN_POOL <= fsize <= 2 ^ 32 + BLK_DATA_OFF.

(** Nothing wraps: the largest block size as a whole number. *)
Lemma max_bsize_val fsize :
  one_arena fsize -> util_get_max_bsize fsize = roundup ((fsize - 32848) / 512 - 4) 256 - 256.
Proof.
  unfold one_arena, PMEMBLK_MIN_POOL, BLK_DATA_OFF. intros Hf. unfold util_get_max_bsize.
  rewrite (proj2 (Z.eqb_neq fsize 0)) by lia.
  change (roundup _ BTT_ALIGNMENT) with 16384.
  unfold SIZEOF_PMEMBLK, BTT_MAX_ARENA, BTT_INFO_SIZE, BTT_MIN_LBA_SIZE, BTT_DEFAULT_NFREE, BTT_ALIGNMENT,
    BTT_MAP_ENTRY_SIZE, BTT_INTERNAL_LBA_ALIGNMENT.
  rewrite (u64_id (fsize - 4176)) by lia. rewrite (proj2 (Z.ltb_ge _ (fsize - 4176))) by lia.
  rewrite (u64_id (_ - 2 * 4096)), (u64_id (_ - 16384)), u64_id by lia.
  replace (fsize - 4176 - 2 * 4096 - 16384 - 4096) with (fsize - 32848) by lia. change (2 * 256) with 512.
  assert (32719 <= (fsize - 32848) / 512 <= 2 ^ 23)
    by (split; [apply Z.div_le_lower_bound|apply Z.div_le_upper_bound]; lia).
  rewrite (u32_id (_ / 512 - 4)) by lia. rewrite (proj2 (Z.ltb_ge _ 512)) by lia.
  pose proof (roundup_bounds ((fsize - 32848) / 512 - 4) 256 ltac:(lia)).
  rewrite (u32_id (roundup _ _)) by lia. apply u32_id. lia.
Qed.

(** The largest block size [R]: a multiple of 256 for which 512 blocks fit in
    what is left of the file after [sizeof (struct pmemblk)]. *)
Lemma max_bsize_bounds fsize :
  one_arena fsize -> let R := util_get_max_bsize fsize in
  R mod 256 = 0 /\ 32512 <= R <= 2 ^ 23 /\ 512 * (R + 5) + 32848 <= fsize < 512 * (R + 261) + 32848.
Proof.
  intros Hf R. unfold R. rewrite max_bsize_val by done. unfold one_arena, PMEMBLK_MIN_POOL, BLK_DATA_OFF in Hf.
  pose proof (Z.div_mod (fsize - 32848) 512 ltac:(lia)) as Hd. pose proof (Z.mod_pos_bound (fsize - 32848) 512 ltac:(lia)) as Hm.
  set (q := (fsize - 32848) / 512) in *.
  pose proof (roundup_bounds (q - 4) 256 ltac:(lia)) as Hr. pose proof (roundup_mult (q - 4) 256 ltac:(lia)) as Hk.
  apply Z.mod_divide in Hk as [k Ek]; [|lia]. rewrite Ek in *. split; [|lia].
  replace (k * 256 - 256) with ((k - 1) * 256) by lia. by apply Z.mod_mul.
Qed.

(** The block inside the arena. *)
Lemma lbasize_below b R : 0 < b <= R -> 512 <= R - 256 -> R <= 2 ^ 23 -> R mod 256 = 0 ->
  layout_lbasize b <= R /\ (b <= R - 256 -> layout_lbasize b <= R - 256) /\ (R - 256 < b -> layout_lbasize b = R).
Proof.
  intros Hb HR HR' Hm. unfold layout_lbasize, BTT_MIN_LBA_SIZE, BTT_INTERNAL_LBA_ALIGNMENT.
  set (l := if b <? 512 then 512 else b). assert (512 <= l <= R /\ b <= l /\ (l <= R - 256 <-> b <= R - 256)) as Hl
    by (unfold l; zcase; lia).
  rewrite u32_id by lia. pose proof (roundup_bounds l 256 ltac:(lia)) as Hr.
  pose proof (roundup_mult l 256 ltac:(lia)) as Hk. apply Z.mod_divide in Hk as [k Ek]; [|lia].
  apply Z.mod_divide in Hm as [j ->]; [|lia]. 
  change ((l + (256 - 1)) / 256 * 256) with (roundup l 256). rewrite Ek in *. nia.
Qed.

Section Accepted.
Context {N : Type} `{NsLaws N} `{Allocator} (Halloc : forall z, malloc_ok z = true).

(** C29. The block sizes that pmempool create accepts, on a file whose data area
    is one arena: every one of them leaves room for 511 blocks and nothing in
    the computation wraps, but btt_init, which wants 512, takes them only below
    the last step of 256 bytes or when 3504 bytes more are there: the limit
    leaves out of account that the data of a pool begins at a page boundary. *)
Theorem util_check_bsize_exact (fsize b : Z) (n : N) (s0 : btt) (lg : list event) (uuid : list byte) (maxlane : Z)
    (Hone : one_arena fsize) (Halign : fsize mod 64 = 0) (Hb : 0 < b) (Hacc : util_check_bsize b fsize = false)
    (Hsize : ns_size n = fsize - BLK_DATA_OFF)
    (Hnone : read_info (init_state (ns_size n) b uuid) (mread (ns_mem n) 0 BTT_INFO_SIZE) = None) :
  let R := util_get_max_bsize fsize in
  b < R /\ 512 * (R + 5) + 32848 <= fsize /\ 511 <= lay_int (ns_size n) b /\
  fst (run (btt_init (ns_size n) b uuid maxlane) (Build_world n s0 lg)) =
    if (b <=? R - 256) || (512 * (R + 4) + 36864 <=? fsize) then Done tt else Err EINVAL.
Proof.
  intros R. destruct (max_bsize_bounds fsize Hone) as (Hm & HR & Hf). fold R in Hm, HR, Hf.
  unfold util_check_bsize in Hacc. fold R in Hacc. apply negb_false_iff, Z.ltb_lt in Hacc.
  assert (lay_ok (ns_size n) b) as Hlay.
  { rewrite Hsize. destruct Hone. unfold PMEMBLK_MIN_POOL, BLK_DATA_OFF in *. split; [unfold BTT_MIN_SIZE; lia| |lia].
    apply Z.mod_divide in Halign as [k ->]; [|lia]. replace (k * 64 - 8192) with ((k - 128) * 64) by lia. by apply Z.mod_mul. }
  destruct (lbasize_below b R ltac:(lia) ltac:(lia) ltac:(lia) Hm) as (Hle & Hlow & Htop).
  destruct (lay_lbasize b (l_lbs _ _ Hlay)) as ((Hlo & _) & _).
  rewrite run_init_fresh by done. rewrite lay_int_val by done. rewrite Hsize. unfold BLK_DATA_OFF.
  set (L := layout_lbasize b) in *. replace (fsize - 8192 - 28672) with (fsize - 36864) by lia.
  split; [done|split; [lia|split]].
  - apply Z.div_le_lower_bound; nia.
  - replace ((b <=? R - 256) || (512 * (R + 4) + 36864 <=? fsize)) with (negb ((fsize - 36864) / (L + 4) <? 512)).
    { by destruct (_ <? 512). }
    apply eq_true_iff_eq. rewrite negb_true_iff, orb_true_iff, Z.ltb_ge, !Z.leb_le. split.
    + intros Hq. destruct (Z.le_gt_cases b (R - 256)) as [?|Hgt]; [by left|right].
      rewrite Htop in Hq by lia. pose proof (Z.mul_div_le (fsize - 36864) (R + 4) ltac:(lia)). nia.
    + intros [Hs|Hs]; apply Z.div_le_lower_bound; lia.
Qed.
End Accepted.
