(* ===== verification/PcheckMap.v ===== *)
(** PcheckMap: the repair of the map and the flogs of an arena
    (pmempool_check_arena_map_flog).

    A map entry or a flog slot is a candidate: it names a block, or it is
    invalid.  The scan keeps the first candidate for every block; the others are
    given the blocks that nothing names. *)

From S2P Require Import Prelude Mem Util BttLayout Prog StateM Btt BttInv Blk Log Pcommon Pcheck PcheckBtt.

#[local] Open Scope stateM_scope.

(** ** Candidates *)

Definition map_cand (internal_nlba i entry : Z) : option Z :=
  let b := if map_entry_is_initial entry then i else entry_lba entry in
  if b <? internal_nlba then Some b else None.
Definition map_cands (internal_nlba i : Z) (map : list Z) : list (option Z) :=
  imap (fun n entry => map_cand internal_nlba (i + Z.of_nat n) entry) map.
Definition flog_cand (slot : flog_slot) : option Z :=
  entry_lba ∘ old_map <$> pmempool_check_check_flog slot.

(** The scan of either kind. *)
Fixpoint scan (cs : list (option Z)) (i : Z) (bm : gset Z) (inval : list Z) : gset Z * list Z :=
  match cs with
  | [] => (bm, inval)
  | c :: cs =>
      match c with
      | Some b => if bool_decide (b ∈ bm) then scan cs (i + 1) bm (i :: inval) else scan cs (i + 1) ({[b]} ∪ bm) inval
      | None => scan cs (i + 1) bm (i :: inval)
      end
  end.

Lemma map_cands_cons nlba i x map :
  map_cands nlba i (x :: map) = map_cand nlba i x :: map_cands nlba (i + 1) map.
Proof.
  unfold map_cands. cbn [imap]. rewrite Z.add_0_r. f_equal. apply imap_ext. intros n y _. cbn. f_equal. lia.
Qed.

Lemma scan_map_scan nlba map : forall i bm inval,
  scan_map nlba map i bm inval = scan (map_cands nlba i map) i bm inval.
Proof.
  induction map as [|x map IH]; intros i bm inval; [done|].
  rewrite map_cands_cons. cbn [scan_map scan]. unfold map_cand. cbv zeta.
  destruct (_ <? nlba); [|apply IH]. case_bool_decide; apply IH.
Qed.

Lemma scan_flogs_scan bitmapsize slots : forall i bm inval,
  Forall (fun slot => forall b, flog_cand slot = Some b -> b / 8 < bitmapsize) slots ->
  scan_flogs bitmapsize slots i bm inval = Some (scan (flog_cand <$> slots) i bm inval).
Proof.
  induction slots as [|x slots IH]; intros i bm inval Hf; [done|].
  apply Forall_cons in Hf as [Hx Hf]. cbn [scan_flogs fmap list_fmap scan]. unfold flog_cand in *.
  destruct (pmempool_check_check_flog x) as [f|]; cbn in *; [|by apply IH].
  specialize (Hx _ eq_refl). rewrite (proj2 (Z.leb_gt _ _)) by lia. case_bool_decide; by apply IH.
Qed.

Lemma scan_unmapped_spec n : forall i bm acc,
  scan_unmapped n i bm acc = reverse (filter (fun b => b ∉ bm) (seqZ i (Z.of_nat n))) ++ acc.
Proof.
  induction n as [|n IH]; intros i bm acc; [done|]. cbn [scan_unmapped]. rewrite IH.
  rewrite (seqZ_cons i) by lia. replace (Z.pred (Z.of_nat (S n))) with (Z.of_nat n) by lia.
  rewrite filter_cons. unfold Z.succ. case_bool_decide as Hb.
  - rewrite decide_False by tauto. done.
  - rewrite decide_True by done. rewrite reverse_cons, <- app_assoc. done.
Qed.

(** ** What the scan finds

    [goods cs i bad]: the blocks of the candidates, numbered from [i], that are
    not in [bad]. *)
Fixpoint goods (cs : list (option Z)) (i : Z) (bad : list Z) : list Z :=
  match cs with
  | [] => []
  | c :: cs =>
      (if bool_decide (i ∈ bad) then [] else match c with Some b => [b] | None => [] end) ++ goods cs (i + 1) bad
  end.

Lemma goods_ext cs : forall i bad bad',
  (forall k, i <= k < i + Z.of_nat (length cs) -> (k ∈ bad <-> k ∈ bad')) -> goods cs i bad = goods cs i bad'.
Proof.
  induction cs as [|c cs IH]; intros i bad bad' He; [done|]. cbn [goods length] in *.
  rewrite (bool_decide_ext (i ∈ bad) (i ∈ bad')) by (apply He; lia). f_equal. apply IH. intros k Hk. apply He. lia.
Qed.

(** Giving a block to a bad candidate. *)
Lemma goods_insert u cs : forall i n bad,
  (n < length cs)%nat -> i + Z.of_nat n ∉ bad ->
  goods (<[n := Some u]> cs) i bad ≡ₚ u :: goods cs i ((i + Z.of_nat n) :: bad).
Proof.
  induction cs as [|c cs IH]; intros i n bad Hn Hb; [cbn in Hn; lia|].
  destruct n as [|n]; cbn [insert list_insert goods].
  - rewrite Z.add_0_r in *. rewrite bool_decide_false by done.
    rewrite (bool_decide_true (i ∈ i :: bad)) by by left. cbn [app].
    rewrite (goods_ext cs (i + 1) (i :: bad) bad); [done|].
    intros k Hk. rewrite elem_of_cons. split; [intros [->|]; [lia|done]|by right].
  - cbn [length] in Hn. replace (i + Z.of_nat (S n)) with (i + 1 + Z.of_nat n) in * by lia.
    rewrite IH by (done || lia).
    rewrite (bool_decide_ext (i ∈ i + 1 + Z.of_nat n :: bad) (i ∈ bad))
      by (rewrite elem_of_cons; split; [intros [?|?]; [lia|done]|by right]).
    by rewrite Permutation_middle.
Qed.

Record scanned (cs : list (option Z)) (i : Z) (bm : gset Z) (bad : list Z) (bm' : gset Z) : Prop := {
  sc_nodup : NoDup bad;
  sc_range : forall k, k ∈ bad -> i <= k < i + Z.of_nat (length cs);
  sc_set : bm' = list_to_set (goods cs i bad) ∪ bm;
  sc_goods : NoDup (goods cs i bad);
  sc_new : forall b, b ∈ goods cs i bad -> b ∉ bm;
  sc_count : (length (goods cs i bad) + length bad)%nat = length cs;
  sc_all : forall b, Some b ∈ cs -> b ∈ bm';
  (** a bad candidate is invalid or names a block that was taken before *)
  sc_bad : forall (n : nat) b, i + Z.of_nat n ∈ bad -> cs !! n = Some (Some b) ->
    b ∈ bm \/ exists m, (m < n)%nat /\ cs !! m = Some (Some b);
}.

Lemma scan_spec cs : forall i bm inval, exists bad bm',
  scan cs i bm inval = (bm', bad ++ inval) /\ scanned cs i bm bad bm'.
Proof.
  assert (forall c cs i bm bad bm', (c = None \/ exists b, c = Some b /\ b ∈ bm) ->
    scanned cs (i + 1) bm bad bm' -> scanned (c :: cs) i bm (bad ++ [i]) bm') as Hskip.
  { intros c cs' i bm bad bm' Hc [].
    assert (goods (c :: cs') i (bad ++ [i]) = goods cs' (i + 1) bad) as E.
    { cbn [goods]. rewrite bool_decide_true by (apply elem_of_app; right; by left). cbn [app]. apply goods_ext.
      intros k Hk. rewrite elem_of_app, list_elem_of_singleton. split; [intros [?|?]; [done|lia]|by left]. }
    split; rewrite ?E.
    - apply NoDup_app. split_and!; [done| |apply NoDup_singleton].
      intros k Hk ->%list_elem_of_singleton. specialize (sc_range0 _ Hk). lia.
    - intros k [Hk|Hk%list_elem_of_singleton]%elem_of_app; cbn [length]; [|lia].
      specialize (sc_range0 _ Hk). lia.
    - done.
    - done.
    - done.
    - rewrite length_app. cbn [length]. lia.
    - intros b [E0|Hb]%elem_of_cons; [|by apply sc_all0]. destruct Hc as [?|(b' & Hb' & Hb)]; [congruence|].
      rewrite sc_set0. apply elem_of_union_r. by replace b with b' by congruence.
    - intros n b Hn Hl. destruct n as [|n]; cbn in Hl.
      + left. destruct Hc as [->|(? & -> & Hb)]; congruence.
      + apply elem_of_app in Hn as [Hn|Hn%list_elem_of_singleton]; [|lia].
        replace (i + Z.of_nat (S n)) with (i + 1 + Z.of_nat n) in Hn by lia.
        destruct (sc_bad0 n b Hn Hl) as [?|(m & Hm & ?)]; [by left|right]. exists (S m). split; [lia|done]. }
  induction cs as [|c cs IH]; intros i bm inval.
  - exists [], bm. split; [done|]. split; cbn.
    + apply NoDup_nil_2.
    + intros k Hk. by apply elem_of_nil in Hk.
    + set_solver.
    + apply NoDup_nil_2.
    + intros b Hb. by apply elem_of_nil in Hb.
    + done.
    + intros b Hb. by apply elem_of_nil in Hb.
    + done.
  - cbn [scan]. destruct c as [b|].
    + case_bool_decide as Hb.
      * destruct (IH (i + 1) bm (i :: inval)) as (bad & bm' & E & Hs). exists (bad ++ [i]), bm'.
        rewrite E, <- app_assoc. split; [done|]. apply Hskip; [right; eauto|done].
      * destruct (IH (i + 1) ({[b]} ∪ bm) inval) as (bad & bm' & E & []). exists bad, bm'. split; [done|].
        assert (goods (Some b :: cs) i bad = b :: goods cs (i + 1) bad) as Eg.
        { cbn [goods]. rewrite bool_decide_false; [done|]. intros Hi. specialize (sc_range0 _ Hi). lia. }
        split; rewrite ?Eg; [done|..].
        -- intros k Hk. specialize (sc_range0 _ Hk). cbn [length]. lia.
        -- rewrite sc_set0. cbn [list_to_set]. set_solver.
        -- apply NoDup_cons. split; [|done]. intros Hin. apply (sc_new0 _ Hin). set_solver.
        -- intros b' [->|Hin]%elem_of_cons; [done|]. specialize (sc_new0 _ Hin). set_solver.
        -- cbn [length]. lia.
        -- intros b' [E0|Hb']%elem_of_cons; [|by apply sc_all0]. injection E0 as ->. rewrite sc_set0. set_solver.
        -- intros n b' Hn Hl. destruct n as [|n]; cbn in Hl; [specialize (sc_range0 _ Hn); lia|].
           replace (i + Z.of_nat (S n)) with (i + 1 + Z.of_nat n) in Hn by lia.
           destruct (sc_bad0 n b' Hn Hl) as [[->%elem_of_singleton|?]%elem_of_union|(m & Hm & ?)]; [right|by left|right].
           ++ exists 0%nat. split; [lia|done].
           ++ exists (S m). split; [lia|done].
    + destruct (IH (i + 1) bm (i :: inval)) as (bad & bm' & E & Hs). exists (bad ++ [i]), bm'.
      rewrite E, <- app_assoc. split; [done|]. apply Hskip; [by left|done].
Qed.

(** ** What the repair does to the candidates *)

Lemma map_cand_repaired nlba i b :
  0 <= b < nlba -> nlba <= 2 ^ 30 -> map_cand nlba i (Z.lor b BTT_MAP_ENTRY_ERROR) = Some b.
Proof.
  intros Hb Hn. unfold map_cand, map_entry_is_initial. cbv zeta.
  rewrite entry_flags_lor, entry_lba_lor by (done || lia). cbn [Z.eqb]. rewrite (proj2 (Z.eqb_neq _ _)) by done.
  by rewrite (proj2 (Z.ltb_lt _ _)) by lia.
Qed.

Lemma flog_cand_repaired b slot : 0 <= b < 2 ^ 30 -> flog_cand (repaired_slot b slot) = Some b.
Proof.
  intros Hb. unfold flog_cand.
  change (pmempool_check_check_flog (repaired_slot b slot)) with (Some (fs_alpha (repaired_slot b slot))).
  cbn [fmap option_fmap option_map compose fs_alpha repaired_slot old_map]. f_equal. by apply entry_lba_lor.
Qed.

(** Giving the blocks [us] to the candidates [ks]. *)
Fixpoint refill (cs : list (option Z)) (ks us : list Z) : list (option Z) :=
  match ks, us with
  | k :: ks, u :: us => refill (<[Z.to_nat k := Some u]> cs) ks us
  | _, _ => cs
  end.

Lemma length_refill ks : forall cs us, length (refill cs ks us) = length cs.
Proof. induction ks as [|k ks IH]; intros cs [|u us]; cbn; rewrite ?IH, ?length_insert; done. Qed.

Lemma refill_goods ks : forall cs us,
  NoDup ks -> (forall k, k ∈ ks -> 0 <= k < Z.of_nat (length cs)) -> length us = length ks ->
  goods (refill cs ks us) 0 [] ≡ₚ us ++ goods cs 0 ks.
Proof.
  induction ks as [|k ks IH]; intros cs [|u us] Hnd Hr Hl; try done. cbn [refill].
  apply NoDup_cons in Hnd as [Hk Hnd]. specialize (Hr k ltac:(by left)) as Hr0.
  rewrite IH; [|done|intros; rewrite length_insert; apply Hr; by right|cbn in Hl; lia].
  rewrite goods_insert by (rewrite ?Z.add_0_l, ?Z2Nat.id by lia; done || lia).
  rewrite Z.add_0_l, Z2Nat.id by lia. by rewrite <- Permutation_middle.
Qed.

Lemma refill_lookup ks : forall cs us i,
  0 <= i -> (forall k, k ∈ ks -> 0 <= k) -> i ∉ ks -> refill cs ks us !! Z.to_nat i = cs !! Z.to_nat i.
Proof.
  induction ks as [|k ks IH]; intros cs [|u us] i Hi Hp Hk; try done. cbn [refill].
  rewrite IH; [|done|intros; apply Hp; by right|intros ?; apply Hk; by right].
  apply list_lookup_insert_ne. intros E. apply Hk. specialize (Hp k ltac:(by left)).
  replace i with k by lia. by left.
Qed.

Lemma goods_length cs bad : forall i, (length (goods cs i bad) <= length cs)%nat.
Proof.
  induction cs as [|c cs IH]; intros i; cbn; [lia|]. rewrite length_app. specialize (IH (i + 1)).
  destruct (bool_decide _), c; cbn; lia.
Qed.

(** All candidates name a block when there are as many blocks as candidates. *)
Lemma goods_all cs : forall i, length (goods cs i []) = length cs -> cs = Some <$> goods cs i [].
Proof.
  induction cs as [|c cs IH]; intros i Hl; [done|]. cbn [goods] in *.
  rewrite bool_decide_false in * by apply not_elem_of_nil.
  pose proof (goods_length cs [] (i + 1)). rewrite length_app in Hl. cbn [length] in Hl.
  destruct c as [b|]; cbn [length] in Hl; [|lia]. cbn. f_equal. apply IH. lia.
Qed.

(** A scan of blocks that are all different and new finds nothing wrong. *)
Lemma scan_blocks bs : forall i bm inval,
  NoDup bs -> (forall b, b ∈ bs -> b ∉ bm) ->
  scan (Some <$> bs) i bm inval = (list_to_set bs ∪ bm, inval).
Proof.
  induction bs as [|b bs IH]; intros i bm inval Hnd Hb; cbn [fmap list_fmap scan list_to_set].
  - by rewrite union_empty_l_L.
  - apply NoDup_cons in Hnd as [Hn Hnd]. rewrite bool_decide_false by (apply Hb; by left).
    rewrite IH; [f_equal; set_solver|done|]. intros b' Hb' [->%elem_of_singleton|?]%elem_of_union; [done|].
    apply (Hb b'); [by right|done].
Qed.

(** ** The claims of an arena *)

Section Claims.
Context (ext nfree nlba : Z).

(** The candidates of the map and of the flogs. *)
Definition claims (map : list Z) (slots : list flog_slot) : list (option Z) :=
  map_cands nlba 0 (take (Z.to_nat ext) map) ++ (flog_cand <$> take (Z.to_nat nfree) slots).

(** Every candidate names a block, no two the same, and every block is named. *)
Definition accounted (map : list Z) (slots : list flog_slot) : Prop :=
  exists bs, claims map slots = Some <$> bs /\ NoDup bs /\ forall b, 0 <= b < nlba -> b ∈ bs.

(** The geometry of an arena as the BTT lays it out, with what the code reads
    within the bounds of its buffers. *)
Record arena_sized (map : list Z) (slots : list flog_slot) : Prop := {
  az_ext : 0 <= ext <= Z.of_nat (length map);
  az_nfree : 0 <= nfree <= Z.of_nat (length slots);
  az_nlba : ext + nfree = nlba;
  az_small : nlba <= 2 ^ 30;
  az_bitmap : Forall (fun slot => forall b, flog_cand slot = Some b -> b / 8 < u32 (nlba + 7) / 8)
                (take (Z.to_nat nfree) slots);
}.

Lemma length_map_cands map i : length (map_cands nlba i map) = length map.
Proof. unfold map_cands. apply length_imap. Qed.

Lemma map_cand_range i entry b : 0 <= i -> map_cand nlba i entry = Some b -> 0 <= b < nlba.
Proof.
  unfold map_cand. cbv zeta. intros Hi. destruct (_ <? nlba) eqn:E; [|done]. intros [= <-].
  apply Z.ltb_lt in E. split; [|done]. destruct (map_entry_is_initial entry); [done|]. apply entry_lba_range.
Qed.

Lemma flog_cand_range slot b : flog_cand slot = Some b -> 0 <= b < 2 ^ 30.
Proof.
  unfold flog_cand. destruct (pmempool_check_check_flog slot) as [f|]; cbn; [|done]. intros [= <-].
  apply entry_lba_range.
Qed.

(** The scans of a sized arena: the indexes of the bad entries and slots, and the
    blocks nothing names. *)
Record found (map : list Z) (slots : list flog_slot) (bad1 bad2 us : list Z) : Prop := {
  fd_bad1 : NoDup bad1 /\ forall k, k ∈ bad1 -> 0 <= k < ext;
  fd_bad2 : NoDup bad2 /\ forall k, k ∈ bad2 -> 0 <= k < nfree;
  fd_us : NoDup us /\ forall b, b ∈ us -> 0 <= b < nlba;
  fd_good : NoDup (us ++ goods (map_cands nlba 0 (take (Z.to_nat ext) map)) 0 bad1
                      ++ goods (flog_cand <$> take (Z.to_nat nfree) slots) 0 bad2);
  fd_cover : forall b, 0 <= b < nlba ->
    b ∈ us ++ goods (map_cands nlba 0 (take (Z.to_nat ext) map)) 0 bad1
           ++ goods (flog_cand <$> take (Z.to_nat nfree) slots) 0 bad2;
  fd_count : Z.of_nat (length (goods (map_cands nlba 0 (take (Z.to_nat ext) map)) 0 bad1
                      ++ goods (flog_cand <$> take (Z.to_nat nfree) slots) 0 bad2) + length bad1 + length bad2) = nlba;
  fd_keep : forall (n : nat) b, Z.of_nat n ∈ bad1 ->
    map_cands nlba 0 (take (Z.to_nat ext) map) !! n = Some (Some b) ->
    exists m, (m < n)%nat /\ map_cands nlba 0 (take (Z.to_nat ext) map) !! m = Some (Some b);
  fd_range : Forall (fun slot => forall b, flog_cand slot = Some b -> b < nlba) (take (Z.to_nat nfree) slots) <->
    Forall (fun b => b < nlba) (goods (flog_cand <$> take (Z.to_nat nfree) slots) 0 bad2);
}.

Lemma goods_in cs : forall i bad b, b ∈ goods cs i bad -> Some b ∈ cs.
Proof.
  induction cs as [|c cs IH]; intros i bad b Hb; cbn [goods] in Hb; [by apply elem_of_nil in Hb|].
  apply elem_of_app in Hb as [Hb|Hb]; [|right; eauto].
  destruct (bool_decide _), c; try (by apply elem_of_nil in Hb). apply list_elem_of_singleton in Hb as ->. by left.
Qed.

Lemma cands_range map b : Some b ∈ map_cands nlba 0 map -> 0 <= b < nlba.
Proof.
  intros [n Hn]%list_elem_of_lookup. unfold map_cands in Hn. rewrite list_lookup_imap in Hn.
  destruct (map !! n) as [x|]; cbn in Hn; [|done]. injection Hn as Hn. by apply map_cand_range in Hn; [|lia].
Qed.

Lemma scans_find map slots : arena_sized map slots -> exists bad1 bad2 us bm1 bm2,
  scan_map nlba (take (Z.to_nat ext) map) 0 ∅ [] = (bm1, bad1) /\
  scan_flogs (u32 (nlba + 7) / 8) (take (Z.to_nat nfree) slots) 0 bm1 [] = Some (bm2, bad2) /\
  scan_unmapped (Z.to_nat nlba) 0 bm2 [] = us /\ found map slots bad1 bad2 us.
Proof.
  intros []. destruct (scan_spec (map_cands nlba 0 (take (Z.to_nat ext) map)) 0 ∅ []) as (bad1 & bm1 & E1 & S1).
  destruct (scan_spec (flog_cand <$> take (Z.to_nat nfree) slots) 0 bm1 []) as (bad2 & bm2 & E2 & S2).
  exists bad1, bad2, (scan_unmapped (Z.to_nat nlba) 0 bm2 []), bm1, bm2.
  rewrite scan_map_scan, E1, app_nil_r. split_and!; [done| |done|].
  { rewrite scan_flogs_scan by done. by rewrite E2, app_nil_r. }
  destruct S1, S2. rewrite scan_unmapped_spec, app_nil_r.
  set (G1 := goods (map_cands _ _ _) _ _) in *. set (G2 := goods (_ <$> _) _ _) in *.
  assert (forall b, b ∈ reverse (filter (fun b => b ∉ bm2) (seqZ 0 (Z.of_nat (Z.to_nat nlba)))) <->
    b ∉ bm2 /\ 0 <= b < nlba) as Hus.
  { intros b. rewrite elem_of_reverse, list_elem_of_filter, elem_of_seqZ, Z.add_0_l, Z2Nat.id by lia. tauto. }
  assert (forall b, b ∈ bm2 <-> b ∈ G1 \/ b ∈ G2) as Hbm.
  { intros b. rewrite sc_set1, sc_set0, !elem_of_union, !elem_of_list_to_set. set_solver. }
  rewrite length_map_cands, length_take in sc_range0, sc_count0.
  rewrite length_fmap, length_take in sc_range1, sc_count1.
  split.
  - split; [done|]. intros k Hk. specialize (sc_range0 k Hk). lia.
  - split; [done|]. intros k Hk. specialize (sc_range1 k Hk). lia.
  - split; [|intros b Hb; apply Hus in Hb; lia]. rewrite reverse_Permutation. apply NoDup_filter, NoDup_seqZ.
  - apply NoDup_app. split_and!.
    + rewrite reverse_Permutation. apply NoDup_filter, NoDup_seqZ.
    + intros b Hb Hg. apply Hus in Hb as [Hb _]. apply Hb, Hbm. by apply elem_of_app in Hg.
    + apply NoDup_app. split_and!; [done| |done]. intros b Hb1 Hb2. apply (sc_new1 b Hb2).
      rewrite sc_set0. apply elem_of_union_l. by apply elem_of_list_to_set.
  - intros b Hb. destruct (decide (b ∈ bm2)) as [Hin|Hin].
    + apply elem_of_app. right. apply elem_of_app. by apply Hbm.
    + apply elem_of_app. left. by apply Hus.
  - rewrite length_app. fold G1 G2. lia.
  - intros n b Hn Hl. destruct (sc_bad0 n b Hn Hl) as [Hin|Hin]; [by apply elem_of_empty in Hin|done].
  - rewrite !Forall_forall. split.
    + intros Hf b Hb. apply goods_in in Hb. apply list_elem_of_fmap in Hb as (x & Hx & Hin). symmetry in Hx. eauto.
    + intros Hf x Hx b Hc. assert (b ∈ bm2) as Hb.
      { apply sc_all1. rewrite <- Hc. apply list_elem_of_fmap. eauto. }
      apply Hbm in Hb as [Hb|Hb]; [|by apply Hf]. apply goods_in, cands_range in Hb. lia.
Qed.

(** ** Popping the lists *)

Lemma map_cands_insert n k x map :
  (k < n)%nat -> map_cands nlba 0 (take n (<[k := x]> map)) =
  <[k := map_cand nlba (Z.of_nat k) x]> (map_cands nlba 0 (take n map)).
Proof.
  intros Hk. apply list_eq. intros i. unfold map_cands. rewrite list_lookup_imap.
  destruct (decide (i < n)%nat) as [Hi|Hi].
  - rewrite lookup_take_lt by done. destruct (decide (i = k)) as [->|Hne].
    + destruct (decide (k < length map)%nat).
      * rewrite !list_lookup_insert_eq by (rewrite ?length_imap, ?length_take; lia). done.
      * rewrite !lookup_ge_None_2; [done|rewrite length_insert, length_imap, length_take; lia|rewrite length_insert; lia].
    + rewrite !list_lookup_insert_ne, list_lookup_imap, lookup_take_lt by done. done.
  - rewrite lookup_take_ge by lia. symmetry. apply lookup_ge_None.
    rewrite length_insert, length_imap, length_take. lia.
Qed.

Lemma flog_cands_alter n k b slots :
  (k < n)%nat -> 0 <= b < 2 ^ 30 ->
  flog_cand <$> take n (alter (repaired_slot b) k slots) = <[k := Some b]> (flog_cand <$> take n slots).
Proof.
  intros Hk Hb. apply list_eq. intros i. rewrite list_lookup_fmap. destruct (decide (i < n)%nat) as [Hi|Hi].
  - rewrite lookup_take_lt by done. destruct (decide (i = k)) as [->|Hne].
    + rewrite list_lookup_alter. destruct (slots !! k) as [x|] eqn:E; cbn [fmap option_fmap option_map].
      * apply lookup_lt_Some in E as Hl. rewrite list_lookup_insert_eq by (rewrite length_fmap, length_take; lia).
        rewrite decide_True by done. cbn [fmap option_fmap option_map]. f_equal. by apply flog_cand_repaired.
      * apply lookup_ge_None in E. destruct (decide (k = k)); cbn [fmap option_fmap option_map];
          symmetry; apply lookup_ge_None; rewrite length_insert, length_fmap, length_take; lia.
    + rewrite list_lookup_alter_ne, list_lookup_insert_ne, list_lookup_fmap, lookup_take_lt by done. done.
  - rewrite lookup_take_ge by lia. symmetry. apply lookup_ge_None.
    rewrite length_insert, length_fmap, length_take. lia.
Qed.

Lemma repair_map_spec ks : forall map us1 us2,
  nlba <= 2 ^ 30 -> length us1 = length ks -> (forall u, u ∈ us1 -> 0 <= u < nlba) ->
  (forall k, k ∈ ks -> 0 <= k < ext) -> exists map',
  repair_map map ks (us1 ++ us2) = (true, map', us2) /\ length map' = length map /\
  map_cands nlba 0 (take (Z.to_nat ext) map') = refill (map_cands nlba 0 (take (Z.to_nat ext) map)) ks us1 /\
  forall i, 0 <= i -> i ∉ ks -> map' !! Z.to_nat i = map !! Z.to_nat i.
Proof.
  induction ks as [|k ks IH]; intros map us1 us2 Hn Hl Hu Hk.
  - apply nil_length_inv in Hl as ->. exists map. by destruct us2.
  - destruct us1 as [|u us1]; [done|]. cbn [app repair_map refill].
    specialize (Hk k ltac:(by left)) as Hk0. specialize (Hu u ltac:(by left)) as Hu0.
    destruct (IH (<[Z.to_nat k := Z.lor u BTT_MAP_ENTRY_ERROR]> map) us1 us2) as (map' & E & Hlen & Ec & Hkeep);
      [done|cbn in Hl; lia|intros; apply Hu; by right|intros; apply Hk; by right|].
    exists map'. split_and!; [done|by rewrite Hlen, length_insert| |].
    + rewrite Ec, map_cands_insert by lia. by rewrite map_cand_repaired by lia.
    + intros i Hi Hik. rewrite Hkeep by (done || (intros ?; apply Hik; by right)).
      apply list_lookup_insert_ne. intros E'. apply Hik. replace i with k by lia. by left.
Qed.

Lemma repair_flogs_spec ks : forall slots us,
  nlba <= 2 ^ 30 -> length us = length ks -> (forall u, u ∈ us -> 0 <= u < nlba) ->
  (forall k, k ∈ ks -> 0 <= k < nfree) -> exists slots',
  repair_flogs slots ks us = (true, slots') /\ length slots' = length slots /\
  flog_cand <$> take (Z.to_nat nfree) slots' = refill (flog_cand <$> take (Z.to_nat nfree) slots) ks us.
Proof.
  induction ks as [|k ks IH]; intros slots us Hn Hl Hu Hk.
  - apply nil_length_inv in Hl as ->. by exists slots.
  - destruct us as [|u us]; [done|]. cbn [repair_flogs refill].
    specialize (Hk k ltac:(by left)) as Hk0. specialize (Hu u ltac:(by left)) as Hu0.
    destruct (IH (alter (repaired_slot u) (Z.to_nat k) slots) us) as (slots' & E & Hlen & Ec);
      [done|cbn in Hl; lia|intros; apply Hu; by right|intros; apply Hk; by right|].
    exists slots'. split_and!; [done|by rewrite Hlen, length_alter|].
    by rewrite Ec, flog_cands_alter by lia.
Qed.

(** The repaired arena accounts for every block. *)
Lemma refill_accounted map slots map' slots' bad1 bad2 us1 us2 :
  arena_sized map slots -> found map slots bad1 bad2 (us1 ++ us2) ->
  length us1 = length bad1 -> length us2 = length bad2 ->
  map_cands nlba 0 (take (Z.to_nat ext) map') = refill (map_cands nlba 0 (take (Z.to_nat ext) map)) bad1 us1 ->
  flog_cand <$> take (Z.to_nat nfree) slots' = refill (flog_cand <$> take (Z.to_nat nfree) slots) bad2 us2 ->
  accounted map' slots'.
Proof.
  intros Haz [] Hl1 Hl2 E1 E2. destruct Haz, fd_bad3 as [Hb1 Hr1], fd_bad4 as [Hb2 Hr2].
  unfold accounted, claims. rewrite E1, E2.
  pose proof (refill_goods bad1 (map_cands nlba 0 (take (Z.to_nat ext) map)) us1) as P1.
  pose proof (refill_goods bad2 (flog_cand <$> take (Z.to_nat nfree) slots) us2) as P2.
  rewrite length_map_cands, length_take in P1. rewrite length_fmap, length_take in P2.
  specialize (P1 Hb1 ltac:(intros k Hk; specialize (Hr1 k Hk); lia) Hl1).
  specialize (P2 Hb2 ltac:(intros k Hk; specialize (Hr2 k Hk); lia) Hl2).
  set (G1 := goods (map_cands _ _ _) _ _) in *. set (G2 := goods (_ <$> take _ slots) _ _) in *.
  set (C1 := refill (map_cands _ _ _) _ _) in *. set (C2 := refill (_ <$> _) _ _) in *.
  exists (goods C1 0 [] ++ goods C2 0 []).
  assert (goods C1 0 [] ++ goods C2 0 [] ≡ₚ (us1 ++ us2) ++ G1 ++ G2) as HP.
  { rewrite P1, P2. rewrite <- !app_assoc. apply Permutation_app_head.
    rewrite !app_assoc. apply Permutation_app_tail. apply Permutation_app_comm. }
  split_and!.
  - rewrite fmap_app. apply Permutation_length in P1, P2. rewrite length_app in *.
    assert (length C1 = Z.to_nat ext) as LC1.
    { unfold C1. rewrite length_refill, length_map_cands, length_take. lia. }
    assert (length C2 = Z.to_nat nfree) as LC2.
    { unfold C2. rewrite length_refill, length_fmap, length_take. lia. }
    pose proof (goods_length C1 [] 0). pose proof (goods_length C2 [] 0).
    f_equal; apply goods_all; lia.
  - rewrite HP. done.
  - intros b Hb. rewrite HP. by apply fd_cover0.
Qed.

(** ** The whole step *)

(** The blocks nobody names, and the good ones in range, are all blocks. *)
Lemma found_total map slots bad1 bad2 us :
  arena_sized map slots -> found map slots bad1 bad2 us ->
  Z.of_nat (length us + length (goods (map_cands nlba 0 (take (Z.to_nat ext) map)) 0 bad1) +
    length (filter (fun b => b < nlba) (goods (flog_cand <$> take (Z.to_nat nfree) slots) 0 bad2))) = nlba.
Proof.
  intros [] []. set (G1 := goods (map_cands _ _ _) _ _) in *. set (G2 := goods (_ <$> _) _ _) in *.
  destruct fd_us0 as [Hn Hu].
  assert (us ++ G1 ++ filter (fun b => b < nlba) G2 ≡ₚ seqZ 0 nlba) as HP.
  { apply NoDup_Permutation; [|apply NoDup_seqZ|].
    - rewrite app_assoc in fd_good0 |- *. apply NoDup_app in fd_good0 as (HA & HB & HC).
      apply NoDup_app. split_and!; [done| |by apply NoDup_filter].
      intros b Hb [_ Hb2]%list_elem_of_filter. by apply (HB b).
    - intros b. rewrite elem_of_seqZ. split.
      + intros [Hb|[Hb|[Hb Hin]%list_elem_of_filter]%elem_of_app]%elem_of_app.
        * specialize (Hu b Hb). lia.
        * apply goods_in, cands_range in Hb. lia.
        * apply goods_in in Hin. apply list_elem_of_fmap in Hin as (x & Hx & _). symmetry in Hx.
          apply flog_cand_range in Hx. lia.
      + intros Hb. specialize (fd_cover0 b ltac:(lia)). rewrite !elem_of_app, list_elem_of_filter in *. naive_solver lia. }
  apply Permutation_length in HP. rewrite !length_app, length_seqZ in HP. lia.
Qed.

Lemma filter_all (l : list Z) : (length (filter (fun b => b < nlba) l) = length l) <-> Forall (fun b => b < nlba) l.
Proof.
  split.
  - intros E. apply Forall_forall. intros b Hb. destruct (decide (b < nlba)); [done|].
    pose proof (length_filter_lt (fun b => b < nlba) l b Hb n). lia.
  - intros Hf. induction Hf as [|b l Hb Hf IH]; [done|]. rewrite filter_cons_True by done. cbn [length]. lia.
Qed.

(** The missing blocks are as many as the bad candidates exactly when every flog
    names a block of the arena. *)
Lemma counts_agree map slots bad1 bad2 us :
  arena_sized map slots -> found map slots bad1 bad2 us ->
  (length us = (length bad1 + length bad2)%nat <->
   Forall (fun slot => forall b, flog_cand slot = Some b -> b < nlba) (take (Z.to_nat nfree) slots)).
Proof.
  intros Haz Hf. pose proof (found_total _ _ _ _ _ Haz Hf) as Ht. destruct Hf. rewrite fd_range0, <- filter_all.
  rewrite length_app in fd_count0. lia.
Qed.

Lemma found_small map slots bad1 bad2 us :
  arena_sized map slots -> found map slots bad1 bad2 us ->
  Z.of_nat (length us) <= 2 ^ 30 /\ Z.of_nat (length bad1) + Z.of_nat (length bad2) <= 2 ^ 30.
Proof. intros Haz Hf. pose proof (found_total _ _ _ _ _ Haz Hf). destruct Haz, Hf. lia. Qed.

(** What the function does once the scans are known. *)
Lemma map_flog_repair_eq map slots bad1 bad2 us bm1 bm2 s :
  arena_sized map slots -> found map slots bad1 bad2 us ->
  scan_map nlba (take (Z.to_nat ext) map) 0 ∅ [] = (bm1, bad1) ->
  scan_flogs (u32 (nlba + 7) / 8) (take (Z.to_nat nfree) slots) 0 bm1 [] = Some (bm2, bad2) ->
  scan_unmapped (Z.to_nat nlba) 0 bm2 [] = us ->
  map_flog_repair ext nfree map slots nlba s =
  (if negb (pc_repair s) && (0 <? length us)%nat then ret (CHECK_RESULT_NOT_CONSISTENT, map, slots)
   else if negb (length us =? length bad1 + length bad2)%nat then ret (CHECK_RESULT_CANNOT_REPAIR, map, slots)
   else
     a <- (if (0 <? length bad1)%nat then ask_Yn else ret CHAR_y) ;;
     if is_char a CHAR_n then ret (CHECK_RESULT_CANNOT_REPAIR, map, slots)
     else
       a <- (if (0 <? length bad2)%nat then ask_Yn else ret CHAR_y) ;;
       if is_char a CHAR_n then ret (CHECK_RESULT_CANNOT_REPAIR, map, slots)
       else
         let '(ok, map, unmap) := repair_map map bad1 us in
         if negb ok then ret (CHECK_RESULT_ERROR, map, slots)
         else
           let '(ok, slots) := repair_flogs slots bad2 unmap in
           ret (if ok then CHECK_RESULT_CONSISTENT else CHECK_RESULT_ERROR, map, slots)) s.
Proof.
  intros Haz Hf E1 E2 E3. pose proof (found_small _ _ _ _ _ Haz Hf) as [Hs1 Hs2]. destruct Haz.
  unfold map_flog_repair.
  rewrite (proj2 (Z.ltb_ge _ _)), (proj2 (Z.ltb_ge _ _)) by lia. cbn [orb validM].
  rewrite E1. cbv beta iota zeta. rewrite E2. cbn [validM]. unfold bindM at 1 2 3. cbn [ret getM].
  rewrite E3.
  rewrite !(u32_id (Z.of_nat _)) by lia. rewrite u32_id by lia.
  assert (forall l : list Z, (0 <? Z.of_nat (length l)) = (0 <? length l)%nat) as Hpos.
  { intros l. destruct l; [done|]. cbn [length]. by rewrite (proj2 (Z.ltb_lt _ _)) by lia. }
  rewrite !Hpos.
  assert ((Z.of_nat (length us) =? Z.of_nat (length bad1) + Z.of_nat (length bad2)) =
    (length us =? length bad1 + length bad2)%nat) as ->.
  { destruct (Nat.eqb_spec (length us) (length bad1 + length bad2)); [apply Z.eqb_eq|apply Z.eqb_neq]; lia. }
  destruct (negb (pc_repair s) && (0 <? length us)%nat); [done|].
  destruct (negb (length us =? length bad1 + length bad2)%nat); [done|]. done.
Qed.

Lemma ask_yes s : pc_ans s = CHAR_y -> ask_Yn s = inr (CHAR_y, s).
Proof. intros E. unfold ask_Yn, bindM, getM, zoomM, ask_yn, ask. rewrite E. by destruct s. Qed.

(** Nothing is wrong with an arena that accounts for its blocks, and nothing is
    changed in it. *)
Lemma accounted_check map slots s :
  arena_sized map slots -> accounted map slots ->
  map_flog_repair ext nfree map slots nlba s = inr ((CHECK_RESULT_CONSISTENT, map, slots), s).
Proof.
  intros Haz (bs & Ec & Hnd & Hall). destruct (scans_find map slots Haz) as (bad1 & bad2 & us & bm1 & bm2 & E1 & E2 & E3 & Hf).
  rewrite (map_flog_repair_eq _ _ bad1 bad2 us bm1 bm2) by done. unfold claims in Ec.
  symmetry in Ec. apply fmap_app_inv in Ec as (bs1 & bs2 & Eb1 & Eb2 & ->). apply NoDup_app in Hnd as (Hn1 & Hdis & Hn2).
  rewrite scan_map_scan, Eb1, scan_blocks in E1 by (done || (intros b _; apply not_elem_of_empty)).
  injection E1 as <- <-. rewrite scan_flogs_scan in E2 by apply Haz.
  rewrite Eb2, scan_blocks in E2.
  2: done.
  2: { intros b Hb [Hin%elem_of_list_to_set|Hin]%elem_of_union; [by apply (Hdis b)|by apply elem_of_empty in Hin]. }
  injection E2 as <- <-.
  assert (us = []) as ->.
  { subst us. rewrite scan_unmapped_spec, app_nil_r. destruct (filter _ _) as [|b l] eqn:El; [done|].
    assert (b ∈ b :: l) as Hb by by left. rewrite <- El in Hb. apply list_elem_of_filter in Hb as [Hb Hr].
    apply elem_of_seqZ in Hr. specialize (Hall b ltac:(lia)). exfalso. apply Hb.
    apply elem_of_app in Hall. rewrite !elem_of_union, !elem_of_list_to_set. tauto. }
  cbn [length Nat.ltb Nat.leb]. rewrite andb_false_r. done.
Qed.

(** There are as many candidates as blocks, so no candidate is out of range. *)
Lemma accounted_range map slots b :
  0 <= ext <= Z.of_nat (length map) -> 0 <= nfree <= Z.of_nat (length slots) -> ext + nfree = nlba ->
  accounted map slots -> Some b ∈ claims map slots -> 0 <= b < nlba.
Proof.
  intros He Hn Hs (bs & Ebs & Hnd & Hall) Hin.
  assert (length bs = Z.to_nat nlba) as Hl.
  { apply (f_equal length) in Ebs. unfold claims in Ebs.
    rewrite length_app, length_map_cands, !length_fmap, !length_take in Ebs. lia. }
  rewrite Ebs in Hin. apply list_elem_of_fmap in Hin as (b' & [= <-] & Hin).
  assert (b ∈ seqZ 0 nlba) as Hb; [|apply elem_of_seqZ in Hb; lia].
  apply list_elem_of_In. apply list_elem_of_In in Hin. revert b Hin.
  apply (NoDup_length_incl (l := seqZ 0 nlba) (l' := bs)).
  - apply NoDup_ListNoDup, NoDup_seqZ.
  - rewrite length_seqZ. lia.
  - intros c Hc. apply list_elem_of_In, elem_of_seqZ in Hc. apply list_elem_of_In, Hall. lia.
Qed.
End Claims.



(** ** Sequence numbers

    The BTT numbers the entries of a flog 1, 2, 3, 1, ...; the check knows the
    numbers 1 and 2 only. *)

(** The current entry and the other one, as flog_update leaves them. *)
Definition flog_pair (cur other : btt_flog) : Prop :=
  seq other = 0 /\ seq cur = 1 \/ (seq other = 1 \/ seq other = 2 \/ seq other = 3) /\ seq cur = NSEQ (seq other).

Lemma check_flog_pair cur other pad :
  flog_pair cur other ->
  flog_current cur other = Some (cur, 1) /\ flog_current other cur = Some (cur, 0) /\
  pmempool_check_check_flog {| fs_alpha := cur; fs_beta := other; fs_pad := pad |} =
    (if (seq cur =? 3) || (seq other =? 3) then None else Some cur) /\
  pmempool_check_check_flog {| fs_alpha := other; fs_beta := cur; fs_pad := pad |} =
    (if (seq cur =? 3) || (seq other =? 3) then None else Some cur).
Proof.
  unfold flog_current, pmempool_check_check_flog. cbn [fs_alpha fs_beta].
  intros [[-> ->]|[[Ho|[Ho|Ho]] Hc]]; [by cbn|..]; rewrite Ho in Hc |- *; cbn in Hc; rewrite Hc; by cbn.
Qed.

(** The check and the BTT disagree about which flogs are valid: an arena with
    a lane that has been written twice or more, so that one of its sequence
    numbers is 3, is reported as not consistent whatever its map holds, though
    the BTT takes the current entry of every pair. *)
Theorem third_sequence_rejected (ext nfree nlba : Z) (map : list Z) (slots : list flog_slot) (s : pmempool_check)
    (n : nat) (cur other : btt_flog) (pad : list byte)
    (Haz : arena_sized ext nfree nlba map slots) (Hrep : pc_repair s = false)
    (Hn : Z.of_nat n < nfree) (Hpair : flog_pair cur other) (Hthree : seq cur = 3 \/ seq other = 3)
    (Hslot : slots !! n = Some {| fs_alpha := cur; fs_beta := other; fs_pad := pad |} \/
             slots !! n = Some {| fs_alpha := other; fs_beta := cur; fs_pad := pad |}) :
  flog_current cur other = Some (cur, 1) /\ flog_current other cur = Some (cur, 0) /\
  map_flog_repair ext nfree map slots nlba s = inr ((CHECK_RESULT_NOT_CONSISTENT, map, slots), s).
Proof.
  destruct (check_flog_pair cur other pad Hpair) as (F1 & F2 & F3 & F4). split_and!; [done|done|].
  assert ((seq cur =? 3) || (seq other =? 3) = true) as Ht.
  { apply orb_true_iff. rewrite !Z.eqb_eq. done. }
  rewrite Ht in F3, F4.
  destruct (scans_find _ _ _ map slots Haz) as (bad1 & bad2 & us & bm1 & bm2 & E1 & E2 & E3 & Hf).
  rewrite (map_flog_repair_eq _ _ _ _ _ bad1 bad2 us bm1 bm2), Hrep by done. cbn [negb andb].
  destruct us as [|u us]; [exfalso|done].
  pose proof (found_total _ _ _ _ _ _ _ _ Haz Hf) as Hc.
  destruct Hf. rewrite length_app in fd_count0. cbn [length] in Hc.
  pose proof (length_filter (fun b => b < nlba) (goods (flog_cand <$> take (Z.to_nat nfree) slots) 0 bad2)) as Hle.
  assert (length bad1 = 0 /\ length bad2 = 0)%nat as [Hb1 Hb2] by lia.
  apply nil_length_inv in Hb1, Hb2. subst bad1 bad2. destruct Haz.
  assert (length (goods (flog_cand <$> take (Z.to_nat nfree) slots) 0 []) = length (flog_cand <$> take (Z.to_nat nfree) slots)) as Hg.
  { pose proof (goods_length (flog_cand <$> take (Z.to_nat nfree) slots) [] 0) as H2.
    pose proof (goods_length (map_cands nlba 0 (take (Z.to_nat ext) map)) [] 0) as H1.
    rewrite length_map_cands in H1. rewrite length_fmap in *. rewrite !length_take in *. cbn [length] in fd_count0. lia. }
  apply goods_all in Hg. apply (f_equal (.!! n)) in Hg. rewrite !list_lookup_fmap, lookup_take_lt in Hg by lia.
  destruct Hslot as [Es|Es]; rewrite Es in Hg; cbn [fmap option_fmap option_map] in Hg; unfold flog_cand in Hg at 1;
    rewrite ?F3, ?F4 in Hg; cbn in Hg; by destruct (goods _ _ _ !! n).
Qed.
