(* ===== verification/PcheckSpec.v ===== *)
(** PcheckSpec: what pmempool check promises for a pool file: without -r, or
    with -N, the file is not written; the verdict on a log pool is whether it
    opens; the repair of a log pool makes it open. *)

From S2P Require Import Prelude Mem Util BttLayout Prog StateM Btt Blk Log.
From S2P Require Import Pcommon Pcheck PcheckBtt PcheckMap.

#[local] Open Scope stateM_scope.

(** ** Nothing is written without -r or with -N *)

Definition same_file (s s' : pmempool_check) : Prop :=
  fd_mem s' = fd_mem s /\ fd_size s' = fd_size s /\ pc_repair s' = pc_repair s /\ pc_exec s' = pc_exec s.
Definition inert (s : pmempool_check) : Prop := pc_repair s && pc_exec s = false.

#[export] Instance same_file_preorder : PreOrder same_file.
Proof.
  split; [by intros s|]. intros s1 s2 s3 (?&?&?&?) (?&?&?&?). unfold same_file. by split_and!; etrans.
Qed.

Lemma same_inert s s' : same_file s s' -> inert s -> inert s'.
Proof. intros (_ & _ & E1 & E2). unfold inert. by rewrite E1, E2. Qed.

(** A routine that leaves the file alone in an inert state, if it returns. *)
Definition quiet_at {A} (m : M pmempool_check A) (s : pmempool_check) : Prop :=
  forall a s', m s = inr (a, s') -> same_file s s'.
Definition quiet {A} (m : M pmempool_check A) : Prop := forall s, inert s -> quiet_at m s.

Lemma quiet_bind {A B} (m : M pmempool_check A) (k : A -> M pmempool_check B) :
  quiet m -> (forall a, quiet (k a)) -> quiet (bindM m k).
Proof.
  intros Hm Hk s Hs b s'' E. unfold bindM in E. destruct (m s) as [|[a s']] eqn:Em; [done|].
  pose proof (Hm s Hs a s' Em) as H1. etrans; [done|]. apply (Hk a s') with (a := b); [by eapply same_inert|done].
Qed.

Lemma quiet_get {A} (k : pmempool_check -> M pmempool_check A) :
  (forall s, inert s -> quiet_at (k s) s) -> quiet (bindM getM k).
Proof. intros Hk s Hs a s' E. by apply (Hk s Hs a s'). Qed.

Lemma quiet_here {A} (m : M pmempool_check A) s : inert s -> quiet m -> quiet_at m s.
Proof. auto. Qed.

Lemma quiet_ret {A} (a : A) : quiet (ret a).
Proof. by intros s _ b s' [= _ <-]. Qed.
Lemma quiet_fail {A} f : quiet (fail (A := A) f).
Proof. by intros s _ b s' E. Qed.
Lemma quiet_getM : quiet getM.
Proof. by intros s _ b s' [= _ <-]. Qed.
Lemma quiet_modM f : (forall s, same_file s (f s)) -> quiet (modM f).
Proof. intros Hf s _ b s' [= _ <-]. apply Hf. Qed.
Lemma quiet_validM {A} (o : option A) : quiet (validM o).
Proof. destruct o; [apply quiet_ret|apply quiet_fail]. Qed.
Lemma quiet_zoom {A} (m : M (list byte) A) : quiet (zoomM pc_input set_input m).
Proof. intros s _ a s' E. unfold zoomM in E. destruct (m (pc_input s)) as [|[? ?]]; [done|]. by injection E as _ <-. Qed.

Create HintDb quiet discriminated.
#[export] Hint Resolve quiet_ret quiet_fail quiet_getM quiet_validM quiet_zoom : quiet.
#[export] Hint Extern 1 (quiet (modM _)) => apply quiet_modM; done : quiet.

Ltac quiets :=
  repeat first
    [ solve [auto with quiet]
    | apply quiet_bind; [|intros ?]
    | match goal with
      | |- quiet (if ?b then _ else _) => destruct b
      | |- quiet (match ?x with _ => _ end) => destruct x
      end ].

Section Quiet.
Context (e : penv) `{Allocator}.

Lemma quiet_pread_into buf off : quiet (pread_into e buf off).
Proof. unfold pread_into, pread. quiets. Qed.
Lemma quiet_ask : quiet ask_Yn.
Proof. unfold ask_Yn. quiets. Qed.
#[local] Hint Resolve quiet_pread_into quiet_ask : quiet.

Lemma quiet_first_valid_loop fuel : forall infop offset, quiet (first_valid_loop e fuel infop offset).
Proof. induction fuel as [|fuel IH]; intros; cbn [first_valid_loop]; quiets. Qed.
#[local] Hint Resolve quiet_first_valid_loop : quiet.

Lemma quiet_first_valid_btt offset : quiet (pmempool_check_get_first_valid_btt e offset).
Proof. unfold pmempool_check_get_first_valid_btt. quiets. Qed.
#[local] Hint Resolve quiet_first_valid_btt : quiet.
Lemma quiet_first_valid_arena : quiet (pmempool_check_get_first_valid_arena e).
Proof. unfold pmempool_check_get_first_valid_arena. quiets. Qed.
Lemma quiet_offer bad f : quiet (offer bad f).
Proof. unfold offer. quiets. Qed.
#[local] Hint Resolve quiet_first_valid_arena quiet_offer : quiet.

Lemma quiet_pool_hdr : quiet (pmempool_check_pool_hdr e).
Proof.
  unfold pmempool_check_pool_hdr, repair_pool_hdr, determine_type, set_defaults, uuid_from_btt, regenerate. quiets.
Qed.

Lemma quiet_read_rest size : quiet (read_rest e size).
Proof. unfold read_rest. quiets. Qed.
Lemma quiet_repair_field bad off bs r : quiet (repair_field bad off bs r).
Proof. unfold repair_field. quiets. Qed.
#[local] Hint Resolve quiet_read_rest quiet_repair_field : quiet.

Lemma quiet_pmemlog : quiet (pmempool_check_pmemlog e).
Proof. unfold pmempool_check_pmemlog, pmempool_check_read_pmemlog. quiets. Qed.
Lemma quiet_pmemblk : quiet (pmempool_check_pmemblk e).
Proof. unfold pmempool_check_pmemblk, pmempool_check_read_pmemblk. quiets. Qed.

Lemma quiet_insert_arena a : quiet (pmempool_check_insert_arena a).
Proof. unfold pmempool_check_insert_arena. quiets. Qed.
#[local] Hint Resolve quiet_insert_arena : quiet.
Lemma quiet_add_arenas fuel : forall m startoff offset, quiet (add_arenas fuel m startoff offset).
Proof. induction fuel as [|fuel IH]; intros; cbn [add_arenas]; quiets. Qed.
#[local] Hint Resolve quiet_add_arenas : quiet.

(** The mapping is private. *)
Lemma quiet_advanced_repair startoff endoff : quiet (pmempool_check_btt_info_advanced_repair e startoff endoff).
Proof.
  unfold pmempool_check_btt_info_advanced_repair. destruct (_ && _); [auto with quiet|].
  apply quiet_get. intros s Hs. unfold inert in Hs. rewrite Hs. cbv zeta. apply quiet_here; [done|]. unfold store_back.
  quiets.
Qed.
#[local] Hint Resolve quiet_advanced_repair : quiet.

Lemma quiet_info_loop fuel : forall offset result, quiet (btt_info_loop e fuel offset result).
Proof. induction fuel as [|fuel IH]; intros; cbn [btt_info_loop]; quiets. Qed.

Lemma quiet_map_flog_repair ext nfree map slots nlba : quiet (map_flog_repair ext nfree map slots nlba).
Proof. unfold map_flog_repair. quiets. Qed.
#[local] Hint Resolve quiet_info_loop quiet_map_flog_repair : quiet.

Lemma quiet_arena_map_flog a : quiet (pmempool_check_arena_map_flog e a).
Proof. unfold pmempool_check_arena_map_flog, pmempool_check_read_flog, pmempool_check_read_map. quiets. Qed.
#[local] Hint Resolve quiet_arena_map_flog : quiet.
Lemma quiet_map_flog_loop todo : forall before res, quiet (map_flog_loop e before todo res).
Proof. induction todo as [|a todo IH]; intros; cbn [map_flog_loop]; quiets. Qed.
#[local] Hint Resolve quiet_map_flog_loop : quiet.

Lemma inert_stop s (A : Type) (x y : A) : inert s -> (if negb (pc_repair s) || negb (pc_exec s) then x else y) = x.
Proof. unfold inert. by destruct (pc_repair s), (pc_exec s). Qed.

Lemma quiet_write_log : quiet (pmempool_check_write_log e).
Proof. unfold pmempool_check_write_log. apply quiet_get. intros s Hs. rewrite inert_stop by done. by apply quiet_ret. Qed.
Lemma quiet_write_blk : quiet (pmempool_check_write_blk e).
Proof. unfold pmempool_check_write_blk. apply quiet_get. intros s Hs. rewrite inert_stop by done. by apply quiet_ret. Qed.

Lemma quiet_steps : Forall (fun step => quiet (snd step)) (pmempool_check_steps e).
Proof.
  assert (quiet (pmempool_check_btt_info e)) by (unfold pmempool_check_btt_info; quiets).
  assert (quiet (pmempool_check_btt_map_flog e)) by (unfold pmempool_check_btt_map_flog; quiets).
  unfold pmempool_check_steps. rewrite !Forall_cons. split_and!; cbn [snd];
    auto using quiet_pool_hdr, quiet_pmemlog, quiet_pmemblk, quiet_write_log, quiet_write_blk.
Qed.

Lemma quiet_run_steps steps : Forall (fun step => quiet (snd step)) steps -> forall res, quiet (run_steps steps res).
Proof.
  intros Hf. induction Hf as [|step steps Hs Hf IH]; intros res; cbn [run_steps]; [auto with quiet|].
  apply quiet_bind; [|intros [[] ?]; cbn [fst snd]; auto with quiet]. unfold pmempool_check_single_step. quiets.
Qed.

(** C25. pmempool check without -r, or with -N, never writes to the file: whatever
    the file holds and the user answers, the bytes and the size are the same
    afterwards. *)
Theorem pmempool_check_readonly (s s' : pmempool_check) (r : check_result * Z)
    (Hinert : pc_repair s && pc_exec s = false) (Hrun : pmempool_check_func e s = inr (r, s')) :
  fd_mem s' = fd_mem s /\ fd_size s' = fd_size s.
Proof.
  assert (quiet (pmempool_check_func e)) as Hq.
  { unfold pmempool_check_func, pmem_pool_parse_params, pmempool_check_all_steps.
    pose proof (quiet_run_steps _ quiet_steps). quiets. }
  destruct (Hq s Hinert r s' Hrun) as (? & ? & _). done.
Qed.
End Quiet.
