(* ===== verification/PcheckLog.v ===== *)
(** PcheckLog: pmempool check on log pools.  The verdict is whether the pool
    opens; the repair makes it open and keeps the data of the log. *)

From S2P Require Import Prelude Mem Util BttLayout Prog StateM Btt Blk Log LogSpec.
From S2P Require Import Pcommon Pcheck PcheckBtt PcheckMap PcheckSpec.

#[local] Open Scope stateM_scope.

(** ** The header as a record *)

Lemma pool_hdr_of_wf bs : (4096 <= length bs)%nat -> pool_hdr_wf (pool_hdr_of bs).
Proof.
  intros Hl. unfold pool_hdr_of. split; cbn [signature major compat_features incompat_features ro_compat_features
    uuid crtime unused checksum]; first [apply length_slice; lia | apply (le_at_range bs _ 4) | apply (le_at_range bs _ 8)].
Qed.

Lemma enc_slice bs off k : (off + k <= length bs)%nat -> le_enc k (le_at bs off k) = take k (drop off bs).
Proof.
  intros Hl. unfold le_at. set (l := take k (drop off bs)).
  replace k with (length l) at 1 by (unfold l; len). apply le_enc_dec.
Qed.

(** The record holds every byte of the header. *)
Lemma pool_hdr_bytes_of bs : length bs = 4096%nat -> pool_hdr_bytes (pool_hdr_of bs) = bs.
Proof.
  intros Hl. unfold pool_hdr_bytes, pool_hdr_of, slice.
  cbn [signature major compat_features incompat_features ro_compat_features uuid crtime unused checksum].
  rewrite !enc_slice by lia. rewrite drop_0.
  rewrite !app_assoc, !take_take_drop. cbn [Nat.add]. apply take_ge. lia.
Qed.

Definition hdr_len (s : pmempool_check) : Prop := length (pc_hdr s) = 4176%nat.

Lemma hdr_pool_set h s : pool_hdr_wf h -> hdr_pool (set_pool h s) = h.
Proof.
  intros Hwf. unfold hdr_pool, set_pool. cbn [set_hdr pc_hdr].
  rewrite take_app_length' by (by rewrite length_pool_hdr_bytes). by apply pool_hdr_of_bytes.
Qed.

Lemma set_pool_set h h' s : pool_hdr_wf h -> set_pool h' (set_pool h s) = set_pool h' s.
Proof.
  intros Hwf. unfold set_pool. cbn [set_hdr pc_hdr]. unfold set_hdr. cbn. do 2 f_equal.
  rewrite drop_app_length' by (by rewrite length_pool_hdr_bytes). done.
Qed.

Lemma set_pool_same s : hdr_len s -> set_pool (hdr_pool s) s = s.
Proof.
  intros Hl. unfold set_pool, hdr_pool. rewrite pool_hdr_bytes_of by (rewrite length_take; unfold hdr_len in Hl; lia).
  rewrite take_drop. by destruct s.
Qed.

Lemma checksum_ok_set h s :
  pool_hdr_wf h -> hdr_checksum_ok (set_pool h s) = fst (util_checksum (pool_hdr_bytes h) 4088 false).
Proof.
  intros Hwf. unfold hdr_checksum_ok, set_pool. cbn [set_hdr pc_hdr].
  by rewrite take_app_length' by (by rewrite length_pool_hdr_bytes).
Qed.

(** ** Runs *)

(** No call to the operating system fails. *)
Record io_ok (e : penv) : Prop := {
  io_pread : forall n off, pe_pread e n off = true;
  io_pwrite : forall n off, pe_pwrite e n off = true;
  io_fsync : pe_fsync e = true;
  io_fstat : pe_fstat e = true;
  io_open_r : pe_open_r e = true;
  io_open : pe_open e = true;
  io_uuid : length (pe_uuid e) = 16%nat;
}.

Section Runs.
Context (e : penv) (Hio : io_ok e).
Implicit Type s : pmempool_check.

Lemma run_pread_into buf off s :
  0 <= off -> off + Z.of_nat (length buf) <= fd_size s ->
  pread_into e buf off s = inr ((mread (fd_mem s) off (Z.of_nat (length buf)), true), s).
Proof.
  intros Ho Hs. unfold pread_into, pread, bindM, getM, ret. rewrite (io_pread e Hio).
  rewrite (proj2 (Z.leb_le 0 off)) by lia. cbn [andb].
  rewrite Z.max_r, Z.min_l by lia. rewrite length_mread, Nat2Z.id, Nat.eqb_refl.
  rewrite drop_ge, app_nil_r by lia. done.
Qed.

Lemma run_pwrite bs off s :
  0 <= off -> off + Z.of_nat (length bs) <= fd_size s ->
  pwrite e bs off s = inr (true, set_file s (mwrite (fd_mem s) off bs) (fd_size s)).
Proof.
  intros Ho Hs. unfold pwrite, bindM, modM, ret. rewrite (io_pwrite e Hio), (proj2 (Z.leb_le 0 off)) by lia.
  cbn [andb]. by rewrite Z.max_l by lia.
Qed.

Lemma run_offer bad f h s :
  pc_ans s = CHAR_y -> pool_hdr_wf h ->
  offer bad f (set_pool h s) = inr (bad, set_pool (if bad then f h else h) s).
Proof.
  intros Ha Hwf. unfold offer. destruct bad; [|done].
  unfold bindM at 1. rewrite ask_yes by done. change (is_char CHAR_y CHAR_y) with true. cbv iota beta.
  unfold bindM, modM, ret. rewrite hdr_pool_set by done. by rewrite set_pool_set.
Qed.

Lemma run_offer_default bad f h s :
  pc_ans s = CHAR_y -> pool_hdr_wf h -> (bad = false -> f h = h) ->
  offer bad f (set_pool h s) = inr (bad, set_pool (f h) s).
Proof. intros Ha Hwf Hf. rewrite run_offer by done. destruct bad; [done|]. by rewrite Hf. Qed.

(** The pool header with the fields of its format. *)
Definition with_defaults (d : default_hdr) (h : pool_hdr) : pool_hdr :=
  {| signature := signature h; major := d_major d; compat_features := d_compat d; incompat_features := d_incompat d;
     ro_compat_features := d_ro_compat d; uuid := uuid h; crtime := crtime h; unused := replicate 4040 x00;
     checksum := checksum h |}.

Definition log_defaults : default_hdr :=
  {| d_major := LOG_FORMAT_MAJOR; d_compat := LOG_FORMAT_COMPAT; d_incompat := LOG_FORMAT_INCOMPAT;
     d_ro_compat := LOG_FORMAT_RO_COMPAT |}.

Lemma set_fields_wf h :
  pool_hdr_wf h ->
  let h1 := set_major LOG_FORMAT_MAJOR h in let h2 := set_compat LOG_FORMAT_COMPAT h1 in
  let h3 := set_incompat LOG_FORMAT_INCOMPAT h2 in let h4 := set_ro_compat LOG_FORMAT_RO_COMPAT h3 in
  pool_hdr_wf h1 /\ pool_hdr_wf h2 /\ pool_hdr_wf h3 /\ pool_hdr_wf h4 /\ pool_hdr_wf (with_defaults log_defaults h).
Proof.
  intros []. cbv zeta. split_and!; split; cbn; rewrite ?length_replicate; try done; try (unfold LOG_FORMAT_MAJOR,
    LOG_FORMAT_COMPAT, LOG_FORMAT_INCOMPAT, LOG_FORMAT_RO_COMPAT; lia).
Qed.

Ltac next_offer :=
  unfold bindM at 1; cbn [getM]; rewrite hdr_pool_set by done; unfold bindM at 1; rewrite run_offer_default;
    [|done|done|intros E; apply negb_false_iff, Z.eqb_eq in E].

Lemma run_set_defaults h s :
  pc_ans s = CHAR_y -> pool_hdr_wf h ->
  set_defaults log_defaults (set_pool h s) = inr (tt, set_pool (with_defaults log_defaults h) s).
Proof.
  intros Ha Hwf. destruct (set_fields_wf h Hwf) as (W1 & W2 & W3 & W4 & W5). cbv zeta in *.
  unfold set_defaults. cbn [log_defaults d_major d_compat d_incompat d_ro_compat].
  next_offer; [next_offer; [next_offer; [next_offer; [next_offer|]|]|]|].
  - unfold ret. do 3 f_equal.
  - apply check_memory_zero in E. rewrite (wf_unused _ W4) in E. unfold set_unused. rewrite <- E. done.
  - unfold set_ro_compat in *. rewrite <- E. done.
  - unfold set_incompat in *. rewrite <- E. done.
  - unfold set_compat in *. rewrite <- E. done.
  - unfold set_major in *. rewrite <- E. by destruct h.
Qed.

(** [s'] differs from [s] in the headers and the operation on the UUID only. *)
Definition same_task (s s' : pmempool_check) : Prop :=
  same_file s s' /\ pc_ans s' = pc_ans s /\ pc_ptype s' = PMEM_POOL_TYPE_LOG.

Lemma defaults_ok h v :
  pool_hdr_wf h -> signature h = LOG_HDR_SIG ->
  util_feature_check (set_checksum (with_defaults log_defaults h) v) LOG_FORMAT_INCOMPAT LOG_FORMAT_RO_COMPAT LOG_FORMAT_COMPAT
    = inr true.
Proof. done. Qed.

Lemma run_regenerate h s :
  pc_ans s = CHAR_y -> pc_uuid_op s = UUID_NOP -> pool_hdr_wf h -> signature h = LOG_HDR_SIG ->
  exists bs u, length bs = 4096%nat /\ log_hdr_ok bs /\
    regenerate e (set_pool (with_defaults log_defaults h) s) =
      inr (CHECK_RESULT_REPAIRED, set_uuid_op u (set_hdr (bs ++ drop 4096 (pc_hdr s)) s)).
Proof.
  intros Ha Hu Hwf Hsig. destruct (set_fields_wf h Hwf) as (_ & _ & _ & _ & W). unfold regenerate.
  rewrite (io_fstat e Hio). cbn [negb]. unfold bindM at 1. cbn [getM]. rewrite hdr_pool_set by done.
  set (late := _ <? _). unfold bindM at 1. rewrite run_offer by done.
  replace (late && negb late) with false by by destruct late.
  set (h1 := if late then _ else _).
  assert (pool_hdr_wf h1) as W1.
  { subst h1. destruct late; [|done]. destruct W. split; cbn; try done. apply u64_range. }
  assert (exists c, h1 = set_crtime c (with_defaults log_defaults h)) as [c Ec].
  { subst h1. destruct late; [by eexists|]. exists (crtime h). by destruct h. }
  unfold bindM at 1. cbn [getM]. unfold bindM at 1. change (pc_uuid_op (set_pool h1 s)) with (pc_uuid_op s). rewrite Hu.
  rewrite ask_yes by done. change (is_char CHAR_y CHAR_y) with true. cbn [negb]. cbv iota.
  unfold bindM at 1. cbn [modM]. rewrite hdr_pool_set by done. rewrite set_pool_set by done.
  set (h2 := set_uuid _ h1).
  assert (pool_hdr_wf h2) as W2.
  { subst h2. destruct W1. split; cbn; try done. rewrite length_take, (io_uuid e Hio). done. }
  unfold bindM at 1. cbn [modM]. unfold bindM at 1. rewrite ask_yes by done.
  change (is_char CHAR_y CHAR_n) with false. cbv iota. unfold bindM at 1. cbn [modM ret].
  destruct (convert_hdr_roundtrip h2 W2) as [v Hv]; [by rewrite Ec in *; subst h2; rewrite Ec|].
  exists (snd (util_checksum (pool_hdr_bytes h2) 4088 true)), UUID_REGENERATED. split_and!.
  - cbn [util_checksum snd]. rewrite length_splice by (rewrite length_le_enc, length_pool_hdr_bytes by done; cbn; lia).
    by apply length_pool_hdr_bytes.
  - exists (set_checksum h2 v). split_and!; [done|subst h2; rewrite Ec; done..].
  - do 2 f_equal. unfold set_pool. cbn [set_uuid_op set_hdr pc_hdr].
    rewrite take_app_length', drop_app_length' by (by rewrite length_pool_hdr_bytes). done.
Qed.

Lemma run_repair_pool_hdr h s :
  pc_ans s = CHAR_y -> pc_uuid_op s = UUID_NOP -> pool_hdr_wf h -> signature h = LOG_HDR_SIG ->
  exists bs s', length bs = 4096%nat /\ log_hdr_ok bs /\ same_task s s' /\ pc_hdr s' = bs ++ drop 4096 (pc_hdr s) /\
    repair_pool_hdr e (set_pool h s) = inr (CHECK_RESULT_REPAIRED, s').
Proof.
  intros Ha Hu Hwf Hsig. destruct (set_fields_wf h Hwf) as (_ & _ & _ & _ & W).
  set (s1 := set_ptype PMEM_POOL_TYPE_LOG s).
  assert (determine_type e (set_pool h s) = inr (true, set_pool h s1)) as Ed.
  { unfold determine_type. unfold bindM at 1. cbn [modM]. rewrite hdr_pool_set by done.
    unfold pmem_pool_type_parse_hdr. rewrite Hsig, bool_decide_true by done. done. }
  unfold repair_pool_hdr. rewrite (bindM_inr _ _ _ _ _ Ed). cbn [negb]. unfold bindM at 1. cbn [getM].
  change (pc_ptype (set_pool h s1)) with PMEM_POOL_TYPE_LOG.
  change (default_of PMEM_POOL_TYPE_LOG) with (Some log_defaults). cbn [validM].
  unfold bindM at 1. cbn [ret]. rewrite (bindM_inr _ _ _ _ _ (run_set_defaults h s1 Ha Hwf)).
  set (h1 := with_defaults log_defaults h) in *.
  assert (uuid_from_btt (set_pool h1 s1) = inr (tt, set_pool h1 s1)) as Eu by done.
  rewrite (bindM_inr _ _ _ _ _ Eu). unfold bindM at 1. cbn [getM]. rewrite checksum_ok_set by done.
  destruct (fst (util_checksum (pool_hdr_bytes h1) 4088 false)) eqn:Ec; cbn [negb].
  - exists (pool_hdr_bytes h1), (set_pool h1 s1). split_and!; [by apply length_pool_hdr_bytes| | |done|done].
    + exists h1. unfold util_convert_hdr. rewrite pool_hdr_of_bytes, Ec by done. done.
    + done.
  - destruct (run_regenerate h s1 Ha Hu Hwf Hsig) as (bs & u & Hl & Hok & E). unfold h1. rewrite E.
    exists bs, (set_uuid_op u (set_hdr (bs ++ drop 4096 (pc_hdr s1)) s1)). by split_and!.
Qed.

(** ** The steps on a log pool *)

Lemma run_check_pool_hdr s :
  hdr_len s -> 4096 <= fd_size s ->
  let bs := mread (fd_mem s) 0 4096 in
  let h := pool_hdr_of bs in
  signature h = LOG_HDR_SIG ->
  pmempool_check_pool_hdr e s =
    (if fst (util_checksum bs 4088 false) then ret CHECK_RESULT_CONSISTENT
     else if negb (pc_repair s) then ret CHECK_RESULT_NOT_CONSISTENT else repair_pool_hdr e) (set_pool h s).
Proof.
  intros Hl Hs bs h Hsig. unfold pmempool_check_pool_hdr, hdr_len in *.
  assert (length bs = 4096%nat) as Hb by apply length_mread.
  assert (length (take 4096 (pc_hdr s)) = 4096%nat) as Ht by (rewrite length_take; lia).
  unfold bindM at 1. cbn [getM]. unfold bindM at 1. rewrite run_pread_into by (rewrite ?Ht; lia). rewrite Ht.
  change (Z.of_nat 4096) with 4096. fold bs. cbn [fst snd negb]. unfold bindM at 1. cbn [modM].
  unfold bindM at 1. cbn [getM]. change (pc_repair (set_hdr _ s)) with (pc_repair s).
  assert (set_hdr (bs ++ drop 4096 (pc_hdr s)) s = set_pool h s) as ->.
  { unfold set_pool, h. by rewrite pool_hdr_bytes_of by done. }
  rewrite checksum_ok_set by (apply pool_hdr_of_wf; lia). unfold h at 2. rewrite pool_hdr_bytes_of by done.
  replace (negb (util_check_memory (take 4096 (pc_hdr (set_pool h s))) x00 =? 0)) with true; [done|].
  symmetry. apply negb_true_iff, Z.eqb_neq. intros E. apply check_memory_zero in E.
  assert (take 4096 (pc_hdr (set_pool h s)) = bs) as Etb.
  { unfold set_pool, h. cbn [set_hdr pc_hdr]. rewrite pool_hdr_bytes_of by done. by rewrite take_app_length'. }
  rewrite Etb, Hb in E. revert Hsig. unfold h. rewrite E. clear. unfold pool_hdr_of. cbn [signature].
  vm_compute. discriminate.
Qed.

(** The headers of a log: pool header, the three offsets, the rest. *)
Definition log_hdrs (H : list byte) (a b c : Z) (R : list byte) : list byte :=
  H ++ le_enc 8 a ++ le_enc 8 b ++ le_enc 8 c ++ R.

Lemma splice_mid (l1 l2 x y : list byte) k :
  length l1 = k -> length x = length y -> splice (l1 ++ x ++ l2) k y = l1 ++ y ++ l2.
Proof.
  intros <- Hxy. unfold splice. rewrite take_app_length. do 2 f_equal.
  rewrite drop_app_add, <- Hxy. apply drop_app_length.
Qed.

Section Fields.
Context (H R : list byte) (HH : length H = 4096%nat).

Lemma log_hdrs_fields a b c s :
  pc_hdr s = log_hdrs H a b c R -> 0 <= a < 2 ^ 64 -> 0 <= b < 2 ^ 64 -> 0 <= c < 2 ^ 64 ->
  hdr_field START_OFF 8 s = a /\ hdr_field END_OFF 8 s = b /\ hdr_field WRITE_OFF 8 s = c.
Proof.
  intros E Ha Hb Hc. unfold hdr_field, START_OFF, END_OFF, WRITE_OFF, log_hdrs in *. rewrite E.
  change (Z.to_nat 4096) with 4096%nat. change (Z.to_nat 4104) with 4104%nat. change (Z.to_nat 4112) with 4112%nat.
  split_and!; field; by rewrite Z.mod_small.
Qed.

Lemma log_hdrs_set a b c v :
  splice (log_hdrs H a b c R) (Z.to_nat START_OFF) (le_enc 8 v) = log_hdrs H v b c R /\
  splice (log_hdrs H a b c R) (Z.to_nat END_OFF) (le_enc 8 v) = log_hdrs H a v c R /\
  splice (log_hdrs H a b c R) (Z.to_nat WRITE_OFF) (le_enc 8 v) = log_hdrs H a b v R.
Proof.
  unfold log_hdrs, START_OFF, END_OFF, WRITE_OFF.
  split_and!.
  - apply splice_mid; len.
  - rewrite !(app_assoc H), splice_mid by len. done.
  - rewrite !(app_assoc H), !(app_assoc (H ++ _)), splice_mid by len. by rewrite <- !app_assoc.
Qed.
End Fields.

Lemma mread_enc m off k : mread m off (Z.of_nat k) = le_enc k (get_le k m off).
Proof. unfold get_le. rewrite <- (le_enc_dec (mread m off (Z.of_nat k))) at 1. by rewrite length_mread, Nat2Z.id. Qed.

Lemma run_read_log s :
  hdr_len s -> SIZEOF_PMEMLOG <= fd_size s ->
  pmempool_check_read_pmemlog e s =
  inr (true, set_hdr (log_hdrs (take 4096 (pc_hdr s)) (get64 (fd_mem s) START_OFF) (get64 (fd_mem s) END_OFF)
                        (get64 (fd_mem s) WRITE_OFF) (mread (fd_mem s) RUNTIME_OFF 32 ++ drop 4152 (pc_hdr s))) s).
Proof.
  unfold hdr_len, SIZEOF_PMEMLOG. intros Hl Hs. unfold pmempool_check_read_pmemlog, read_rest, SIZEOF_PMEMLOG.
  change (Z.to_nat 4152 - 4096)%nat with 56%nat.
  assert (length (slice (pc_hdr s) 4096 56) = 56%nat) as Hsl by (apply length_slice; lia).
  unfold bindM at 1. cbn [getM]. unfold bindM at 1. rewrite run_pread_into by (rewrite ?Hsl; lia). rewrite Hsl.
  cbn [fst snd]. unfold bindM, modM, ret. do 3 f_equal. unfold log_hdrs, splice. rewrite length_mread.
  change (Z.to_nat (Z.of_nat 56)) with 56%nat. change (4096 + 56)%nat with 4152%nat.
  change (Z.of_nat 56) with (8 + (8 + (8 + 32))). rewrite !mread_app by lia.
  change 8 with (Z.of_nat 8). rewrite !mread_enc. by rewrite <- !app_assoc.
Qed.

Lemma run_repair_field s bad off bs r :
  pc_ans s = CHAR_y -> pc_repair s = true ->
  repair_field bad off bs r s = inr (inr (if bad then CHECK_RESULT_REPAIRED else r), if bad then set_field off bs s else s).
Proof.
  intros Ha Hr. unfold repair_field. destruct bad; [|done]. unfold bindM at 1. cbn [getM]. rewrite Hr.
  unfold bindM at 1. by rewrite ask_yes.
Qed.

Lemma run_check_field s bad off bs r :
  pc_repair s = false ->
  repair_field bad off bs r s = inr (if bad then inl CHECK_RESULT_NOT_CONSISTENT else inr r, s).
Proof. intros Hr. unfold repair_field. destruct bad; [|done]. unfold bindM. cbn [getM]. by rewrite Hr. Qed.

(** The three offsets of a pool of [size] bytes. *)
Definition start_bad (m : mem) : bool := negb (get64 m START_OFF =? LOG_START).
Definition end_bad (m : mem) (size : Z) : bool := negb (get64 m END_OFF =? size).
Definition write_bad (m : mem) (size : Z) : bool := (get64 m WRITE_OFF <? LOG_START) || (size <? get64 m WRITE_OFF).

Lemma get64_range m off : 0 <= get64 m off < 2 ^ 64.
Proof. apply (get_le_range 8). Qed.

Lemma run_pmemlog_check s :
  hdr_len s -> SIZEOF_PMEMLOG <= fd_size s -> pc_repair s = false ->
  exists s', pmempool_check_pmemlog e s =
    inr (if start_bad (fd_mem s) || end_bad (fd_mem s) (fd_size s) || write_bad (fd_mem s) (fd_size s)
         then CHECK_RESULT_NOT_CONSISTENT else CHECK_RESULT_CONSISTENT, s') /\
    same_file s s' /\ pc_ptype s' = pc_ptype s.
Proof.
  intros Hl Hs Hr. unfold pmempool_check_pmemlog. rewrite (bindM_inr _ _ _ _ _ (run_read_log s Hl Hs)).
  rewrite (io_fstat e Hio). cbn [negb]. cbv zeta. unfold bindM at 1. cbn [getM].
  set (s1 := set_hdr _ s). exists s1. split; [|done].
  destruct (log_hdrs_fields (take 4096 (pc_hdr s)) (mread (fd_mem s) RUNTIME_OFF 32 ++ drop 4152 (pc_hdr s)) ltac:(rewrite length_take; unfold hdr_len in Hl; lia)
    _ _ _ s1 eq_refl (get64_range _ _) (get64_range _ _) (get64_range _ _)) as (F1 & F2 & F3).
  change (roundup SIZEOF_PMEMLOG LOG_FORMAT_DATA_ALIGN) with LOG_START. change (fd_size s1) with (fd_size s).
  rewrite F1. fold (start_bad (fd_mem s)). unfold bindM at 1. rewrite run_check_field by done.
  destruct (start_bad (fd_mem s)); [done|]. unfold bindM at 1. cbn [getM]. rewrite F2. fold (end_bad (fd_mem s) (fd_size s)).
  unfold bindM at 1. rewrite run_check_field by done. destruct (end_bad _ _); [done|].
  unfold bindM at 1. cbn [getM]. rewrite F3. fold (write_bad (fd_mem s) (fd_size s)).
  unfold bindM at 1. rewrite run_check_field by done. by destruct (write_bad _ _).
Qed.

(** The write offset after the repair. *)
Definition kept_write (m : mem) (size : Z) : Z := if write_bad m size then size else get64 m WRITE_OFF.

Lemma run_pmemlog_repair s :
  hdr_len s -> SIZEOF_PMEMLOG <= fd_size s < 2 ^ 63 -> pc_ans s = CHAR_y -> pc_repair s = true ->
  exists s', pmempool_check_pmemlog e s =
    inr (if start_bad (fd_mem s) || end_bad (fd_mem s) (fd_size s) || write_bad (fd_mem s) (fd_size s)
         then CHECK_RESULT_REPAIRED else CHECK_RESULT_CONSISTENT, s') /\
    same_file s s' /\ pc_ptype s' = pc_ptype s /\
    pc_hdr s' = log_hdrs (take 4096 (pc_hdr s)) LOG_START (fd_size s) (kept_write (fd_mem s) (fd_size s))
                  (mread (fd_mem s) RUNTIME_OFF 32 ++ drop 4152 (pc_hdr s)).
Proof.
  intros Hl Hs Ha Hr. unfold pmempool_check_pmemlog. rewrite (bindM_inr _ _ _ _ _ (run_read_log s Hl ltac:(lia))).
  rewrite (io_fstat e Hio). cbn [negb]. cbv zeta. unfold bindM at 1. cbn [getM].
  set (H := take 4096 (pc_hdr s)). set (R := mread _ _ _ ++ _).
  assert (length H = 4096%nat) as HH by (unfold H; rewrite length_take; unfold hdr_len in Hl; lia).
  set (s1 := set_hdr _ s). change (roundup SIZEOF_PMEMLOG LOG_FORMAT_DATA_ALIGN) with LOG_START.
  change (fd_size s1) with (fd_size s). set (m := fd_mem s). set (z := fd_size s).
  destruct (log_hdrs_fields H R HH _ _ _ s1 eq_refl (get64_range _ _) (get64_range _ _) (get64_range _ _)) as (F1 & _ & _).
  rewrite F1. fold m (start_bad m). unfold bindM at 1. rewrite run_repair_field by done.
  assert ((if start_bad m then set_field START_OFF (le_enc 8 LOG_START) s1 else s1) =
    set_hdr (log_hdrs H LOG_START (get64 m END_OFF) (get64 m WRITE_OFF) R) s) as ->.
  { unfold start_bad. destruct (Z.eqb_spec (get64 m START_OFF) LOG_START) as [E|E]; cbn [negb].
    - unfold s1. fold m. by rewrite E.
    - unfold set_field, s1. cbn [set_hdr pc_hdr]. by rewrite (proj1 (log_hdrs_set H R HH _ _ _ _)). }
  set (s2 := set_hdr _ s). unfold bindM at 1. cbn [getM].
  destruct (log_hdrs_fields H R HH _ _ _ s2 eq_refl ltac:(done) (get64_range _ _) (get64_range _ _)) as (_ & F2 & _).
  rewrite F2. fold (end_bad m z). unfold bindM at 1. rewrite run_repair_field by done.
  assert ((if end_bad m z then set_field END_OFF (le_enc 8 z) s2 else s2) =
    set_hdr (log_hdrs H LOG_START z (get64 m WRITE_OFF) R) s) as ->.
  { unfold end_bad. destruct (Z.eqb_spec (get64 m END_OFF) z) as [E|E]; cbn [negb].
    - unfold s2. by rewrite E.
    - unfold set_field, s2. cbn [set_hdr pc_hdr]. by rewrite (proj1 (proj2 (log_hdrs_set H R HH _ _ _ _))). }
  set (s3 := set_hdr _ s). unfold bindM at 1. cbn [getM].
  destruct (log_hdrs_fields H R HH _ _ _ s3 eq_refl ltac:(done) ltac:(unfold z, SIZEOF_PMEMLOG in *; lia) (get64_range _ _)) as (_ & _ & F3).
  rewrite F3. fold (write_bad m z). unfold bindM at 1. rewrite run_repair_field by done.
  assert ((if write_bad m z then set_field WRITE_OFF (le_enc 8 z) s3 else s3) =
    set_hdr (log_hdrs H LOG_START z (kept_write m z) R) s) as ->.
  { unfold kept_write. destruct (write_bad m z); [|done]. unfold set_field, s3. cbn [set_hdr pc_hdr].
    by rewrite (proj2 (proj2 (log_hdrs_set H R HH _ _ _ _))). }
  exists (set_hdr (log_hdrs H LOG_START z (kept_write m z) R) s). split; [|done].
  unfold ret. by destruct (start_bad m), (end_bad m z), (write_bad m z).
Qed.
End Runs.

(** ** The command on a log pool *)

Section Command.
#[local] Opaque util_checksum pool_hdr_of mread.
Context (e : penv) (Hio : io_ok e) `{Allocator}.
Context (m : mem) (size : Z) (Hsize : LOG_START <= size < 2 ^ 63).
Context (Hsig : signature (pool_hdr_of (mread m 0 POOL_HDR_SIZE)) = LOG_HDR_SIG).

(** The header has the format's version and features. *)
Definition log_format_ok : Prop :=
  let h := pool_hdr_of (mread m 0 POOL_HDR_SIZE) in
  major h = LOG_FORMAT_MAJOR /\
  util_feature_check h LOG_FORMAT_INCOMPAT LOG_FORMAT_RO_COMPAT LOG_FORMAT_COMPAT = inr true.

Definition header_checks : bool := fst (util_checksum (mread m 0 POOL_HDR_SIZE) 4088 false).
Definition offsets_bad : bool := start_bad m || end_bad m size || write_bad m size.

Lemma offsets_good :
  offsets_bad = false -> get64 m START_OFF = LOG_START /\ get64 m END_OFF = size /\ LOG_START <= get64 m WRITE_OFF <= size.
Proof. unfold offsets_bad, start_bad, end_bad, write_bad. intros Hb. bools. lia. Qed.

Lemma log_file_checks :
  log_format_ok -> (header_checks = true /\ offsets_bad = false <-> exists data, log_file size m data).
Proof.
  intros [Hmaj Hfeat]. unfold header_checks. split.
  - intros [Hc Hb]. apply offsets_good in Hb as (H1 & H2 & H3).
    exists (mread m LOG_START (get64 m WRITE_OFF - LOG_START)).
    assert (Z.of_nat (length (mread m LOG_START (get64 m WRITE_OFF - LOG_START))) = get64 m WRITE_OFF - LOG_START) as Hl
      by (rewrite length_mread; lia).
    split; rewrite ?Hl; try done; [|lia..].
    exists (pool_hdr_of (mread m 0 POOL_HDR_SIZE)). split_and!; try done. unfold util_convert_hdr.
    by rewrite Hmaj, Hc.
  - intros [data [(hdr & Hconv & _) Hs He Hw _ Hf]]. split.
    + unfold util_convert_hdr in Hconv. destruct (major _ =? 0); [done|].
      by destruct (fst (util_checksum _ _ _)).
    + unfold offsets_bad, start_bad, end_bad, write_bad. rewrite Hs, He, Hw, !Z.eqb_refl. cbn [negb orb].
      apply orb_false_iff. rewrite !Z.ltb_ge. lia.
Qed.

Lemma step_skip step steps res s :
  Z.land (fst step) (pc_ptype s) = 0 -> run_steps (step :: steps) res s = run_steps steps res s.
Proof. intros E. cbn [run_steps]. unfold pmempool_check_single_step, bindM. cbn [getM]. by rewrite E. Qed.

Lemma step_run (step : Z * M pmempool_check check_result) steps res s r s' :
  Z.land (fst step) (pc_ptype s) <> 0 -> snd step s = inr (r, s') ->
  run_steps (step :: steps) res s =
  match r with
  | CHECK_RESULT_CONSISTENT => run_steps steps res s'
  | CHECK_RESULT_REPAIRED => run_steps steps r s'
  | CHECK_RESULT_NOT_CONSISTENT => if negb (pc_repair s') then inr (r, s') else run_steps steps r s'
  | CHECK_RESULT_NEG => inr (res, s')
  | _ => inr (r, s')
  end.
Proof.
  intros E1 E2. cbn [run_steps]. unfold pmempool_check_single_step, bindM. cbn [getM].
  rewrite (proj2 (Z.eqb_neq _ _)) by done. cbv beta. rewrite E2. unfold ret. destruct r; try done. by destruct (pc_repair s').
Qed.

(** What happens before the first step. *)
Lemma run_func a input :
  a_backup a = false ->
  pmempool_check_func e (pmempool_check_default a m size input) =
  match run_steps (pmempool_check_steps e) CHECK_RESULT_CONSISTENT
          (set_ptype PMEM_POOL_TYPE_LOG (pmempool_check_default a m size input)) with
  | inl f => inl f
  | inr (r, s') => inr ((r, exit_status r), set_pc_arenas [] 0 s')
  end.
Proof.
  intros Eb. set (s := pmempool_check_default a m size input).
  unfold pmempool_check_func, pmem_pool_parse_params. rewrite (io_open_r e Hio). cbn [negb].
  unfold bindM at 1 2.
  assert (8192 <= size) by (change LOG_START with 8192 in *; lia).
  rewrite (run_pread_into e Hio) by (rewrite ?length_replicate; change (fd_size s) with size; lia).
  unfold ret at 1. cbn [fst snd]. rewrite length_replicate. change (Z.of_nat 4096) with POOL_HDR_SIZE.
  change (fd_mem s) with m. unfold pmem_pool_type_parse_hdr. rewrite Hsig, bool_decide_true by done.
  unfold bindM at 1. cbn [modM]. change (PMEM_POOL_TYPE_LOG =? PMEM_POOL_TYPE_NONE) with false. cbv iota.
  unfold bindM at 1. unfold pmempool_check_all_steps. unfold bindM at 1. cbn [getM].
  change (pc_backup (set_ptype PMEM_POOL_TYPE_LOG s)) with (a_backup a). rewrite Eb, andb_false_r. cbn [andb].
  rewrite (io_open e Hio). cbn [negb]. destruct (run_steps _ _ _) as [|[r s']]; done.
Qed.

Lemma steps_log :
  pmempool_check_steps e =
  (Z.lor PMEM_POOL_TYPE_ALL PMEM_POOL_TYPE_UNKNOWN, pmempool_check_pool_hdr e) ::
  (PMEM_POOL_TYPE_LOG, pmempool_check_pmemlog e) :: drop 2 (pmempool_check_steps e).
Proof. done. Qed.

(** The steps for the BTT are skipped. *)
Lemma log_steps res s s' :
  pc_ptype s = PMEM_POOL_TYPE_LOG -> pc_ptype s' = PMEM_POOL_TYPE_LOG ->
  pmempool_check_write_log e s = inr (CHECK_RESULT_CONSISTENT, s') ->
  run_steps (drop 2 (pmempool_check_steps e)) res s = inr (res, s').
Proof.
  intros Et Et' Ew. unfold pmempool_check_steps. cbn [drop]. do 3 rewrite step_skip by (rewrite Et; reflexivity).
  rewrite (step_run _ _ _ _ CHECK_RESULT_CONSISTENT s'); [|by rewrite Et|exact Ew].
  by rewrite step_skip by (rewrite Et'; reflexivity).
Qed.

(** The first step of the repair leaves a header that opens. *)
Lemma repair_first s :
  fd_mem s = m -> fd_size s = size -> hdr_len s -> pc_ans s = CHAR_y -> pc_uuid_op s = UUID_NOP -> pc_repair s = true ->
  pc_ptype s = PMEM_POOL_TYPE_LOG -> (header_checks = true -> log_format_ok) ->
  exists bs s', length bs = 4096%nat /\ log_hdr_ok bs /\ same_task s s' /\ pc_hdr s' = bs ++ drop 4096 (pc_hdr s) /\
    pmempool_check_pool_hdr e s = inr (if header_checks then CHECK_RESULT_CONSISTENT else CHECK_RESULT_REPAIRED, s').
Proof.
  intros Em Es Hl Ha Hu Hr Ht Hfmt. assert (8192 <= size) by (change LOG_START with 8192 in *; lia).
  pose proof (run_check_pool_hdr e Hio s Hl ltac:(rewrite Es; lia)) as Ep. cbv zeta in Ep. rewrite Em in Ep.
  specialize (Ep Hsig). rewrite Hr in Ep. change 4096 with POOL_HDR_SIZE in Ep. fold header_checks in Ep. cbn [negb] in Ep.
  set (bs := mread m 0 POOL_HDR_SIZE) in *. assert (length bs = 4096%nat) as Hb by apply length_mread.
  assert (pool_hdr_wf (pool_hdr_of bs)) as Hwf by (apply pool_hdr_of_wf; lia).
  destruct header_checks eqn:Ec.
  - destruct (Hfmt eq_refl) as [Hmaj Hfeat]. fold bs in Hmaj, Hfeat. exists bs, (set_pool (pool_hdr_of bs) s). split_and!.
    + done.
    + exists (pool_hdr_of bs). split_and!; try done. unfold util_convert_hdr. rewrite Hmaj.
      unfold header_checks in Ec. fold bs in Ec. by rewrite Ec.
    + by split_and!.
    + unfold set_pool. cbn [set_hdr pc_hdr]. by rewrite pool_hdr_bytes_of.
    + exact Ep.
  - destruct (run_repair_pool_hdr e Hio (pool_hdr_of bs) s Ha Hu Hwf Hsig) as (bs' & s' & ? & ? & ? & ? & E).
    exists bs', s'. rewrite Ep. by split_and!.
Qed.

Lemma run_write_log s bs R :
  pc_repair s = true -> pc_exec s = true -> 4152 <= fd_size s -> pc_hdr s = bs ++ R -> length bs = 4152%nat ->
  pmempool_check_write_log e s = inr (CHECK_RESULT_CONSISTENT, set_file s (mwrite (fd_mem s) 0 bs) (fd_size s)).
Proof.
  intros Hr He Hz Eh Hb. unfold pmempool_check_write_log. unfold bindM at 1. cbn [getM]. rewrite Hr, He. cbn [negb orb].
  rewrite Eh, take_app_length' by done. unfold bindM at 1. rewrite (run_pwrite e Hio) by (rewrite ?Hb; lia).
  by rewrite (io_fsync e Hio).
Qed.

(** The data up to the write offset, or up to the end where that is damaged. *)
Definition repaired_data : list byte := mread m LOG_START (kept_write m size - LOG_START).

Lemma kept_write_range : LOG_START <= kept_write m size <= size.
Proof. unfold kept_write. destruct (write_bad m size) eqn:E; [lia|]. unfold write_bad in E. bools. lia. Qed.

Definition repaired_hdr (bs : list byte) : list byte :=
  bs ++ le_enc 8 LOG_START ++ le_enc 8 size ++ le_enc 8 (kept_write m size) ++ mread m RUNTIME_OFF 32.

Lemma repaired_log bs :
  length bs = 4096%nat -> log_hdr_ok bs ->
  log_file size (mwrite m 0 (repaired_hdr bs)) repaired_data /\
  forall z, RUNTIME_OFF <= z -> mwrite m 0 (repaired_hdr bs) z = m z.
Proof.
  intros Hb Hok. pose proof kept_write_range as Hk. change LOG_START with 8192 in Hk, Hsize.
  assert (length (repaired_hdr bs) = 4152%nat) as Hl by (unfold repaired_hdr; rewrite !length_app, !length_le_enc, length_mread, Hb; done).
  assert (forall k off (o : nat) v, Z.of_nat o = off -> (o + k <= 4152)%nat -> 0 <= v < 256 ^ Z.of_nat k ->
    take k (drop o (repaired_hdr bs)) = le_enc k v -> get_le k (mwrite m 0 (repaired_hdr bs)) off = v) as Hget.
  { intros k off o v <- Ho Hv E. unfold get_le. rewrite mread_mwrite_in by lia. rewrite Z.sub_0_r, !Nat2Z.id, E.
    rewrite le_dec_enc. by apply Z.mod_small. }
  assert (length repaired_data = Z.to_nat (kept_write m size - LOG_START)) as Hd by apply length_mread.
  split; [split|].
  - rewrite mread_mwrite_in by (rewrite ?Hl; unfold POOL_HDR_SIZE; lia). rewrite drop_0. change (Z.to_nat POOL_HDR_SIZE) with 4096%nat.
    unfold repaired_hdr. by rewrite take_app_length' by done.
  - apply (Hget 8%nat _ 4096%nat); [done|lia|done|]. unfold repaired_hdr. rewrite drop_app_length' by done. done.
  - apply (Hget 8%nat _ 4104%nat); [done|lia|cbn; lia|]. unfold repaired_hdr. rewrite !(app_assoc bs), drop_app_length' by len. done.
  - rewrite Hd, Z2Nat.id by (change LOG_START with 8192; lia). rewrite Z.add_comm, Z.sub_add.
    apply (Hget 8%nat _ 4112%nat); [done|lia|cbn; lia|]. unfold repaired_hdr.
    rewrite !(app_assoc bs), (app_assoc (bs ++ _)), drop_app_length' by len. done.
  - rewrite mread_mwrite_out; [|change LOG_START with 8192; lia..]. unfold repaired_data. do 1 f_equal.
    rewrite length_mread. change LOG_START with 8192. lia.
  - rewrite Hd. change LOG_START with 8192. lia.
  - intros z Hz. unfold RUNTIME_OFF in Hz. destruct (Z.lt_ge_cases z 4152) as [Hz'|Hz']; [|apply mwrite_out; lia].
    rewrite mwrite_in by lia. unfold repaired_hdr. rewrite !app_assoc, app_nth2 by (rewrite !length_app, !length_le_enc, Hb; lia).
    rewrite !length_app, !length_le_enc, Hb. apply nth_lookup_Some. unfold RUNTIME_OFF. rewrite lookup_mread by lia.
    do 2 f_equal. lia.
Qed.

End Command.
