(* ===== verification/PcheckType.v ===== *)
(** PcheckType: the context of pmempool check stays well formed: its buffers
    keep their sizes, so that what is written back has the size of what was
    read. *)

From S2P Require Import Prelude Mem Util BttLayout Prog StateM Btt Blk Log LogSpec.
From S2P Require Import Pcommon Pcheck PcheckBtt PcheckMap PcheckSpec PcheckLog.

#[local] Open Scope stateM_scope.

(** ** Well-formed contexts *)

Definition is_u32 (z : Z) : Prop := 0 <= z < 2 ^ 32.
Definition flog_wf (f : btt_flog) : Prop :=
  is_u32 (lba f) /\ is_u32 (old_map f) /\ is_u32 (new_map f) /\ is_u32 (seq f).
Definition slot_wf (s : flog_slot) : Prop := flog_wf (fs_alpha s) /\ flog_wf (fs_beta s) /\ length (fs_pad s) = 32%nat.

(** The buffers of an arena: an info block, and the flog and the map at the
    sizes the info block gives them. *)
Record arena_wf (a : pc_arena) : Prop := {
  aw_info : length (ar_info a) = 4096%nat;
  aw_flog : forall l, ar_flog a = Some l -> Forall slot_wf l /\ 64 * Z.of_nat (length l) = flogsize a;
  aw_map : forall l, ar_map a = Some l -> Forall is_u32 l /\ 4 * Z.of_nat (length l) = mapsize a;
}.

Record pc_wf (s : pmempool_check) : Prop := {
  pw_hdr : length (pc_hdr s) = 4176%nat;
  pw_bttc : length (ar_info (pc_bttc s)) = 4096%nat;
  pw_arenas : Forall arena_wf (pc_arenas s);
  pw_narenas : pc_narenas s = u32 (Z.of_nat (length (pc_arenas s)));
}.

(** What is written back is as long as what was read. *)
Lemma length_map_bytes l : length (map_bytes l) = (4 * length l)%nat.
Proof. unfold map_bytes. induction l as [|x l IH]; [done|]. cbn [flat_map]. rewrite length_app, length_le_enc, IH. cbn. lia. Qed.

Lemma length_slot_bytes s : slot_wf s -> length (slot_bytes s) = 64%nat.
Proof. intros (_ & _ & Hp). unfold slot_bytes, flog_bytes. rewrite !length_app, !length_le_enc, Hp. done. Qed.

Lemma length_slots_bytes l : Forall slot_wf l -> length (slots_bytes l) = (64 * length l)%nat.
Proof.
  unfold slots_bytes. induction 1 as [|s l Hs Hl IH]; [done|]. cbn [flat_map length].
  rewrite length_app, length_slot_bytes, IH by done. lia.
Qed.

(** Only the information before the offset is used for the sizes. *)
Lemma le_at_splice_before bs off new o k :
  (o + k <= off)%nat -> (off <= length bs)%nat -> le_at (splice bs off new) o k = le_at bs o k.
Proof.
  intros Ho Hl. unfold le_at, splice. f_equal. rewrite drop_app_le by (rewrite length_take; lia).
  rewrite take_app_le by (rewrite length_drop, length_take; lia).
  by rewrite !take_drop_commute, take_take, Nat.min_l by lia.
Qed.

Lemma arena_wf_set_info a info :
  length info = 4096%nat -> le_at info 44 4 = le_at (ar_info a) 44 4 -> le_at info 56 4 = le_at (ar_info a) 56 4 ->
  arena_wf a -> arena_wf (set_ar_info a info).
Proof.
  intros Hl He Hn []. assert (flogsize (set_ar_info a info) = flogsize a) as Ef
    by (unfold flogsize; cbn [set_ar_info ar_info btt_info_of i_nfree]; by rewrite Hn).
  assert (mapsize (set_ar_info a info) = mapsize a) as Em
    by (unfold mapsize; cbn [set_ar_info ar_info btt_info_of i_external_nlba]; by rewrite He).
  split; [done| |]; by rewrite ?Ef, ?Em.
Qed.

(** ** Routines that keep the context well formed *)

(** If the routine returns, the context is well formed and [Q] holds of the result. *)
Definition keeps {A} (m : M pmempool_check A) (Q : A -> Prop) : Prop :=
  forall s a s', pc_wf s -> m s = inr (a, s') -> pc_wf s' /\ Q a.
Definition any {A} (a : A) : Prop := True.

Lemma keeps_bind {A B} (m : M pmempool_check A) (k : A -> M pmempool_check B) P Q :
  keeps m P -> (forall a, P a -> keeps (k a) Q) -> keeps (bindM m k) Q.
Proof.
  intros Hm Hk s b s'' Hs E. unfold bindM in E. destruct (m s) as [|[a s']] eqn:Em; [done|].
  destruct (Hm s a s' Hs Em) as [Hs' Ha]. exact (Hk a Ha s' b s'' Hs' E).
Qed.

Lemma keeps_weak {A} (m : M pmempool_check A) (P Q : A -> Prop) : keeps m P -> (forall a, P a -> Q a) -> keeps m Q.
Proof. intros Hm HPQ s a s' Hs E. destruct (Hm s a s' Hs E). auto. Qed.

Lemma keeps_ret {A} (a : A) (Q : A -> Prop) : Q a -> keeps (ret a) Q.
Proof. by intros Ha s b s' Hs [= <- <-]. Qed.
Lemma keeps_fail {A} f (Q : A -> Prop) : keeps (fail f) Q.
Proof. by intros s b s' _ E. Qed.
Lemma keeps_getM : keeps getM pc_wf.
Proof. by intros s b s' Hs [= <- <-]. Qed.
Lemma keeps_modM f : (forall s, pc_wf s -> pc_wf (f s)) -> keeps (modM f) any.
Proof. intros Hf s b s' Hs [= _ <-]. split; [auto|done]. Qed.
Lemma keeps_validM {A} (o : option A) : keeps (validM o) (fun a => o = Some a).
Proof. destruct o; [by apply keeps_ret|apply keeps_fail]. Qed.
Lemma keeps_ask : keeps ask_Yn any.
Proof.
  intros s a s' Hs E. unfold ask_Yn, bindM, zoomM in E. cbn [getM] in E.
  destruct (ask_yn _ _ _) as [|[? ?]]; [done|]. injection E as _ <-. by destruct Hs.
Qed.
Lemma keeps_any {A} (m : M pmempool_check A) P : keeps m P -> keeps m any.
Proof. intros Hm. by eapply keeps_weak. Qed.

Create HintDb keeps discriminated.
#[export] Hint Resolve keeps_fail keeps_getM keeps_validM keeps_ask : keeps.
#[export] Hint Extern 1 (keeps (ret _) _) => apply keeps_ret; done : keeps.
#[export] Hint Extern 1 (keeps (ret _) any) => apply keeps_ret; exact I : keeps.
#[export] Hint Extern 1 (any _) => exact I : keeps.

(** Follow the program; what is left are the stores and the results. *)
Ltac keeping :=
  repeat first
    [ solve [auto with keeps]
    | eapply keeps_bind; [solve [eauto with keeps]|intros ? ?; cbv beta in *]
    | match goal with
      | |- keeps (let _ := _ in _) _ => cbv zeta
      | |- keeps (bindM (modM _) _) _ => eapply keeps_bind; [apply keeps_modM; intros ? ?|intros ? _]
      | |- keeps (modM _) _ => apply keeps_modM; intros ? ?
      | |- pc_wf _ => solve [auto with keeps]
      | |- keeps (if ?b then _ else _) _ => destruct b eqn:?
      | |- keeps (match ?x with _ => _ end) _ => destruct x eqn:?
      | |- keeps (bindM (if ?b then _ else _) _) _ => eapply keeps_bind with (P := any); [destruct b|intros ? _]
      | |- keeps (bindM (match ?x with _ => _ end) _) _ => eapply keeps_bind with (P := any); [destruct x|intros ? _]
      end ].

(** ** Stores *)

Lemma wf_set_file s m z : pc_wf s -> pc_wf (set_file s m z).
Proof. by intros []. Qed.
Lemma wf_set_ptype s t : pc_wf s -> pc_wf (set_ptype t s).
Proof. by intros []. Qed.
Lemma wf_set_uuid_op s u : pc_wf s -> pc_wf (set_uuid_op u s).
Proof. by intros []. Qed.
Lemma wf_set_hdr s bs : length bs = 4176%nat -> pc_wf s -> pc_wf (set_hdr bs s).
Proof. by intros ? []. Qed.
Lemma wf_set_bttc s a : length (ar_info a) = 4096%nat -> pc_wf s -> pc_wf (set_bttc a s).
Proof. by intros ? []. Qed.
#[export] Hint Resolve wf_set_file wf_set_ptype wf_set_uuid_op wf_set_hdr wf_set_bttc : keeps.

Lemma hdr_pool_wf s : pc_wf s -> pool_hdr_wf (hdr_pool s).
Proof. intros []. apply pool_hdr_of_wf. rewrite length_take. lia. Qed.

Lemma wf_set_pool s h : pool_hdr_wf h -> pc_wf s -> pc_wf (set_pool h s).
Proof.
  intros Hh Hs. pose proof Hs as []. apply wf_set_hdr; [|done].
  rewrite length_app, length_pool_hdr_bytes, length_drop by done. lia.
Qed.

(** A store to the headers leaves their size to prove. *)
Ltac store_hdr :=
  match goal with
  | |- pc_wf (set_hdr _ ?x) =>
      let Hx := fresh in assert (pc_wf x) as Hx by assumption; pose proof (pw_hdr _ Hx); apply wf_set_hdr; [|exact Hx]
  end.

Section Keeps.
Context (e : penv) (Huuid : length (pe_uuid e) = 16%nat) `{Allocator}.

Lemma keeps_pread_into buf off : keeps (pread_into e buf off) (fun r => length (fst r) = length buf).
Proof.
  intros s a s' Hs E. unfold pread_into, pread, bindM, ret in E. cbn [getM] in E.
  destruct (_ && _); injection E as <- <-; [|done]. cbn [fst].
  split; [done|]. rewrite length_app, length_drop, length_mread. lia.
Qed.

Lemma keeps_pwrite bs off : keeps (pwrite e bs off) any.
Proof. unfold pwrite. keeping. Qed.
#[local] Hint Resolve keeps_pread_into keeps_pwrite : keeps.

Lemma keeps_first_valid_loop fuel : forall infop offset,
  keeps (first_valid_loop e fuel infop offset) (fun r => length (fst r) = length infop).
Proof.
  induction fuel as [|fuel IH]; intros infop offset; cbn [first_valid_loop]; [apply keeps_fail|].
  eapply keeps_bind; [apply keeps_pread_into|]. intros [info ok] Hl. cbn [fst] in Hl. keeping.
  eapply keeps_weak; [apply IH|]. intros r Hr. by rewrite Hr.
Qed.

Lemma keeps_first_valid_btt offset : keeps (pmempool_check_get_first_valid_btt e offset) any.
Proof.
  unfold pmempool_check_get_first_valid_btt. eapply keeps_bind; [apply keeps_getM|]. intros s Hs.
  eapply keeps_bind; [apply keeps_first_valid_loop|]. intros r Hr. cbn beta in Hr. keeping.
  apply wf_set_bttc; [|done]. rewrite pw_bttc in Hr by done. done.
Qed.
#[local] Hint Resolve keeps_first_valid_btt : keeps.

Lemma keeps_first_valid_arena : keeps (pmempool_check_get_first_valid_arena e) any.
Proof. unfold pmempool_check_get_first_valid_arena. keeping. apply wf_set_bttc; [|done]. by apply pw_bttc. Qed.
#[local] Hint Resolve keeps_first_valid_arena : keeps.

(** ** The pool header *)

Lemma keeps_offer bad f : (forall h, pool_hdr_wf h -> pool_hdr_wf (f h)) -> keeps (offer bad f) any.
Proof. intros Hf. unfold offer. keeping. apply wf_set_pool; [|done]. by apply Hf, hdr_pool_wf. Qed.

Lemma fields_wf h :
  pool_hdr_wf h ->
  pool_hdr_wf (set_signature BLK_HDR_SIG h) /\ (forall d t, default_of t = Some d ->
  pool_hdr_wf (set_major (d_major d) h) /\ pool_hdr_wf (set_compat (d_compat d) h) /\
  pool_hdr_wf (set_incompat (d_incompat d) h) /\ pool_hdr_wf (set_ro_compat (d_ro_compat d) h)) /\
  pool_hdr_wf (set_unused (replicate 4040 x00) h) /\
  (forall u, length u = 16%nat -> pool_hdr_wf (set_uuid u h)) /\ (forall v, pool_hdr_wf (set_crtime (u64 v) h)).
Proof.
  intros []. split; [by split|]. split; [|split; [by split|split; [by split|]]].
  - intros d t Hd. unfold default_of in Hd. destruct (_ =? _); [|destruct (_ =? _); [|done]]; injection Hd as <-; by split_and!; split.
  - intros v. pose proof (u64_range v). by split.
Qed.

Lemma keeps_determine_type : keeps (determine_type e) any.
Proof.
  unfold determine_type. keeping. apply wf_set_pool; [|done]. by apply fields_wf, hdr_pool_wf.
Qed.

Lemma keeps_set_defaults d t : default_of t = Some d -> keeps (set_defaults d) any.
Proof.
  intros Hd. unfold set_defaults.
  repeat (eapply keeps_bind; [apply keeps_getM|intros ? _]; eapply keeps_bind; [apply keeps_offer|intros ? _]);
    [..|auto with keeps]; intros h Hh; destruct (fields_wf h Hh) as (_ & H4 & H5 & _); try done;
    by destruct (H4 d t Hd) as (? & ? & ? & ?).
Qed.

Lemma keeps_uuid_from_btt : keeps uuid_from_btt any.
Proof.
  unfold uuid_from_btt. eapply keeps_bind; [apply keeps_getM|intros s Hs].
  eapply keeps_bind; [apply keeps_offer|intros took _; keeping].
  intros h Hh. apply fields_wf; [done|]. apply length_slice. rewrite (pw_bttc _ Hs). lia.
Qed.

Lemma keeps_checksum s : pc_wf s ->
  pc_wf (set_hdr (snd (util_checksum (take 4096 (pc_hdr s)) 4088 true) ++ drop 4096 (pc_hdr s)) s).
Proof.
  intros Hs. pose proof Hs as [Hl _ _ _]. apply wf_set_hdr; [|done]. cbn [util_checksum snd].
  assert (length (take 4096 (pc_hdr s)) = 4096%nat) as Ht by (rewrite length_take; lia).
  rewrite length_app, length_splice, Ht, length_drop, Hl by (rewrite length_le_enc, Ht; cbn; lia). done.
Qed.

Lemma keeps_regenerate : keeps (regenerate e) any.
Proof.
  unfold regenerate. destruct (negb _); [auto with keeps|]. eapply keeps_bind; [apply keeps_getM|intros s Hs].
  eapply keeps_bind; [apply keeps_offer; intros h Hh; by apply fields_wf|intros fixed _]. keeping.
  - apply wf_set_pool; [|done]. apply fields_wf; [by apply hdr_pool_wf|]. by rewrite length_take, Huuid.
  - by apply keeps_checksum.
Qed.

Lemma keeps_pool_hdr : keeps (pmempool_check_pool_hdr e) any.
Proof.
  unfold pmempool_check_pool_hdr. eapply keeps_bind; [apply keeps_getM|intros s Hs].
  eapply keeps_bind; [apply keeps_pread_into|intros r Hr; cbn beta in Hr].
  assert (keeps (repair_pool_hdr e) any) as Hrep.
  { unfold repair_pool_hdr. eapply keeps_bind; [apply keeps_determine_type|intros known _]. keeping.
    match goal with H : _ = Some _ |- _ => eapply keeps_bind; [eapply keeps_set_defaults, H|intros _ _] end.
    eapply keeps_bind; [apply keeps_uuid_from_btt|intros _ _]. keeping. apply keeps_regenerate. }
  keeping. pose proof (pw_hdr _ Hs). store_hdr.
  rewrite length_app, Hr, length_take, length_drop. lia.
Qed.

(** ** The headers of log and blk pools *)

Lemma keeps_read_rest size : 4096 <= size <= 4176 -> keeps (read_rest e size) any.
Proof.
  intros Hz. unfold read_rest. eapply keeps_bind; [apply keeps_getM|intros s Hs].
  eapply keeps_bind; [apply keeps_pread_into|intros r Hr; cbn beta in Hr]. pose proof (pw_hdr _ Hs).
  rewrite length_slice in Hr by lia. keeping.
  store_hdr. rewrite length_splice; lia.
Qed.

Lemma keeps_repair_field bad off bs r : 0 <= off -> off + Z.of_nat (length bs) <= 4176 -> keeps (repair_field bad off bs r) any.
Proof.
  intros Ho Hb. unfold repair_field. keeping.
  unfold set_field. store_hdr. rewrite length_splice; lia.
Qed.

Lemma keeps_pmemlog : keeps (pmempool_check_pmemlog e) any.
Proof.
  unfold pmempool_check_pmemlog. eapply keeps_bind; [by apply keeps_read_rest|intros ok _].
  destruct (negb ok); [auto with keeps|]. destruct (negb _); [auto with keeps|]. cbv zeta.
  repeat (eapply keeps_bind; [apply keeps_getM|intros ? _]; eapply keeps_bind;
    [apply keeps_repair_field; [done|rewrite length_le_enc; done]|intros [?|?] _]; [auto with keeps|]).
  auto with keeps.
Qed.

Lemma keeps_pmemblk : keeps (pmempool_check_pmemblk e) any.
Proof.
  unfold pmempool_check_pmemblk. eapply keeps_bind; [by apply keeps_read_rest|intros ok _]. keeping.
  eapply keeps_bind; [apply keeps_repair_field; [done|rewrite length_le_enc; done]|intros [?|?] _]; auto with keeps.
Qed.

(** ** Info blocks *)

Lemma keeps_insert_arena a : arena_wf a -> keeps (pmempool_check_insert_arena a) any.
Proof.
  intros Ha. unfold pmempool_check_insert_arena. apply keeps_modM. intros s []. split; cbn; try done.
  - by apply Forall_app_2; [|apply Forall_singleton].
  - rewrite pw_narenas0, length_app. cbn. unfold u32. rewrite Zplus_mod_idemp_l. f_equal. lia.
Qed.

Lemma keeps_insert_new info id offset :
  length info = 4096%nat -> keeps (pmempool_check_insert_arena (new_arena info id offset)) any.
Proof. intros Hl. by apply keeps_insert_arena. Qed.

Lemma keeps_add_arenas fuel : forall m startoff offset, keeps (add_arenas fuel m startoff offset) any.
Proof.
  induction fuel as [|fuel IH]; intros; cbn [add_arenas]; [apply keeps_fail|]. keeping.
  eapply keeps_bind; [apply keeps_insert_new, (length_mread m offset BTT_INFO_SIZE)|intros ? _]. keeping.
Qed.
#[local] Hint Resolve keeps_add_arenas : keeps.

Lemma link_last_wf v l : Forall arena_wf l -> Forall arena_wf (link_last v l) /\ length (link_last v l) = length l.
Proof.
  intros Hl. unfold link_last. destruct (last l) as [a|] eqn:El; [|done].
  apply last_Some in El as [l' ->]. rewrite removelast_last. apply Forall_app in Hl as [Hl' Ha].
  apply Forall_cons in Ha as [Ha _]. pose proof (aw_info _ Ha) as Hi.
  split; [|by rewrite !length_app]. apply Forall_app_2; [done|]. apply Forall_singleton.
  set (info := splice (ar_info a) 64 (le_enc 8 v)).
  assert (length info = 4096%nat) as Hli by (unfold info; rewrite length_splice; rewrite ?length_le_enc; lia).
  cbn [util_checksum snd]. apply arena_wf_set_info; [| | |done].
  - rewrite length_splice; [exact Hli|]. rewrite length_le_enc, Hli. by apply Nat.leb_le.
  - change (Z.to_nat INFO_CSUM) with 4088%nat. rewrite le_at_splice_before by lia. apply le_at_splice_before; lia.
  - change (Z.to_nat INFO_CSUM) with 4088%nat. rewrite le_at_splice_before by lia. apply le_at_splice_before; lia.
Qed.

Lemma wf_link s v : pc_wf s -> pc_wf (set_pc_arenas (link_last v (pc_arenas s)) (pc_narenas s) s).
Proof. intros []. destruct (link_last_wf v (pc_arenas s) pw_arenas0) as [Hf Hl]. split; try done. cbn. by rewrite Hl. Qed.
#[local] Hint Resolve wf_link : keeps.

Lemma keeps_store_back shared startoff len c : keeps (store_back shared startoff len c) any.
Proof. unfold store_back. keeping. Qed.
#[local] Hint Resolve keeps_store_back : keeps.

Lemma keeps_advanced_repair startoff endoff : keeps (pmempool_check_btt_info_advanced_repair e startoff endoff) any.
Proof. unfold pmempool_check_btt_info_advanced_repair. keeping. Qed.
#[local] Hint Resolve keeps_advanced_repair : keeps.

Lemma keeps_info_loop fuel : forall offset result, keeps (btt_info_loop e fuel offset result) any.
Proof.
  induction fuel as [|fuel IH]; intros; cbn [btt_info_loop]; [apply keeps_fail|].
  eapply keeps_bind; [apply keeps_pread_into|intros [info ok] Hl; cbn [fst] in Hl]. keeping.
  - eapply keeps_bind; [by apply keeps_insert_new|intros ? _]. keeping.
  - eapply keeps_bind; [apply keeps_insert_new, pw_bttc; assumption|intros ? _]. keeping.
Qed.

(** ** Maps and flogs *)

Lemma flog_of_wf bs : flog_wf (flog_of bs).
Proof. unfold flog_wf, is_u32, flog_of. cbn [lba old_map new_map seq]. split_and!; apply (le_at_range bs _ 4). Qed.

Lemma slots_of_wf bs k : length bs = (64 * k)%nat -> Forall slot_wf (slots_of bs) /\ length (slots_of bs) = k.
Proof.
  intros Hl. unfold slots_of. rewrite Hl, (Nat.mul_comm 64), Nat.div_mul by done. split; [|by rewrite length_fmap, length_seq].
  apply Forall_fmap, Forall_forall. intros i Hi. apply elem_of_seq in Hi. change (slot_wf (slot_of (slice bs (64 * i) 64))).
  split_and!; [apply flog_of_wf..|]. cbn [slot_of fs_pad].
  assert (length (slice bs (64 * i) 64) = 64%nat) as Hs by (apply length_slice; lia).
  apply length_slice. lia.
Qed.

(** The lists keep their lengths and their entries 32 bits. *)
Definition flogs_ok (n : nat) (l : list flog_slot) : Prop := Forall slot_wf l /\ length l = n.
Definition map_ok (n : nat) (l : list Z) : Prop := Forall is_u32 l /\ length l = n.

Lemma error_entry_range b : is_u32 b -> is_u32 (Z.lor b BTT_MAP_ENTRY_ERROR).
Proof.
  intros Hb. unfold is_u32 in *. assert (Z.lor b BTT_MAP_ENTRY_ERROR = Z.lor b BTT_MAP_ENTRY_ERROR mod 2 ^ 32) as ->.
  { rewrite <- Z.land_ones, Z.land_lor_distr_l, !Z.land_ones by lia. by rewrite (Z.mod_small b) by lia. }
  by apply Z.mod_pos_bound.
Qed.

Lemma scan_unmapped_range nlba n : forall i bm un, 0 <= i -> i + Z.of_nat n <= nlba -> nlba <= 2 ^ 32 ->
  Forall is_u32 un -> Forall is_u32 (scan_unmapped n i bm un).
Proof.
  induction n as [|n IH]; intros i bm un H0 H1 H2 Hun; [done|]. cbn [scan_unmapped]. apply IH; [lia..|].
  destruct (bool_decide _); [done|]. apply Forall_cons. split; [unfold is_u32; lia|done].
Qed.

Lemma repair_map_ok n inval : forall map un ok map' un', map_ok n map -> Forall is_u32 un ->
  repair_map map inval un = (ok, map', un') -> map_ok n map' /\ Forall is_u32 un'.
Proof.
  induction inval as [|i inval IH]; intros map un ok map' un' Hm Hun E; cbn [repair_map] in E; [by injection E as <- <- <-|].
  destruct un as [|b un]; [by injection E as <- <- <-|]. apply Forall_cons in Hun as [Hb Hun]. destruct Hm as [Hr Hl].
  refine (IH _ _ _ _ _ _ Hun E). split; [apply Forall_insert; [done|by apply error_entry_range]|by rewrite length_insert].
Qed.

Lemma repair_flogs_ok n inval : forall slots un ok slots', flogs_ok n slots -> Forall is_u32 un ->
  repair_flogs slots inval un = (ok, slots') -> flogs_ok n slots'.
Proof.
  induction inval as [|i inval IH]; intros slots un ok slots' Hs Hun E; cbn [repair_flogs] in E; [by injection E as <- <-|].
  destruct un as [|b un]; [by injection E as <- <-|]. apply Forall_cons in Hun as [Hb Hun]. destruct Hs as [Hr Hl].
  refine (IH _ _ _ _ _ Hun E). split; [|by rewrite length_alter]. apply Forall_alter; [done|].
  intros x _ (_ & _ & Hp). pose proof (error_entry_range b Hb). unfold slot_wf, flog_wf. cbn. by split_and!.
Qed.

Lemma keeps_map_flog_repair ext nfree map slots nlba nm nf :
  nlba <= 2 ^ 32 -> map_ok nm map -> flogs_ok nf slots ->
  keeps (map_flog_repair ext nfree map slots nlba) (fun r => map_ok nm (snd (fst r)) /\ flogs_ok nf (snd r)).
Proof.
  intros Hn Hm Hf. unfold map_flog_repair. eapply keeps_bind; [apply keeps_validM|intros _ _]. cbv zeta.
  destruct (scan_map _ _ _ _ _) as [bm inval]. eapply keeps_bind; [apply keeps_validM|intros [bm' finval] _].
  pose proof (scan_unmapped_range nlba (Z.to_nat nlba) 0 bm' []) as Hun. set (un := scan_unmapped _ _ _ _) in *.
  assert (Forall is_u32 un) as Hu.
  { destruct (Z.le_gt_cases 0 nlba); [apply Hun; [lia..|by apply Forall_nil]|].
    unfold un. replace (Z.to_nat nlba) with 0%nat by lia. by apply Forall_nil. }
  clearbody un. keeping; try (apply keeps_ret; by split).
  all: match goal with E : repair_map _ _ _ = _ |- _ => destruct (repair_map_ok nm _ _ _ _ _ _ Hm Hu E) as [Hm' Hu'] end;
    apply keeps_ret; (split; [exact Hm'|]).
  - exact Hf.
  - match goal with E : repair_flogs _ _ _ = _ |- _ => exact (repair_flogs_ok nf _ _ _ _ _ Hf Hu' E) end.
Qed.

Lemma flogsize_mult a : 0 <= flogsize a /\ flogsize a mod 64 = 0.
Proof.
  unfold flogsize. change (roundup (2 * BTT_FLOG_SIZE) BTT_FLOG_PAIR_ALIGN) with 64.
  pose proof (le_at_range (ar_info a) 56 4). set (x := i_nfree _ * 64). assert (0 <= x) by (unfold x; cbn [btt_info_of i_nfree]; lia).
  pose proof (roundup_bounds x BTT_ALIGNMENT ltac:(done)). split; [lia|].
  pose proof (roundup_mult x BTT_ALIGNMENT ltac:(done)) as Hk. apply Z.mod_divide in Hk as [k ->]; [|done].
  unfold BTT_ALIGNMENT. replace (k * 4096) with (k * 64 * 64) by lia. by apply Z.mod_mul.
Qed.

Lemma mapsize_mult a : 0 <= mapsize a /\ mapsize a mod 4 = 0.
Proof.
  unfold mapsize. set (x := u32 (_ * _)). split; [apply u32_range|].
  pose proof (roundup_mult x BTT_ALIGNMENT ltac:(done)) as Hk. apply Z.mod_divide in Hk as [k ->]; [|done].
  unfold BTT_ALIGNMENT, u32. replace (k * 4096) with (k * 1024 * 4) by lia. change (2 ^ 32) with (2 ^ 30 * 4).
  by rewrite Zmult_mod_distr_r, Z.mod_mul.
Qed.

Lemma keeps_read_flog a : arena_wf a ->
  keeps (pmempool_check_read_flog e a) (fun r => forall a', r = Some a' ->
    arena_wf a' /\ exists l, ar_flog a' = Some l).
Proof.
  intros Ha. unfold pmempool_check_read_flog. eapply keeps_bind; [apply keeps_pread_into|intros r Hr; cbv beta in Hr].
  apply keeps_ret. intros a' E. destruct (snd r); [|done]. injection E as <-. rewrite length_replicate in Hr.
  destruct (flogsize_mult a) as [H0 Hk]. apply Z.mod_divide in Hk as [k Hk]; [|done].
  destruct (slots_of_wf (fst r) (Z.to_nat k)) as [Hs Hl]; [lia|]. split; [|by eexists]. destruct Ha.
  split; [done| |done]. intros l [= <-]. split; [done|]. rewrite Hl. change (flogsize (set_ar_flog _ _)) with (flogsize a). lia.
Qed.

Lemma keeps_read_map a : arena_wf a ->
  keeps (pmempool_check_read_map e a) (fun r => forall a', r = Some a' ->
    arena_wf a' /\ ar_flog a' = ar_flog a).
Proof.
  intros Ha. unfold pmempool_check_read_map. eapply keeps_bind; [apply keeps_pread_into|intros r Hr; cbv beta in Hr].
  apply keeps_ret. intros a' E. destruct (snd r); [|done]. injection E as <-. rewrite length_replicate in Hr.
  destruct (mapsize_mult a) as [H0 Hk]. split; [|done]. destruct Ha.
  split; [done|done|]. intros l [= <-]. split; [apply words_range|].
  rewrite length_words. change (mapsize (set_ar_map _ _)) with (mapsize a). rewrite Hr.
  apply Z.mod_divide in Hk as [k Hk]; [|done]. rewrite Hk in *. replace (Z.to_nat (k * 4)) with (Z.to_nat k * 4)%nat by lia.
  rewrite Nat.div_mul by done. lia.
Qed.

Lemma keeps_arena_map_flog a : arena_wf a -> keeps (pmempool_check_arena_map_flog e a) (fun r => arena_wf (snd r)).
Proof.
  intros Ha. unfold pmempool_check_arena_map_flog. eapply keeps_bind; [by apply keeps_read_flog|intros [a1|] H1]; [|by apply keeps_ret].
  destruct (H1 a1 eq_refl) as [Ha1 _]. eapply keeps_bind; [by apply keeps_read_map|intros [a2|] H2]; [|by apply keeps_ret].
  destruct (H2 a2 eq_refl) as [Ha2 _]. cbv zeta. eapply keeps_bind; [apply keeps_validM|intros map Em].
  eapply keeps_bind; [apply keeps_validM|intros slots Es]. destruct (aw_map _ Ha2 _ Em) as [Hm Hlm].
  destruct (aw_flog _ Ha2 _ Es) as [Hs Hls]. pose proof (le_at_range (ar_info a2) 52 4) as Hnl.
  eapply keeps_bind; [apply (keeps_map_flog_repair _ _ _ _ _ (length map) (length slots));
    [cbn [btt_info_of i_internal_nlba]; lia|done|done]|intros [[res map'] slots'] [[Hm' Hlm'] [Hs' Hls']]].
  cbn [fst snd] in *. apply keeps_ret. cbn [snd]. destruct Ha2. split; [done| |].
  - intros l [= <-]. split; [done|]. rewrite Hls'. done.
  - intros l [= <-]. split; [done|]. rewrite Hlm'. done.
Qed.

(** A routine that only asks: the context differs in what the user has typed. *)
Definition asks {A} (m : M pmempool_check A) : Prop := forall s a s', m s = inr (a, s') -> exists i, s' = set_input i s.

Lemma asks_bind {A B} (m : M pmempool_check A) (k : A -> M pmempool_check B) : asks m -> (forall a, asks (k a)) -> asks (bindM m k).
Proof.
  intros Hm Hk s b s'' E. unfold bindM in E. destruct (m s) as [|[a s']] eqn:Em; [done|].
  destruct (Hm _ _ _ Em) as [i ->]. destruct (Hk _ _ _ _ E) as [j ->]. by exists j.
Qed.
Lemma asks_ret {A} (a : A) : asks (ret a).
Proof. intros s b s' [= _ <-]. exists (pc_input s). by destruct s. Qed.
Lemma asks_getM : asks getM.
Proof. intros s b s' [= _ <-]. exists (pc_input s). by destruct s. Qed.
Lemma asks_validM {A} (o : option A) : asks (validM o).
Proof. destruct o; [apply asks_ret|by intros s a s' E]. Qed.
Lemma asks_ask : asks ask_Yn.
Proof.
  intros s a s' E. unfold ask_Yn, bindM, zoomM in E. cbn [getM] in E.
  destruct (ask_yn _ _ _) as [|[? i]]; [done|]. injection E as _ <-. by exists i.
Qed.

Ltac asking :=
  repeat first
    [ apply asks_ret | apply asks_getM | apply asks_validM | apply asks_ask
    | apply asks_bind; [|intros ?]
    | match goal with
      | |- asks (if ?b then _ else _) => destruct b
      | |- asks (match ?x with _ => _ end) => destruct x
      end ].

Lemma asks_arena_map_flog a : asks (pmempool_check_arena_map_flog e a).
Proof.
  unfold pmempool_check_arena_map_flog, pmempool_check_read_flog, pmempool_check_read_map, pread_into, pread, map_flog_repair.
  asking.
Qed.

Lemma keeps_map_flog_loop todo : forall before res s r s', pc_wf s -> pc_narenas s = u32 (Z.of_nat (length (before ++ todo))) ->
  Forall arena_wf before -> Forall arena_wf todo -> map_flog_loop e before todo res s = inr (r, s') -> pc_wf s'.
Proof.
  induction todo as [|a todo IH]; intros before res s r s' Hs Hn Hb Ht E; cbn [map_flog_loop] in E; [by injection E as _ <-|].
  apply Forall_cons in Ht as [Ha Ht]. unfold bindM in E.
  destruct (pmempool_check_arena_map_flog e a s) as [|[[res1 a1] s1]] eqn:Ea; [done|].
  destruct (keeps_arena_map_flog a Ha _ _ _ Hs Ea) as [_ Ha1]. destruct (asks_arena_map_flog a _ _ _ Ea) as [i ->].
  cbn [snd modM] in *. set (s2 := set_pc_arenas _ _ _) in E.
  assert (pc_wf s2) as Hs2.
  { destruct Hs. split; [done|done| |]; cbn.
    - apply Forall_app_2; [done|]. by apply Forall_cons.
    - rewrite Hn, !length_app. done. }
  destruct (negb _); [by injection E as _ <-|]. refine (IH _ _ _ _ _ Hs2 _ _ Ht E).
  - cbn. rewrite Hn, <- app_assoc, !length_app. done.
  - apply Forall_app_2; [done|]. by apply Forall_singleton.
Qed.

Lemma keeps_btt_map_flog : keeps (pmempool_check_btt_map_flog e) any.
Proof.
  intros s r s' Hs E. split; [|done]. unfold pmempool_check_btt_map_flog, bindM in E. cbn [getM] in E.
  pose proof Hs as [_ _ Ha Hn]. exact (keeps_map_flog_loop _ [] _ _ _ _ Hs Hn (Forall_nil_2 _) Ha E).
Qed.

(** ** The steps *)

Lemma keeps_write_arenas l : keeps (write_arenas e l) any.
Proof.
  induction l as [|a l IH]; cbn [write_arenas]; [auto with keeps|].
  eapply keeps_bind; [|intros ok _; keeping]. instantiate (1 := any). unfold write_arena_back, pmempool_check_write_flog, pmempool_check_write_map.
  keeping.
Qed.

Lemma keeps_steps : Forall (fun step => keeps (snd step) any) (pmempool_check_steps e).
Proof.
  assert (keeps (pmempool_check_btt_info e) any) by (unfold pmempool_check_btt_info; eapply keeps_bind; [apply keeps_getM|intros ? _]; apply keeps_info_loop).
  assert (keeps (pmempool_check_write_log e) any) by (unfold pmempool_check_write_log; keeping).
  assert (keeps (pmempool_check_write_blk e) any) by (unfold pmempool_check_write_blk; pose proof keeps_write_arenas; keeping).
  unfold pmempool_check_steps. rewrite !Forall_cons. split_and!; cbn [snd];
    auto using keeps_pool_hdr, keeps_pmemlog, keeps_pmemblk, keeps_btt_map_flog.
Qed.

End Keeps.
