(* ===== verification/Pranges.v ===== *)
(** Pranges: src/src/tools/pmempool/common.c, the parsers of sizes, modes and
    ranges, and the list of ranges.

    A C string is the list of its bytes before the NUL.  The conversions of
    sscanf and the decimal ones of the C library are written out as far as the
    code uses them. *)

From stdpp Require Import strings.
From S2P Require Import Prelude Mem Util Prog.

(** ** The C library *)

Definition is_space (c : byte) : bool := (b2z c =? 32) || ((9 <=? b2z c) && (b2z c <=? 13)).
Definition is_digit (c : byte) : bool := (48 <=? b2z c) && (b2z c <=? 57).
Definition CHAR_minus : byte := x2d.
Definition CHAR_plus : byte := x2b.
Definition CHAR_comma : byte := x2c.

Fixpoint skip_spaces (s : list byte) : list byte :=
  match s with c :: s' => if is_space c then skip_spaces s' else s | [] => [] end.

(** An optional sign: negative or not, and what follows. *)
Definition scan_sign (s : list byte) : bool * list byte :=
  match s with
  | c :: s' => if bool_decide (c = CHAR_minus) then (true, s')
               else if bool_decide (c = CHAR_plus) then (false, s') else (false, s)
  | [] => (false, [])
  end.

(** The digits at the front, after the value [acc]: the value, how many digits,
    and the rest. *)
Fixpoint scan_digits (s : list byte) (acc : Z) (n : nat) : Z * nat * list byte :=
  match s with
  | c :: s' => if is_digit c then scan_digits s' (10 * acc + (b2z c - 48)) (S n) else (acc, n, s)
  | [] => (acc, n, [])
  end.

(** "%lu", as strtoul: too large a number is ULONG_MAX, a negative one wraps. *)
Definition scan_lu (s : list byte) : option (Z * list byte) :=
  let '(neg, s) := scan_sign (skip_spaces s) in
  let '(v, n, rest) := scan_digits s 0 0 in
  match n with
  | O => None
  | S _ => Some (if 2 ^ 64 <=? v then 2 ^ 64 - 1 else if neg : bool then u64 (- v) else v, rest)
  end.

(** "%3s": at most [n] characters that are no white space. *)
Fixpoint scan_word (n : nat) (s : list byte) : list byte :=
  match n, s with
  | S n, c :: s => if is_space c then [] else c :: scan_word n s
  | _, _ => []
  end.

(** "%m[^-]": the characters before the first '-', if any, and the rest. *)
Fixpoint scan_until_minus (s : list byte) : list byte * list byte :=
  match s with
  | c :: s' => if bool_decide (c = CHAR_minus) then ([], s)
               else let '(w, rest) := scan_until_minus s' in (c :: w, rest)
  | [] => ([], [])
  end.

(** strchr (str, ','): the text before the comma, and the text after it. *)
Fixpoint split_comma (s : list byte) : list byte * option (list byte) :=
  match s with
  | c :: s' => if bool_decide (c = CHAR_comma) then ([], Some s')
               else let '(w, next) := split_comma s' in (c :: w, next)
  | [] => ([], None)
  end.

(** ** Sizes and modes *)

(** [None] is -1.  "%3s" stores three characters and a NUL into [char unit[3]]. *)
Definition util_parse_size (str : list byte) : fault + option Z :=
  match scan_lu str with
  | None => inr None
  | Some (size, rest) =>
      let unit := scan_word 3 (skip_spaces rest) in
      match unit with
      | [] => inr (Some size)
      | [_; _; _] => inl Undefined
      | u0 :: u1 =>
          if match u1 with [c] => negb (b2z c =? 66) | _ => false end then inr None
          else
            let shifted n := inr (Some (u64 (Z.shiftl size n))) in
            if b2z u0 =? 75 then shifted 10               (* K *)
            else if b2z u0 =? 77 then shifted 20          (* M *)
            else if b2z u0 =? 71 then shifted 30          (* G *)
            else if b2z u0 =? 84 then shifted 40          (* T *)
            else if b2z u0 =? 80 then shifted 50          (* P *)
            else inr None
      end
  end.

Fixpoint skip_zeros (str : list byte) : list byte :=
  match str with c :: str' => if b2z c =? 48 then skip_zeros str' else str | [] => [] end.

(** The loop over at most [n] more digits: what is left of the string, and the mode. *)
Fixpoint mode_digits (n : nat) (str : list byte) (m : Z) : option (list byte * Z) :=
  match n, str with
  | S n, c :: str =>
      if (b2z c <? 48) || (55 <? b2z c) then None
      else mode_digits n str (Z.lor (Z.shiftl m 3) (b2z c - 48))
  | _, _ => Some (str, m)
  end.

Definition util_parse_mode (str : list byte) : option Z :=
  match mode_digits 3 (skip_zeros str) 0 with
  | None => None
  | Some ([], m) => Some m
  | Some (_ :: _, _) => None
  end.

(** ** Ranges *)

(** A range on the heap is made without initialising it: a parser starts from
    what the memory holds. *)
Record range := { first : Z; last : Z }.

Definition set_first (r : range) (v : Z) : range := {| first := v; last := last r |}.
Definition set_last (r : range) (v : Z) : range := {| first := first r; last := v |}.

(** A parser: 0 or -1, and the range it leaves. *)
Definition parsed : Type := fault + (bool * range).

(** [util_parse_size (str, &field)]: the field stays when the text is no size. *)
Definition size_into (str : list byte) (set : Z -> range) (r : range) : parsed :=
  match util_parse_size str with
  | inl f => inl f
  | inr None => inr (false, r)
  | inr (Some v) => inr (true, set v)
  end.

Definition util_parse_range_from_to (str : list byte) (rangep entirep : range) : parsed :=
  match scan_until_minus str with
  | ((_ :: _) as str1, sep :: rest) =>
      match scan_until_minus rest with
      | ([], _) => inr (false, rangep)
      | (str2, _) =>
          match size_into str1 (set_first rangep) rangep with
          | inl f => inl f
          | inr (ok1, rangep) =>
              match (if ok1 then size_into str2 (set_last rangep) rangep else inr (false, rangep)) with
              | inl f => inl f
              | inr (ret, rangep) =>
                  if (last entirep <? first rangep) || (last entirep <? last rangep) then inr (false, rangep)
                  else if last rangep <? first rangep then inr (ret, {| first := last rangep; last := first rangep |})
                  else inr (ret, rangep)
              end
          end
      end
  | _ => inr (false, rangep)
  end.

Definition util_parse_range_from (str : list byte) (rangep entirep : range) : parsed :=
  match scan_until_minus str with
  | ((_ :: _) as str1, _ :: _) =>
      match size_into str1 (set_first rangep) rangep with
      | inr (true, rangep) => inr (true, set_last rangep (last entirep))
      | r => r
      end
  | _ => inr (false, rangep)
  end.

Definition util_parse_range_to (str : list byte) (rangep entirep : range) : parsed :=
  match str with
  | sep :: rest =>
      match scan_until_minus rest with
      | ((_ :: _) as str1, _) =>
          if bool_decide (sep = CHAR_minus) then
            match size_into str1 (set_last rangep) rangep with
            | inr (true, rangep) =>
                let rangep := set_first rangep (first entirep) in
                inr (negb (last entirep <? last rangep), rangep)
            | r => r
            end
          else inr (false, rangep)
      | _ => inr (false, rangep)
      end
  | [] => inr (false, rangep)
  end.

(** The result of [util_parse_size] is not looked at. *)
Definition util_parse_range_number (str : list byte) (rangep entirep : range) : parsed :=
  match size_into str (set_first rangep) rangep with
  | inl f => inl f
  | inr (_, rangep) =>
      if (last entirep <? first rangep) || (last entirep <? last rangep) then inr (false, rangep)
      else inr (true, set_last rangep (first rangep))
  end.

(** "if (parser (str, rangep, entirep) == 0) return 0;" *)
Definition or_else (p : parsed) (k : range -> parsed) : parsed :=
  match p with inr (false, rangep) => k rangep | _ => p end.

Definition util_parse_range (str : list byte) (rangep entirep : range) : parsed :=
  or_else (util_parse_range_from_to str rangep entirep) (fun rangep =>
  or_else (util_parse_range_from str rangep entirep) (fun rangep =>
  or_else (util_parse_range_to str rangep entirep) (fun rangep =>
  util_parse_range_number str rangep entirep))).

(** ** The list of ranges *)

(** Ranges that touch count as overlapping. *)
Definition util_ranges_overlap (r1 r2 : range) : bool :=
  negb ((u64 (last r1 + 1) <? first r2) || (u64 (last r2 + 1) <? first r1)).

(** LIST_FOREACH reads the link of the current element after the body, which may
    have freed it: whether the link is still there, or reads as a null pointer. *)
Inductive freed_link := LinkKept | LinkNull.

Section Ranges.
Context (free : freed_link).

(** The first walk: the elements that stay on the list, and the merged bounds. *)
Fixpoint merge_walk (l : list range) (rangep : range) (f la : Z) : list range * range :=
  match l with
  | [] => ([], {| first := f; last := la |})
  | curp :: rest =>
      if util_ranges_overlap curp rangep then
        let f := if first curp <? f then first curp else f in
        let la := if la <? last curp then last curp else la in
        match free with
        | LinkKept => merge_walk rest rangep f la
        | LinkNull => (rest, {| first := f; last := la |})
        end
      else
        let '(kept, r) := merge_walk rest rangep f la in (curp :: kept, r)
  end.

(** The second walk: after the first element that begins before the new one. *)
Fixpoint insert_walk (l : list range) (rangep : range) : option (list range) :=
  match l with
  | [] => None
  | curp :: rest =>
      if first curp <? first rangep then Some (curp :: rangep :: rest)
      else match insert_walk rest rangep with Some l => Some (curp :: l) | None => None end
  end.

Definition util_ranges_add_range (rangesp : list range) (rangep : range) : list range :=
  let '(kept, rangep) := merge_walk rangesp rangep (first rangep) (last rangep) in
  match insert_walk kept rangep with Some l => l | None => rangep :: kept end.

Definition util_ranges_add (rangesp : list range) (f l : Z) : list range :=
  util_ranges_add_range rangesp {| first := f; last := l |}.

Definition util_ranges_clear (rangesp : list range) : list range := [].

(** The loop over the parts between commas; [heap] is what the memory of the
    ranges holds before, one after the other. *)
Fixpoint parse_ranges_loop (fuel : nat) (next : list byte) (heap : nat -> range) (rangesp : list range)
    (entirep : range) : fault + (bool * list range) :=
  match fuel with
  | O => inl OutOfFuel
  | S fuel =>
      let '(str, next) := split_comma next in
      match util_parse_range str (heap 0%nat) entirep with
      | inl f => inl f
      | inr (false, _) => inr (false, rangesp)
      | inr (true, rangep) =>
          let rangesp := util_ranges_add_range rangesp rangep in
          match next with
          | Some next => parse_ranges_loop fuel next (fun i => heap (S i)) rangesp entirep
          | None => inr (true, rangesp)
          end
      end
  end.

(** One part more than there are characters at most. *)
Definition util_parse_ranges (str : list byte) (heap : nat -> range) (rangesp : list range) (entirep : range)
  : fault + (bool * list range) :=
  parse_ranges_loop (S (length str)) str heap rangesp entirep.
End Ranges.

(** ** What a list of ranges says *)

Definition in_range (r : range) (x : Z) : Prop := first r <= x <= last r.
Definition covers (l : list range) (x : Z) : Prop := Exists (fun r => in_range r x) l.

(** Not even adjacent. *)
Definition apart (r1 r2 : range) : Prop := last r1 + 1 < first r2 \/ last r2 + 1 < first r1.

Definition range_ok (r : range) : Prop := 0 <= first r <= last r /\ last r < 2 ^ 64 - 1.

Definition ranges_ok (l : list range) : Prop :=
  Forall range_ok l /\ ForallOrdPairs apart l.

Lemma apart_sym r1 r2 : apart r1 r2 -> apart r2 r1.
Proof. unfold apart. tauto. Qed.

Lemma overlap_spec r1 r2 :
  range_ok r1 -> range_ok r2 -> util_ranges_overlap r1 r2 = false <-> apart r1 r2.
Proof.
  intros [? ?] [? ?]. unfold util_ranges_overlap, apart. rewrite !u64_id by lia.
  destruct (Z.ltb_spec (last r1 + 1) (first r2)), (Z.ltb_spec (last r2 + 1) (first r1)); cbn; intuition (lia || done).
Qed.

Lemma covers_cons r l x : covers (r :: l) x <-> in_range r x \/ covers l x.
Proof. apply Exists_cons. Qed.

(** A range that touches [r], which lies inside [cur], joined to [cur]. *)
Definition join (cur c : range) : range :=
  {| first := if first c <? first cur then first c else first cur;
     last := if last cur <? last c then last c else last cur |}.

Section Join.
Context (r cur c : range) (Hr : range_ok r) (Hc : range_ok c) (Hcur : range_ok cur).
Context (Hin : first cur <= first r /\ last r <= last cur) (Ho : util_ranges_overlap c r = true).

Lemma touches : first r <= last c + 1 /\ first c <= last r + 1.
Proof.
  destruct Hr, Hc. revert Ho. unfold util_ranges_overlap. rewrite !u64_id by lia.
  destruct (Z.ltb_spec (last c + 1) (first r)), (Z.ltb_spec (last r + 1) (first c)); done || lia.
Qed.

Lemma join_ok : range_ok (join cur c).
Proof. destruct Hc, Hcur. unfold join, range_ok. cbn. zcase; zcase; lia. Qed.

Lemma join_contains : first (join cur c) <= first r /\ last r <= last (join cur c).
Proof. unfold join. cbn. zcase; zcase; lia. Qed.

Lemma join_in x : in_range (join cur c) x <-> in_range cur x \/ in_range c x.
Proof. pose proof touches. destruct Hr, Hc, Hcur. unfold in_range, join. cbn. zcase; zcase; lia. Qed.

Lemma join_apart d : range_ok d -> apart d cur -> apart d c -> apart d (join cur c).
Proof.
  pose proof touches. destruct Hr, Hc, Hcur. unfold apart, join, range_ok. cbn. zcase; zcase; lia.
Qed.
End Join.

(** One step of the walk. *)
Lemma merge_walk_cons c l r f la :
  merge_walk LinkKept (c :: l) r f la =
  if util_ranges_overlap c r then
    let cur := join {| first := f; last := la |} c in merge_walk LinkKept l r (first cur) (last cur)
  else let '(kept, r') := merge_walk LinkKept l r f la in (c :: kept, r').
Proof. done. Qed.

Lemma range_eta r : {| first := first r; last := last r |} = r.
Proof. by destruct r. Qed.

Section Walk.
Context (r : range) (Hr : range_ok r).

Let inside (cur : range) : Prop := range_ok cur /\ first cur <= first r /\ last r <= last cur.

Lemma merge_walk_covers l cur kept r' :
  Forall range_ok l -> inside cur -> merge_walk LinkKept l r (first cur) (last cur) = (kept, r') ->
  range_ok r' /\ Forall range_ok kept /\
  forall x, in_range r' x \/ covers kept x <-> in_range cur x \/ covers l x.
Proof.
  revert cur kept. induction l as [|c l IH]; intros cur kept Hl [Hcur Hin] E.
  - cbn in E. rewrite range_eta in E. by injection E as <- <-.
  - apply Forall_cons in Hl as [Hc Hl]. rewrite merge_walk_cons, range_eta in E.
    destruct (util_ranges_overlap c r) eqn:Ho; cbv zeta in E.
    + edestruct (IH (join cur c)) as (? & ? & Hx); [done| |done|].
      { split; [by apply join_ok|by apply (join_contains r cur c)]. }
      split_and!; [done..|]. intros x. rewrite Hx, covers_cons, (join_in r) by done. tauto.
    + destruct (merge_walk LinkKept l r (first cur) (last cur)) as [kept0 r0] eqn:E0.
      injection E as <- <-. edestruct (IH cur) as (? & ? & Hx); [done|done|done|].
      split_and!; [done|by constructor|]. intros x. rewrite !covers_cons. specialize (Hx x). tauto.
Qed.

Lemma merge_walk_far l cur kept r' d :
  Forall range_ok l -> inside cur -> merge_walk LinkKept l r (first cur) (last cur) = (kept, r') ->
  range_ok d -> apart d cur -> Forall (apart d) l -> apart d r' /\ Forall (apart d) kept.
Proof.
  revert cur kept. induction l as [|c l IH]; intros cur kept Hl [Hcur Hin] E Hd Hdc Hdl.
  - cbn in E. rewrite range_eta in E. by injection E as <- <-.
  - apply Forall_cons in Hl as [Hc Hl]. apply Forall_cons in Hdl as [Hdc' Hdl].
    rewrite merge_walk_cons, range_eta in E.
    destruct (util_ranges_overlap c r) eqn:Ho; cbv zeta in E.
    + eapply (IH (join cur c)); try done.
      * split; [by apply join_ok|by apply (join_contains r cur c)].
      * by apply (join_apart r).
    + destruct (merge_walk LinkKept l r (first cur) (last cur)) as [kept0 r0] eqn:E0.
      injection E as <- <-. edestruct (IH cur) as [? ?]; try done. split; [done|by constructor].
Qed.

Lemma merge_walk_apart l cur kept r' :
  ranges_ok l -> inside cur -> merge_walk LinkKept l r (first cur) (last cur) = (kept, r') ->
  (forall c, c ∈ l -> apart c r -> apart c cur) ->
  Forall (fun c => apart c r') kept /\ ForallOrdPairs apart kept.
Proof.
  revert cur kept. induction l as [|c l IH]; intros cur kept [Hl Hp] [Hcur Hin] E Hfar.
  - cbn in E. injection E as <- <-. split; constructor.
  - apply Forall_cons in Hl as [Hc Hl]. inversion Hp as [|? ? Hcl Hp']; subst.
    rewrite merge_walk_cons, range_eta in E.
    destruct (util_ranges_overlap c r) eqn:Ho; cbv zeta in E.
    + eapply (IH (join cur c)); try done.
      * split; [by apply join_ok|by apply (join_contains r cur c)].
      * intros d Hd Hdr. rewrite Forall_forall in Hcl, Hl. apply (join_apart r); auto.
        -- apply Hfar; [by right|done].
        -- by apply apart_sym, Hcl.
    + destruct (merge_walk LinkKept l r (first cur) (last cur)) as [kept0 r0] eqn:E0.
      injection E as <- <-. edestruct (IH cur) as [? ?]; try done.
      { intros d Hd. apply Hfar. by right. }
      destruct (merge_walk_far l cur kept0 r0 c) as [? ?]; try done.
      { apply Hfar; [left|by apply overlap_spec]. }
      split; by constructor.
Qed.
End Walk.

Lemma insert_walk_perm l r l' : insert_walk l r = Some l' -> l' ≡ₚ r :: l.
Proof.
  revert l'. induction l as [|c l IH]; intros l' E; cbn in E; [done|].
  destruct (first c <? first r).
  - injection E as <-. constructor.
  - destruct (insert_walk l r) as [l0|]; [|done]. injection E as <-. rewrite (IH l0 eq_refl). constructor.
Qed.

#[export] Instance covers_proper : Proper ((≡ₚ) ==> (=) ==> iff) covers.
Proof. intros l l' Hl x ? <-. unfold covers. by rewrite Hl. Qed.

(** Apartness does not depend on the order. *)
Lemma ranges_ok_perm l l' : l ≡ₚ l' -> ranges_ok l -> ranges_ok l'.
Proof.
  intros Hl [Ho Hp]. split; [by rewrite <- Hl|].
  induction Hl as [|c l l' Hl IH|c c' l|l1 l2 l3 H1 IH1 H2 IH2]; try done.
  - apply Forall_cons in Ho as [Hc Ho]. inversion Hp; subst. constructor; [by rewrite <- Hl|auto].
  - inversion Hp as [|? ? Hc Hp']; subst. inversion Hp' as [|? ? Hc' Hp'']; subst.
    apply Forall_cons in Hc as [Hcc Hc]. constructor; [constructor; [by apply apart_sym|done]|by constructor].
  - apply IH2; [by rewrite <- H1|auto].
Qed.

(** Adding a range to ranges that are apart. *)
Lemma ranges_add_ok l r :
  ranges_ok l -> range_ok r ->
  ranges_ok (util_ranges_add_range LinkKept l r) /\
  forall x, covers (util_ranges_add_range LinkKept l r) x <-> in_range r x \/ covers l x.
Proof.
  intros Hl Hr. unfold util_ranges_add_range.
  destruct (merge_walk LinkKept l r (first r) (last r)) as [kept r'] eqn:E.
  destruct (merge_walk_covers r Hr l r kept r') as (Hr' & Hk & Hx); [apply Hl|done|done|].
  destruct (merge_walk_apart r Hr l r kept r') as (Ha & Hp); [done..|].
  assert (ranges_ok (r' :: kept)) as Hok.
  { split; [by constructor|]. constructor; [|done]. eapply Forall_impl; [exact Ha|]. intros c. apply apart_sym. }
  destruct (insert_walk kept r') as [l'|] eqn:Ei.
  - apply insert_walk_perm in Ei. split; [by eapply ranges_ok_perm|]. intros x. by rewrite Ei, covers_cons.
  - split; [done|]. intros x. by rewrite covers_cons.
Qed.

(** ** What the parsers accept *)

(** *** Decimal numbers *)

Fixpoint dec_digits (fuel : nat) (z : Z) : list byte :=
  match fuel with
  | O => []
  | S fuel => if z <? 10 then [z2b (48 + z)] else dec_digits fuel (z / 10) ++ [z2b (48 + z mod 10)]
  end.
Definition dec (z : Z) : list byte := dec_digits (S (Z.to_nat (Z.log2 z))) z.

Definition digits_value (ds : list byte) (acc : Z) : Z :=
  fold_left (fun acc c => 10 * acc + (b2z c - 48)) ds acc.

Lemma digit_ok z : 0 <= z < 10 -> is_digit (z2b (48 + z)) = true /\ b2z (z2b (48 + z)) - 48 = z.
Proof.
  intros Hz. unfold is_digit. rewrite b2z_z2b, Z.mod_small by lia.
  destruct (Z.leb_spec 48 (48 + z)), (Z.leb_spec (48 + z) 57); cbn; split; done || lia.
Qed.

Lemma dec_digits_spec fuel z :
  0 <= z < 2 ^ Z.of_nat fuel -> (0 < fuel)%nat ->
  dec_digits fuel z <> [] /\ Forall (fun c => is_digit c = true) (dec_digits fuel z) /\
  digits_value (dec_digits fuel z) 0 = z.
Proof.
  revert z. induction fuel as [|fuel IH]; intros z Hz Hf; [lia|]. cbn [dec_digits].
  rewrite Nat2Z.inj_succ, Z.pow_succ_r in Hz by lia.
  destruct (Z.ltb_spec z 10) as [Hs|Hs].
  - destruct (digit_ok z ltac:(lia)) as [Hd Hv]. split_and!; [done|by repeat constructor|].
    unfold digits_value. cbn [fold_left]. lia.
  - pose proof (Z.div_mod z 10 ltac:(lia)). pose proof (Z.mod_pos_bound z 10 ltac:(lia)).
    assert (0 < fuel)%nat by (destruct fuel; [cbn in Hz; lia|lia]).
    destruct (IH (z / 10)) as (_ & Hd & Hv); [|done|].
    { split; [apply Z.div_pos; lia|]. apply Z.div_lt_upper_bound; lia. }
    destruct (digit_ok (z mod 10) ltac:(lia)) as [Hd' Hv']. split_and!.
    + by destruct (dec_digits fuel (z / 10)).
    + apply Forall_app. split; [done|by repeat constructor].
    + unfold digits_value in *. rewrite fold_left_app, Hv. cbn [fold_left]. lia.
Qed.

Lemma dec_spec z : 0 <= z ->
  dec z <> [] /\ Forall (fun c => is_digit c = true) (dec z) /\ digits_value (dec z) 0 = z.
Proof.
  intros Hz. apply dec_digits_spec; [|lia]. split; [done|].
  rewrite Nat2Z.inj_succ, Z2Nat.id by apply Z.log2_nonneg.
  destruct (Z.eq_dec z 0) as [->|]; [done|]. apply Z.log2_spec. lia.
Qed.

Lemma scan_digits_app ds rest acc n :
  Forall (fun c => is_digit c = true) ds -> match rest with c :: _ => is_digit c = false | [] => True end ->
  scan_digits (ds ++ rest) acc n = (digits_value ds acc, (n + length ds)%nat, rest).
Proof.
  intros Hd Hr. revert acc n. induction Hd as [|c ds Hc Hd IH]; intros acc n; cbn [app scan_digits length].
  - rewrite Nat.add_0_r. destruct rest as [|c rest]; [done|]. cbn. by rewrite Hr.
  - rewrite Hc, IH. by rewrite Nat.add_succ_r.
Qed.

Lemma digit_plain c : is_digit c = true ->
  is_space c = false /\ c <> CHAR_minus /\ c <> CHAR_plus /\ c <> CHAR_comma.
Proof.
  unfold is_digit, is_space. intros Hc. bools.
  split; [|split_and!; intros ->; cbn in *; lia].
  destruct (Z.eqb_spec (b2z c) 32), (Z.leb_spec 9 (b2z c)), (Z.leb_spec (b2z c) 13); done || lia.
Qed.

Lemma scan_lu_dec z rest :
  0 <= z < 2 ^ 64 -> match rest with c :: _ => is_digit c = false | [] => True end ->
  scan_lu (dec z ++ rest) = Some (z, rest).
Proof.
  intros Hz Hr. destruct (dec_spec z ltac:(lia)) as (Hne & Hd & Hv). unfold scan_lu.
  destruct (dec z) as [|c ds] eqn:E; [done|]. pose proof Hd as Hd'. apply Forall_cons in Hd' as [Hc _].
  destruct (digit_plain c Hc) as (Hs & Hm & Hp & _).
  assert (skip_spaces ((c :: ds) ++ rest) = (c :: ds) ++ rest) as -> by (cbn; by rewrite Hs).
  assert (scan_sign ((c :: ds) ++ rest) = (false, (c :: ds) ++ rest)) as ->
    by (cbn; by rewrite !bool_decide_false).
  rewrite scan_digits_app, Hv by done. cbn [length Nat.add]. by ztrue.
Qed.

(** *** Sizes *)

Inductive unit_ := UNone | UK | UM | UG | UT | UP.

Definition unit_text (u : unit_) : list byte :=
  match u with UNone => [] | UK => [x4b] | UM => [x4d] | UG => [x47] | UT => [x54] | UP => [x50] end.
Definition unit_shift (u : unit_) : Z :=
  match u with UNone => 0 | UK => 10 | UM => 20 | UG => 30 | UT => 40 | UP => 50 end.

(** A number, a unit, and whether a 'B' follows the unit. *)
Record size_text := { sz_num : Z; sz_unit : unit_; sz_B : bool }.

Definition size_value (s : size_text) : Z := sz_num s * 2 ^ unit_shift (sz_unit s).
Definition print_size (s : size_text) : list byte :=
  dec (sz_num s) ++ match sz_unit s with
                    | UNone => []
                    | u => unit_text u ++ (if sz_B s then [x42] else [])
                    end.

Definition size_ok (s : size_text) : Prop := 0 <= sz_num s /\ size_value s < 2 ^ 64.

Lemma unit_shift_pos u : 0 < 2 ^ unit_shift u.
Proof. by destruct u. Qed.

Lemma util_parse_size_print s : size_ok s -> util_parse_size (print_size s) = inr (Some (size_value s)).
Proof.
  intros [Hn Hv]. pose proof (unit_shift_pos (sz_unit s)). unfold size_value in *.
  assert (sz_num s < 2 ^ 64) by nia.
  unfold util_parse_size, print_size. rewrite scan_lu_dec;
    [|lia|destruct (sz_unit s); [done|by destruct (sz_B s)..]].
  assert (forall u, 0 <= u -> sz_num s * 2 ^ u < 2 ^ 64 -> u64 (Z.shiftl (sz_num s) u) = sz_num s * 2 ^ u) as Hsh.
  { intros u Hu Hlt. rewrite Z.shiftl_mul_pow2 by done. apply u64_id. pose proof (Z.pow_pos_nonneg 2 u). nia. }
  destruct (sz_unit s); cbn [unit_shift] in *; [cbn; do 2 f_equal; lia|..];
    destruct (sz_B s); cbn -[Z.pow Z.shiftl]; by rewrite Hsh.
Qed.

(** Its characters are no separators. *)
Lemma print_size_plain s : 0 <= sz_num s ->
  print_size s <> [] /\ Forall (fun c => c <> CHAR_minus /\ c <> CHAR_comma) (print_size s).
Proof.
  intros Hn. destruct (dec_spec (sz_num s) Hn) as (Hne & Hd & _). unfold print_size. split.
  - by destruct (dec (sz_num s)).
  - apply Forall_app. split.
    + eapply Forall_impl; [exact Hd|]. intros c Hc. by destruct (digit_plain c Hc) as (_ & ? & _ & ?).
    + destruct (sz_unit s), (sz_B s); repeat constructor; done.
Qed.

Lemma scan_until_minus_app w rest :
  Forall (fun c => c <> CHAR_minus /\ c <> CHAR_comma) w ->
  match rest with c :: _ => c = CHAR_minus | [] => True end ->
  scan_until_minus (w ++ rest) = (w, rest).
Proof.
  intros Hw Hr. induction Hw as [|c w [Hc _] _ IH]; cbn [app scan_until_minus].
  - destruct rest as [|c rest]; [done|]. cbn. by rewrite bool_decide_true.
  - by rewrite bool_decide_false, IH.
Qed.

(** *** One range *)

(** "n-m", "n-", "-m" and "n". *)
Inductive range_text := RFromTo (n m : size_text) | RFrom (n : size_text) | RTo (m : size_text) | RNum (n : size_text).

Definition print_range (t : range_text) : list byte :=
  match t with
  | RFromTo n m => print_size n ++ CHAR_minus :: print_size m
  | RFrom n => print_size n ++ [CHAR_minus]
  | RTo m => CHAR_minus :: print_size m
  | RNum n => print_size n
  end.

Definition text_range (entire : range) (t : range_text) : range :=
  match t with
  | RFromTo n m => {| first := Z.min (size_value n) (size_value m); last := Z.max (size_value n) (size_value m) |}
  | RFrom n => {| first := size_value n; last := last entire |}
  | RTo m => {| first := first entire; last := size_value m |}
  | RNum n => {| first := size_value n; last := size_value n |}
  end.

Definition inside (entire : range) (n : size_text) : Prop :=
  size_ok n /\ first entire <= size_value n <= last entire.

Definition range_text_ok (entire : range) (t : range_text) : Prop :=
  match t with
  | RFromTo n m => inside entire n /\ inside entire m
  | RFrom n | RTo n | RNum n => inside entire n
  end.

Lemma size_into_print s set r : size_ok s -> size_into (print_size s) set r = inr (true, set (size_value s)).
Proof. intros Hs. unfold size_into. by rewrite util_parse_size_print. Qed.

Lemma scan_size s rest :
  0 <= sz_num s -> match rest with c :: _ => c = CHAR_minus | [] => True end ->
  exists c w, print_size s = c :: w /\ c <> CHAR_minus /\
    scan_until_minus (print_size s ++ rest) = (c :: w, rest) /\
    scan_until_minus (w ++ rest) = (w, rest).
Proof.
  intros Hn Hr. destruct (print_size_plain s Hn) as [Hne Hp].
  pose proof (scan_until_minus_app _ rest Hp Hr) as E.
  destruct (print_size s) as [|c w]; [done|]. exists c, w.
  apply Forall_cons in Hp as [[Hc _] Hw]. split_and!; [done..|].
  by apply scan_until_minus_app.
Qed.

(** A single number is compared with what was on the heap before. *)
Lemma util_parse_range_print entire t r :
  range_text_ok entire t -> last r <= last entire ->
  util_parse_range (print_range t) r entire = inr (true, text_range entire t).
Proof.
  intros Ht Hr. unfold util_parse_range.
  destruct t as [n m|n|m|n]; cbn [print_range text_range range_text_ok] in *.
  - destruct Ht as [[Hn Hn'] [Hm Hm']].
    destruct (scan_size n (CHAR_minus :: print_size m)) as (c & w & E & Hc & Es & _); [apply Hn|done|].
    destruct (scan_size m []) as (c' & w' & E' & _ & Es' & _); [apply Hm|done|]. rewrite app_nil_r in Es'.
    unfold util_parse_range_from_to. rewrite Es. cbv beta iota. rewrite Es'. cbv beta iota.
    rewrite <- E, <- E', !size_into_print by done.
    cbn [set_first set_last first last]. repeat ztrue. cbn [orb].
    destruct (Z.ltb_spec (size_value m) (size_value n)); cbn [or_else];
      [rewrite Z.min_r, Z.max_l by lia|rewrite Z.min_l, Z.max_r by lia]; done.
  - destruct Ht as [Hn Hn'].
    destruct (scan_size n [CHAR_minus]) as (c & w & E & Hc & Es & _); [apply Hn|done|].
    unfold util_parse_range_from_to, util_parse_range_from. rewrite Es. cbn [scan_until_minus or_else].
    by rewrite <- E, size_into_print.
  - destruct Ht as [Hm Hm'].
    destruct (scan_size m []) as (c & w & E & Hc & Es & _); [apply Hm|done|]. rewrite app_nil_r in Es.
    unfold util_parse_range_from_to, util_parse_range_from, util_parse_range_to.
    cbn [scan_until_minus]. rewrite !bool_decide_true by done. cbn [or_else].
    rewrite Es. cbv beta iota. rewrite <- E, size_into_print by done. cbn [set_first set_last first last]. by ztrue.
  - destruct Ht as [Hn Hn'].
    destruct (scan_size n []) as (c & w & E & Hc & Es & Ew); [apply Hn|done|]. rewrite !app_nil_r in *.
    assert (util_parse_range_to (print_size n) r entire = inr (false, r)) as Et.
    { unfold util_parse_range_to. rewrite E, Ew. destruct w; [done|]. by rewrite bool_decide_false. }
    unfold util_parse_range_from_to, util_parse_range_from. rewrite Es. cbn [or_else]. rewrite Et. cbn [or_else].
    unfold util_parse_range_number. rewrite size_into_print by done.
    cbn [set_first set_last first last]. by repeat ztrue.
Qed.

Lemma text_range_ok entire t :
  0 <= first entire -> last entire < 2 ^ 64 - 1 -> range_text_ok entire t -> range_ok (text_range entire t).
Proof.
  intros H0 Hl. destruct t as [n m|n|m|n]; cbn; [intros [[_ ?] [_ ?]]|intros [_ ?]..];
    unfold range_ok; cbn; lia.
Qed.

(** *** The list of ranges *)

Fixpoint print_ranges (ts : list range_text) : list byte :=
  match ts with
  | [] => []
  | [t] => print_range t
  | t :: ts => print_range t ++ CHAR_comma :: print_ranges ts
  end.

Lemma print_range_no_comma entire t : range_text_ok entire t -> Forall (fun c => c <> CHAR_comma) (print_range t).
Proof.
  assert (forall s, size_ok s -> Forall (fun c => c <> CHAR_comma) (print_size s)) as Hs.
  { intros s [Hs _]. eapply Forall_impl; [by apply print_size_plain|]. by intros c []. }
  destruct t as [n m|n|m|n]; cbn [range_text_ok print_range]; [intros [[Hn _] [Hm _]]|intros [Hn _]..].
  - apply Forall_app. split; [auto|]. constructor; [done|auto].
  - apply Forall_app. split; [auto|]. by repeat constructor.
  - constructor; [done|auto].
  - auto.
Qed.

Lemma split_comma_app w rest :
  Forall (fun c => c <> CHAR_comma) w ->
  split_comma (w ++ CHAR_comma :: rest) = (w, Some rest) /\ split_comma w = (w, None).
Proof.
  induction 1 as [|c w Hc _ [IH1 IH2]]; cbn [app split_comma]; [done|].
  by rewrite bool_decide_false, IH1, IH2.
Qed.

Lemma parse_ranges_loop_print entire ts heap l fuel :
  0 <= first entire -> last entire < 2 ^ 64 - 1 -> (forall i, last (heap i) <= last entire) ->
  ts <> [] -> Forall (range_text_ok entire) ts -> ranges_ok l -> (length ts <= fuel)%nat ->
  exists l', parse_ranges_loop LinkKept fuel (print_ranges ts) heap l entire = inr (true, l') /\
    ranges_ok l' /\
    forall x, covers l' x <-> covers l x \/ Exists (fun t => in_range (text_range entire t) x) ts.
Proof.
  intros H0 H1 Hheap Hne Hts. revert heap l fuel Hheap Hne.
  induction Hts as [|t ts Ht Hts IH]; intros heap l fuel Hheap Hne Hl Hf; [done|]. clear Hne.
  destruct fuel as [|fuel]; [cbn in Hf; lia|]. cbn [length] in Hf.
  pose proof (util_parse_range_print entire t (heap 0%nat) Ht (Hheap 0%nat)) as Ep.
  destruct (ranges_add_ok l (text_range entire t) Hl) as [Hl' Hx]; [by apply text_range_ok|].
  pose proof (print_range_no_comma entire t Ht) as Hc.
  destruct ts as [|t2 ts].
  - cbn [print_ranges parse_ranges_loop]. rewrite (proj2 (split_comma_app _ [] Hc)), Ep.
    eexists. split_and!; [done|done|]. intros x. rewrite Hx, Exists_cons, Exists_nil. tauto.
  - change (print_ranges (t :: t2 :: ts)) with (print_range t ++ CHAR_comma :: print_ranges (t2 :: ts)).
    cbn [parse_ranges_loop]. rewrite (proj1 (split_comma_app _ _ Hc)), Ep.
    destruct (IH (fun i => heap (S i)) _ fuel (fun i => Hheap (S i)) ltac:(done) Hl' ltac:(lia)) as (l' & E & Hok & Hx').
    exists l'. split_and!; [done|done|]. intros x. rewrite Hx', Hx, (Exists_cons _ t). tauto.
Qed.

Lemma length_print_ranges ts : (length ts <= S (length (print_ranges ts)))%nat.
Proof.
  induction ts as [|t [|t2 ts] IH]; cbn [length] in *; [lia|lia|].
  change (print_ranges (t :: t2 :: ts)) with (print_range t ++ CHAR_comma :: print_ranges (t2 :: ts)).
  rewrite length_app. cbn [length] in *. lia.
Qed.


(** Every mode of three octal digits is read back, leading zeros or not. *)
Definition octal (m : Z) : list byte := [z2b (48 + m / 64); z2b (48 + m / 8 mod 8); z2b (48 + m mod 8)].

Lemma util_parse_mode_octal m : 0 <= m < 512 -> util_parse_mode (octal m) = Some m.
Proof.
  intros Hm. assert (forallb (fun m => bool_decide (util_parse_mode (octal m) = Some m)) (seqZ 0 512) = true) as Hall
    by (vm_compute; reflexivity).
  rewrite forallb_forall in Hall. specialize (Hall m).
  apply bool_decide_eq_true in Hall; [done|]. apply list_elem_of_In, elem_of_seqZ. lia.
Qed.

(** *** What goes wrong *)

Definition text (s : String.string) : list byte := String.list_byte_of_string s.

(** A freed element whose link reads as null ends the walk early: "1-3,10-12,2-11"
    leaves 10-12 beside 1-11. *)
Example freed_element_ends_walk :
  util_parse_ranges LinkNull (text "1-3,10-12,2-11"%string) (fun _ => {| first := 0; last := 0 |}) []
    {| first := 0; last := 100 |} =
  inr (true, [{| first := 1; last := 11 |}; {| first := 10; last := 12 |}]).
Proof. vm_compute. reflexivity. Qed.

(** The list need not be in order. *)
Example ranges_not_sorted :
  util_parse_ranges LinkKept (text "1,5,3,7"%string) (fun _ => {| first := 0; last := 0 |}) []
    {| first := 0; last := 100 |} =
  inr (true, map (fun n => {| first := n; last := n |}) [1; 7; 3; 5]).
Proof. vm_compute. reflexivity. Qed.

(** What is no number is the range the memory held, or is refused for it; a
    number is refused when the memory holds a large one. *)
Example range_from_heap :
  let parse s v := util_parse_range (text s) v {| first := 0; last := 100 |} in
  parse "abc"%string {| first := 7; last := 9 |} = inr (true, {| first := 7; last := 7 |}) /\
  parse "5"%string {| first := 0; last := 1000 |} = inr (false, {| first := 5; last := 1000 |}).
Proof. vm_compute. done. Qed.

(** A range that begins beyond the end is accepted, with its end before its beginning. *)
Example range_inverted :
  util_parse_range (text "200-"%string) {| first := 0; last := 0 |} {| first := 0; last := 100 |} =
  inr (true, {| first := 200; last := 100 |}).
Proof. vm_compute. reflexivity. Qed.

(** The end of a range that reaches 2^64 - 1 wraps: ranges inside it are kept apart. *)
Example ranges_overlap_wraps :
  util_ranges_add_range LinkKept [{| first := 5; last := 2 ^ 64 - 1 |}] {| first := 7; last := 9 |} =
  [{| first := 5; last := 2 ^ 64 - 1 |}; {| first := 7; last := 9 |}].
Proof. vm_compute. reflexivity. Qed.

(** Sizes wrap, and a unit of three characters overflows its buffer. *)
Example size_wraps :
  util_parse_size (text "16384P"%string) = inr (Some 0) /\ util_parse_size (text "1KBx"%string) = inl Undefined.
Proof. vm_compute. done. Qed.
