(* ===== verification/Poutput.v ===== *)
(** Poutput: src/src/tools/pmempool/output.c, what the commands print.

    A stream is the list of its bytes.  Hex dumps are modelled to the character;
    the strings that need floating point, the time zone or libuuid are left to
    the reader of the values. *)

From stdpp Require Import strings.
From S2P Require Import Prelude Mem Util BttLayout Btt Pcommon Pranges.

Definition HEXDUMP_ROW_WIDTH : nat := 16.
Definition HEXDUMP_ROW_HEX_LEN : nat := HEXDUMP_ROW_WIDTH * 3 + 1 + 1.
Definition SEPARATOR_CHAR : byte := x2d.

Definition outv_check (out_vlevel vlevel : Z) : bool := vlevel <=? out_vlevel.

(** ** Hexadecimal *)

Definition hex_digit (z : Z) : byte := if z <? 10 then z2b (48 + z) else z2b (87 + z).

(** "%0*lx": at least [n] digits. *)
Fixpoint hex_digits (fuel : nat) (n : nat) (z : Z) : list byte :=
  match fuel with
  | O => []
  | S fuel =>
      match n with
      | O => if z =? 0 then [] else hex_digits fuel 0 (z / 16) ++ [hex_digit (z mod 16)]
      | S n => hex_digits fuel n (z / 16) ++ [hex_digit (z mod 16)]
      end
  end.
Definition print_08lx (z : Z) : list byte := hex_digits 17 8 z.
Definition print_02x (b : byte) : list byte := [hex_digit (b2z b / 16); hex_digit (b2z b mod 16)].

(** "%-*s" *)
Definition pad (n : nat) (s : list byte) : list byte := s ++ replicate (n - length s) x20.

(** isprint in the C locale *)
Definition isprint (c : byte) : bool := (32 <=? b2z c) && (b2z c <=? 126).
Definition out_get_printable_ascii (c : byte) : byte := if isprint c then c else x2e.
Definition out_get_ascii_str (datap : list byte) : list byte := map out_get_printable_ascii datap.

(** The bytes from the [i]-th on; an extra space after every eighth. *)
Fixpoint hex_str_loop (i : nat) (datap : list byte) : list byte :=
  match datap with
  | [] => []
  | b :: datap =>
      (if negb (Nat.eqb i 0) && Nat.eqb (i mod 8) 0 then [x20] else []) ++
      print_02x b ++ [x20] ++ hex_str_loop (S i) datap
  end.
Definition out_get_hex_str (datap : list byte) : list byte := hex_str_loop 0 datap.

(** "%08lx  %-*s|%-*s|\n" *)
Definition hexdump_row (off : Z) (datap : list byte) : list byte :=
  print_08lx off ++ [x20; x20] ++ pad HEXDUMP_ROW_HEX_LEN (out_get_hex_str datap) ++ [x7c] ++
  pad HEXDUMP_ROW_WIDTH (out_get_ascii_str datap) ++ [x7c; x0a].
Definition hexdump_star : list byte := [x2a; x0a].

(** The lines printed and the length of the last row. *)
Fixpoint hexdump_loop (fuel : nat) (datap : list byte) (offset : Z) (len curr prev : nat) (repeated : bool) (n : nat)
  : list (list byte) * nat :=
  match fuel with
  | O => ([], n)
  | S fuel =>
      if Nat.eqb len 0 then ([], n)
      else
        let curr_len := Nat.min len HEXDUMP_ROW_WIDTH in
        let row := slice datap curr curr_len in
        if negb (Nat.eqb len curr_len) && negb (Nat.eqb curr 0) && bool_decide (slice datap prev curr_len = row) then
          let '(lines, n) := hexdump_loop fuel datap offset (len - curr_len) (curr + curr_len) prev true n in
          ((if repeated then lines else hexdump_star :: lines), n)
        else
          let line := hexdump_row (u64 (Z.of_nat curr + offset)) row in
          let '(lines, n) :=
            hexdump_loop fuel datap offset (len - curr_len) (curr + curr_len) curr false (length line) in
          (line :: lines, n)
  end.

Definition hexdump_lines (datap : list byte) (offset : Z) (sep : bool) : list (list byte) :=
  let '(lines, n) := hexdump_loop (S (length datap)) datap offset (length datap) 0 0 false 0 in
  lines ++ (if sep && negb (Nat.eqb n 0) then [replicate (n - 1) SEPARATOR_CHAR ++ [x0a]] else []).

Definition outv_hexdump (out_vlevel vlevel : Z) (datap : list byte) (offset : Z) (sep : bool) : list byte :=
  if negb (outv_check out_vlevel vlevel) || Nat.eqb (length datap) 0 then []
  else concat (hexdump_lines datap offset sep).

(** ** Strings of values *)

(** out_get_checksum: valid or not, the checksum found and the right one, both as
    [uint32_t]; the buffer gets its checksum back. *)
Definition out_get_checksum (addr : list byte) (csump : Z) : bool * Z * Z :=
  let csum := le_at addr (Z.to_nat csump) 8 in
  let '(valid, addr) := util_validate_checksum addr csump in
  (valid, u32 csum, u32 (le_at addr (Z.to_nat csump) 8)).

Inductive map_state := MInit | MZero | MError | MNormal | MUnknown.

(** out_get_btt_map_entry: the block and the state printed. *)
Definition out_get_btt_map_entry (map : Z) : Z * map_state :=
  let bits := Z.land map (u32 (Z.lnot BTT_MAP_ENTRY_LBA_MASK)) in
  (Z.land map BTT_MAP_ENTRY_LBA_MASK,
   if bits =? 0 then MInit
   else if bits =? BTT_MAP_ENTRY_ZERO then MZero
   else if bits =? BTT_MAP_ENTRY_ERROR then MError
   else if bits =? BTT_MAP_ENTRY_NORMAL then MNormal
   else MUnknown).

(** ** Reading a dump back *)

Definition unhex (c : byte) : option Z :=
  if (48 <=? b2z c) && (b2z c <=? 57) then Some (b2z c - 48)
  else if (97 <=? b2z c) && (b2z c <=? 102) then Some (b2z c - 87)
  else None.

Fixpoint parse_hex (s : list byte) (acc : Z) : Z * list byte :=
  match s with
  | c :: s' => match unhex c with Some d => parse_hex s' (16 * acc + d) | None => (acc, s) end
  | [] => (acc, [])
  end.

(** The bytes up to the bar. *)
Fixpoint parse_bytes (s : list byte) : list byte :=
  match s with
  | x20 :: s => parse_bytes s
  | x7c :: _ => []
  | a :: b :: s =>
      match unhex a, unhex b with
      | Some h, Some l => z2b (16 * h + l) :: parse_bytes s
      | _, _ => []
      end
  | _ => []
  end.

Definition parse_row (line : list byte) : Z * list byte :=
  let '(off, rest) := parse_hex line 0 in (off, parse_bytes (drop 2 rest)).

(** The data so far, and whether a star came last: it stands for copies of the
    row before, up to the offset of the next. *)
Definition undump_line (offset : Z) (st : list byte * bool) (line : list byte) : list byte * bool :=
  let '(acc, star) := st in
  if bool_decide (line = hexdump_star) then (acc, true)
  else
    let '(off, row) := parse_row line in
    let prev := drop (length acc - HEXDUMP_ROW_WIDTH) acc in
    let copies := (if star : bool then (Z.to_nat (off - offset) - length acc) / HEXDUMP_ROW_WIDTH else 0)%nat in
    (acc ++ concat (replicate copies prev) ++ row, false).

Definition undump (offset : Z) (lines : list (list byte)) : list byte :=
  fst (fold_left (undump_line offset) lines ([], false)).

(** *** Digits *)

Lemma hex_digit_ok z : 0 <= z < 16 ->
  unhex (hex_digit z) = Some z /\ hex_digit z <> x20 /\ hex_digit z <> x7c /\ hex_digit z <> x2a.
Proof.
  intros Hz. assert (forallb (fun z => bool_decide (unhex (hex_digit z) = Some z /\ hex_digit z <> x20 /\
    hex_digit z <> x7c /\ hex_digit z <> x2a)) (seqZ 0 16) = true) as Hall by (vm_compute; reflexivity).
  rewrite forallb_forall in Hall. specialize (Hall z).
  apply bool_decide_eq_true in Hall; [done|]. apply list_elem_of_In, elem_of_seqZ. lia.
Qed.

Definition is_hex (c : byte) : Prop := unhex c <> None /\ c <> x2a.

Lemma hex_digits_spec fuel n z :
  0 <= z < 16 ^ Z.of_nat fuel ->
  Forall is_hex (hex_digits fuel n z) /\
  (forall rest acc, parse_hex (hex_digits fuel n z ++ rest) acc =
     parse_hex rest (acc * 16 ^ Z.of_nat (length (hex_digits fuel n z)) + z)).
Proof.
  revert n z. induction fuel as [|fuel IH]; intros n z Hz.
  { split; [constructor|]. intros rest acc. cbn in *. f_equal. lia. }
  cbn [hex_digits].
  rewrite Nat2Z.inj_succ, Z.pow_succ_r in Hz by lia.
  pose proof (Z.div_mod z 16 ltac:(lia)) as Hd. pose proof (Z.mod_pos_bound z 16 ltac:(lia)) as Hm.
  destruct (hex_digit_ok (z mod 16) Hm) as (Hu & _ & _ & Hs).
  assert (0 <= z / 16 < 16 ^ Z.of_nat fuel) as Hq.
  { split; [apply Z.div_pos; lia|]. apply Z.div_lt_upper_bound; lia. }
  assert (forall n',
    Forall is_hex (hex_digits fuel n' (z / 16) ++ [hex_digit (z mod 16)]) /\
    forall rest acc, parse_hex ((hex_digits fuel n' (z / 16) ++ [hex_digit (z mod 16)]) ++ rest) acc =
      parse_hex rest (acc * 16 ^ Z.of_nat (length (hex_digits fuel n' (z / 16) ++ [hex_digit (z mod 16)])) + z))
    as Hstep.
  { intros n'. destruct (IH n' (z / 16) Hq) as [Hf Hp]. split.
    - apply Forall_app. split; [done|]. repeat constructor; [by rewrite Hu|done].
    - intros rest acc. rewrite <- app_assoc, Hp. cbn [app parse_hex]. rewrite Hu. f_equal.
      rewrite length_app, Nat2Z.inj_add. cbn [length]. rewrite Z.pow_add_r by lia.
      change (16 ^ Z.of_nat 1) with 16. nia. }
  destruct n as [|n]; [|apply Hstep].
  destruct (Z.eqb_spec z 0) as [->|Hne].
  - split; [constructor|]. intros rest acc. cbn [app length]. f_equal. lia.
  - apply Hstep.
Qed.

Lemma print_08lx_spec z rest :
  0 <= z < 2 ^ 64 -> match rest with c :: _ => unhex c = None | [] => True end ->
  parse_hex (print_08lx z ++ rest) 0 = (z, rest) /\ print_08lx z ++ rest <> hexdump_star.
Proof.
  intros Hz Hr. unfold print_08lx.
  destruct (hex_digits_spec 17 8 z) as [Hf Hp]; [lia|]. split.
  - rewrite Hp, Z.mul_0_l, Z.add_0_l. destruct rest as [|c rest]; [done|]. cbn. by rewrite Hr.
  - assert (exists c s, hex_digits 17 8 z = s ++ [c]) as (c & s & E) by (cbn [hex_digits]; eauto).
    destruct s as [|c' s]; rewrite E in *; cbn; intros Heq; injection Heq as -> _;
      apply Forall_inv in Hf; by destruct Hf.
Qed.

Lemma parse_bytes_str i data k rest :
  parse_bytes (hex_str_loop i data ++ replicate k x20 ++ x7c :: rest) = data.
Proof.
  revert i. induction data as [|b data IH]; intros i; cbn [hex_str_loop].
  - cbn [app]. induction k as [|k IHk]; cbn; done.
  - pose proof (b2z_range b) as Hb.
    pose proof (Z.div_mod (b2z b) 16 ltac:(lia)) as Hd. pose proof (Z.mod_pos_bound (b2z b) 16 ltac:(lia)) as Hm.
    assert (0 <= b2z b / 16 < 16) as Hq by (split; [apply Z.div_pos; lia|apply Z.div_lt_upper_bound; lia]).
    destruct (hex_digit_ok _ Hq) as (Hu & Hs & Hp & _). destruct (hex_digit_ok _ Hm) as (Hu' & _ & _ & _).
    assert (z2b (16 * (b2z b / 16) + b2z b mod 16) = b) as Hv by (rewrite <- Hd; apply z2b_b2z).
    assert (forall s, parse_bytes (hex_digit (b2z b / 16) :: hex_digit (b2z b mod 16) :: x20 :: s) = b :: parse_bytes s) as Hstep.
    { intros s. cbn [parse_bytes].
      destruct (hex_digit (b2z b / 16)); try done; rewrite Hu, Hu'; cbn [parse_bytes]; by rewrite Hv. }
    assert (forall c s, c = [] \/ c = [x20] -> parse_bytes (c ++ s) = parse_bytes s) as Hsp by (by intros c s [-> | ->]).
    unfold print_02x. rewrite <- !app_assoc. rewrite Hsp by (destruct (_ && _); auto).
    cbn [app]. by rewrite Hstep, IH.
Qed.

Lemma parse_hexdump_row off data :
  0 <= off < 2 ^ 64 -> parse_row (hexdump_row off data) = (off, data) /\ hexdump_row off data <> hexdump_star.
Proof.
  intros Ho. unfold parse_row, hexdump_row.
  destruct (print_08lx_spec off ([x20; x20] ++ pad HEXDUMP_ROW_HEX_LEN (out_get_hex_str data) ++ [x7c] ++
    pad HEXDUMP_ROW_WIDTH (out_get_ascii_str data) ++ [x7c; x0a]) Ho ltac:(done)) as [-> Hne].
  split; [|exact Hne]. cbn [app drop]. unfold pad, out_get_hex_str. rewrite <- app_assoc.
  f_equal. apply parse_bytes_str.
Qed.

(** *** The whole dump *)

Section Undump.
Context (datap : list byte) (offset : Z).
Context (Hoff : 0 <= offset) (Hend : offset + Z.of_nat (length datap) < 2 ^ 64).

Definition last_row (acc : list byte) : list byte := drop (length acc - HEXDUMP_ROW_WIDTH) acc.

(** What has been read back when the loop is at [curr]: [k] rows equal to the
    last one were left out. *)
Record reading (acc : list byte) (repeated : bool) (k curr prev : nat) : Prop := {
  rd_data : acc ++ concat (replicate k (last_row acc)) = take curr datap;
  rd_curr : curr = (length acc + HEXDUMP_ROW_WIDTH * k)%nat;
  rd_prev : curr <> 0%nat -> (HEXDUMP_ROW_WIDTH <= length acc)%nat /\
    slice datap prev HEXDUMP_ROW_WIDTH = last_row acc;
  rd_rep : repeated = false -> k = 0%nat;
}.

Lemma length_last_row acc : (HEXDUMP_ROW_WIDTH <= length acc)%nat -> length (last_row acc) = HEXDUMP_ROW_WIDTH.
Proof. unfold last_row. intros. rewrite length_drop. lia. Qed.

Lemma last_row_app acc row : length row = HEXDUMP_ROW_WIDTH -> last_row (acc ++ row) = row.
Proof.
  intros Hl. unfold last_row. rewrite length_app, Hl, drop_app.
  rewrite drop_ge by lia. replace (_ - _)%nat with 0%nat by lia. done.
Qed.

Lemma take_slice curr n : take curr datap ++ slice datap curr n = take (curr + n) datap.
Proof. unfold slice. by rewrite take_take_drop. Qed.

(** A row left out. *)
Lemma reading_skip acc repeated k curr prev :
  reading acc repeated k curr prev -> curr <> 0%nat -> (curr + HEXDUMP_ROW_WIDTH <= length datap)%nat ->
  slice datap prev HEXDUMP_ROW_WIDTH = slice datap curr HEXDUMP_ROW_WIDTH ->
  reading acc true (S k) (curr + HEXDUMP_ROW_WIDTH) prev.
Proof.
  intros [Hd Hc Hp Hr] H0 Hl Hs. destruct (Hp H0) as [Hacc Hrow]. split; try done.
  - rewrite <- take_slice, <- Hs, Hrow, <- Hd, replicate_S_end, concat_app, <- app_assoc.
    cbn. by rewrite app_nil_r.
  - rewrite Hc. lia.
Qed.

(** A row printed. *)
Lemma reading_row acc repeated k curr prev row :
  reading acc repeated k curr prev -> slice datap curr (length row) = row ->
  (curr + length row <= length datap)%nat ->
  undump_line offset (acc, repeated) (hexdump_row (u64 (Z.of_nat curr + offset)) row) =
    (take (curr + length row) datap, false) /\
  (length row = HEXDUMP_ROW_WIDTH -> reading (take (curr + length row) datap) false 0 (curr + length row) curr).
Proof.
  intros [Hd Hc Hp Hr] Hs Hl. unfold undump_line.
  destruct (parse_hexdump_row (Z.of_nat curr + offset) row ltac:(lia)) as [Ep Hne].
  rewrite u64_id, bool_decide_false, Ep by (done || lia). split.
  - f_equal. rewrite <- take_slice, Hs, <- Hd, <- app_assoc. f_equal. f_equal.
    fold (last_row acc). do 2 f_equal. destruct repeated; [|by rewrite (Hr eq_refl)].
    replace (Z.to_nat (Z.of_nat curr + offset - offset) - length acc)%nat with (k * HEXDUMP_ROW_WIDTH)%nat by lia.
    apply Nat.div_mul. done.
  - intros Hw. assert (length (take (curr + length row) datap) = (curr + length row)%nat) as Hlen
      by (rewrite length_take; lia).
    assert (last_row (take (curr + length row) datap) = row) as Hlr
      by (rewrite <- take_slice, Hs; by apply last_row_app).
    split.
    + cbn. by rewrite app_nil_r.
    + rewrite Hlen. lia.
    + intros _. rewrite Hlen, Hlr, <- Hw. split; [lia|done].
    + done.
Qed.

Lemma hexdump_loop_read fuel acc repeated k len curr prev n :
  reading acc repeated k curr prev -> (curr + len = length datap)%nat -> (len < fuel)%nat ->
  (repeated = true -> len <> 0%nat) ->
  fold_left (undump_line offset) (fst (hexdump_loop fuel datap offset len curr prev repeated n))
    (acc, repeated) = (datap, false).
Proof.
  revert acc repeated k len curr prev n.
  induction fuel as [|fuel IH]; intros acc repeated k len curr prev n Hr Hlen Hf Hrep; [lia|].
  cbn [hexdump_loop]. destruct (Nat.eqb_spec len 0) as [->|Hne].
  { assert (repeated = false) as -> by (destruct repeated; [by destruct Hrep|done]).
    cbn. pose proof (rd_data _ _ _ _ _ Hr) as Hd. rewrite (rd_rep _ _ _ _ _ Hr eq_refl) in Hd.
    cbn in Hd. rewrite app_nil_r in Hd. rewrite Hd, take_ge by lia. done. }
  cbv zeta. set (curr_len := Nat.min len HEXDUMP_ROW_WIDTH).
  assert (0 < curr_len)%nat by (unfold curr_len, HEXDUMP_ROW_WIDTH; lia).
  destruct (negb (Nat.eqb len curr_len) && _ && _) eqn:Eskip.
  - apply andb_true_iff in Eskip as [Eskip Eq%bool_decide_eq_true].
    apply andb_true_iff in Eskip as [Elen%negb_true_iff%Nat.eqb_neq Ecurr%negb_true_iff%Nat.eqb_neq].
    assert (curr_len = HEXDUMP_ROW_WIDTH) as Ew by lia. rewrite Ew in *.
    pose proof (reading_skip acc repeated k curr prev Hr Ecurr ltac:(lia) Eq) as Hr'.
    specialize (IH acc true (S k) (len - HEXDUMP_ROW_WIDTH)%nat (curr + HEXDUMP_ROW_WIDTH)%nat prev n Hr'
      ltac:(lia) ltac:(lia) ltac:(lia)).
    destruct (hexdump_loop fuel _ _ _ _ _ _ _) as [lines n'] eqn:El. cbn [fst] in IH.
    destruct repeated; cbn [fst]; [done|]. cbn [fold_left]. unfold undump_line at 2.
    by rewrite bool_decide_true.
  - clear Eskip. set (row := slice datap curr curr_len).
    assert (length row = curr_len) as Hrow by (apply length_slice; lia).
    destruct (reading_row acc repeated k curr prev row Hr) as [Eu Hr']; [by rewrite Hrow|lia|].
    destruct (hexdump_loop fuel _ _ _ _ _ _ _) as [lines n'] eqn:El. cbn [fst fold_left]. rewrite Eu, Hrow.
    destruct (decide (len = curr_len)) as [Heq|Hlt].
    + replace (len - curr_len)%nat with 0%nat in El by lia.
      assert (lines = []) as -> by (destruct fuel; cbn in El; by injection El as <- _).
      cbn. rewrite take_ge by lia. done.
    + assert (curr_len = HEXDUMP_ROW_WIDTH) as Ew by lia. rewrite Hrow in Hr'.
      specialize (IH _ false 0%nat (len - curr_len)%nat (curr + curr_len)%nat curr
        (length (hexdump_row (u64 (Z.of_nat curr + offset)) row)) (Hr' Ew) ltac:(lia) ltac:(lia) ltac:(done)).
      by rewrite El in IH.
Qed.
End Undump.

(** C37. A hex dump can be read back: its lines give the bytes dumped, the rows that
    stars stand for included. *)
Theorem outv_hexdump_roundtrip (datap : list byte) (offset : Z)
  (Hoff : 0 <= offset) (Hend : offset + Z.of_nat (length datap) < 2 ^ 64) :
  undump offset (hexdump_lines datap offset false) = datap.
Proof.
  unfold undump, hexdump_lines.
  pose proof (hexdump_loop_read datap offset Hoff Hend (S (length datap)) [] false 0 (length datap) 0 0 0) as Hl.
  destruct (hexdump_loop _ _ _ _ _ _ _ _) as [lines n]. cbn [fst] in Hl. cbn [andb]. rewrite app_nil_r, Hl; [done|by split|lia|lia|done].
Qed.
