(* ===== verification/Pcreate.v ===== *)
(** Pcreate: src/src/tools/pmempool/create.c, and the finding of the parameters
    of a pool (common.c).

    A command gets what getopt_long makes of its arguments.  It ends by
    returning to main or by exit; messages are not modelled.  The access mode of
    a new file is parsed and given to the library, whose file system here has no
    modes. *)

From stdpp Require Import strings.
From S2P Require Import Prelude Mem Util Prog Btt Blk Log Pcommon Pranges.

(** ** Commands *)

Inductive ending := Returned (ret : Z) | Exited (status : Z).

(** One answer of getopt_long: the option character, optarg, and whether optopt
    is 0 (a '?' that was asked for). *)
Record getopt_result := { opt : byte; optarg : option string; optopt_is_0 : bool }.

Definition bytes_of (s : string) : list byte := String.list_byte_of_string s.

(** atoll: as strtoll, 0 when there is no number. *)
Definition atoll (s : list byte) : Z :=
  let '(neg, s) := scan_sign (skip_spaces s) in
  let '(v, _, _) := scan_digits s 0 0 in
  let v := if neg : bool then - v else v in
  Z.max (- 2 ^ 63) (Z.min v (2 ^ 63 - 1)).

(** unlink *)
Definition fs_remove (fs : fsys) (path : string) : fsys :=
  {| files := delete path (files fs);
     space := space fs + match files fs !! path with Some f => f_size f | None => 0 end |}.

(** ** Parameters of an existing pool *)

(** pmem_pool_type_parse_str *)
Definition pmem_pool_type_parse_str (str : list byte) : Z :=
  if bool_decide (str = bytes_of "blk"%string) then PMEM_POOL_TYPE_BLK
  else if bool_decide (str = bytes_of "log"%string) then PMEM_POOL_TYPE_LOG
  else PMEM_POOL_TYPE_UNKNOWN.

(** The type, and the size and the block size when they are found. *)
Definition pmem_pool_parse_params (fs : fsys) (fname : string) : Z * option Z * option Z :=
  match files fs !! fname with
  | None => (PMEM_POOL_TYPE_NONE, None, None)
  | Some f =>
      let ret := if POOL_HDR_SIZE <=? f_size f
                 then pmem_pool_type_parse_hdr (pool_hdr_of (mread (f_bytes f) 0 POOL_HDR_SIZE))
                 else PMEM_POOL_TYPE_UNKNOWN in
      let bsize := if (ret =? PMEM_POOL_TYPE_BLK) && (SIZEOF_PMEMBLK <=? f_size f)
                   then Some (get32 (f_bytes f) BLK_BSIZE_OFF) else None in
      (ret, Some (f_size f), bsize)
  end.

(** ** The context *)

Record pmempool_create := {
  cr_verbose : bool;
  cr_fname : string;
  cr_fexists : bool;
  cr_inherit_fname : option string;
  cr_max_size : bool;
  cr_str_type : option string;
  cr_type : Z;
  cr_size : Z;
  cr_str_bsize : option string;
  cr_bsize : Z;
  cr_layout : Z;
  cr_mode : Z;
}.

Definition DEFAULT_MODE : Z := 6 * 64 + 6 * 8 + 4.

Definition pmempool_create_default : pmempool_create :=
  {| cr_verbose := false; cr_fname := EmptyString; cr_fexists := false; cr_inherit_fname := None;
     cr_max_size := false; cr_str_type := None; cr_type := PMEM_POOL_TYPE_NONE; cr_size := 0;
     cr_str_bsize := None; cr_bsize := 0; cr_layout := -1; cr_mode := DEFAULT_MODE |}.

Definition cr_set_verbose (c : pmempool_create) : pmempool_create :=
  {| cr_verbose := true; cr_fname := cr_fname c; cr_fexists := cr_fexists c;
     cr_inherit_fname := cr_inherit_fname c; cr_max_size := cr_max_size c; cr_str_type := cr_str_type c;
     cr_type := cr_type c; cr_size := cr_size c; cr_str_bsize := cr_str_bsize c; cr_bsize := cr_bsize c;
     cr_layout := cr_layout c; cr_mode := cr_mode c |}.
Definition cr_set_names (c : pmempool_create) (str_type str_bsize : option string) (fname : string) : pmempool_create :=
  {| cr_verbose := cr_verbose c; cr_fname := fname; cr_fexists := cr_fexists c;
     cr_inherit_fname := cr_inherit_fname c; cr_max_size := cr_max_size c; cr_str_type := str_type;
     cr_type := cr_type c; cr_size := cr_size c; cr_str_bsize := str_bsize; cr_bsize := cr_bsize c;
     cr_layout := cr_layout c; cr_mode := cr_mode c |}.
Definition cr_set_fexists (c : pmempool_create) (v : bool) : pmempool_create :=
  {| cr_verbose := cr_verbose c; cr_fname := cr_fname c; cr_fexists := v;
     cr_inherit_fname := cr_inherit_fname c; cr_max_size := cr_max_size c; cr_str_type := cr_str_type c;
     cr_type := cr_type c; cr_size := cr_size c; cr_str_bsize := cr_str_bsize c; cr_bsize := cr_bsize c;
     cr_layout := cr_layout c; cr_mode := cr_mode c |}.
Definition cr_set_inherit (c : pmempool_create) (v : option string) : pmempool_create :=
  {| cr_verbose := cr_verbose c; cr_fname := cr_fname c; cr_fexists := cr_fexists c;
     cr_inherit_fname := v; cr_max_size := cr_max_size c; cr_str_type := cr_str_type c;
     cr_type := cr_type c; cr_size := cr_size c; cr_str_bsize := cr_str_bsize c; cr_bsize := cr_bsize c;
     cr_layout := cr_layout c; cr_mode := cr_mode c |}.
Definition cr_set_max_size (c : pmempool_create) : pmempool_create :=
  {| cr_verbose := cr_verbose c; cr_fname := cr_fname c; cr_fexists := cr_fexists c;
     cr_inherit_fname := cr_inherit_fname c; cr_max_size := true; cr_str_type := cr_str_type c;
     cr_type := cr_type c; cr_size := cr_size c; cr_str_bsize := cr_str_bsize c; cr_bsize := cr_bsize c;
     cr_layout := cr_layout c; cr_mode := cr_mode c |}.
(** The parameters of the pool. *)
Definition cr_set_params (c : pmempool_create) (type size bsize : Z) : pmempool_create :=
  {| cr_verbose := cr_verbose c; cr_fname := cr_fname c; cr_fexists := cr_fexists c;
     cr_inherit_fname := cr_inherit_fname c; cr_max_size := cr_max_size c; cr_str_type := cr_str_type c;
     cr_type := type; cr_size := size; cr_str_bsize := cr_str_bsize c; cr_bsize := bsize;
     cr_layout := cr_layout c; cr_mode := cr_mode c |}.
Definition cr_set_layout (c : pmempool_create) (v : Z) : pmempool_create :=
  {| cr_verbose := cr_verbose c; cr_fname := cr_fname c; cr_fexists := cr_fexists c;
     cr_inherit_fname := cr_inherit_fname c; cr_max_size := cr_max_size c; cr_str_type := cr_str_type c;
     cr_type := cr_type c; cr_size := cr_size c; cr_str_bsize := cr_str_bsize c; cr_bsize := cr_bsize c;
     cr_layout := v; cr_mode := cr_mode c |}.
Definition cr_set_mode (c : pmempool_create) (v : Z) : pmempool_create :=
  {| cr_verbose := cr_verbose c; cr_fname := cr_fname c; cr_fexists := cr_fexists c;
     cr_inherit_fname := cr_inherit_fname c; cr_max_size := cr_max_size c; cr_str_type := cr_str_type c;
     cr_type := cr_type c; cr_size := cr_size c; cr_str_bsize := cr_str_bsize c; cr_bsize := cr_bsize c;
     cr_layout := cr_layout c; cr_mode := v |}.

(** ** Arguments *)

(** What one option does: it sets a field, is wrong, or ends the process. *)
Inductive parsed_args := ArgsOk (c : pmempool_create) | ArgsWrong | ArgsExit (status : Z).

Definition arg_of (g : getopt_result) : list byte := match optarg g with Some s => bytes_of s | None => [] end.

Definition create_parse_opt (c : pmempool_create) (g : getopt_result) : fault + parsed_args :=
  match opt g with
  | x76 (* v *) => inr (ArgsOk (cr_set_verbose c))
  | x3f (* ? *) => inr (if optopt_is_0 g then ArgsExit 0 else ArgsWrong)
  | x73 (* s *) =>
      match util_parse_size (arg_of g) with
      | inl f => inl f
      | inr None => inr ArgsWrong
      | inr (Some size) =>
          inr (if size =? 0 then ArgsWrong else ArgsOk (cr_set_params c (cr_type c) size (cr_bsize c)))
      end
  | x4d (* M *) => inr (ArgsOk (cr_set_max_size c))
  | x6d (* m *) =>
      inr (match util_parse_mode (arg_of g) with None => ArgsWrong | Some m => ArgsOk (cr_set_mode c m) end)
  | x69 (* i *) => inr (ArgsOk (cr_set_inherit c (optarg g)))
  | x6c (* l *) =>
      inr (match optarg g with
           | Some s => if atoll (bytes_of s) <? 0 then ArgsWrong else ArgsOk (cr_set_layout c (atoll (bytes_of s)))
           | None => ArgsOk (cr_set_layout c 0)
           end)
  | _ => inr ArgsWrong
  end.

Fixpoint create_parse_opts (c : pmempool_create) (gs : list getopt_result) : fault + parsed_args :=
  match gs with
  | [] => inr (ArgsOk c)
  | g :: gs =>
      match create_parse_opt c g with
      | inr (ArgsOk c) => create_parse_opts c gs
      | r => r
      end
  end.

(** [rest] is argv from optind on. *)
Definition pmempool_create_parse_args (gs : list getopt_result) (rest : list string) : fault + parsed_args :=
  match create_parse_opts pmempool_create_default gs with
  | inr (ArgsOk c) =>
      inr (match rest with
           | str_type :: str_bsize :: fname :: _ => ArgsOk (cr_set_names c (Some str_type) (Some str_bsize) fname)
           | [str_type; fname] => ArgsOk (cr_set_names c (Some str_type) (cr_str_bsize c) fname)
           | [fname] => ArgsOk (cr_set_names c None (cr_str_bsize c) fname)
           | [] => ArgsWrong
           end)
  | r => r
  end.

(** ** Creating *)

Definition PMEMBLK_MIN_BLK : Z := 512.

Section Create.
Context `{Allocator}.
Context (e : env) (le : lenv).
(** statvfs of the directory: f_bsize * f_bavail, if it succeeds. *)
Context (statvfs : option Z).

(** The result and the file system after it. *)
Definition pmempool_create_blk (c : pmempool_create) (fs : fsys) : fault + (Z * fsys) :=
  let bsize := if cr_bsize c =? 0 then PMEMBLK_MIN_BLK else cr_bsize c in
  match pmemblk_create e fs (cr_fname c) bsize (cr_size c) with
  | (Fault f, _) => inl f
  | (Err _, fs) => inr (-1, fs)
  | (Done p, fs) =>
      let nblock := pmemblk_nblock p in
      let close (ret : Z) (p : pmemblk) := inr (ret, pmemblk_close fs (cr_fname c) p) in
      if cr_layout c <? 0 then close 0 p
      else if nblock <=? cr_layout c then close (-1) p
      else
        match pmemblk_set_error p (cr_layout c) with
        | (Fault f, _) => inl f
        | (Err _, p) => close (-1) p
        | (Done _, p) =>
            match pmemblk_set_zero p (cr_layout c) with
            | (Fault f, _) => inl f
            | (Err _, p) => close (-1) p
            | (Done _, p) => close 0 p
            end
        end
  end.

Definition pmempool_create_log (c : pmempool_create) (fs : fsys) : fault + (Z * fsys) :=
  match pmemlog_create le fs (cr_fname c) (cr_size c) with
  | (Fault f, _) => inl f
  | (Err _, fs) => inr (-1, fs)
  | (Done plp, fs) => inr (0, pmemlog_close fs (cr_fname c) plp)
  end.

(** The type and the parameters, from the arguments or from another pool. *)
Inductive chosen := Chosen (c : pmempool_create) | Refused (e : ending).

Definition create_choose (c : pmempool_create) (fs : fsys) : fault + chosen :=
  match cr_str_type c with
  | Some str_type =>
      let type := pmem_pool_type_parse_str (bytes_of str_type) in
      if type =? PMEM_POOL_TYPE_UNKNOWN then inr (Refused (Returned (-1)))
      else if type =? PMEM_POOL_TYPE_BLK then
        match cr_str_bsize c with
        | None => inr (Refused (Returned (-1)))
        | Some str_bsize =>
            match util_parse_size (bytes_of str_bsize) with
            | inl f => inl f
            | inr None => inr (Refused (Returned (-1)))
            | inr (Some bsize) => inr (Chosen (cr_set_params c type (cr_size c) bsize))
            end
        end
      else inr (Chosen (cr_set_params c type (cr_size c) (cr_bsize c)))
  | None =>
      match cr_inherit_fname c with
      | Some inherit_fname =>
          let '(type, size, bsize) := pmem_pool_parse_params fs inherit_fname in
          if type =? PMEM_POOL_TYPE_NONE then inr (Refused (Exited 1))
          else if type =? PMEM_POOL_TYPE_UNKNOWN then inr (Refused (Returned (-1)))
          else inr (Chosen (cr_set_params c type (default (cr_size c) size) (default (cr_bsize c) bsize)))
      | None => inr (Refused (Returned (-1)))
      end
  end.

(** The size: given, inherited, the free space, or the smallest. *)
Definition create_size (c : pmempool_create) : chosen :=
  let min_size := pmem_pool_get_min_size (cr_type c) in
  let sized size := Chosen (cr_set_params c (cr_type c) size (cr_bsize c)) in
  if cr_size c =? 0 then
    if cr_max_size c then
      match statvfs with
      | None => Refused (Returned (-1))
      | Some size => if u64 size =? 0 then Refused (Returned (-1)) else sized (u64 size)
      end
    else if cr_fexists c then Chosen c else sized min_size
  else if cr_size c <? min_size then Refused (Returned (-1))
  else Chosen c.

(** From the parsed arguments on. *)
Definition create_pool_file (c : pmempool_create) (fs : fsys) : fault + (ending * fsys) :=
  match create_choose c fs with
  | inl f => inl f
  | inr (Refused r) => inr (r, fs)
  | inr (Chosen c) =>
      if (cr_type c =? PMEM_POOL_TYPE_LOG) &&
         (negb (cr_layout c =? -1) || match cr_str_bsize c with Some _ => true | None => false end)
      then inr (Returned (-1), fs)
      else if negb (cr_size c =? 0) && cr_max_size c then inr (Returned (-1), fs)
      else
        let c := cr_set_fexists c (match files fs !! cr_fname c with Some _ => true | None => false end) in
        match create_size c with
        | Refused r => inr (r, fs)
        | Chosen c =>
            match (if cr_type c =? PMEM_POOL_TYPE_BLK then pmempool_create_blk c fs
                   else if cr_type c =? PMEM_POOL_TYPE_LOG then pmempool_create_log c fs
                   else inr (-1, fs)) with
            | inl f => inl f
            | inr (ret, fs) =>
                inr (Returned ret,
                     if negb (ret =? 0) && negb (cr_fexists c) then fs_remove fs (cr_fname c) else fs)
            end
        end
  end.

Definition pmempool_create_func (gs : list getopt_result) (rest : list string) (fs : fsys)
  : fault + (ending * fsys) :=
  match pmempool_create_parse_args gs rest with
  | inl f => inl f
  | inr (ArgsExit status) => inr (Exited status, fs)
  | inr ArgsWrong => inr (Exited 1, fs)
  | inr (ArgsOk c) => create_pool_file c fs
  end.
End Create.
