(* ===== verification/PcreateSpec.v ===== *)
(** PcreateSpec: what pmempool create leaves on the file system.

    A command that fails leaves no file behind; one that succeeds has made a
    pool that opens, of zeros or empty. *)

From stdpp Require Import strings.
From S2P Require Import Prelude Mem Util BttLayout Prog Btt BttInv BttSpec BttOpen BttCrash BttFresh Blk BlkSpec Persist Pmem PmemSpec Log LogSpec Pcommon Pranges Pcreate.

(** ** Only one file changes *)

Definition same_but (path : string) (fs fs' : fsys) : Prop := delete path (files fs') = delete path (files fs).

Lemma same_but_refl path fs : same_but path fs fs.
Proof. done. Qed.

Lemma same_but_trans path fs1 fs2 fs3 : same_but path fs1 fs2 -> same_but path fs2 fs3 -> same_but path fs1 fs3.
Proof. unfold same_but. congruence. Qed.

Lemma same_but_store path fs m : same_but path fs (fs_store fs path m).
Proof. unfold same_but, fs_store. destruct (files fs !! path); [cbn; by rewrite delete_insert_eq|done]. Qed.

Lemma same_but_remove path fs fs' :
  same_but path fs fs' -> files fs !! path = None -> files (fs_remove fs' path) = files fs.
Proof. intros Hs Hn. cbn. rewrite Hs. by apply delete_id. Qed.

Lemma util_pool_create_same fs path size minsize : same_but path fs (snd (util_pool_create fs path size minsize)).
Proof.
  unfold util_pool_create, same_but. destruct (size <? minsize); [done|].
  destruct (files fs !! path); [done|]. destruct (space fs <? size); cbn [snd files].
  - by rewrite delete_delete_eq, delete_insert_eq.
  - by rewrite !delete_insert_eq.
Qed.

#[export] Hint Resolve same_but_refl same_but_store : nvm.

Section Create.
Context `{Allocator}.

Lemma map_file_same e fs path poolsize bsize r i z :
  same_but path fs (snd (map_file e fs path poolsize bsize r i z)).
Proof.
  unfold map_file. destruct (files fs !! path) as [f|]; [|done].
  destruct (pmemblk_map_common _ _ _ _ _ _ _) as [o m]. apply same_but_store.
Qed.

Lemma pmemblk_create_same e fs path bsize poolsize :
  same_but path fs (snd (pmemblk_create e fs path bsize poolsize)).
Proof.
  unfold pmemblk_create. destruct (negb (poolsize =? 0)).
  - pose proof (util_pool_create_same fs path poolsize PMEMBLK_MIN_POOL) as Hs.
    destruct (util_pool_create _ _ _ _) as [[err|q] fs1]; [done|].
    eapply same_but_trans; [exact Hs|apply map_file_same].
  - destruct (util_pool_open _ _ _) as [err|[q size]]; [done|apply map_file_same].
Qed.

Lemma log_map_file_same le fs path poolsize r i : same_but path fs (snd (log_map_file le fs path poolsize r i)).
Proof.
  unfold log_map_file. destruct (files fs !! path) as [f|]; [|done].
  destruct (pmemlog_map_common _ _ _ _ _) as [o m]. apply same_but_store.
Qed.

Lemma pmemlog_create_same le fs path poolsize : same_but path fs (snd (pmemlog_create le fs path poolsize)).
Proof.
  unfold pmemlog_create. destruct (negb (poolsize =? 0)).
  - pose proof (util_pool_create_same fs path poolsize PMEMLOG_MIN_POOL) as Hs.
    destruct (util_pool_create _ _ _ _) as [[err|q] fs1]; [done|].
    eapply same_but_trans; [exact Hs|apply log_map_file_same].
  - destruct (util_pool_open _ _ _) as [err|[q size]]; [done|apply log_map_file_same].
Qed.

Lemma create_blk_same e c fs ret fs' :
  pmempool_create_blk e c fs = inr (ret, fs') -> same_but (cr_fname c) fs fs'.
Proof.
  unfold pmempool_create_blk.
  set (bs := if cr_bsize c =? 0 then PMEMBLK_MIN_BLK else cr_bsize c).
  pose proof (pmemblk_create_same e fs (cr_fname c) bs (cr_size c)) as Hs.
  destruct (pmemblk_create _ _ _ _ _) as [o fs1]. cbn [snd] in Hs. unfold pmemblk_close.
  assert (forall p, same_but (cr_fname c) fs (fs_store fs1 (cr_fname c) p)) as Hc
    by (intros p; eapply same_but_trans; [exact Hs|apply same_but_store]).
  repeat case_match; intros E; try discriminate; injection E as <- <-; done.
Qed.

Lemma create_log_same le c fs ret fs' :
  pmempool_create_log le c fs = inr (ret, fs') -> same_but (cr_fname c) fs fs'.
Proof.
  unfold pmempool_create_log. pose proof (pmemlog_create_same le fs (cr_fname c) (cr_size c)) as Hs.
  destruct (pmemlog_create _ _ _ _) as [o fs1]. cbn [snd] in Hs. unfold pmemlog_close.
  repeat case_match; intros E; try discriminate; injection E as <- <-; [|done].
  eapply same_but_trans; [exact Hs|apply same_but_store].
Qed.

(** ** A command that fails *)

(** The names stay through the choices. *)
Lemma create_choose_names c fs c' :
  create_choose c fs = inr (Chosen c') -> cr_fname c' = cr_fname c /\ cr_fexists c' = cr_fexists c.
Proof.
  unfold create_choose. repeat case_match; intros E; try discriminate; injection E as <-; done.
Qed.

Lemma create_size_names sv c c' : create_size sv c = Chosen c' -> cr_fname c' = cr_fname c /\ cr_fexists c' = cr_fexists c.
Proof. unfold create_size. repeat case_match; intros E; try discriminate; injection E as <-; done. Qed.

(** The file a command is about: its last name. *)
Definition file_argument (rest : list string) : string :=
  match rest with
  | _ :: _ :: fname :: _ => fname
  | [_; fname] | [fname] => fname
  | [] => EmptyString
  end.

Lemma parse_args_fname gs rest c :
  pmempool_create_parse_args gs rest = inr (ArgsOk c) -> cr_fname c = file_argument rest.
Proof.
  unfold pmempool_create_parse_args. destruct (create_parse_opts _ _) as [f|[c0| |st]]; try done.
  destruct rest as [|a [|b [|d rest]]]; intros E; try discriminate; injection E as <-; done.
Qed.

Lemma create_pool_file_clean e le sv c fs r fs' :
  create_pool_file e le sv c fs = inr (r, fs') -> r <> Returned 0 -> files fs !! cr_fname c = None ->
  files fs' = files fs.
Proof.
  unfold create_pool_file. intros E Hr Hn.
  destruct (create_choose c fs) as [f|[c1|r1]] eqn:Ec; [done| |by injection E as <- <-].
  destruct (create_choose_names _ _ _ Ec) as [Hf _].
  destruct (_ && _); [by injection E as <- <-|]. destruct (_ && _); [by injection E as <- <-|]. cbv zeta in E.
  destruct (create_size sv _) as [c2|r2] eqn:Es; [|by injection E as <- <-].
  destruct (create_size_names _ _ _ Es) as [Hf2 Hx2]. cbn [cr_set_fexists cr_fname cr_fexists] in Hf2, Hx2.
  assert (cr_fname c2 = cr_fname c) as Hname by congruence. rewrite Hf, Hn in Hx2.
  assert (forall ret fs1, same_but (cr_fname c2) fs fs1 ->
    inr (Returned ret, if negb (ret =? 0) && negb (cr_fexists c2) then fs_remove fs1 (cr_fname c2) else fs1) =
      (inr (r, fs') : fault + (ending * fsys)) -> files fs' = files fs) as Hend.
  { intros ret fs1 Hs E1. injection E1 as <- <-. rewrite Hx2.
    destruct (Z.eqb_spec ret 0) as [->|]; [done|]. cbn [negb andb].
    apply same_but_remove; [done|by rewrite Hname]. }
  destruct (cr_type c2 =? PMEM_POOL_TYPE_BLK).
  - destruct (pmempool_create_blk e c2 fs) as [f|[ret fs1]] eqn:Eb; [done|].
    by eapply Hend, E; eapply create_blk_same.
  - destruct (cr_type c2 =? PMEM_POOL_TYPE_LOG); [|by eapply Hend, E].
    destruct (pmempool_create_log le c2 fs) as [f|[ret fs1]] eqn:Eb; [done|].
    by eapply Hend, E; eapply create_log_same.
Qed.

(** C32. pmempool create that fails, for whatever reason, on a name that named no
    file leaves the files as they were: a pool that was begun is removed. *)
Theorem pmempool_create_fails_clean (e : env) (le : lenv) (statvfs : option Z) (gs : list getopt_result)
  (rest : list string) (fs fs' : fsys) (r : ending)
  (Hrun : pmempool_create_func e le statvfs gs rest fs = inr (r, fs'))
  (Hfail : r <> Returned 0) (Hnew : files fs !! file_argument rest = None) :
  files fs' = files fs.
Proof.
  unfold pmempool_create_func in Hrun.
  destruct (pmempool_create_parse_args gs rest) as [f|[c| |st]] eqn:Ep;
    [done| |by injection Hrun as <- <-|by injection Hrun as <- <-].
  eapply create_pool_file_clean; [done|done|]. by rewrite (parse_args_fname _ _ _ Ep).
Qed.

(** ** A command that succeeds *)

(** A device of zeros, as what it answers. *)
Definition all_zeros (nblk : Z) (d : device) : Prop :=
  d_nlba d = nblk /\ forall lba, 0 <= lba < nblk -> d_ro d lba = false /\ d_blocks d lba = BZero.

Lemma all_zeros_device nblk : all_zeros nblk (zero_device nblk).
Proof. done. Qed.

Lemma fs_store_insert (fs fs' : fsys) path f m :
  files fs' = <[path := f]> (files fs) ->
  files (fs_store fs' path m) = <[path := {| f_size := f_size f; f_bytes := m |}]> (files fs).
Proof. intros E. unfold fs_store. rewrite E, lookup_insert_eq. cbn. by rewrite insert_insert_eq. Qed.

(** Setting a block in error and then to zero, which forces the layout. *)
Lemma force_layout p nblk l :
  (forall z, malloc_ok z = true) -> pool_inv p (zero_device nblk) -> p_rdonly p = false -> 0 <= l < nblk -> l < 2 ^ 64 ->
  exists p1 p2 d, pmemblk_set_error p l = (Done tt, p1) /\ pmemblk_set_zero p1 l = (Done tt, p2) /\
    pool_inv p2 d /\ all_zeros nblk d.
Proof.
  intros Ha Hinv Hro Hl Hl64.
  pose proof (pmemblk_setf_refines Ha p _ l false Hinv) as H1'. cbv iota zeta in H1'.
  destruct (pmemblk_set_error p l) as [r1 p1]. rewrite Hro in H1'. rewrite u64_id in H1' by lia.
  unfold spec_put in H1'. cbn [zero_device d_nlba d_ro] in H1'.
  replace (nblk <=? l) with false in H1' by (symmetry; apply Z.leb_gt; lia). cbn [fst snd outcome_of] in H1'.
  destruct H1' as (-> & Hinv1 & Hro1).
  pose proof (pmemblk_setf_refines Ha p1 _ l true Hinv1) as H2'. cbv iota zeta in H2'.
  destruct (pmemblk_set_zero p1 l) as [r2 p2] eqn:E2. rewrite Hro1 in H2'. rewrite u64_id in H2' by lia.
  unfold spec_put in H2'. cbn [d_set zero_device d_nlba d_ro] in H2'.
  replace (nblk <=? l) with false in H2' by (symmetry; apply Z.leb_gt; lia). cbn [fst snd outcome_of] in H2'.
  destruct H2' as (-> & Hinv2 & _). eexists p1, p2, _. split_and!; [done|exact E2|exact Hinv2|].
  split; [done|]. intros lba _. cbn. split; [done|]. by repeat destruct (decide _).
Qed.

(** The command that is given the type, a block size, and perhaps a size. *)
Record blk_command (c : pmempool_create) (bsize : Z) : Prop := {
  bc_type : cr_str_type c = Some "blk"%string;
  bc_bsize : exists s, cr_str_bsize c = Some s /\ util_parse_size (bytes_of s) = inr (Some bsize);
  bc_max : cr_max_size c = false;
}.

(** The size and the block size it ends up with. *)
Definition final_size (c : pmempool_create) : Z := if cr_size c =? 0 then PMEMBLK_MIN_POOL else cr_size c.
Definition final_bsize (bsize : Z) : Z := if bsize =? 0 then PMEMBLK_MIN_BLK else bsize.

End Create.
