(* ===== verification/Pdump.v ===== *)
(** Pdump: src/src/tools/pmempool/dump.c, writing the user data of a pool out.

    The output stream is the list of the bytes written to it. *)

From stdpp Require Import strings.
From S2P Require Import Prelude Mem Util Prog Btt Blk Persist Pmem Log Pcommon Pranges Poutput Pcreate.

(** ** The context *)

(** What ends the process: err(1, ...), or an access outside the mapping. *)
Inductive stop := ErrExit | Segfault.

Record pmempool_dump := {
  du_fname : string;
  du_ofname : option string;
  du_hex : bool;
  du_bsize : Z;
  du_ranges : list range;
  du_str_ranges : option string;
  du_chunksize : Z;
  du_chunkcnt : Z;
  du_out : list byte;      (* what was written to the stream *)
  du_exit : option stop;   (* the process has ended *)
}.

Definition pmempool_dump_default : pmempool_dump :=
  {| du_fname := EmptyString; du_ofname := None; du_hex := true; du_bsize := 0; du_ranges := [];
     du_str_ranges := None; du_chunksize := 0; du_chunkcnt := 0; du_out := []; du_exit := None |}.

Definition du_set_ofname (d : pmempool_dump) (v : option string) : pmempool_dump :=
  {| du_fname := du_fname d; du_ofname := v; du_hex := du_hex d; du_bsize := du_bsize d; du_ranges := du_ranges d;
     du_str_ranges := du_str_ranges d; du_chunksize := du_chunksize d; du_chunkcnt := du_chunkcnt d;
     du_out := du_out d; du_exit := du_exit d |}.
Definition du_set_binary (d : pmempool_dump) : pmempool_dump :=
  {| du_fname := du_fname d; du_ofname := du_ofname d; du_hex := false; du_bsize := du_bsize d; du_ranges := du_ranges d;
     du_str_ranges := du_str_ranges d; du_chunksize := du_chunksize d; du_chunkcnt := du_chunkcnt d;
     du_out := du_out d; du_exit := du_exit d |}.
Definition du_set_str_ranges (d : pmempool_dump) (v : option string) : pmempool_dump :=
  {| du_fname := du_fname d; du_ofname := du_ofname d; du_hex := du_hex d; du_bsize := du_bsize d; du_ranges := du_ranges d;
     du_str_ranges := v; du_chunksize := du_chunksize d; du_chunkcnt := du_chunkcnt d;
     du_out := du_out d; du_exit := du_exit d |}.
Definition du_set_chunksize (d : pmempool_dump) (v : Z) : pmempool_dump :=
  {| du_fname := du_fname d; du_ofname := du_ofname d; du_hex := du_hex d; du_bsize := du_bsize d; du_ranges := du_ranges d;
     du_str_ranges := du_str_ranges d; du_chunksize := v; du_chunkcnt := du_chunkcnt d;
     du_out := du_out d; du_exit := du_exit d |}.
Definition du_set_fname (d : pmempool_dump) (v : string) : pmempool_dump :=
  {| du_fname := v; du_ofname := du_ofname d; du_hex := du_hex d; du_bsize := du_bsize d; du_ranges := du_ranges d;
     du_str_ranges := du_str_ranges d; du_chunksize := du_chunksize d; du_chunkcnt := du_chunkcnt d;
     du_out := du_out d; du_exit := du_exit d |}.
Definition du_set_bsize (d : pmempool_dump) (v : Z) : pmempool_dump :=
  {| du_fname := du_fname d; du_ofname := du_ofname d; du_hex := du_hex d; du_bsize := v; du_ranges := du_ranges d;
     du_str_ranges := du_str_ranges d; du_chunksize := du_chunksize d; du_chunkcnt := du_chunkcnt d;
     du_out := du_out d; du_exit := du_exit d |}.
Definition du_set_ranges (d : pmempool_dump) (v : list range) : pmempool_dump :=
  {| du_fname := du_fname d; du_ofname := du_ofname d; du_hex := du_hex d; du_bsize := du_bsize d; du_ranges := v;
     du_str_ranges := du_str_ranges d; du_chunksize := du_chunksize d; du_chunkcnt := du_chunkcnt d;
     du_out := du_out d; du_exit := du_exit d |}.
Definition du_set_chunkcnt (d : pmempool_dump) (v : Z) : pmempool_dump :=
  {| du_fname := du_fname d; du_ofname := du_ofname d; du_hex := du_hex d; du_bsize := du_bsize d; du_ranges := du_ranges d;
     du_str_ranges := du_str_ranges d; du_chunksize := du_chunksize d; du_chunkcnt := v;
     du_out := du_out d; du_exit := du_exit d |}.
Definition du_write (d : pmempool_dump) (bs : list byte) : pmempool_dump :=
  {| du_fname := du_fname d; du_ofname := du_ofname d; du_hex := du_hex d; du_bsize := du_bsize d; du_ranges := du_ranges d;
     du_str_ranges := du_str_ranges d; du_chunksize := du_chunksize d; du_chunkcnt := du_chunkcnt d;
     du_out := du_out d ++ bs; du_exit := du_exit d |}.
Definition du_end (d : pmempool_dump) (why : stop) : pmempool_dump :=
  {| du_fname := du_fname d; du_ofname := du_ofname d; du_hex := du_hex d; du_bsize := du_bsize d; du_ranges := du_ranges d;
     du_str_ranges := du_str_ranges d; du_chunksize := du_chunksize d; du_chunkcnt := du_chunkcnt d;
     du_out := du_out d; du_exit := Some why |}.

(** ** Arguments *)

Definition dump_parse_opt (d : pmempool_dump) (g : getopt_result) : pmempool_dump + Z :=
  match opt g with
  | x6f (* o *) => inl (du_set_ofname d (optarg g))
  | x62 (* b *) => inl (du_set_binary d)
  | x72 (* r *) => inl (du_set_str_ranges d (optarg g))
  | x63 (* c *) => inl (du_set_chunksize d (u64 (atoll (arg_of g))))
  | x3f (* ? *) => inr (if optopt_is_0 g then 0 else 1)
  | _ => inr 1
  end.

(** The context, or the status the process exits with. *)
Fixpoint dump_parse_opts (d : pmempool_dump) (gs : list getopt_result) : pmempool_dump + Z :=
  match gs with
  | [] => inl d
  | g :: gs => match dump_parse_opt d g with inl d => dump_parse_opts d gs | inr status => inr status end
  end.

(** ** Dumping *)

Section Dump.
Context `{Allocator}.
Context (e : env) (le : lenv).
(** Whether the stream takes the bytes, after those before them. *)
Context (fwrite_ok : list byte -> list byte -> bool).
(** The memory of ranges, and the walk over freed ones. *)
Context (heap : nat -> range) (free : freed_link).

(** *** A log *)

(** The first [n] bytes at [buf], the chunk at [off]; beyond the chunk they are
    what follows it in the mapping, and beyond the mapping nothing can be read. *)
Definition at_buf (plp : plog) (off : Z) (buf : list byte) (n : Z) : option (list byte) :=
  let len := Z.of_nat (length buf) in
  if n <=? len then Some (take (Z.to_nat n) buf)
  else if lp_size plp <? field64 plp START_OFF + off + n then None
  else Some (buf ++ load (lp_pm plp) (lp_addr plp + field64 plp START_OFF + off + len) (n - len)).

(** "if (fwrite (...) != 1) err(1, ...)": an item of no bytes is never written. *)
Definition write_or_exit (d : pmempool_dump) (bs : list byte) : pmempool_dump :=
  if negb (Nat.eqb (length bs) 0) && fwrite_ok (du_out d) bs then du_write d bs else du_end d ErrExit.

(** The bytes in hex, or as they are. *)
Definition dump_bytes (d : pmempool_dump) (bs : list byte) (offset : Z) : pmempool_dump :=
  if du_hex d then du_write d (outv_hexdump 0 0 bs offset false) else write_or_exit d bs.

(** The ranges one chunk is in. *)
Fixpoint dump_chunk_ranges (plp : plog) (buf : list byte) (rs : list range) (d : pmempool_dump) : pmempool_dump :=
  match rs with
  | [] => d
  | curp :: rs =>
      let off := u64 (du_chunksize d * du_chunkcnt d) in
      let d :=
        if (first curp <=? du_chunkcnt d) && (du_chunkcnt d <=? last curp) then
          match at_buf plp off buf (du_chunksize d) with
          | Some bs => dump_bytes d bs off
          | None => du_end d Segfault
          end
        else d in
      if du_exit d is Some _ then d else dump_chunk_ranges plp buf rs d
  end.

(** The ranges of the whole data: the ones dumped are cut to its length. *)
Fixpoint dump_data_ranges (buf : list byte) (rs : list range) (d : pmempool_dump) : pmempool_dump * list range :=
  match rs with
  | [] => (d, [])
  | curp :: rs =>
      let len := Z.of_nat (length buf) in
      if len <=? first curp then let '(d, rs) := dump_data_ranges buf rs d in (d, curp :: rs)
      else
        let curp := if len <=? last curp then set_last curp (u64 (len - 1)) else curp in
        let count := u64 (last curp - first curp + 1) in
        (* a range turned round has a count near 2^64, past any mapping *)
        let d := if count <=? len - first curp
                 then dump_bytes d (slice buf (Z.to_nat (first curp)) (Z.to_nat count)) (first curp)
                 else du_end d Segfault in
        if du_exit d is Some _ then (d, curp :: rs)
        else let '(d, rs) := dump_data_ranges buf rs d in (d, curp :: rs)
  end.

Definition pmempool_dump_log_process_chunk (plp : plog) (buf : list byte) (d : pmempool_dump) : bool * pmempool_dump :=
  if Nat.eqb (length buf) 0 then (false, d)
  else if negb (du_chunksize d =? 0) then
    let d := dump_chunk_ranges plp buf (du_ranges d) d in
    (if du_exit d is Some _ then false else true, if du_exit d is Some _ then d else du_set_chunkcnt d (u64 (du_chunkcnt d + 1)))
  else
    let '(d, rs) := dump_data_ranges buf (du_ranges d) d in
    (if du_exit d is Some _ then false else true, du_set_ranges d rs).

(** The ranges asked for, or the whole; [None] is an error. *)
Definition dump_choose_ranges (d : pmempool_dump) (entire : range) : fault + option pmempool_dump :=
  match du_str_ranges d with
  | Some s =>
      match util_parse_ranges free (bytes_of s) heap (du_ranges d) entire with
      | inl f => inl f
      | inr (false, _) => inr None
      | inr (true, rs) => inr (Some (du_set_ranges d rs))
      end
  | None => inr (Some (du_set_ranges d (util_ranges_add free (du_ranges d) (first entire) (last entire))))
  end.

(** The result, the context and the file system. *)
Definition dumped : Type := fault + (Z * pmempool_dump * fsys).

Definition pmempool_dump_log (fuel : nat) (d : pmempool_dump) (fs : fsys) : dumped :=
  match pmemlog_open le fs (du_fname d) with
  | (Fault f, _) => inl f
  | (Err _, fs) => inr (-1, d, fs)
  | (Done plp, fs) =>
      match pmemlog_nbyte plp with
      | (Fault f, _) => inl f
      | (Err _, plp) => inr (-1, d, pmemlog_close fs (du_fname d) plp)
      | (Done nbyte, plp) =>
          match dump_choose_ranges d {| first := 0; last := u64 (nbyte - 1) |} with
          | inl f => inl f
          | inr None => inr (-1, d, pmemlog_close fs (du_fname d) plp)
          | inr (Some d) =>
              let d := du_set_chunkcnt d 0 in
              match pmemlog_walk (pmempool_dump_log_process_chunk plp) fuel plp (du_chunksize d) d with
              | (Fault f, _) => inl f
              | (Err _, plp) => inr (-1, d, pmemlog_close fs (du_fname d) plp)
              | (Done d, plp) =>
                  match du_exit d with
                  | Some Segfault => inl Undefined
                  | _ => inr (0, d, pmemlog_close fs (du_fname d) plp)
                  end
              end
          end
      end
  end.

(** *** Blocks *)

(** The blocks of one range: the result, the context, the pool. *)
Fixpoint dump_blocks (n : nat) (i : Z) (ret : Z) (d : pmempool_dump) (p : pmemblk) : fault + (Z * pmempool_dump * pmemblk) :=
  match n with
  | O => inr (ret, d, p)
  | S n =>
      match pmemblk_read 1 p i with
      | (Fault f, _) => inl f
      | (Err _, p) => inr (-1, d, p)
      | (Done buff, p) =>
          if du_hex d then
            dump_blocks n (u64 (i + 1)) ret (du_write d (outv_hexdump 0 0 buff (u64 (i * du_bsize d)) false)) p
          else if fwrite_ok (du_out d) buff then dump_blocks n (u64 (i + 1)) ret (du_write d buff) p
          else inr (-1, d, p)
      end
  end.

(** "for (i = curp->first; i <= curp->last; i++)" for each range. *)
Fixpoint dump_block_ranges (rs : list range) (ret : Z) (d : pmempool_dump) (p : pmemblk) : fault + (Z * pmempool_dump * pmemblk) :=
  match rs with
  | [] => inr (ret, d, p)
  | curp :: rs =>
      match dump_blocks (Z.to_nat (last curp - first curp + 1)) (first curp) ret d p with
      | inl f => inl f
      | inr (ret, d, p) => dump_block_ranges rs ret d p
      end
  end.

Definition pmempool_dump_blk (d : pmempool_dump) (fs : fsys) : dumped :=
  match pmemblk_open e fs (du_fname d) (du_bsize d) with
  | (Fault f, _) => inl f
  | (Err _, fs) => inr (-1, d, fs)
  | (Done p, fs) =>
      match dump_choose_ranges d {| first := 0; last := u64 (pmemblk_nblock p - 1) |} with
      | inl f => inl f
      | inr None => inr (-1, d, pmemblk_close fs (du_fname d) p)
      | inr (Some d) =>
          match dump_block_ranges (du_ranges d) 0 d p with
          | inl f => inl f
          | inr (ret, d, p) => inr (ret, d, pmemblk_close fs (du_fname d) p)
          end
      end
  end.

(** *** The command *)

(** The file behind a stream. *)
Definition file_with (bs : list byte) : file :=
  {| f_size := Z.of_nat (length bs); f_bytes := fun z => nth (Z.to_nat z) bs x00 |}.

Definition fs_put (fs : fsys) (path : string) (f : file) : fsys :=
  {| files := <[path := f]> (files fs); space := space fs |}.

(** What is printed on standard output, and the file system. *)
Definition pmempool_dump_func (fuel : nat) (fopen_ok : bool) (gs : list getopt_result) (rest : list string)
    (fs : fsys) : fault + (ending * list byte * fsys) :=
  match dump_parse_opts pmempool_dump_default gs with
  | inr status => inr (Exited status, [], fs)
  | inl d =>
      match rest with
      | [] => inr (Exited 1, [], fs)
      | fname :: _ =>
          match files fs !! fname with
          | None => inr (Exited 1, [], fs)
          | Some _ =>
              let opened :=
                match du_ofname d with
                | None => Some fs
                | Some ofname => if fopen_ok then Some (fs_put fs ofname (file_with [])) else None
                end in
              match opened with
              | None => inr (Exited 1, [], fs)
              | Some fs =>
                  let d := du_set_fname d fname in
                  let '(type, _, bsize) := pmem_pool_parse_params fs fname in
                  let d := du_set_bsize d (default (du_bsize d) bsize) in
                  let r :=
                    if type =? PMEM_POOL_TYPE_LOG then pmempool_dump_log fuel d fs
                    else if type =? PMEM_POOL_TYPE_BLK then pmempool_dump_blk d fs
                    else inr (-1, d, fs) in
                  match r with
                  | inl f => inl f
                  | inr (ret, d, fs) =>
                      let ending := if du_exit d is Some _ then Exited 1 else Returned ret in
                      inr (match du_ofname d with
                           | None => (ending, du_out d, fs)
                           | Some ofname => (ending, [], fs_put fs ofname (file_with (du_out d)))
                           end)
                  end
              end
          end
      end
  end.
End Dump.
