(* ===== verification/PdumpSpec.v ===== *)
(** PdumpSpec: what pmempool dump writes.

    A dump is a function of the data a pool holds and the ranges asked for: a
    log as a whole or in chunks, blocks one after the other up to the first that
    cannot be read. *)

From stdpp Require Import strings.
From S2P Require Import Prelude Mem Util BttLayout Prog Btt BttInv BttSpec Blk BlkSpec Persist Pmem PmemSpec Log LogSpec Pcommon Pranges Poutput Pcreate Pdump.

(** ** The text of a dump *)

(** Bytes in hex, or as they are. *)
Definition render (hex : bool) (bs : list byte) (offset : Z) : list byte :=
  if hex then outv_hexdump 0 0 bs offset false else bs.

(** The part of a log in a range. *)
Definition data_text (hex : bool) (data : list byte) (r : range) : list byte :=
  let len := Z.of_nat (length data) in
  if len <=? first r then []
  else render hex (slice data (Z.to_nat (first r)) (Z.to_nat (Z.min (last r) (len - 1) - first r + 1))) (first r).

(** One chunk, once for each range its number is in. *)
Definition chunk_text (hex : bool) (size : Z) (rs : list range) (k : Z) (c : list byte) : list byte :=
  concat (map (fun r => if (first r <=? k) && (k <=? last r) then render hex c (u64 (size * k)) else []) rs).

Fixpoint chunk_texts (hex : bool) (size : Z) (rs : list range) (k : Z) (cs : list (list byte)) : list byte :=
  match cs with
  | [] => []
  | c :: cs => chunk_text hex size rs k c ++ chunk_texts hex size rs (k + 1) cs
  end.

Definition log_text (hex : bool) (size : Z) (rs : list range) (data : list byte) : list byte :=
  if size =? 0 then concat (map (data_text hex data) rs)
  else chunk_texts hex size rs 0 (walk_chunks size data).

(** Blocks from [i] on, and whether all of them could be read. *)
Fixpoint blocks_text (hex : bool) (bsize : Z) (dev : device) (lbs : Z) (n : nat) (i : Z) : list byte * bool :=
  match n with
  | O => ([], true)
  | S n =>
      match spec_read dev lbs i with
      | inl _ => ([], false)
      | inr bs =>
          let '(text, ok) := blocks_text hex bsize dev lbs n (i + 1) in
          (render hex bs (u64 (i * bsize)) ++ text, ok)
      end
  end.

Definition range_blocks (hex : bool) (bsize : Z) (dev : device) (lbs : Z) (r : range) : list byte * bool :=
  blocks_text hex bsize dev lbs (Z.to_nat (last r - first r + 1)) (first r).

(** ** The context *)

Lemma du_write_nil d : du_write d [] = d.
Proof. unfold du_write. rewrite app_nil_r. by destruct d. Qed.

Lemma du_write_app d a b : du_write (du_write d a) b = du_write d (a ++ b).
Proof. unfold du_write. cbn. by rewrite app_assoc. Qed.

(** What stays while the data are written. *)
Record same_job (d d' : pmempool_dump) : Prop := {
  sj_hex : du_hex d' = du_hex d;
  sj_bsize : du_bsize d' = du_bsize d;
  sj_size : du_chunksize d' = du_chunksize d;
  sj_fname : du_fname d' = du_fname d;
  sj_out : du_out d' = du_out d;
  sj_exit : du_exit d' = du_exit d;
}.

Section Dump.
Context `{Allocator}.
Context (fwrite_ok : list byte -> list byte -> bool) (Hwrite : forall out bs, fwrite_ok out bs = true).

Lemma dump_bytes_ok d bs off : bs <> [] -> dump_bytes fwrite_ok d bs off = du_write d (render (du_hex d) bs off).
Proof.
  intros Hne. unfold dump_bytes, write_or_exit, render. destruct (du_hex d); [done|].
  rewrite Hwrite. by destruct bs.
Qed.

(** ** Logs *)

Section Chunks.
Context (plp : plog).

Lemma dump_chunk_ranges_ok buf rs d :
  du_exit d = None -> buf <> [] -> Z.of_nat (length buf) = du_chunksize d ->
  dump_chunk_ranges fwrite_ok plp buf rs d =
    du_write d (chunk_text (du_hex d) (du_chunksize d) rs (du_chunkcnt d) buf).
Proof.
  intros He Hne Hl. unfold chunk_text. revert d He Hl. induction rs as [|r rs IH]; intros d He Hl; cbn [dump_chunk_ranges map concat].
  { by rewrite du_write_nil. }
  assert (at_buf plp (u64 (du_chunksize d * du_chunkcnt d)) buf (du_chunksize d) = Some buf) as ->.
  { unfold at_buf. rewrite Hl, Z.leb_refl. by rewrite take_ge by lia. }
  destruct (_ && _).
  - rewrite dump_bytes_ok by done. change (du_exit (du_write d ?x)) with (du_exit d). rewrite He, IH by done.
    by rewrite du_write_app.
  - rewrite He, IH by done. done.
Qed.

Lemma process_chunk_ok c d :
  du_exit d = None -> du_chunksize d <> 0 -> c <> [] -> Z.of_nat (length c) = du_chunksize d ->
  pmempool_dump_log_process_chunk fwrite_ok plp c d =
    (true, du_set_chunkcnt (du_write d (chunk_text (du_hex d) (du_chunksize d) (du_ranges d) (du_chunkcnt d) c))
             (u64 (du_chunkcnt d + 1))).
Proof.
  intros He Hs Hne Hc. unfold pmempool_dump_log_process_chunk.
  rewrite (proj2 (Nat.eqb_neq (length c) 0)) by (by destruct c).
  rewrite (proj2 (Z.eqb_neq _ 0) Hs). cbn [negb]. rewrite dump_chunk_ranges_ok by done. cbn [du_exit du_write]. by rewrite He.
Qed.

Lemma feed_chunks cs d :
  du_exit d = None -> du_chunksize d <> 0 -> Forall (fun c => c <> [] /\ Z.of_nat (length c) = du_chunksize d) cs ->
  0 <= du_chunkcnt d -> du_chunkcnt d + Z.of_nat (length cs) < 2 ^ 64 ->
  let d' := feed (pmempool_dump_log_process_chunk fwrite_ok plp) cs d in
  du_exit d' = None /\
  du_out d' = du_out d ++ chunk_texts (du_hex d) (du_chunksize d) (du_ranges d) (du_chunkcnt d) cs.
Proof.
  intros He Hs Hcs Hk Hlen. revert d He Hs Hcs Hk Hlen.
  induction cs as [|c cs IH]; intros d He Hs Hcs Hk Hlen; cbn [feed chunk_texts].
  { split; [done|]. by rewrite app_nil_r. }
  apply Forall_cons in Hcs as [[Hne Hc] Hcs].
  rewrite process_chunk_ok by done. set (d2 := du_set_chunkcnt _ _). cbn [length] in Hlen.
  destruct (IH d2) as [E1 E2]; [done|done|done|cbn; rewrite u64_id by lia; lia|cbn; rewrite u64_id by lia; lia|]. split; [exact E1|].
  rewrite E2. unfold d2. cbn [du_set_chunkcnt du_write du_out du_hex du_chunksize du_ranges du_chunkcnt].
  rewrite u64_id by lia. by rewrite app_assoc.
Qed.

Lemma dump_data_ranges_ok data rs d :
  du_exit d = None -> Forall range_ok rs -> Z.of_nat (length data) < 2 ^ 63 ->
  exists rs', dump_data_ranges fwrite_ok data rs d =
    (du_write d (concat (map (data_text (du_hex d) data) rs)), rs').
Proof.
  intros He Hrs Hl. revert d He. induction Hrs as [|r rs [Hr Hr'] Hrs IH]; intros d He; cbn [dump_data_ranges map concat].
  { exists []. by rewrite du_write_nil. }
  unfold data_text at 1. destruct (Z.leb_spec (Z.of_nat (length data)) (first r)) as [Hge|Hlt].
  { destruct (IH d He) as (rs' & ->). by exists (r :: rs'). }
  set (cur := if _ <=? last r then _ else r).
  assert (first cur = first r /\ last cur = Z.min (last r) (Z.of_nat (length data) - 1)) as [-> ->].
  { unfold cur. destruct (Z.leb_spec (Z.of_nat (length data)) (last r)); cbn [set_last first last].
    - rewrite u64_id by lia. split; lia.
    - split; [done|lia]. }
  rewrite u64_id by lia. set (count := Z.min _ _ - first r + 1).
  replace (count <=? Z.of_nat (length data) - first r) with true by (symmetry; apply Z.leb_le; lia).
  rewrite dump_bytes_ok.
  2: { intros E. apply (f_equal length) in E. rewrite length_slice in E by (unfold count; lia). cbn in E. unfold count in E. lia. }
  change (du_exit (du_write d ?x)) with (du_exit d). rewrite He.
  destruct (IH (du_write d (render (du_hex d) (slice data (Z.to_nat (first r)) (Z.to_nat count)) (first r))) He) as (rs' & ->).
  eexists. cbn [du_hex du_write]. by rewrite du_write_app.
Qed.
End Chunks.

(** Whole chunks. *)
Lemma chunks_full n k : forall fuel l, (0 < n)%nat -> length l = (k * n)%nat ->
  Forall (fun c => c <> [] /\ length c = n) (chunks fuel n l) /\ (length (chunks fuel n l) <= k)%nat.
Proof.
  induction k as [|k IH]; intros fuel l Hn Hl.
  { destruct l; [|done]. destruct fuel; cbn; by split. }
  destruct fuel as [|fuel]; [cbn; split; [constructor|lia]|].
  destruct l as [|b l]; [cbn in *; lia|]. cbn [chunks length].
  destruct (IH fuel (drop n (b :: l)) Hn) as [Hf Hk]; [rewrite length_drop; lia|].
  split; [|lia]. constructor; [|done]. assert (length (take n (b :: l)) = n) as Ht by (rewrite length_take; lia).
  split; [|done]. intros E. rewrite E in Ht. cbn in Ht. lia.
Qed.

Lemma choose_same heap free d entire d' :
  dump_choose_ranges heap free d entire = inr (Some d') -> same_job d d'.
Proof. unfold dump_choose_ranges. repeat case_match; intros E; try discriminate; injection E as <-; by split. Qed.

(** The whole of the data, when no range is asked for. *)
Lemma whole_chunk_texts cs size l k :
  Z.of_nat (length cs) + k <= l + 1 -> 0 <= k -> chunk_texts false size [{| first := 0; last := l |}] k cs = concat cs.
Proof.
  revert k. induction cs as [|c cs IH]; intros k Hl Hk; [done|]. cbn [chunk_texts chunk_text concat map first last length] in *.
  replace ((0 <=? k) && (k <=? l)) with true by (symmetry; apply andb_true_iff; rewrite !Z.leb_le; lia).
  rewrite IH by lia. cbn [render]. by rewrite app_nil_r.
Qed.

Lemma length_chunks fuel n l : (length (chunks fuel n l) <= fuel)%nat.
Proof.
  revert l. induction fuel as [|fuel IH]; intros l; [done|].
  destruct l as [|b l]; cbn [chunks length]; [lia|]. specialize (IH (drop n (b :: l))). lia.
Qed.

Lemma log_text_whole size l data :
  0 <= size -> Z.of_nat (length data) <= l + 1 -> log_text false size [{| first := 0; last := l |}] data = data.
Proof.
  intros Hs Hl. unfold log_text, walk_chunks. destruct (Z.eqb_spec size 0).
  - cbn [map concat]. unfold data_text. cbn [first last]. rewrite app_nil_r.
    destruct (Z.leb_spec (Z.of_nat (length data)) 0); [by destruct data|].
    cbn [render]. rewrite Z.min_r by lia. unfold slice. rewrite Z2Nat.inj_0, drop_0. apply take_ge. lia.
  - rewrite whole_chunk_texts; [|pose proof (length_chunks (length data) (Z.to_nat size) data); lia|done].
    apply concat_chunks; lia.
Qed.


(** ** Blocks *)

Lemma read_block_dumped p dev i :
  pool_inv p dev -> 0 <= i < 2 ^ 64 ->
  exists p', pmemblk_read 1 p i = (outcome_of (spec_read dev (lbasize (p_btt p)) i), p') /\ pool_inv p' dev /\
    lbasize (p_btt p') = lbasize (p_btt p) /\ p_file p' = p_file p.
Proof.
  intros Hinv Hi. unfold pmemblk_read. rewrite u64_id by lia.
  destruct (on_lane_run (fun lane => btt_read 1 lane i) p dev Hinv) as (lane & Hl & E).
  pose proof (pi_lanes _ _ Hinv).
  rewrite (read_device 0 (p_ns p) (p_btt p) dev) in E by (done || apply Hinv || (unfold lane_ok; lia) || lia).
  rewrite E. eexists. split; [reflexivity|]. split; [|split; done].
  by apply (pool_inv_step p dev); try apply Hinv.
Qed.

Lemma dump_blocks_ok dev n : forall i ret d p,
  pool_inv p dev -> 0 <= i -> i + Z.of_nat n < 2 ^ 64 ->
  exists p', let '(text, ok) := blocks_text (du_hex d) (du_bsize d) dev (lbasize (p_btt p)) n i in
    dump_blocks fwrite_ok n i ret d p = inr (if ok then ret else -1, du_write d text, p') /\ pool_inv p' dev /\
    lbasize (p_btt p') = lbasize (p_btt p) /\ p_file p' = p_file p.
Proof.
  induction n as [|n IH]; intros i ret d p Hinv Hi Hn; cbn [blocks_text dump_blocks].
  { exists p. by rewrite du_write_nil. }
  destruct (read_block_dumped p dev i Hinv ltac:(lia)) as (p1 & -> & Hinv1 & Hlb & Hfile).
  destruct (spec_read dev (lbasize (p_btt p)) i) as [err|bs]; cbn [outcome_of].
  { exists p1. by rewrite du_write_nil. }
  rewrite (u64_id (i + 1)) by lia. rewrite Hwrite.
  destruct (IH (i + 1) ret (du_write d (render (du_hex d) bs (u64 (i * du_bsize d)))) p1 Hinv1 ltac:(lia) ltac:(lia)) as (p2 & IH').
  cbn [du_write du_hex du_bsize] in IH'. rewrite Hlb in IH'. destruct (blocks_text _ _ _ _ _ _) as [text ok].
  destruct IH' as (E & Hinv2 & Hlb2 & Hfile2). exists p2.
  rewrite <- du_write_app. split; [|by rewrite Hfile2].
  unfold render in *. unfold du_write in E |- *. cbn in *. by destruct (du_hex d).
Qed.

(** All the ranges. *)
Lemma dump_block_ranges_ok dev rs : forall ret d p,
  pool_inv p dev -> Forall range_ok rs ->
  let texts := map (range_blocks (du_hex d) (du_bsize d) dev (lbasize (p_btt p))) rs in
  exists p', dump_block_ranges fwrite_ok rs ret d p =
    inr (if forallb snd texts then ret else -1, du_write d (concat (map fst texts)), p') /\ p_file p' = p_file p.
Proof.
  induction rs as [|r rs IH]; intros ret d p Hinv Hrs; cbn [dump_block_ranges map concat forallb].
  { exists p. by rewrite du_write_nil. }
  apply Forall_cons in Hrs as [[Hr Hr'] Hrs]. cbv zeta.
  destruct (dump_blocks_ok dev (Z.to_nat (last r - first r + 1)) (first r) ret d p Hinv ltac:(lia) ltac:(lia)) as (p1 & Hb).
  unfold range_blocks at 1 3. destruct (blocks_text _ _ _ _ _ _) as [text ok].
  destruct Hb as (-> & Hinv1 & Hlb & Hf). cbn [fst snd].
  destruct (IH (if ok then ret else -1) (du_write d text) p1 Hinv1 Hrs) as (p2 & E & Hf2).
  cbn [du_write du_hex du_bsize] in E. rewrite Hlb in E. exists p2. rewrite Hf2. split; [|done].
  rewrite E. change (range_blocks (du_hex d) ?b dev ?l) with (range_blocks (du_hex d) b dev l).
  rewrite <- (du_write_app d text). destruct ok; cbn [andb]; [done|]. by destruct (forallb _ _).
Qed.

End Dump.
