(* ===== verification/Pinfo.v ===== *)
(** Pinfo: src/src/tools/pmempool/info.c, showing what a pool holds.

    What is shown is a list of items, one for each thing printed at a verbosity
    level that is on; how numbers, sizes, times and percentages look as text is
    left out.  The ranges asked for are state: the code cuts them to the data of
    the file at hand, and they stay cut for the next one. *)

From stdpp Require Import strings.
From S2P Require Import Prelude Mem Util BttLayout Prog StateM Btt Blk Log Pcommon Pranges Poutput Pcreate.

Open Scope stateM_scope.

(** ** Arguments *)

Definition VERBOSE_DEFAULT : Z := 1.
Definition VERBOSE_MAX : Z := 2.
Definition VERBOSE_SILENT : Z := 3.

Record info_args := {
  ia_human : bool;
  ia_force : bool;
  ia_type : Z;
  ia_skip_zeros : bool;
  ia_skip_error : bool;
  ia_skip_no_flag : bool;
  ia_use_range : bool;
  ia_entire : range;
  ia_walk : Z;
  ia_vlevel : Z;
  ia_vdata : Z;
  ia_vmap : Z;
  ia_vflog : Z;
  ia_vbackup : Z;
  ia_vhdrdump : Z;
  ia_vstats : Z;
}.

Definition info_args_default : info_args :=
  {| ia_human := false; ia_force := false; ia_type := PMEM_POOL_TYPE_NONE; ia_skip_zeros := false;
     ia_skip_error := false; ia_skip_no_flag := false; ia_use_range := false;
     ia_entire := {| first := 0; last := 2 ^ 64 - 1 |}; ia_walk := 0; ia_vlevel := VERBOSE_DEFAULT;
     ia_vdata := VERBOSE_SILENT; ia_vmap := VERBOSE_SILENT; ia_vflog := VERBOSE_SILENT;
     ia_vbackup := VERBOSE_SILENT; ia_vhdrdump := VERBOSE_SILENT; ia_vstats := VERBOSE_SILENT |}.

(** The flags, all of them at once. *)
Definition ia_set_flags (a : info_args) (human skip_zeros skip_error skip_no_flag use_range : bool) : info_args :=
  {| ia_human := human; ia_force := ia_force a; ia_type := ia_type a; ia_skip_zeros := skip_zeros;
     ia_skip_error := skip_error; ia_skip_no_flag := skip_no_flag; ia_use_range := use_range;
     ia_entire := ia_entire a; ia_walk := ia_walk a; ia_vlevel := ia_vlevel a; ia_vdata := ia_vdata a;
     ia_vmap := ia_vmap a; ia_vflog := ia_vflog a; ia_vbackup := ia_vbackup a; ia_vhdrdump := ia_vhdrdump a;
     ia_vstats := ia_vstats a |}.
(** The verbosity levels. *)
Definition ia_set_levels (a : info_args) (vlevel vdata vmap vflog vbackup vhdrdump vstats : Z) : info_args :=
  {| ia_human := ia_human a; ia_force := ia_force a; ia_type := ia_type a; ia_skip_zeros := ia_skip_zeros a;
     ia_skip_error := ia_skip_error a; ia_skip_no_flag := ia_skip_no_flag a; ia_use_range := ia_use_range a;
     ia_entire := ia_entire a; ia_walk := ia_walk a; ia_vlevel := vlevel; ia_vdata := vdata; ia_vmap := vmap;
     ia_vflog := vflog; ia_vbackup := vbackup; ia_vhdrdump := vhdrdump; ia_vstats := vstats |}.
(** The type forced and the chunk size. *)
Definition ia_set_type (a : info_args) (force : bool) (type walk : Z) : info_args :=
  {| ia_human := ia_human a; ia_force := force; ia_type := type; ia_skip_zeros := ia_skip_zeros a;
     ia_skip_error := ia_skip_error a; ia_skip_no_flag := ia_skip_no_flag a; ia_use_range := ia_use_range a;
     ia_entire := ia_entire a; ia_walk := walk; ia_vlevel := ia_vlevel a; ia_vdata := ia_vdata a;
     ia_vmap := ia_vmap a; ia_vflog := ia_vflog a; ia_vbackup := ia_vbackup a; ia_vhdrdump := ia_vhdrdump a;
     ia_vstats := ia_vstats a |}.

(** One option: the arguments and the ranges, the status of exit, or the error of
    parse_args. *)
Inductive info_parsed := InfoOk (a : info_args) (rs : list range) | InfoExit (status : Z) | InfoError.

Definition info_parse_opt (free : freed_link) (heap : nat -> range) (a : info_args) (rs : list range)
    (g : getopt_result) : fault + info_parsed :=
  let flags := ia_set_flags a in
  let levels := ia_set_levels a in
  match opt g with
  | x56 (* V *) => inr (InfoExit 0)
  | x3f (* ? *) => inr (InfoExit (if optopt_is_0 g then 0 else 1))
  | x76 (* v *) => inr (InfoOk (levels VERBOSE_MAX (ia_vdata a) (ia_vmap a) (ia_vflog a) (ia_vbackup a) (ia_vhdrdump a) (ia_vstats a)) rs)
  | x68 (* h *) => inr (InfoOk (flags true (ia_skip_zeros a) (ia_skip_error a) (ia_skip_no_flag a) (ia_use_range a)) rs)
  | x66 (* f *) =>
      let type := pmem_pool_type_parse_str (arg_of g) in
      inr (if type =? PMEM_POOL_TYPE_UNKNOWN then InfoError else InfoOk (ia_set_type a true type (ia_walk a)) rs)
  | x65 (* e *) => inr (InfoOk (flags (ia_human a) (ia_skip_zeros a) true (ia_skip_no_flag a) (ia_use_range a)) rs)
  | x7a (* z *) => inr (InfoOk (flags (ia_human a) true (ia_skip_error a) (ia_skip_no_flag a) (ia_use_range a)) rs)
  | x75 (* u *) => inr (InfoOk (flags (ia_human a) (ia_skip_zeros a) (ia_skip_error a) true (ia_use_range a)) rs)
  | x72 (* r *) =>
      match util_parse_ranges free (arg_of g) heap rs (ia_entire a) with
      | inl f => inl f
      | inr (false, _) => inr InfoError
      | inr (true, rs) =>
          inr (InfoOk (flags (ia_human a) (ia_skip_zeros a) (ia_skip_error a) (ia_skip_no_flag a) true) rs)
      end
  | x64 (* d *) => inr (InfoOk (levels (ia_vlevel a) VERBOSE_DEFAULT (ia_vmap a) (ia_vflog a) (ia_vbackup a) (ia_vhdrdump a) (ia_vstats a)) rs)
  | x6d (* m *) => inr (InfoOk (levels (ia_vlevel a) (ia_vdata a) VERBOSE_DEFAULT (ia_vflog a) (ia_vbackup a) (ia_vhdrdump a) (ia_vstats a)) rs)
  | x67 (* g *) => inr (InfoOk (levels (ia_vlevel a) (ia_vdata a) (ia_vmap a) VERBOSE_DEFAULT (ia_vbackup a) (ia_vhdrdump a) (ia_vstats a)) rs)
  | x42 (* B *) => inr (InfoOk (levels (ia_vlevel a) (ia_vdata a) (ia_vmap a) (ia_vflog a) VERBOSE_DEFAULT (ia_vhdrdump a) (ia_vstats a)) rs)
  | x78 (* x *) => inr (InfoOk (levels (ia_vlevel a) (ia_vdata a) (ia_vmap a) (ia_vflog a) (ia_vbackup a) VERBOSE_DEFAULT (ia_vstats a)) rs)
  | x73 (* s *) => inr (InfoOk (levels (ia_vlevel a) (ia_vdata a) (ia_vmap a) (ia_vflog a) (ia_vbackup a) (ia_vhdrdump a) VERBOSE_DEFAULT) rs)
  | x77 (* w *) =>
      let walk := u64 (atoll (arg_of g)) in
      inr (if walk =? 0 then InfoError else InfoOk (ia_set_type a (ia_force a) (ia_type a) walk) rs)
  | _ => inr InfoError
  end.

Fixpoint info_parse_opts (free : freed_link) (heaps : nat -> nat -> range) (a : info_args) (rs : list range)
    (gs : list getopt_result) : fault + info_parsed :=
  match gs with
  | [] => inr (InfoOk a rs)
  | g :: gs =>
      match info_parse_opt free (heaps (length gs)) a rs g with
      | inr (InfoOk a rs) => info_parse_opts free heaps a rs gs
      | r => r
      end
  end.

(** parse_args: [no_args] when there is no argument at all. *)
Definition info_parse_args (free : freed_link) (heaps : nat -> nat -> range) (no_args : bool) (gs : list getopt_result)
  : fault + info_parsed :=
  if no_args then inr InfoError
  else
    match info_parse_opts free heaps info_args_default [] gs with
    | inr (InfoOk a rs) =>
        inr (InfoOk a (if negb (ia_use_range a) then util_ranges_add free rs (first (ia_entire a)) (last (ia_entire a)) else rs))
    | r => r
    end.

(** ** What is shown *)

Inductive value :=
| VNum (z : Z)                        (* a number, a flag or an offset *)
| VSize (z : Z)                       (* out_get_size_str *)
| VBytes (bs : list byte)             (* a signature or a UUID *)
| VTime (z : Z)
| VChecksum (valid : bool) (csum right_csum : Z)
| VOffset (z : Z) (ok : bool)         (* the write offset: OK or ERROR *)
| VShare (n total : Z)                (* a number and its percentage of a total *)
| VEntry (entry : Z) (state : Z * map_state).

Inductive item :=
| Heading (s : string)
| ArenaHeading (narena : Z)                                          (* "[ARENA n]", "PMEM BLK BTT Info Header" *)
| ChunksHeading (nchunks walk : Z)                                   (* "PMEMLOG data", with the number of chunks and their size *)
| Field (name : string) (v : value)
| Hexdump (bs : list byte) (off : Z)
| ChunkDump (i : Z) (bs : list byte) (off : Z)                       (* "Chunk i" and its dump *)
| BlockDump (n : Z) (state : Z * map_state) (bs : list byte) (off : Z) (* "Block n" and its dump *)
| MapLine (n : Z) (state : Z * map_state)
| FlogLine (i : Z)
| FileName (name : string).

Record info_state := { is_out : list item; is_ranges : list range }.

Definition info (A : Type) : Type := M info_state A.

Definition emit (it : item) : info unit :=
  modM (fun s => {| is_out := is_out s ++ [it]; is_ranges := is_ranges s |}).
Definition get_ranges : info (list range) := s <- getM ;; ret (is_ranges s).
Definition put_ranges (rs : list range) : info unit := modM (fun s => {| is_out := is_out s; is_ranges := rs |}).

(** ** Reading the file *)

Section Info.
Context (a : info_args) (f : file).
(** Whether mmap maps this many bytes of the file at this offset, and the size of a
    page. *)
Context (mmap_ok : Z -> Z -> bool) (Pagesize : Z).

Definition outv_on (v : Z) : bool := outv_check (ia_vlevel a) v.
Definition outv (v : Z) (it : item) : info unit := if outv_on v then emit it else ret tt.
Definition outv_hex (v : Z) (bs : list byte) (off : Z) : info unit :=
  if outv_on v && negb (Nat.eqb (length bs) 0) then emit (Hexdump bs off) else ret tt.

(** pread: [None] when it fails or is short.  The offset is an off_t. *)
Definition pmempool_info_read (nbytes off : Z) : option (list byte) :=
  let off := s64 off in
  if off <? 0 then None
  else if (nbytes =? 0) || (off + nbytes <=? f_size f) then Some (mread (f_bytes f) off nbytes)
  else None.

(** ** Ranges *)

(** The part of a range in the [max + 1] blocks from [offset] on, relative to them. *)
Definition pmempool_info_get_range (curp : range) (max offset : Z) : option range :=
  if negb (ia_use_range a) then Some {| first := 0; last := max |}
  else if u64 (offset + max) <? first curp then None
  else
    let f := if u64 offset <=? first curp then u64 (first curp - offset) else 0 in
    if last curp <? u64 offset then None
    else Some {| first := f; last := if last curp <=? u64 (offset + max) then u64 (last curp - offset) else max |}.

(** ** Headers *)

Definition pmempool_info_pool_hdr (v : Z) : info Z :=
  match pmempool_info_read POOL_HDR_SIZE 0 with
  | None => ret (-1)
  | Some bs =>
      let h := pool_hdr_of bs in
      outv v (Heading "POOL Header") ;;;
      outv_hex (ia_vhdrdump a) bs 0 ;;;
      outv v (Field "Signature" (VBytes (signature h))) ;;;
      outv v (Field "Major" (VNum (major h))) ;;;
      outv v (Field "Mandatory features" (VNum (incompat_features h))) ;;;
      outv v (Field "Not mandatory features" (VNum (compat_features h))) ;;;
      outv v (Field "Forced RO" (VNum (ro_compat_features h))) ;;;
      outv v (Field "UUID" (VBytes (uuid h))) ;;;
      outv v (Field "Creation Time" (VTime (crtime h))) ;;;
      (let '(valid, csum, right_csum) := out_get_checksum bs 4088 in
       outv v (Field "Checksum" (VChecksum valid csum right_csum))) ;;;
      ret 0
  end.

(** ** Logs *)

(** Bytes of the private mapping of [len] bytes at [start], pages as a whole; past
    the last page of the file there is nothing. *)
Definition mapped_bytes (start len off count : Z) : info (list byte) :=
  if roundup len Pagesize <? off + count then fail Undefined
  else if roundup (f_size f) Pagesize <? start + off + count then fail Undefined
  else ret (mread (fun z => if z <? f_size f then f_bytes f z else x00) (start + off) count).

(** The loop over the ranges of the whole data: what is left of [size_used], and
    the ranges cut. *)
Fixpoint log_ranges_loop (v start len size_used : Z) (rs : list range) : info (list range) :=
  match rs with
  | [] => ret []
  | curp :: rs =>
      let curp := if size_used <=? last curp then set_last curp (u64 (size_used - 1)) else curp in
      let count := u64 (last curp - first curp + 1) in
      bs <- mapped_bytes start len (first curp) count ;;
      outv_hex v bs (u64 (first curp + start)) ;;;
      let size_used := u64 (size_used - count) in
      if size_used =? 0 then ret (curp :: rs)
      else rs <- log_ranges_loop v start len size_used rs ;; ret (curp :: rs)
  end.

(** The chunks of one range. *)
Fixpoint log_chunks_loop (n : nat) (v start len walk i : Z) : info unit :=
  match n with
  | O => ret tt
  | S n =>
      bs <- mapped_bytes start len (i * walk) walk ;;
      outv v (ChunkDump i bs (u64 (start + i * walk))) ;;;
      log_chunks_loop n v start len walk (i + 1)
  end.

Definition log_chunk_ranges (v start len walk nchunks : Z) (rs : list range) : info unit :=
  fold_right (fun curp k =>
    log_chunks_loop (Z.to_nat (Z.min (last curp + 1) nchunks - first curp)) v start len walk (first curp) ;;; k) (ret tt) rs.

Definition pmempool_info_log_data (v start write_offset : Z) : info Z :=
  if negb (outv_on v) then ret 0
  else
    let size_used := u64 (write_offset - start) in
    if size_used =? 0 then ret 0
    else if negb (mmap_ok size_used start) then ret (-1)
    else if ia_walk a =? 0 then
      outv v (Heading "PMEMLOG data") ;;;
      rs <- get_ranges ;;
      rs <- log_ranges_loop v start size_used size_used rs ;;
      put_ranges rs ;;;
      ret 0
    else
      let nchunks := u32 (size_used / ia_walk a) in
      outv v (ChunksHeading nchunks (ia_walk a)) ;;;
      rs <- get_ranges ;;
      log_chunk_ranges v start size_used (ia_walk a) nchunks rs ;;;
      ret 0.

Definition pmempool_info_log_stats (v start end_offset write_offset : Z) : info unit :=
  let size_total := u64 (end_offset - start) in
  let size_used := u64 (write_offset - start) in
  let size_avail := u64 (size_total - size_used) in
  if size_total =? 0 then ret tt
  else
    outv v (Heading "PMEM LOG statistics") ;;;
    outv v (Field "Total" (VSize size_total)) ;;;
    outv v (Field "Available" (VShare size_avail size_total)) ;;;
    outv v (Field "Used" (VShare size_used size_total)).

Definition pmempool_info_log (v : Z) : info Z :=
  match pmempool_info_read SIZEOF_PMEMLOG 0 with
  | None => ret (-1)
  | Some bs =>
      let at64 off := le_at bs (Z.to_nat off) 8 in
      let at32 off := le_at bs (Z.to_nat off) 4 in
      let start := at64 START_OFF in
      let end_offset := at64 END_OFF in
      let write_offset := at64 WRITE_OFF in
      let write_offset_valid := (start <=? write_offset) && (write_offset <=? end_offset) in
      outv v (Heading "PMEM LOG header") ;;;
      outv_hex (ia_vhdrdump a) (drop (Z.to_nat POOL_HDR_SIZE) bs) POOL_HDR_SIZE ;;;
      outv v (Field "Start offset" (VNum start)) ;;;
      outv v (Field "Write offset" (VOffset write_offset write_offset_valid)) ;;;
      outv v (Field "End offset" (VNum end_offset)) ;;;
      outv (v + 1) (Field "Mapped size" (VNum (at64 4128))) ;;;
      outv (v + 1) (Field "is_pmem" (VNum (at32 4136))) ;;;
      outv (v + 1) (Field "Read-only" (VNum (at32 4140))) ;;;
      if write_offset_valid then
        pmempool_info_log_stats (ia_vstats a) start end_offset write_offset ;;;
        pmempool_info_log_data (ia_vdata a) start write_offset
      else ret 0
  end.

(** ** Blocks *)

Definition pmempool_info_btt_info (v : Z) (bs : list byte) : info Z :=
  let i := btt_info_of bs in
  outv v (Field "Signature" (VBytes (i_sig i))) ;;;
  outv v (Field "UUID of container" (VBytes (i_parent_uuid i))) ;;;
  outv v (Field "Flags" (VNum (i_flags i))) ;;;
  outv v (Field "Major" (VNum (i_major i))) ;;;
  outv v (Field "Minor" (VNum (i_minor i))) ;;;
  outv v (Field "External LBA size" (VSize (i_external_lbasize i))) ;;;
  outv v (Field "External LBA count" (VNum (i_external_nlba i))) ;;;
  outv v (Field "Internal LBA size" (VSize (i_internal_lbasize i))) ;;;
  outv v (Field "Internal LBA count" (VNum (i_internal_nlba i))) ;;;
  outv v (Field "Free blocks" (VNum (i_nfree i))) ;;;
  outv v (Field "Info block size" (VSize (i_infosize i))) ;;;
  outv v (Field "Next arena offset" (VNum (i_nextoff i))) ;;;
  outv v (Field "Arena data offset" (VNum (i_dataoff i))) ;;;
  outv v (Field "Area map offset" (VNum (i_mapoff i))) ;;;
  outv v (Field "Area flog offset" (VNum (i_flogoff i))) ;;;
  outv v (Field "Info block backup offset" (VNum (i_infooff i))) ;;;
  (let '(valid, csum, right_csum) := out_get_checksum bs INFO_CSUM in
   outv v (Field "Checksum" (VChecksum valid csum right_csum))) ;;;
  ret 0.

Definition pmempool_info_blk_skip_block (is_zero is_error : bool) : bool :=
  if ia_skip_no_flag a && negb is_zero && negb is_error then true
  else if is_zero && ia_skip_zeros a then true
  else if is_error && ia_skip_error a then true
  else false.

Definition info_is_zero (entry : Z) : bool := (entry_flags entry =? BTT_MAP_ENTRY_ZERO) || (entry_flags entry =? 0).
Definition info_is_error (entry : Z) : bool := entry_flags entry =? BTT_MAP_ENTRY_ERROR.

(** le32toh (map[i]); beyond what was allocated there is nothing. *)
Definition map_at (map : list byte) (i : Z) : info Z :=
  if (0 <=? i) && (4 * i + 4 <=? Z.of_nat (length map)) then ret (le_at map (Z.to_nat (4 * i)) 4) else fail Undefined.

(** The blocks of one range; [None] when one cannot be read. *)
Fixpoint btt_data_loop (n : nat) (v : Z) (infop : btt_info) (arena_off offset : Z) (map : list byte) (i count : Z)
  : info (option Z) :=
  match n with
  | O => ret (Some count)
  | S n =>
      entry <- map_at map i ;;
      if pmempool_info_blk_skip_block (info_is_zero entry) (info_is_error entry) then
        btt_data_loop n v infop arena_off offset map (i + 1) count
      else
        let block_off := u64 (arena_off + i_dataoff infop + u32 (entry_lba entry * i_internal_lbasize infop)) in
        match pmempool_info_read (i_external_lbasize infop) block_off with
        | None => ret None
        | Some block_buff =>
            (if count =? 0 then outv v (Heading "PMEM BLK blocks data") else ret tt) ;;;
            outv v (BlockDump (offset + i) (out_get_btt_map_entry entry) block_buff block_off) ;;;
            btt_data_loop n v infop arena_off offset map (i + 1) (count + 1)
        end
  end.

Definition range_length (r : range) : nat := Z.to_nat (last r - first r + 1).

Fixpoint btt_data_ranges (v : Z) (infop : btt_info) (arena_off offset : Z) (map : list byte) (rs : list range) (count : Z)
  : info (option Z) :=
  match rs with
  | [] => ret (Some count)
  | curp :: rs =>
      match pmempool_info_get_range curp (u32 (i_external_nlba infop - 1)) offset with
      | None => btt_data_ranges v infop arena_off offset map rs count
      | Some r =>
          c <- btt_data_loop (range_length r) v infop arena_off offset map (first r) count ;;
          match c with
          | None => ret None
          | Some count => btt_data_ranges v infop arena_off offset map rs count
          end
      end
  end.

Definition btt_map_size (infop : btt_info) : Z := u32 (i_external_nlba infop * BTT_MAP_ENTRY_SIZE).

(** [None] is an error, otherwise the new count. *)
Definition pmempool_info_btt_data (v : Z) (infop : btt_info) (arena_off offset count : Z) : info (option Z) :=
  if negb (outv_on v) then ret (Some count)
  else
    match pmempool_info_read (btt_map_size infop) (arena_off + i_mapoff infop) with
    | None => ret None
    | Some map =>
        rs <- get_ranges ;;
        btt_data_ranges v infop arena_off offset map rs count
    end.

Record pmem_blk_stats := { st_total : Z; st_zeros : Z; st_errors : Z; st_noflag : Z }.

Definition pmem_blk_stats_reset : pmem_blk_stats := {| st_total := 0; st_zeros := 0; st_errors := 0; st_noflag := 0 |}.

Definition stats_add (s : pmem_blk_stats) (is_zero is_error : bool) : pmem_blk_stats :=
  {| st_total := u32 (st_total s + 1);
     st_zeros := if is_zero then u32 (st_zeros s + 1) else st_zeros s;
     st_errors := if is_error then u32 (st_errors s + 1) else st_errors s;
     st_noflag := if negb is_zero && negb is_error then u32 (st_noflag s + 1) else st_noflag s |}.

(** The entries of one range: the statistics and how many entries of the arena
    were shown. *)
Fixpoint btt_map_loop (n : nat) (v : Z) (offset : Z) (map : list byte) (i : Z) (statsp : pmem_blk_stats) (arena_count : Z)
  : info (pmem_blk_stats * Z) :=
  match n with
  | O => ret (statsp, arena_count)
  | S n =>
      entry <- map_at map i ;;
      if pmempool_info_blk_skip_block (info_is_zero entry) (info_is_error entry) then
        btt_map_loop n v offset map (i + 1) statsp arena_count
      else
        (if arena_count =? 0 then outv v (Heading "PMEM BLK BTT Map") else ret tt) ;;;
        outv v (MapLine (offset + i) (out_get_btt_map_entry entry)) ;;;
        btt_map_loop n v offset map (i + 1) (stats_add statsp (info_is_zero entry) (info_is_error entry))
          (u32 (arena_count + 1))
  end.

Fixpoint btt_map_ranges (v : Z) (infop : btt_info) (offset : Z) (map : list byte) (rs : list range)
    (statsp : pmem_blk_stats) (arena_count : Z) : info pmem_blk_stats :=
  match rs with
  | [] => ret statsp
  | curp :: rs =>
      match pmempool_info_get_range curp (u32 (i_external_nlba infop - 1)) offset with
      | None => btt_map_ranges v infop offset map rs statsp arena_count
      | Some r =>
          r <- btt_map_loop (range_length r) v offset map (first r) statsp arena_count ;;
          btt_map_ranges v infop offset map rs (fst r) (snd r)
      end
  end.

Definition pmempool_info_btt_map (v : Z) (infop : btt_info) (arena_off : Z) (statsp : pmem_blk_stats) (offset : Z)
  : info (option pmem_blk_stats) :=
  if negb (outv_on v) && negb (outv_on (ia_vstats a)) then ret (Some statsp)
  else
    match pmempool_info_read (btt_map_size infop) (arena_off + i_mapoff infop) with
    | None => ret None
    | Some map =>
        rs <- get_ranges ;;
        s <- btt_map_ranges v infop offset map rs statsp 0 ;;
        ret (Some s)
    end.

(** One entry of a pair, the primed names for the second. *)
Definition info_flog_entry (v : Z) (prime : string) (e : btt_flog) : info unit :=
  outv v (Field ("LBA" ++ prime) (VNum (lba e))) ;;;
  outv v (Field ("Old map" ++ prime) (VEntry (old_map e) (out_get_btt_map_entry (old_map e)))) ;;;
  outv v (Field ("New map" ++ prime) (VEntry (new_map e) (out_get_btt_map_entry (new_map e)))) ;;;
  outv v (Field ("Seq" ++ prime) (VNum (seq e))).

Fixpoint btt_flog_loop (n : nat) (v : Z) (buff : list byte) (i : Z) : info unit :=
  match n with
  | O => ret tt
  | S n =>
      let ptr := Z.to_nat (i * BTT_FLOG_PAIR_ALIGN) in
      outv v (FlogLine i) ;;;
      info_flog_entry v "" (flog_of (slice buff ptr 16)) ;;;
      info_flog_entry v "'" (flog_of (slice buff (ptr + 16) 16)) ;;;
      btt_flog_loop n v buff (i + 1)
  end.

Definition pmempool_info_btt_flog (v : Z) (infop : btt_info) (arena_off : Z) : info Z :=
  if negb (outv_on v) then ret 0
  else
    let flog_size := roundup (i_nfree infop * roundup (2 * BTT_FLOG_SIZE) BTT_FLOG_PAIR_ALIGN) BTT_ALIGNMENT in
    match pmempool_info_read flog_size (arena_off + i_flogoff infop) with
    | None => ret (-1)
    | Some buff =>
        outv v (Heading "PMEM BLK BTT FLOG") ;;;
        btt_flog_loop (Z.to_nat (i_nfree infop)) v buff 0 ;;;
        ret 0
    end.

Definition pmempool_info_btt_stats (v : Z) (statsp : pmem_blk_stats) : info unit :=
  if 0 <? st_total statsp then
    outv v (Heading "PMEM BLK Statistics") ;;;
    outv v (Field "Total blocks" (VNum (st_total statsp))) ;;;
    outv v (Field "Zeroed blocks" (VShare (st_zeros statsp) (st_total statsp))) ;;;
    outv v (Field "Error blocks" (VShare (st_errors statsp) (st_total statsp))) ;;;
    outv v (Field "Blocks without flag" (VShare (st_noflag statsp) (st_total statsp)))
  else ret tt.

(** The loop over the arenas: [None] is an error, otherwise the statistics. *)
Fixpoint btt_layout_loop (fuel : nat) (narena offset cur_lba count_data : Z) (stats : pmem_blk_stats)
  : info (option pmem_blk_stats) :=
  match fuel with
  | O => fail OutOfFuel
  | S fuel =>
      match pmempool_info_read BTT_INFO_SIZE offset with
      | None => ret None
      | Some bs =>
          if util_check_memory bs x00 =? 0 then outv 1 (Heading "<No BTT layout>") ;;; ret (Some stats)
          else
            let infop := btt_info_of bs in
            outv 1 (ArenaHeading narena) ;;;
            outv_hex (ia_vhdrdump a) bs offset ;;;
            pmempool_info_btt_info 1 bs ;;;
            d <- pmempool_info_btt_data (ia_vdata a) infop offset cur_lba count_data ;;
            match d with
            | None => ret None
            | Some count_data =>
                m <- pmempool_info_btt_map (ia_vmap a) infop offset stats cur_lba ;;
                match m with
                | None => ret None
                | Some stats =>
                    r <- pmempool_info_btt_flog (ia_vflog a) infop offset ;;
                    if negb (r =? 0) then ret None
                    else
                      let cur_lba := cur_lba + i_external_nlba infop in
                      match pmempool_info_read BTT_INFO_SIZE (offset + i_infooff infop) with
                      | None => ret None
                      | Some backup =>
                          outv (ia_vbackup a) (Heading "PMEM BLK BTT Info Header Backup") ;;;
                          (if outv_on (ia_vbackup a)
                           then outv_hex (ia_vhdrdump a) backup (u64 (offset + i_infooff infop)) else ret tt) ;;;
                          pmempool_info_btt_info (ia_vbackup a) backup ;;;
                          let nextoff := s64 (i_nextoff infop) in
                          if 0 <? nextoff then btt_layout_loop fuel (narena + 1) (offset + nextoff) cur_lba count_data stats
                          else ret (Some stats)
                      end
                end
            end
      end
  end.

Definition pmempool_info_btt_layout (fuel : nat) (btt_off : Z) : info Z :=
  if btt_off <=? 0 then ret (-1)
  else
    s <- btt_layout_loop fuel 0 btt_off 0 0 pmem_blk_stats_reset ;;
    match s with
    | None => ret (-1)
    | Some stats => pmempool_info_btt_stats (ia_vstats a) stats ;;; ret 0
    end.

(** The run-time fields are those the last mapping stored. *)
Definition pmempool_info_blk (fuel : nat) (v : Z) : info Z :=
  match pmempool_info_read SIZEOF_PMEMBLK 0 with
  | None => ret (-1)
  | Some bs =>
      let at64 off := le_at bs (Z.to_nat off) 8 in
      let at32 off := le_at bs (Z.to_nat off) 4 in
      let btt_off := s64 (at64 4128 - at64 4104) in
      outv v (Heading "PMEM BLK Header") ;;;
      outv_hex (ia_vhdrdump a) (drop (Z.to_nat POOL_HDR_SIZE) bs) POOL_HDR_SIZE ;;;
      outv v (Field "Block size" (VSize (at32 4096))) ;;;
      outv (v + 1) (Field "is_pmem" (VNum (at32 4120))) ;;;
      outv (v + 1) (Field "Read-only" (VNum (at32 4124))) ;;;
      outv (v + 1) (Field "Data size" (VSize (at64 4136))) ;;;
      outv (v + 1) (Field "Number of LBAs" (VNum (at64 4144))) ;;;
      outv (v + 1) (Field "Number of lanes" (VNum (at32 4160))) ;;;
      outv (v + 1) (Field "Next lane" (VNum (at32 4164))) ;;;
      outv (v + 1) (Field "Data offset" (VNum btt_off)) ;;;
      pmempool_info_btt_layout fuel btt_off
  end.

(** ** Files *)

Definition pmempool_info_get_pool_type : Z :=
  match pmempool_info_read POOL_HDR_SIZE 0 with
  | None => PMEM_POOL_TYPE_UNKNOWN
  | Some bs => if ia_force a then ia_type a else pmem_pool_type_parse_hdr (pool_hdr_of bs)
  end.

Definition pmempool_info_open_file (fuel : nat) (n_files : nat) (file_name : string) : info Z :=
  let type := pmempool_info_get_pool_type in
  if type =? PMEM_POOL_TYPE_UNKNOWN then ret (-1)
  else
    (if Nat.ltb 1 n_files then outv 1 (FileName file_name) else ret tt) ;;;
    r <- pmempool_info_pool_hdr 1 ;;
    if negb (r =? 0) then ret (-1)
    else if type =? PMEM_POOL_TYPE_LOG then pmempool_info_log 1
    else if type =? PMEM_POOL_TYPE_BLK then pmempool_info_blk fuel 1
    else ret (-1).
End Info.

(** open fails when there is no file. *)
Definition pmempool_info_file (a : info_args) (fs : fsys) (mmap_ok : Z -> Z -> bool) (Pagesize : Z) (fuel n_files : nat) (file_name : string) : info Z :=
  match files fs !! file_name with
  | None => ret (-1)
  | Some f => pmempool_info_open_file a f mmap_ok Pagesize fuel n_files file_name
  end.

(** -1 if one of them fails. *)
Fixpoint info_files_loop (a : info_args) (fs : fsys) (mmap_ok : Z -> Z -> bool) (Pagesize : Z) (fuel n_files : nat) (names : list string) (r : Z) : info Z :=
  match names with
  | [] => ret r
  | name :: names =>
      fret <- pmempool_info_file a fs mmap_ok Pagesize fuel n_files name ;;
      info_files_loop a fs mmap_ok Pagesize fuel n_files names (if negb (fret =? 0) then -1 else r)
  end.

Definition pmempool_info_file_all (a : info_args) (fs : fsys) (mmap_ok : Z -> Z -> bool) (Pagesize : Z) (fuel : nat) (names : list string) : info Z :=
  match names with
  | [] => ret (-1)
  | _ => info_files_loop a fs mmap_ok Pagesize fuel (length names) names 0
  end.

(** How the command ends and what it has shown. *)
Definition pmempool_info_func (free : freed_link) (heaps : nat -> nat -> range) (no_args : bool) (gs : list getopt_result)
    (names : list string) (fs : fsys) (mmap_ok : Z -> Z -> bool) (Pagesize : Z) (fuel : nat) : fault + (ending * list item) :=
  match info_parse_args free heaps no_args gs with
  | inl f => inl f
  | inr (InfoExit status) => inr (Exited status, [])
  | inr InfoError => inr (Returned (-1), [])
  | inr (InfoOk a rs) =>
      match pmempool_info_file_all a fs mmap_ok Pagesize fuel names {| is_out := []; is_ranges := rs |} with
      | inl f => inl f
      | inr (r, s) => inr (Returned r, is_out s)
      end
  end.
