(* ===== verification/PinfoSpec.v ===== *)
(** PinfoSpec: what pmempool info shows of a block pool.

    On a file that implements a device the blocks shown are those of the device
    that the ranges and the flags choose, each once, with their contents when
    they hold data, and the statistics count them. *)

From stdpp Require Import strings.
From S2P Require Import Prelude Mem Util BttLayout Prog StateM Btt BttInv BttSpec BttOpen Blk Persist Pmem Log LogSpec Pcommon Pranges Poutput Pcreate Pinfo.

Open Scope stateM_scope.

(** ** Ranges *)

Section Ranges.
Context (a : info_args).

(** The range relative to an arena is the part of the range asked for that
    lies in the arena: none if they do not meet, and all of the arena when no
    range is asked for. *)
Theorem pmempool_info_get_range_exact (curp : range) (max offset : Z)
  (Hcur : 0 <= first curp <= last curp /\ last curp < 2 ^ 64) (Hmax : 0 <= max) (Hoff : 0 <= offset)
  (Hend : offset + max < 2 ^ 64) :
  match pmempool_info_get_range a curp max offset with
  | None => ia_use_range a = true /\ forall x, 0 <= x <= max -> ~ in_range curp (offset + x)
  | Some r => 0 <= first r <= last r /\ last r <= max /\
      forall x, 0 <= x <= max -> in_range r x <-> (ia_use_range a = true -> in_range curp (offset + x))
  end.
Proof.
  unfold pmempool_info_get_range, in_range. destruct (ia_use_range a); cbn [negb].
  2: { cbn [first last]. split_and!; try lia. }
  rewrite !(u64_id (offset + max)), !(u64_id offset) by lia.
  destruct (Z.ltb_spec (offset + max) (first curp)); [split; [done|lia]|].
  destruct (Z.ltb_spec (last curp) offset); [split; [done|lia]|]. cbn [first last].
  destruct (Z.leb_spec offset (first curp)), (Z.leb_spec (last curp) (offset + max)); rewrite ?u64_id by lia;
    (split_and!; [lia..|]; intros x Hx; split; [lia|intros Hu; specialize (Hu eq_refl); lia]).
Qed.

(** The ranges of a command: apart from each other, or the one that stands for
    everything. *)
Definition proper_ranges (rs : list range) : Prop :=
  Forall (fun r => 0 <= first r <= last r /\ last r < 2 ^ 64) rs /\
  ForallOrdPairs (fun r1 r2 => last r1 < first r2 \/ last r2 < first r1) rs /\
  (ia_use_range a = false -> exists r, rs = [r]).

Definition inside_any (rs : list range) (x : Z) : bool :=
  existsb (fun r => (first r <=? x) && (x <=? last r)) rs.

(** Is the block asked for? *)
Definition chosen (rs : list range) (lba : Z) : bool := negb (ia_use_range a) || inside_any rs lba.

(** The blocks of an arena of [n] blocks from [offset] on, in the order of the
    loops. *)
Definition visited (rs : list range) (offset n : Z) : list Z :=
  concat (map (fun curp => match pmempool_info_get_range a curp (n - 1) offset with
                           | Some r => seqZ (first r) (Z.of_nat (range_length r)) | None => [] end) rs).

Lemma elem_visited rs offset n x :
  Forall (fun r => 0 <= first r <= last r /\ last r < 2 ^ 64) rs -> 0 < n -> 0 <= offset -> offset + n <= 2 ^ 64 ->
  x ∈ visited rs offset n <-> 0 <= x < n /\ Exists (fun r => ia_use_range a = true -> in_range r (offset + x)) rs.
Proof.
  intros Hrs Hn Ho He. unfold visited. induction Hrs as [|r rs Hr Hrs IH]; cbn [map concat].
  { rewrite Exists_nil, elem_of_nil. tauto. }
  rewrite elem_of_app, IH, Exists_cons.
  pose proof (pmempool_info_get_range_exact r (n - 1) offset Hr ltac:(lia) Ho ltac:(lia)) as Hg.
  destruct (pmempool_info_get_range a r (n - 1) offset) as [r'|].
  - destruct Hg as (H1 & H2 & Hx). rewrite elem_of_seqZ. unfold range_length. rewrite Z2Nat.id by lia.
    split.
    + intros [Hin|[? ?]]; [|auto]. split; [lia|]. left. apply Hx; [lia|]. unfold in_range. lia.
    + intros [Hin [Hc|Hc]]; [left|auto]. apply Hx in Hc; [|lia]. unfold in_range in Hc. lia.
  - destruct Hg as [Hu Hg]. split.
    + intros [Hin|[? ?]]; [by apply elem_of_nil in Hin|auto].
    + intros [Hin [Hc|Hc]]; [|auto]. exfalso. apply (Hg x); [lia|auto].
Qed.

Lemma inside_any_spec rs x : inside_any rs x = true <-> Exists (fun r => in_range r x) rs.
Proof.
  unfold inside_any. rewrite existsb_exists, Exists_exists. unfold in_range.
  split; intros (r & Hr & H); exists r; (split; [by apply list_elem_of_In|]).
  - apply andb_true_iff in H. rewrite !Z.leb_le in H. lia.
  - apply andb_true_iff. rewrite !Z.leb_le. lia.
Qed.

Lemma visited_NoDup rs offset n :
  proper_ranges rs -> 0 < n -> 0 <= offset -> offset + n <= 2 ^ 64 -> NoDup (visited rs offset n).
Proof.
  intros (Hrs & Hap & Hone) Hn Ho He. destruct (ia_use_range a) eqn:Hu.
  2: { destruct (Hone eq_refl) as (r & ->). unfold visited. cbn [map concat]. rewrite app_nil_r.
       case_match; [apply NoDup_seqZ|constructor]. }
  induction Hap as [|r rs Hr Hap IH]; [constructor|].
  apply Forall_cons in Hrs as [Hrr Hrs].
  assert (visited (r :: rs) offset n = visited [r] offset n ++ visited rs offset n) as E
    by (unfold visited; cbn [map concat]; by rewrite app_nil_r).
  rewrite E.
  apply NoDup_app. split; [|split; [|by apply IH]].
  - unfold visited. cbn [map concat]. rewrite app_nil_r. case_match; [apply NoDup_seqZ|constructor].
  - intros x Hx Hx'. apply elem_visited in Hx; [|by constructor|done..]. apply elem_visited in Hx'; [|done..].
    destruct Hx as [_ Hx], Hx' as [_ Hx']. apply Exists_cons in Hx as [Hx|Hx]; [|by apply Exists_nil in Hx].
    apply Exists_exists in Hx' as (r' & Hr' & Hx'). rewrite Forall_forall in Hr. specialize (Hr r' Hr').
    specialize (Hx Hu). specialize (Hx' Hu). unfold in_range in *. lia.
Qed.

(** The loops visit each block chosen once. *)
Lemma visited_perm rs offset n :
  proper_ranges rs -> 0 < n -> 0 <= offset -> offset + n <= 2 ^ 64 ->
  map (Z.add offset) (visited rs offset n) ≡ₚ filter (fun l => chosen rs l = true) (seqZ offset n).
Proof.
  intros Hp Hn Ho He. apply NoDup_Permutation.
  - apply NoDup_fmap_2; [intros x y; lia|by apply visited_NoDup].
  - apply NoDup_filter, NoDup_seqZ.
  - intros l. rewrite list_elem_of_filter, elem_of_seqZ.
    assert (forall x, l = offset + x -> 0 <= x < n ->
      (chosen rs l = true <-> Exists (fun r => ia_use_range a = true -> in_range r (offset + x)) rs)) as Hc.
    { intros x -> Hx. unfold chosen. destruct Hp as (_ & _ & Hone). destruct (ia_use_range a); cbn [negb orb].
      - rewrite inside_any_spec. rewrite !Exists_exists. split; intros (r & Hr & H); exists r; auto.
      - destruct (Hone eq_refl) as (r & ->). split; [|done]. intros _. by apply Exists_cons_hd. }
    destruct Hp as (Hrs & _ & _). split.
    + intros (x & -> & Hx)%list_elem_of_fmap. apply elem_visited in Hx as [Hx Hx']; [|done..].
      split; [|lia]. by apply (Hc x).
    + intros [Hch Hl]. apply list_elem_of_fmap. exists (l - offset). split; [lia|].
      apply elem_visited; [done..|]. split; [lia|]. apply Hc; [lia..|done].
Qed.
End Ranges.

(** ** Running *)

(** The blocks shown, with their bytes. *)
Definition blocks_of (out : list item) : list (Z * list byte) :=
  omap (fun it => match it with BlockDump n _ bs _ => Some (n, bs) | _ => None end) out.

(** From a state with these ranges, [m] returns [x], keeps the ranges and shows
    the blocks [bl]. *)
Definition does {A} (rs : list range) (m : info A) (x : A) (bl : list (Z * list byte)) : Prop :=
  forall st, is_ranges st = rs ->
    exists st', m st = inr (x, st') /\ is_ranges st' = rs /\ blocks_of (is_out st') = blocks_of (is_out st) ++ bl.

Lemma does_ret {A} rs (x : A) : does rs (ret x) x [].
Proof. intros st Hr. exists st. by rewrite app_nil_r. Qed.

Lemma does_bind {A B} rs (m : info A) (k : A -> info B) x y b1 b2 :
  does rs m x b1 -> does rs (k x) y b2 -> does rs (bindM m k) y (b1 ++ b2).
Proof.
  intros Hm Hk st Hr. destruct (Hm st Hr) as (s1 & E1 & R1 & O1). destruct (Hk s1 R1) as (s2 & E2 & R2 & O2).
  exists s2. unfold bindM. rewrite E1. split; [exact E2|]. split; [done|]. by rewrite O2, O1, app_assoc.
Qed.

(** When the first shows no block. *)
Lemma does_then {A B} rs (m : info A) (k : A -> info B) x y bl :
  does rs m x [] -> does rs (k x) y bl -> does rs (bindM m k) y bl.
Proof. intros Hm Hk. exact (does_bind rs m k x y [] bl Hm Hk). Qed.

Lemma does_emit rs it : does rs (emit it) tt (blocks_of [it]).
Proof.
  intros st Hr. eexists. split; [reflexivity|]. split; [done|]. cbn [is_out]. unfold blocks_of. by rewrite omap_app.
Qed.

Lemma does_ranges rs : does rs get_ranges rs [].
Proof. intros st <-. exists st. by rewrite app_nil_r. Qed.

Section Blocks.
Context (a : info_args) (f : file).

Lemma does_outv rs v it : blocks_of [it] = [] -> does rs (outv a v it) tt [].
Proof. intros E. unfold outv. destruct (outv_on a v); [rewrite <- E; apply does_emit|apply does_ret]. Qed.

Lemma does_hex rs v bs off : does rs (outv_hex a v bs off) tt [].
Proof. unfold outv_hex. case_match; [apply (does_emit rs (Hexdump bs off))|apply does_ret]. Qed.

Ltac quietly := repeat first [apply does_ret | apply does_outv; reflexivity | apply does_hex | eapply does_then].

Lemma does_btt_info rs v bs : does rs (pmempool_info_btt_info a v bs) 0 [].
Proof. unfold pmempool_info_btt_info. destruct (out_get_checksum bs INFO_CSUM) as [[valid c1] c2]. quietly. Qed.

Lemma does_flog_loop rs n v buff i : does rs (btt_flog_loop a n v buff i) tt [].
Proof.
  revert i. induction n as [|n IH]; intros i; cbn [btt_flog_loop]; [apply does_ret|].
  unfold info_flog_entry. quietly. apply IH.
Qed.

Lemma does_stats rs v s : does rs (pmempool_info_btt_stats a v s) tt [].
Proof. unfold pmempool_info_btt_stats. case_match; quietly. Qed.

(** ** One arena *)

Definition is_zero_block (b : blkstate) : bool := match b with BZero => true | _ => false end.
Definition is_error_block (b : blkstate) : bool := match b with BError => true | _ => false end.
Definition shown (b : blkstate) : bool := negb (pmempool_info_blk_skip_block a (is_zero_block b) (is_error_block b)).

(** A block as it is shown: what a block in error or of zeros reads as is not
    what lies there. *)
Definition shows (b : blkstate) (bs : list byte) : Prop := match b with BData bs' => bs = bs' | _ => True end.

Lemma flags_of_state m ar lbs x :
  let e := entry_at m ar x in
  info_is_zero e = is_zero_block (blk_state m ar lbs x) /\ info_is_error e = is_error_block (blk_state m ar lbs x).
Proof.
  cbv zeta. unfold blk_state, info_is_zero, info_is_error, map_entry_is_error, map_entry_is_zero_or_initial. cbv zeta.
  destruct (entry_flags_cases (entry_at m ar x) (entry_at_range m ar x)) as [-> | [-> | [-> | ->]]]; done.
Qed.

Section Arena.
Context (base : Z) (s : btt) (m : mem) (size : Z) (ar : arena) (infop : btt_info).
Context (Hbase : 0 <= base) (Hsize : base + size = f_size f) (H63 : f_size f < 2 ^ 63).
Context (Hm : forall z, 0 <= z -> m z = f_bytes f (base + z)).
Context (Hinv : arena_inv (nfree s) (nlba s) (lbasize s) size m ar).
Context (Hd : described s m ar infop).
Context (Hext : 0 < external_nlba ar < 2 ^ 30).

Definition arena_map : list byte := mread (f_bytes f) (base + mapoff ar) (4 * external_nlba ar).

Lemma s64_base z : 0 <= u64 z -> base + u64 z < 2 ^ 63 -> s64 (base + z) = base + u64 z.
Proof.
  intros H0 H1. unfold s64. unfold u64 in *.
  replace (base + z + 2 ^ 63) with (base + 2 ^ 63 + z) by lia.
  rewrite <- Zplus_mod_idemp_r. rewrite (Z.mod_small (base + 2 ^ 63 + z mod 2 ^ 64)); lia.
Qed.

Lemma read_at n z : 0 <= n -> base + u64 z + n <= f_size f ->
  pmempool_info_read f n (base + z) = Some (mread (f_bytes f) (base + u64 z) n).
Proof.
  intros Hn Hz. pose proof (u64_range z). unfold pmempool_info_read. rewrite s64_base by lia.
  rewrite (proj2 (Z.ltb_ge _ 0)) by lia. rewrite (proj2 (Z.leb_le _ _) Hz), orb_true_r. done.
Qed.

Lemma mread_base off n : 0 <= off -> mread (f_bytes f) (base + off) n = mread m off n.
Proof.
  intros Ho. unfold mread. apply map_ext_in. intros i Hi%list_elem_of_In%elem_of_seqZ. rewrite Hm by lia. by rewrite Z.add_assoc.
Qed.

Lemma arena_fields :
  i_external_nlba infop = external_nlba ar /\ i_external_lbasize infop = lbasize s /\
  i_internal_lbasize infop = internal_lbasize ar /\ i_nfree infop = nfree s /\
  mapoff ar = u64 (startoff ar + i_mapoff infop) /\ dataoff ar = u64 (startoff ar + i_dataoff infop) /\
  flogoff ar = u64 (startoff ar + i_flogoff infop).
Proof. destruct Hd as [_ E El Ef _]. rewrite <- E. cbn. done. Qed.

Lemma map_at_ok x : 0 <= x < external_nlba ar -> map_at arena_map x = ret (entry_at m ar x).
Proof.
  intros Hx. unfold map_at, arena_map. rewrite length_mread.
  replace ((0 <=? x) && (4 * x + 4 <=? Z.of_nat (Z.to_nat (4 * external_nlba ar)))) with true
    by (symmetry; apply andb_true_iff; rewrite !Z.leb_le; lia).
  pose proof (regions _ _ _ _ _ _ Hinv). f_equal. rewrite le_at_mread by lia.
  unfold entry_at, get_le. rewrite <- mread_base by lia. rewrite Z2Nat.id by lia. by rewrite Z.add_assoc.
Qed.

(** The address of the block an entry names. *)
Lemma block_offset e :
  u64 (base + startoff ar + i_dataoff infop + u32 (entry_lba e * i_internal_lbasize infop)) =
  u64 (base + data_block_offset ar (entry_lba e)).
Proof.
  destruct arena_fields as (_ & _ & -> & _ & _ & Ed & _). unfold data_block_offset. rewrite Ed. unfold u64.
  rewrite Zplus_mod_idemp_l, (Zplus_mod_idemp_r _ base). f_equal. lia.
Qed.

(** Entries never written are zero. *)
Context (Hfresh : forall x, 0 <= x < external_nlba ar ->
  map_entry_is_initial (entry_at m ar x) = true -> entry_at m ar x = 0).

Lemma entry_in_range x : 0 <= x < external_nlba ar -> 0 <= entry_lba (entry_at m ar x) < internal_nlba ar.
Proof.
  intros Hx. split; [apply entry_lba_range|].
  destruct (map_entry_is_initial (entry_at m ar x)) eqn:E.
  - rewrite (Hfresh x Hx E). pose proof (ai_geom _ _ _ _ _ _ Hinv) as []. change (entry_lba 0) with 0. lia.
  - apply (entry_blk ar m x (ai_owned _ _ _ _ _ _ Hinv) Hx E).
Qed.

Lemma block_read x : 0 <= x < external_nlba ar ->
  exists bs, pmempool_info_read f (i_external_lbasize infop)
      (u64 (base + startoff ar + i_dataoff infop + u32 (entry_lba (entry_at m ar x) * i_internal_lbasize infop))) = Some bs /\
    shows (blk_state m ar (lbasize s) x) bs.
Proof.
  intros Hx. rewrite block_offset. pose proof (entry_in_range x Hx) as Hb.
  pose proof (ai_geom _ _ _ _ _ _ Hinv) as Hg. pose proof (regions _ _ _ _ _ _ Hinv).
  pose proof (blk_off_bounds _ _ _ _ _ _ Hinv _ Hb) as Ho.
  assert (entry_lba (entry_lba (entry_at m ar x)) = entry_lba (entry_at m ar x)) as Ei.
  { rewrite !entry_lba_mod. apply Zmod_mod. }
  assert (forall e, 0 <= e < 2 ^ 32 -> entry_lba e = entry_lba (entry_at m ar x) ->
    data_block_offset ar e = blk_off ar (entry_lba (entry_at m ar x))) as Hoff.
  { intros e He E. rewrite (data_block_offset_entry (nfree s) (lbasize s) size) by (rewrite ?E; done || lia). by rewrite E. }
  pose proof (entry_lba_range (entry_at m ar x)) as Hl.
  rewrite Hoff by (done || lia). destruct arena_fields as (_ & -> & _).
  destruct Hg as [_ _ _ _ _ _ _ _ Hlbs _ _ _ _ _]. unfold blk_off in *.
  eexists. split.
  - rewrite u64_id by lia. rewrite read_at by (rewrite ?u64_id by lia; lia). reflexivity.
  - rewrite u64_id by lia. unfold shows, blk_state.
    destruct (map_entry_is_error _); [done|]. destruct (map_entry_is_zero_or_initial _); [done|].
    rewrite (Hoff (entry_at m ar x)) by (done || apply entry_at_range). rewrite mread_base by lia. done.
Qed.

(** *** The loops, over blocks numbered from [offset] on in the device *)

Context (offset : Z) (D : Z -> blkstate) (rs : list range).
Context (HD : forall x, 0 <= x < external_nlba ar -> D (offset + x) = blk_state m ar (lbasize s) x).

Definition is_shown (l : Z) : Prop := shown (D l) = true.
Definition count_blocks (ls : list Z) (st : pmem_blk_stats) : pmem_blk_stats :=
  fold_left (fun st l => stats_add st (is_zero_block (D l)) (is_error_block (D l))) (filter is_shown ls) st.

(** What the blocks shown are, for these numbers. *)
Definition displays (ls : list Z) (bl : list (Z * list byte)) : Prop :=
  map fst bl = filter is_shown ls /\ Forall (fun p => shows (D (fst p)) (snd p)) bl.

Lemma displays_app l1 l2 b1 b2 : displays l1 b1 -> displays l2 b2 -> displays (l1 ++ l2) (b1 ++ b2).
Proof. intros [E1 F1] [E2 F2]. split; [by rewrite map_app, E1, E2, filter_app|by apply Forall_app]. Qed.

Lemma displays_nil : displays [] [].
Proof. split; [done|constructor]. Qed.

Lemma count_app l1 l2 st : count_blocks (l1 ++ l2) st = count_blocks l2 (count_blocks l1 st).
Proof. unfold count_blocks. by rewrite filter_app, fold_left_app. Qed.

Lemma skip_shown x : 0 <= x < external_nlba ar ->
  pmempool_info_blk_skip_block a (info_is_zero (entry_at m ar x)) (info_is_error (entry_at m ar x)) =
  negb (shown (D (offset + x))).
Proof.
  intros Hx. destruct (flags_of_state m ar (lbasize s) x) as [-> ->]. rewrite <- HD by done.
  unfold shown. by rewrite negb_involutive.
Qed.

Lemma seqZ_step i n : map (Z.add offset) (seqZ i (Z.of_nat (S n))) = (offset + i) :: map (Z.add offset) (seqZ (i + 1) (Z.of_nat n)).
Proof. rewrite seqZ_cons by lia. cbn [map]. do 3 f_equal; lia. Qed.

Lemma data_loop_ok v n : outv_on a v = true -> forall i count, 0 <= i -> i + Z.of_nat n <= external_nlba ar ->
  exists bl c, does rs (btt_data_loop a f n v infop (base + startoff ar) offset arena_map i count) (Some c) bl /\
    displays (map (Z.add offset) (seqZ i (Z.of_nat n))) bl.
Proof.
  intros Hv. induction n as [|n IH]; intros i count Hi Hn.
  { exists [], count. split; [apply does_ret|apply displays_nil]. }
  rewrite seqZ_step. cbn [btt_data_loop]. rewrite map_at_ok by lia.
  pose proof (skip_shown i ltac:(lia)) as Hsk. destruct (block_read i ltac:(lia)) as (bs & Hread & Hsh).
  rewrite <- HD in Hsh by lia. destruct (shown (D (offset + i))) eqn:Es.
  - destruct (IH (i + 1) (count + 1) ltac:(lia) ltac:(lia)) as (bl & c & Hdo & Hdisp).
    exists ([(offset + i, bs)] ++ bl), c. split.
    + apply does_then with (x := entry_at m ar i); [apply does_ret|]. rewrite Hsk. cbn [negb]. cbv zeta. rewrite Hread.
      apply does_then with (x := tt); [case_match; [by apply does_outv|apply does_ret]|].
      eapply does_bind; [|exact Hdo]. unfold outv. rewrite Hv. apply (does_emit rs (BlockDump _ _ _ _)).
    + apply (displays_app [offset + i]); [|done]. split; [|by constructor]. cbn [map fst].
      by rewrite filter_cons_True by exact Es.
  - destruct (IH (i + 1) count ltac:(lia) ltac:(lia)) as (bl & c & Hdo & Hdisp).
    exists bl, c. split.
    + apply does_then with (x := entry_at m ar i); [apply does_ret|]. rewrite Hsk. cbn [negb]. exact Hdo.
    + apply (displays_app [offset + i] _ []); [|done]. split; [|constructor]. cbn [map].
      rewrite filter_cons_False; [done|]. unfold is_shown. by rewrite Es.
Qed.

Lemma map_loop_ok v n : forall i st c, 0 <= i -> i + Z.of_nat n <= external_nlba ar ->
  exists c', does rs (btt_map_loop a n v offset arena_map i st c)
    (count_blocks (map (Z.add offset) (seqZ i (Z.of_nat n))) st, c') [].
Proof.
  induction n as [|n IH]; intros i st c Hi Hn; [exists c; apply does_ret|].
  rewrite seqZ_step. cbn [btt_map_loop]. rewrite map_at_ok by lia.
  pose proof (skip_shown i ltac:(lia)) as Hsk. unfold count_blocks.
  destruct (shown (D (offset + i))) eqn:Es.
  - rewrite filter_cons_True by exact Es. cbn [fold_left].
    destruct (IH (i + 1) (stats_add st (is_zero_block (D (offset + i))) (is_error_block (D (offset + i)))) (u32 (c + 1)) ltac:(lia) ltac:(lia)) as (c' & Hdo).
    exists c'. apply does_then with (x := entry_at m ar i); [apply does_ret|]. rewrite Hsk. cbn [negb].
    apply does_then with (x := tt); [case_match; [by apply does_outv|apply does_ret]|].
    apply does_then with (x := tt); [by apply does_outv|].
    destruct (flags_of_state m ar (lbasize s) i) as [-> ->]. rewrite <- HD by lia. exact Hdo.
  - rewrite filter_cons_False by (unfold is_shown; by rewrite Es).
    destruct (IH (i + 1) st c ltac:(lia) ltac:(lia)) as (c' & Hdo).
    exists c'. apply does_then with (x := entry_at m ar i); [apply does_ret|]. rewrite Hsk. cbn [negb]. exact Hdo.
Qed.

(** *** The ranges *)

Context (Hoff : 0 <= offset) (Hlast : offset + external_nlba ar <= 2 ^ 64).

Lemma max_block : u32 (i_external_nlba infop - 1) = external_nlba ar - 1.
Proof. destruct arena_fields as (-> & _). apply u32_id. lia. Qed.

Lemma get_range_in_arena curp r :
  0 <= first curp <= last curp /\ last curp < 2 ^ 64 ->
  pmempool_info_get_range a curp (external_nlba ar - 1) offset = Some r ->
  0 <= first r /\ first r + Z.of_nat (range_length r) <= external_nlba ar.
Proof.
  intros Hc E. pose proof (pmempool_info_get_range_exact a curp (external_nlba ar - 1) offset Hc ltac:(lia) Hoff ltac:(lia)) as H.
  rewrite E in H. unfold range_length. lia.
Qed.

Definition arena_blocks (rs' : list range) : list Z := map (Z.add offset) (visited a rs' offset (external_nlba ar)).

Lemma arena_blocks_cons curp rs' : arena_blocks (curp :: rs') =
  map (Z.add offset) (match pmempool_info_get_range a curp (external_nlba ar - 1) offset with
                      | Some r => seqZ (first r) (Z.of_nat (range_length r)) | None => [] end) ++ arena_blocks rs'.
Proof. unfold arena_blocks, visited. cbn [map concat]. by rewrite map_app. Qed.

Definition ranges_fit (rs' : list range) : Prop := Forall (fun r => 0 <= first r <= last r /\ last r < 2 ^ 64) rs'.

Lemma data_ranges_ok v rs' : outv_on a v = true -> ranges_fit rs' -> forall count,
  exists bl c, does rs (btt_data_ranges a f v infop (base + startoff ar) offset arena_map rs' count) (Some c) bl /\
    displays (arena_blocks rs') bl.
Proof.
  intros Hv Hrs. induction Hrs as [|curp rs' Hc Hrs IH]; intros count.
  { exists [], count. split; [apply does_ret|apply displays_nil]. }
  rewrite arena_blocks_cons. cbn [btt_data_ranges]. rewrite max_block.
  destruct (pmempool_info_get_range a curp (external_nlba ar - 1) offset) as [r|] eqn:E; [|apply IH].
  destruct (get_range_in_arena _ _ Hc E) as [H0 H1].
  destruct (data_loop_ok v (range_length r) Hv (first r) count H0 H1) as (b1 & c1 & Hdo1 & Hd1).
  destruct (IH c1) as (b2 & c2 & Hdo2 & Hd2). exists (b1 ++ b2), c2.
  split; [by eapply does_bind|by apply displays_app].
Qed.

Lemma map_ranges_ok v rs' : ranges_fit rs' -> forall st c,
  does rs (btt_map_ranges a v infop offset arena_map rs' st c) (count_blocks (arena_blocks rs') st) [].
Proof.
  intros Hrs. induction Hrs as [|curp rs' Hc Hrs IH]; intros st c; [apply does_ret|].
  rewrite arena_blocks_cons, count_app. cbn [btt_map_ranges]. rewrite max_block.
  destruct (pmempool_info_get_range a curp (external_nlba ar - 1) offset) as [r|] eqn:E; [|apply IH].
  destruct (get_range_in_arena _ _ Hc E) as [H0 H1].
  destruct (map_loop_ok v (range_length r) (first r) st c H0 H1) as (c1 & Hdo1).
  eapply does_then; [exact Hdo1|]. cbn [fst snd]. apply IH.
Qed.

(** *** The arena *)

Context (Hfit : ranges_fit rs).

Lemma read_map : pmempool_info_read f (btt_map_size infop) (base + startoff ar + i_mapoff infop) = Some arena_map.
Proof.
  destruct arena_fields as (E1 & _ & _ & _ & Em & _). unfold btt_map_size, BTT_MAP_ENTRY_SIZE.
  rewrite E1, u32_id by lia. pose proof (regions _ _ _ _ _ _ Hinv). pose proof (g_nf _ _ _ _ (ai_geom _ _ _ _ _ _ Hinv)).
  rewrite <- Z.add_assoc, read_at by lia. rewrite <- Em, Z.mul_comm. done.
Qed.

Lemma info_btt_data_ok v count :
  exists bl c, does rs (pmempool_info_btt_data a f v infop (base + startoff ar) offset count) (Some c) bl /\
    displays (if outv_on a v then arena_blocks rs else []) bl.
Proof.
  unfold pmempool_info_btt_data. destruct (outv_on a v) eqn:Hv; cbn [negb].
  - rewrite read_map. destruct (data_ranges_ok v rs Hv Hfit count) as (bl & c & Hdo & Hd').
    exists bl, c. split; [|done]. eapply does_then; [apply does_ranges|exact Hdo].
  - exists [], count. split; [apply does_ret|apply displays_nil].
Qed.

Lemma info_btt_map_ok v st : outv_on a v || outv_on a (ia_vstats a) = true ->
  does rs (pmempool_info_btt_map a f v infop (base + startoff ar) st offset) (Some (count_blocks (arena_blocks rs) st)) [].
Proof.
  intros Hv. unfold pmempool_info_btt_map. rewrite <- negb_orb, Hv. cbn [negb]. rewrite read_map.
  eapply does_then; [apply does_ranges|]. eapply does_then; [by apply map_ranges_ok|apply does_ret].
Qed.

Lemma info_btt_flog_ok v : does rs (pmempool_info_btt_flog a f v infop (base + startoff ar)) 0 [].
Proof.
  unfold pmempool_info_btt_flog. destruct (outv_on a v); cbn [negb]; [|apply does_ret].
  destruct arena_fields as (_ & _ & _ & Ef & _ & _ & El). pose proof (regions _ _ _ _ _ _ Hinv). rewrite Ef.
  change (roundup (2 * BTT_FLOG_SIZE) BTT_FLOG_PAIR_ALIGN) with 64.
  pose proof (roundup_bounds (nfree s * 64) BTT_ALIGNMENT ltac:(done)) as Hr. change BTT_ALIGNMENT with 4096 in *.
  rewrite <- Z.add_assoc, read_at by (rewrite <- ?El; lia).
  eapply does_then; [by apply does_outv|]. eapply does_then; [apply does_flog_loop|apply does_ret].
Qed.
End Arena.

(** ** All the arenas *)

(** Blocks of no arena before [pre]. *)
Lemma find_arena pre ar post k x :
  (forall j b, (pre ++ ar :: post) !! j = Some b -> 0 <= external_nlba b <= 2 ^ 30) -> 0 <= x < external_nlba ar ->
  lba_to_arena_lba (pre ++ ar :: post) k (ext_sum pre + x) = Some ((k + length pre)%nat, x).
Proof.
  revert k. induction pre as [|b pre IH]; intros k Hb Hx; cbn [app lba_to_arena_lba ext_sum length].
  - pose proof (Hb 0%nat ar eq_refl). rewrite Z.add_0_l, (proj2 (Z.ltb_lt _ _)), u32_id, Nat.add_0_r by lia. done.
  - pose proof (Hb 0%nat b eq_refl).
    assert (0 <= ext_sum pre) as Hp.
    { clear -Hb. assert (forall j c, pre !! j = Some c -> 0 <= external_nlba c) as H.
      { intros j c Hc. apply (Hb (S j) c). change ((pre ++ ar :: post) !! j = Some c). rewrite lookup_app_l; [done|by eapply lookup_lt_Some]. }
      clear Hb. induction pre as [|c pre IH]; cbn [ext_sum]; [lia|].
      pose proof (H 0%nat c eq_refl). specialize (IH (fun j c Hc => H (S j) c Hc)). lia. }
    rewrite (proj2 (Z.ltb_ge _ _)) by lia.
    replace (external_nlba b + ext_sum pre + x - external_nlba b) with (ext_sum pre + x) by lia.
    rewrite (IH (k + 1)%nat (fun j c Hc => Hb (S j) c Hc) Hx). do 2 f_equal. lia.
Qed.

(** The file of a pool: at [base] in it lies the BTT [s], which implements [d];
    the backups of the info blocks lie in the file too, and map entries never
    written are zero. *)
Record btt_file (base : Z) (s : btt) (m : mem) (size : Z) (d : device) : Prop := {
  bf_base : 0 < base;
  bf_size : base + size = f_size f /\ f_size f < 2 ^ 63;
  bf_mem : forall z, 0 <= z -> m z = f_bytes f (base + z);
  bf_device : implements size s m d;
  bf_media : on_media size s m;
  bf_small : nlba s < 2 ^ 32 /\ forall j ar, arenas s !! j = Some ar -> external_nlba ar < 2 ^ 30;
  bf_backup : forall j ar info, arenas s !! j = Some ar -> described s m ar info ->
    startoff ar + i_infooff info + BTT_INFO_SIZE <= size;
  bf_fresh : forall j ar x, arenas s !! j = Some ar -> 0 <= x < external_nlba ar ->
    map_entry_is_initial (entry_at m ar x) = true -> entry_at m ar x = 0;
}.

Section Layout.
Context (base : Z) (s : btt) (m : mem) (size : Z) (d : device) (rs : list range).
Context (Hf : btt_file base s m size d) (Hrs : ranges_fit rs).

Lemma arena_conditions pre ar post :
  arenas s = pre ++ ar :: post ->
  arena_inv (nfree s) (nlba s) (lbasize s) size m ar /\ (exists info, described s m ar info) /\
  0 < external_nlba ar < 2 ^ 30 /\ 0 <= ext_sum pre /\ ext_sum pre + external_nlba ar <= nlba s /\
  (forall x, 0 <= x < external_nlba ar -> d_blocks d (ext_sum pre + x) = blk_state m ar (lbasize s) x).
Proof.
  intros E. assert (arenas s !! length pre = Some ar) as Ha by (rewrite E; by apply list_lookup_middle).
  destruct (bf_device _ _ _ _ _ Hf) as (Hinv & _ & Hab).
  pose proof (bi_arena _ _ _ Hinv _ _ Ha) as Hai. pose proof (ai_geom _ _ _ _ _ _ Hai) as Hg.
  destruct (chain_described _ _ _ _ _ _ _ (om_chain _ _ _ (bf_media _ _ _ _ _ Hf)) Ha) as (info & Hd).
  assert (forall j b, arenas s !! j = Some b -> 0 <= external_nlba b <= 2 ^ 30) as Hb.
  { intros j b Hb. pose proof (regions _ _ _ _ _ _ (bi_arena _ _ _ Hinv _ _ Hb)). lia. }
  assert (0 < external_nlba ar) as Hpos.
  { pose proof (ds_ext _ _ _ _ Hd). destruct (arena_fields s m ar info Hd) as (Ee & _). specialize (Hb _ _ Ha). lia. }
  assert (forall l, Forall (fun b => 0 <= external_nlba b) l -> 0 <= ext_sum l) as Hsum.
  { intros l Hl. induction Hl; cbn [ext_sum]; lia. }
  assert (Forall (fun b => 0 <= external_nlba b) (pre ++ ar :: post)) as Hall.
  { apply Forall_lookup. intros j b Hj. rewrite <- E in Hj. specialize (Hb _ _ Hj). lia. }
  apply Forall_app in Hall as [Hpre [_ Hpost]%Forall_cons].
  assert (ext_sum pre + external_nlba ar + ext_sum post = nlba s) as Hn.
  { rewrite (bi_nlba _ _ _ Hinv), E. clear. induction pre as [|b pre IH]; cbn [app ext_sum]; lia. }
  pose proof (Hsum _ Hpre). pose proof (Hsum _ Hpost).
  split; [done|]. split; [by exists info|]. split; [split; [done|by eapply (bf_small _ _ _ _ _ Hf)]|].
  split; [done|]. split; [lia|]. intros x Hx. destruct (Hab (ext_sum pre + x) ltac:(lia)) as [_ ->].
  unfold abs_block. rewrite E in Hb |- *. rewrite (find_arena pre ar post 0 x Hb Hx). cbn [Nat.add].
  by rewrite list_lookup_middle.
Qed.

(** The blocks of the arenas in the order they are visited. *)
Fixpoint all_blocks (ars : list arena) (cur : Z) : list Z :=
  match ars with
  | [] => []
  | ar :: ars => arena_blocks ar cur rs ++ all_blocks ars (cur + external_nlba ar)
  end.

Lemma info_not_blank ar info : described s m ar info -> 0 <= startoff ar ->
  (util_check_memory (mread (f_bytes f) (base + startoff ar) BTT_INFO_SIZE) x00 =? 0) = false.
Proof.
  intros Hd H0. apply Z.eqb_neq. intros E%check_memory_zero.
  rewrite (mread_base base m (bf_mem _ _ _ _ _ Hf)) in E by done.
  pose proof (ds_info _ _ _ _ Hd) as Hr. rewrite E, length_mread in Hr.
  unfold read_info in Hr. by rewrite bool_decide_false in Hr by (vm_compute; discriminate).
Qed.

Lemma does_outv_then {B} v it (m0 : info B) y bl : blocks_of [it] = [] -> does rs m0 y bl -> does rs (outv a v it ;;; m0) y bl.
Proof. intros E Hd. eapply does_then; [by apply does_outv|done]. Qed.

Lemma layout_loop_ok ars : forall pre fuel narena off raw count st,
  arenas s = pre ++ ars -> chain s m off raw ars -> (length ars <= fuel)%nat ->
  outv_on a (ia_vmap a) || outv_on a (ia_vstats a) = true ->
  exists bl, does rs (btt_layout_loop a f fuel narena (base + off) (ext_sum pre) count st)
      (Some (count_blocks (d_blocks d) (all_blocks ars (ext_sum pre)) st)) bl /\
    displays (d_blocks d) (if outv_on a (ia_vdata a) then all_blocks ars (ext_sum pre) else []) bl.
Proof.
  induction ars as [|ar ars IH]; intros pre fuel narena off raw count st E Hch Hfuel Hv; [done|].
  destruct fuel as [|fuel]; [cbn in Hfuel; lia|].
  destruct (arena_conditions _ _ _ E) as (Hai & _ & Hext & Hpre & Hnl & HD).
  destruct Hch as (Hoff & _ & info & Hd & Hnext). pose proof (bf_base _ _ _ _ _ Hf) as Hb0.
  destruct (bf_size _ _ _ _ _ Hf) as [Hsz H63]. destruct (bf_small _ _ _ _ _ Hf) as [Hsm _].
  assert (arenas s !! length pre = Some ar) as Ha by (rewrite E; by apply list_lookup_middle).
  pose proof (regions _ _ _ _ _ _ Hai) as Hreg. pose proof (bf_mem _ _ _ _ _ Hf) as Hm.
  assert (forall x, 0 <= x < external_nlba ar -> map_entry_is_initial (entry_at m ar x) = true -> entry_at m ar x = 0)
    as Hfr by (intros x Hx Hi; by eapply (bf_fresh _ _ _ _ _ Hf)).
  destruct (info_btt_data_ok base s m size ar info ltac:(lia) Hsz H63 Hm Hai Hd Hext Hfr (ext_sum pre) (d_blocks d)
    rs HD Hpre ltac:(lia) Hrs (ia_vdata a) count) as (b1 & c1 & Hdata & Hdisp).
  pose proof (info_btt_map_ok base s m size ar info ltac:(lia) Hsz H63 Hm Hai Hd Hext (ext_sum pre) (d_blocks d)
    rs HD Hpre ltac:(lia) Hrs (ia_vmap a) st Hv) as Hmap.
  pose proof (info_btt_flog_ok base s m size ar info ltac:(lia) Hsz H63 Hai Hd rs (ia_vflog a)) as Hflog.
  pose proof (bf_backup _ _ _ _ _ Hf _ _ _ Ha Hd) as Hback.
  pose proof (le_at_range (mread m (startoff ar) BTT_INFO_SIZE) 96 8) as Hio.
  assert (btt_info_of (mread (f_bytes f) (base + startoff ar) BTT_INFO_SIZE) = info) as Hinfo.
  { rewrite (mread_base base m Hm) by lia. symmetry. eapply read_info_of, ds_info, Hd. }
  assert (0 <= i_infooff info) as Hio'.
  { rewrite (read_info_of _ _ _ (ds_info _ _ _ _ Hd)). cbn [btt_info_of i_infooff]. lia. }
  subst off. cbn [btt_layout_loop]. assert (BTT_INFO_SIZE = 4096) as Hi4 by done.
  rewrite read_at by (rewrite ?u64_id by lia; lia). rewrite u64_id by lia.
  rewrite (info_not_blank ar info Hd) by lia. rewrite Hinfo. cbv zeta.
  destruct (arena_fields s m ar info Hd) as (-> & _).
  assert (exists b2, does rs
      (if 0 <? s64 (i_nextoff info)
       then btt_layout_loop a f fuel (narena + 1) (base + startoff ar + s64 (i_nextoff info)) (ext_sum pre + external_nlba ar) c1
              (count_blocks (d_blocks d) (arena_blocks ar (ext_sum pre) rs) st)
       else ret (Some (count_blocks (d_blocks d) (arena_blocks ar (ext_sum pre) rs) st)))
      (Some (count_blocks (d_blocks d) (all_blocks (ar :: ars) (ext_sum pre)) st)) b2 /\
    displays (d_blocks d) (if outv_on a (ia_vdata a) then all_blocks ars (ext_sum pre + external_nlba ar) else []) b2)
    as (b2 & Hrest & Hdisp2).
  { cbn [all_blocks]. rewrite count_app. destruct ars as [|ar' ars].
    - rewrite Hnext. exists []. split; [apply does_ret|]. cbn [all_blocks]. by case_match; split.
    - destruct Hnext as (Hn & Hraw & Hch). rewrite Hn. change (0 <? s64 BTT_MAX_ARENA) with true. cbv iota.
      change (s64 BTT_MAX_ARENA) with BTT_MAX_ARENA. rewrite <- Z.add_assoc.
      assert (ext_sum (pre ++ [ar]) = ext_sum pre + external_nlba ar) as Es.
      { clear. induction pre as [|b pre IH]; cbn [app ext_sum]; lia. }
      rewrite <- Es. apply (IH _ fuel _ _ (raw - BTT_MAX_ARENA)); [|done|cbn in *; lia|done].
      by rewrite <- app_assoc. }
  exists (b1 ++ b2). split.
  - do 1 (apply does_outv_then; [done|]). eapply does_then; [apply does_hex|]. eapply does_then; [apply does_btt_info|].
    eapply does_bind; [exact Hdata|]. cbv iota. eapply does_then; [exact Hmap|]. cbv iota.
    eapply does_then; [exact Hflog|]. change (negb (0 =? 0)) with false. cbv iota.
    rewrite <- Z.add_assoc, read_at by (rewrite ?u64_id by lia; lia).
    apply does_outv_then; [done|]. apply does_then with (x := tt); [destruct (outv_on a (ia_vbackup a)); [apply does_hex|apply does_ret]|].
    eapply does_then; [apply does_btt_info|]. exact Hrest.
  - destruct (outv_on a (ia_vdata a)); [|exact (displays_app (d_blocks d) [] [] b1 b2 Hdisp Hdisp2)].
    cbn [all_blocks]. by apply displays_app.
Qed.

(** Every block asked for is visited once. *)
Lemma all_blocks_perm ars : forall pre, arenas s = pre ++ ars -> proper_ranges a rs ->
  all_blocks ars (ext_sum pre) ≡ₚ filter (fun l => chosen a rs l = true) (seqZ (ext_sum pre) (ext_sum ars)).
Proof.
  induction ars as [|ar ars IH]; intros pre E Hp; [done|]. cbn [all_blocks ext_sum].
  destruct (arena_conditions _ _ _ E) as (_ & _ & Hext & Hpre & Hnl & _). destruct (bf_small _ _ _ _ _ Hf) as [Hsm _].
  assert (0 <= ext_sum ars) as Hs.
  { destruct (bf_device _ _ _ _ _ Hf) as (Hinv & _).
    assert (forall l, Forall (fun b => 0 <= external_nlba b) l -> 0 <= ext_sum l) as Hsum
      by (intros l Hl; induction Hl; cbn [ext_sum]; lia).
    apply Hsum, Forall_lookup. intros j b Hj.
    assert (arenas s !! (length pre + S j)%nat = Some b) as Hj' by (by rewrite E, lookup_app_r, Nat.add_comm, Nat.add_sub by lia).
    pose proof (regions _ _ _ _ _ _ (bi_arena _ _ _ Hinv _ _ Hj')). lia. }
  assert (ext_sum (pre ++ [ar]) = ext_sum pre + external_nlba ar) as Es.
  { clear. induction pre as [|b pre IH]; cbn [app ext_sum]; lia. }
  rewrite seqZ_app, filter_app by lia. rewrite <- Es. f_equiv; [|apply IH; [by rewrite <- app_assoc|done]].
  apply visited_perm; [done|lia|done|lia].
Qed.
End Layout.
End Blocks.

(** ** The statistics and the blocks *)

(** How many of these blocks are of a kind. *)
Definition number (P : blkstate -> bool) (d : device) (ls : list Z) : Z :=
  Z.of_nat (length (filter (fun l => P (d_blocks d l) = true) ls)).

Lemma number_range P d ls : 0 <= number P d ls <= Z.of_nat (length ls).
Proof. unfold number. pose proof (length_filter (fun l => P (d_blocks d l) = true) ls). lia. Qed.

Lemma number_cons P d l ls : number P d (l :: ls) = (if P (d_blocks d l) then 1 else 0) + number P d ls.
Proof.
  unfold number. rewrite filter_cons. destruct (P (d_blocks d l)).
  - rewrite decide_True by done. cbn [length]. lia.
  - rewrite decide_False by done. lia.
Qed.

Lemma number_perm P d l1 l2 : l1 ≡ₚ l2 -> number P d l1 = number P d l2.
Proof. intros E. unfold number. by rewrite E. Qed.

(** The counters do not wrap before 2^32 blocks. *)
Lemma count_blocks_number a d ls : forall st,
  0 <= st_total st -> 0 <= st_zeros st -> 0 <= st_errors st -> 0 <= st_noflag st ->
  let m := Z.of_nat (length ls) in
  st_total st + m < 2 ^ 32 -> st_zeros st + m < 2 ^ 32 -> st_errors st + m < 2 ^ 32 -> st_noflag st + m < 2 ^ 32 ->
  let on := shown a in
  count_blocks a (d_blocks d) ls st =
  {| st_total := st_total st + number on d ls;
     st_zeros := st_zeros st + number (fun b => on b && is_zero_block b) d ls;
     st_errors := st_errors st + number (fun b => on b && is_error_block b) d ls;
     st_noflag := st_noflag st + number (fun b => on b && negb (is_zero_block b) && negb (is_error_block b)) d ls |}.
Proof.
  cbv zeta. unfold count_blocks.
  induction ls as [|l ls IH]; intros st H1 H2 H3 H4 B1 B2 B3 B4; cbn [length] in *.
  { cbn. unfold number. cbn. destruct st. cbn. by rewrite !Z.add_0_r. }
  rewrite !number_cons. rewrite filter_cons.
  destruct (decide (is_shown a (d_blocks d) l)) as [Es|Es]; unfold is_shown in Es;
    [rewrite Es|apply not_true_is_false in Es; rewrite Es]; cbn [andb].
  - cbn [fold_left].
    pose proof (u32_id (st_total st + 1) ltac:(lia)). pose proof (u32_id (st_zeros st + 1) ltac:(lia)).
    pose proof (u32_id (st_errors st + 1) ltac:(lia)). pose proof (u32_id (st_noflag st + 1) ltac:(lia)).
    destruct (is_zero_block (d_blocks d l)), (is_error_block (d_blocks d l));
      rewrite IH by (cbn [stats_add st_total st_zeros st_errors st_noflag negb andb]; lia);
      cbn [stats_add st_total st_zeros st_errors st_noflag negb andb]; f_equal; lia.
  - rewrite IH by lia. by rewrite !Z.add_0_l.
Qed.

(** The blocks asked for. *)
Definition asked (a : info_args) (rs : list range) (d : device) : list Z :=
  filter (fun l => chosen a rs l = true) (seqZ 0 (d_nlba d)).


(** ** Logs *)

Section Logs.
Context (a : info_args) (f : file) (mmap_ok : Z -> Z -> bool) (Pagesize : Z) (data : list byte).
Context (Hlog : log_file (f_size f) (f_bytes f) data) (Hpage : 0 < Pagesize).

Lemma mapped_data off n :
  0 <= off -> 0 <= n -> off + n <= Z.of_nat (length data) ->
  mapped_bytes f Pagesize LOG_START (Z.of_nat (length data)) off n = ret (slice data (Z.to_nat off) (Z.to_nat n)).
Proof.
  intros Ho Hn Hl. unfold mapped_bytes. pose proof (lf_fits _ _ _ Hlog) as Hf. change LOG_START with 8192 in *.
  pose proof (roundup_bounds (Z.of_nat (length data)) Pagesize Hpage).
  pose proof (roundup_bounds (f_size f) Pagesize Hpage).
  rewrite !(proj2 (Z.ltb_ge _ _)) by lia. f_equal.
  rewrite (mread_agree _ (f_bytes f)) by (intros z Hz; by rewrite (proj2 (Z.ltb_lt _ _)) by lia).
  rewrite <- (lf_data _ _ _ Hlog). unfold slice. change LOG_START with 8192.
  rewrite mread_sub by lia. by rewrite Z2Nat.id by lia.
Qed.

(** Running the loop over chunks. *)
Lemma log_chunks_ok walk n : forall i st, outv_on a (ia_vdata a) = true -> 0 < walk -> 0 <= i ->
  (i + Z.of_nat n) * walk <= Z.of_nat (length data) ->
  log_chunks_loop a f Pagesize n (ia_vdata a) LOG_START (Z.of_nat (length data)) walk i st =
  inr (tt, {| is_out := is_out st ++ map (fun i => ChunkDump i (slice data (Z.to_nat (i * walk)) (Z.to_nat walk))
                                                    (LOG_START + i * walk)) (seqZ i (Z.of_nat n));
              is_ranges := is_ranges st |}).
Proof.
  induction n as [|n IH]; intros i st Hv Hw Hi Hl.
  { cbn. rewrite app_nil_r. by destruct st. }
  cbn [log_chunks_loop]. pose proof (lf_fits _ _ _ Hlog) as Hf. change LOG_START with 8192 in *.
  assert ((i + 1) * walk <= Z.of_nat (length data)) by nia.
  pose proof (mapped_data (i * walk) walk ltac:(nia) ltac:(lia) ltac:(lia)) as Hmd. change LOG_START with 8192 in Hmd.
  unfold bindM at 1. rewrite Hmd. cbn [ret]. unfold bindM at 1. unfold outv. rewrite Hv. unfold emit, modM.
  rewrite IH by (done || lia). cbn [is_out is_ranges]. rewrite u64_id by lia.
  rewrite (seqZ_cons i) by lia. cbn [map]. rewrite <- app_assoc. do 5 f_equal. replace (Z.of_nat (S n)) with (Z.succ (Z.of_nat n)) by lia.
  by rewrite Z.pred_succ.
Qed.

(** pmempool info -d on a log, when no ranges are given: the data as a whole,
    or with -w the chunks that are full, in order; what is left after the last
    full chunk is not shown. *)
Theorem pmempool_info_log_data_exact (st : info_state) (l : Z)
  (Hon : outv_on a (ia_vdata a) = true) (Hwalk : 0 <= ia_walk a) (Hne : data <> [])
  (Hmmap : mmap_ok (Z.of_nat (length data)) LOG_START = true)
  (Hrs : is_ranges st = [{| first := 0; last := l |}]) (Hl : Z.of_nat (length data) <= l + 1)
  (Hchunks : Z.of_nat (length data) < 2 ^ 32 * ia_walk a \/ ia_walk a = 0) :
  exists st', pmempool_info_log_data a f mmap_ok Pagesize (ia_vdata a) LOG_START (LOG_START + Z.of_nat (length data)) st =
      inr (0, st') /\
    is_out st' = is_out st ++
      (if ia_walk a =? 0 then [Heading "PMEMLOG data"; Hexdump data LOG_START]
       else ChunksHeading (Z.of_nat (length data) / ia_walk a) (ia_walk a) ::
            map (fun i => ChunkDump i (slice data (Z.to_nat (i * ia_walk a)) (Z.to_nat (ia_walk a)))
                            (LOG_START + i * ia_walk a))
                (seqZ 0 (Z.of_nat (length data) / ia_walk a))).
Proof.
  pose proof (lf_fits _ _ _ Hlog) as Hf. unfold pmempool_info_log_data. rewrite Hon. cbn [negb].
  assert (0 < Z.of_nat (length data)) as Hpos by (destruct data; [done|cbn; lia]).
  assert (u64 (LOG_START + Z.of_nat (length data) - LOG_START) = Z.of_nat (length data)) as ->.
  { change LOG_START with 8192 in *. rewrite u64_id; lia. }
  rewrite (proj2 (Z.eqb_neq (Z.of_nat (length data)) 0)) by lia. rewrite Hmmap. cbn [negb].
  destruct (Z.eqb_spec (ia_walk a) 0) as [Ew|Ew].
  - unfold bindM at 1, outv at 1. rewrite Hon. unfold emit, modM. unfold bindM at 1, get_ranges, bindM at 1, getM, ret at 1.
    cbn [is_ranges]. rewrite Hrs. cbn [log_ranges_loop first last]. unfold bindM at 1.
    assert ((if Z.of_nat (length data) <=? l then set_last {| first := 0; last := l |} (u64 (Z.of_nat (length data) - 1))
             else {| first := 0; last := l |}) = {| first := 0; last := Z.of_nat (length data) - 1 |}) as ->.
    { destruct (Z.leb_spec (Z.of_nat (length data)) l); [by rewrite u64_id by (change LOG_START with 8192 in *; lia)|].
      f_equal. lia. }
    cbn [first last]. rewrite u64_id by (change LOG_START with 8192 in *; lia).
    replace (Z.of_nat (length data) - 1 - 0 + 1) with (Z.of_nat (length data)) by lia.
    unfold bindM at 1. rewrite mapped_data by lia. cbn [ret]. unfold slice. rewrite Z2Nat.inj_0, drop_0, Nat2Z.id, firstn_all.
    unfold bindM at 1, outv_hex. rewrite Hon, (proj2 (Nat.eqb_neq _ _)) by lia. cbn [andb negb]. unfold emit, modM.
    rewrite Z.sub_diag. change (u64 0 =? 0) with true. cbv iota. cbn [ret]. unfold bindM, put_ranges, modM, ret.
    eexists. split; [reflexivity|]. cbn [is_out]. rewrite <- app_assoc. cbn [app].
    rewrite u64_id by (change LOG_START with 8192 in *; lia). done.
  - pose proof (Z.div_pos (Z.of_nat (length data)) (ia_walk a) ltac:(lia) ltac:(lia)) as Hq.
    assert (Z.of_nat (length data) / ia_walk a < 2 ^ 32) as Hq32 by (apply Z.div_lt_upper_bound; lia).
    pose proof (Z.mul_div_le (Z.of_nat (length data)) (ia_walk a) ltac:(lia)) as Hqm.
    assert (Z.of_nat (length data) / ia_walk a <= Z.of_nat (length data)) by (apply Z.div_le_upper_bound; nia).
    unfold bindM at 1, outv at 1. rewrite Hon. unfold emit, modM. unfold bindM at 1, get_ranges, bindM at 1, getM, ret at 1.
    cbn [is_ranges]. rewrite Hrs. unfold log_chunk_ranges. cbn [fold_right first last]. rewrite u32_id by lia.
    rewrite Z.min_r by lia. rewrite Z.sub_0_r. unfold bindM at 1. unfold bindM at 1.
    rewrite log_chunks_ok by (done || (rewrite ?Z2Nat.id by lia; lia)). cbn [ret]. unfold ret.
    eexists. split; [reflexivity|]. cbn [is_out]. rewrite <- app_assoc. cbn [app]. by rewrite Z2Nat.id by lia.
Qed.
End Logs.

(** ** Termination *)

(** [m] has enough fuel. *)
Definition ends {A} (m : info A) : Prop := forall st, m st <> inl OutOfFuel.

Lemma ends_ret {A} (x : A) : ends (ret x).
Proof. done. Qed.

Lemma ends_undefined {A} : ends (fail (A := A) Undefined).
Proof. done. Qed.

Lemma ends_bind {A B} (m : info A) (k : A -> info B) : ends m -> (forall x, ends (k x)) -> ends (bindM m k).
Proof.
  intros Hm Hk st. unfold bindM. specialize (Hm st). destruct (m st) as [e|[x st']]; [congruence|apply Hk].
Qed.

Lemma ends_emit it : ends (emit it).
Proof. done. Qed.

Lemma ends_get : ends get_ranges.
Proof. done. Qed.

Lemma ends_put rs : ends (put_ranges rs).
Proof. done. Qed.

Create HintDb ends discriminated.
#[export] Hint Constants Opaque : ends.
#[export] Hint Resolve ends_ret ends_undefined ends_emit ends_get ends_put : ends.

Ltac ends_step :=
  repeat (intros; lazymatch goal with
                  | |- ends (bindM _ _) => apply ends_bind
                  | |- ends (match _ with _ => _ end) => case_match
                  | |- _ => first [solve [auto 2 with ends] | progress cbv zeta]
                  end).

Lemma ends_outv a v it : ends (outv a v it).
Proof. unfold outv. ends_step. Qed.
Lemma ends_hex a v bs off : ends (outv_hex a v bs off).
Proof. unfold outv_hex. ends_step. Qed.
Lemma ends_mapped f P start len off count : ends (mapped_bytes f P start len off count).
Proof. unfold mapped_bytes. ends_step. Qed.
Lemma ends_map_at map i : ends (map_at map i).
Proof. unfold map_at. ends_step. Qed.
#[export] Hint Resolve ends_outv ends_hex ends_mapped ends_map_at : ends.

Section Ends.
Context (a : info_args) (f : file) (mmap_ok : Z -> Z -> bool) (Pagesize : Z).

Lemma ends_pool_hdr v : ends (pmempool_info_pool_hdr a f v).
Proof. unfold pmempool_info_pool_hdr. ends_step. Qed.

Lemma ends_log_ranges v start len size rs : ends (log_ranges_loop a f Pagesize v start len size rs).
Proof. revert size. induction rs as [|r rs IH]; intros size; cbn [log_ranges_loop]; ends_step. Qed.

Lemma ends_log_chunks n v start len walk i : ends (log_chunks_loop a f Pagesize n v start len walk i).
Proof. revert i. induction n as [|n IH]; intros i; cbn [log_chunks_loop]; ends_step. Qed.
#[local] Hint Resolve ends_pool_hdr ends_log_ranges ends_log_chunks : ends.

Lemma ends_log_chunk_ranges v start len walk n rs : ends (log_chunk_ranges a f Pagesize v start len walk n rs).
Proof. unfold log_chunk_ranges. induction rs as [|r rs IH]; cbn [fold_right]; ends_step. Qed.
#[local] Hint Resolve ends_log_chunk_ranges : ends.

Lemma ends_log v : ends (pmempool_info_log a f mmap_ok Pagesize v).
Proof. unfold pmempool_info_log, pmempool_info_log_stats, pmempool_info_log_data. ends_step. Qed.

Lemma ends_btt_info v bs : ends (pmempool_info_btt_info a v bs).
Proof. unfold pmempool_info_btt_info. ends_step. Qed.

Lemma ends_data_loop n v infop off offset map i c : ends (btt_data_loop a f n v infop off offset map i c).
Proof. revert i c. induction n as [|n IH]; intros i c; cbn [btt_data_loop]; ends_step. Qed.
#[local] Hint Resolve ends_log ends_btt_info ends_data_loop : ends.

Lemma ends_data_ranges v infop off offset map rs c : ends (btt_data_ranges a f v infop off offset map rs c).
Proof. revert c. induction rs as [|r rs IH]; intros c; cbn [btt_data_ranges]; ends_step. Qed.

Lemma ends_map_loop n v offset map i s c : ends (btt_map_loop a n v offset map i s c).
Proof. revert i s c. induction n as [|n IH]; intros i s c; cbn [btt_map_loop]; ends_step. Qed.
#[local] Hint Resolve ends_data_ranges ends_map_loop : ends.

Lemma ends_map_ranges v infop offset map rs s c : ends (btt_map_ranges a v infop offset map rs s c).
Proof. revert s c. induction rs as [|r rs IH]; intros s c; cbn [btt_map_ranges]; ends_step. Qed.

Lemma ends_flog_loop n v buff i : ends (btt_flog_loop a n v buff i).
Proof. revert i. induction n as [|n IH]; intros i; cbn [btt_flog_loop]; unfold info_flog_entry; ends_step. Qed.
#[local] Hint Resolve ends_map_ranges ends_flog_loop : ends.

Lemma ends_data v infop off offset c : ends (pmempool_info_btt_data a f v infop off offset c).
Proof. unfold pmempool_info_btt_data. ends_step. Qed.
Lemma ends_map v infop off s offset : ends (pmempool_info_btt_map a f v infop off s offset).
Proof. unfold pmempool_info_btt_map. ends_step. Qed.
Lemma ends_flog v infop off : ends (pmempool_info_btt_flog a f v infop off).
Proof. unfold pmempool_info_btt_flog. ends_step. Qed.
Lemma ends_stats v s : ends (pmempool_info_btt_stats a v s).
Proof. unfold pmempool_info_btt_stats. ends_step. Qed.
#[local] Hint Resolve ends_data ends_map ends_flog ends_stats : ends.

(** An arena lies beyond the one before, and past the end nothing can be read. *)
Lemma read_inside n off bs : 0 < n -> 0 <= off < 2 ^ 64 -> pmempool_info_read f n off = Some bs ->
  off < 2 ^ 63 /\ off + n <= f_size f.
Proof.
  intros Hn Ho. unfold pmempool_info_read, s64.
  destruct (Z.lt_ge_cases off (2 ^ 63)) as [Hlt|Hge].
  - rewrite Z.mod_small by lia. replace (off + 2 ^ 63 - 2 ^ 63) with off by lia. repeat case_match; try done. bools. lia.
  - replace (off + 2 ^ 63) with (off - 2 ^ 63 + 1 * 2 ^ 64) by lia. rewrite Z.mod_add, Z.mod_small by lia.
    rewrite (proj2 (Z.ltb_lt _ 0)) by lia. done.
Qed.

Lemma ends_layout fuel : forall narena off cur c s,
  0 <= off < 2 ^ 64 -> f_size f - off < Z.of_nat fuel -> (0 < fuel)%nat -> ends (btt_layout_loop a f fuel narena off cur c s).
Proof.
  induction fuel as [|fuel IH]; intros narena off cur c s Ho Hf Hpos; [lia|]. cbn [btt_layout_loop].
  destruct (pmempool_info_read f BTT_INFO_SIZE off) as [bs|] eqn:Er; [|apply ends_ret].
  apply read_inside in Er as [Ho63 Hin]; [|done|done]. unfold BTT_INFO_SIZE in Hin.
  assert (forall cur c s, 0 < s64 (i_nextoff (btt_info_of bs)) ->
    ends (btt_layout_loop a f fuel (narena + 1) (off + s64 (i_nextoff (btt_info_of bs))) cur c s)) as Hrec.
  { intros cur' c' s' Hn. apply IH; [|lia|lia]. pose proof (Z.mod_pos_bound (i_nextoff (btt_info_of bs) + 2 ^ 63) (2 ^ 64) ltac:(lia)).
    unfold s64 in *. lia. }
  ends_step. apply Hrec. by apply Z.ltb_lt.
Qed.

Lemma ends_open_file fuel n name : 0 <= f_size f < Z.of_nat fuel -> ends (pmempool_info_open_file a f mmap_ok Pagesize fuel n name).
Proof.
  intros Hfuel. unfold pmempool_info_open_file, pmempool_info_blk, pmempool_info_btt_layout.
  assert (forall off cur c s, 0 < s64 off -> ends (btt_layout_loop a f fuel 0 (s64 off) cur c s)) as Hl.
  { intros off cur c s Hoff. apply ends_layout; [|lia|lia]. unfold s64 in *.
    pose proof (Z.mod_pos_bound (off + 2 ^ 63) (2 ^ 64) ltac:(lia)). lia. }
  ends_step. apply Hl. by apply Z.leb_gt.
Qed.
End Ends.

(** Arguments are parsed in the end, too. *)
Lemma parse_size_ends str : util_parse_size str <> inl OutOfFuel.
Proof. unfold util_parse_size. cbv zeta. repeat case_match; congruence. Qed.

Lemma size_into_ends str set r : size_into str set r <> inl OutOfFuel.
Proof. unfold size_into. pose proof (parse_size_ends str). repeat case_match; congruence. Qed.

Lemma parse_range_ends str r entire : util_parse_range str r entire <> inl OutOfFuel.
Proof.
  assert (forall p k, p <> inl OutOfFuel -> (forall r, k r <> inl OutOfFuel) -> or_else p k <> inl OutOfFuel) as Hor.
  { intros p k Hp Hk. unfold or_else. repeat case_match; try congruence; apply Hk. }
  unfold util_parse_range. apply Hor; [|intros r1; apply Hor; [|intros r2; apply Hor; [|intros r3]]].
  - unfold util_parse_range_from_to. repeat case_match; try congruence;
      try (match goal with H : size_into ?s ?f ?r = _ |- _ => pose proof (size_into_ends s f r) end; congruence).
    all: match goal with H : (if ?b then size_into ?s ?f ?r else _) = _ |- _ => pose proof (size_into_ends s f r); destruct b; congruence end.
  - unfold util_parse_range_from. repeat case_match; try congruence;
      try (match goal with H : size_into ?s ?f ?r = _ |- _ => pose proof (size_into_ends s f r) end; congruence).
  - unfold util_parse_range_to. repeat case_match; try congruence;
      try (match goal with H : size_into ?s ?f ?r = _ |- _ => pose proof (size_into_ends s f r) end; congruence).
  - unfold util_parse_range_number. repeat case_match; try congruence;
      try (match goal with H : size_into ?s ?f ?r = _ |- _ => pose proof (size_into_ends s f r) end; congruence).
Qed.

Lemma split_comma_shorter s w next : split_comma s = (w, Some next) -> (length next < length s)%nat.
Proof.
  revert w. induction s as [|c s IH]; intros w E; cbn [split_comma] in E; [done|].
  case_bool_decide; [injection E as _ <-; cbn; lia|].
  destruct (split_comma s) as [w' n']. injection E as _ ->. specialize (IH w' eq_refl). cbn. lia.
Qed.

Lemma parse_ranges_ends free str heap rs entire : util_parse_ranges free str heap rs entire <> inl OutOfFuel.
Proof.
  unfold util_parse_ranges. enough (forall fuel next heap rs, (length next < fuel)%nat ->
    parse_ranges_loop free fuel next heap rs entire <> inl OutOfFuel) as H by (apply H; lia).
  induction fuel as [|fuel IH]; intros next heap' rs' Hf; [lia|]. cbn [parse_ranges_loop].
  destruct (split_comma next) as [w next'] eqn:Es. pose proof (parse_range_ends w (heap' 0%nat) entire) as Hp.
  destruct (util_parse_range w (heap' 0%nat) entire) as [e|[[] r]]; [congruence| |done].
  destruct next' as [next'|]; [|done]. apply IH. apply split_comma_shorter in Es. lia.
Qed.

(** C38. pmempool info ends, whatever the files and the arguments are: each
    arena it goes to lies beyond the one before, and reading past the end of a
    file fails, so more steps than the bytes of the largest file are enough. *)
Theorem pmempool_info_terminates (free : freed_link) (heaps : nat -> nat -> range) (no_args : bool)
  (gs : list getopt_result) (names : list string) (fs : fsys) (mmap_ok : Z -> Z -> bool) (Pagesize : Z) (fuel : nat)
  (Hfuel : forall name f, files fs !! name = Some f -> 0 <= f_size f < Z.of_nat fuel) :
  pmempool_info_func free heaps no_args gs names fs mmap_ok Pagesize fuel <> inl OutOfFuel.
Proof.
  assert (forall a n l r, ends (info_files_loop a fs mmap_ok Pagesize fuel n l r)) as Hloop.
  { intros a n l. induction l as [|name l IH]; intros r; cbn [info_files_loop]; [apply ends_ret|].
    apply ends_bind; [|intros x; apply IH]. unfold pmempool_info_file.
    destruct (files fs !! name) as [f|] eqn:Ef; [|apply ends_ret]. by eapply ends_open_file, Hfuel. }
  assert (info_parse_args free heaps no_args gs <> inl OutOfFuel) as Hargs.
  { assert (forall gs a rs, info_parse_opts free heaps a rs gs <> inl OutOfFuel) as Ho.
    { clear. induction gs as [|g gs IH]; intros a rs; cbn [info_parse_opts]; [done|].
      assert (info_parse_opt free (heaps (length gs)) a rs g <> inl OutOfFuel) as H1.
      { unfold info_parse_opt. cbv zeta. pose proof (parse_ranges_ends free (arg_of g) (heaps (length gs)) rs (ia_entire a)).
        destruct (opt g); try done; repeat case_match; congruence. }
      destruct (info_parse_opt _ _ _ _ _) as [e|[a' rs'| |]]; [congruence|apply IH|done|done]. }
    unfold info_parse_args. destruct no_args; [done|]. specialize (Ho gs info_args_default []).
    destruct (info_parse_opts _ _ _ _ _) as [e|[]]; congruence. }
  unfold pmempool_info_func. destruct (info_parse_args _ _ _ _) as [e|[a rs|st|]]; [congruence| |done|done].
  assert (ends (pmempool_info_file_all a fs mmap_ok Pagesize fuel names)) as Hall
    by (unfold pmempool_info_file_all; destruct names; [apply ends_ret|apply Hloop]).
  specialize (Hall {| is_out := []; is_ranges := rs |}). destruct (pmempool_info_file_all _ _ _ _ _ _ _) as [e|[r s]]; congruence.
Qed.
