(* ===== verification/BttExamples.v ===== *)
(** BttExamples: a BTT of 16 megabytes in a file of zeros, and the theorems of
    Util and Btt* applied to it. *)

From stdpp Require Import strings.
From S2P Require Import Prelude Mem Util BttLayout Prog Btt BttInv BttSpec BttOpen BttCrash BttFresh BttCheck Blk.

(** An allocator that always succeeds. *)
#[export] Instance ex_alloc : Allocator := fun _ => true.

Lemma ex_alloc_ok : forall z, malloc_ok z = true.
Proof. done. Qed.

Definition ex_ns : ns := {| p_mem := fun _ => x00; p_size := 2 ^ 24 + 8192; cb_is_zeroed := true |}.
Definition ex_uuid : list byte := replicate 16 x07.

(** The BTT after [btt_init], before the first write: 512-byte blocks, 2 lanes. *)
Definition ex_btt : btt := init_unlaid (2 ^ 24) 512 ex_uuid 2.

Lemma ex_lay_ok : lay_ok (2 ^ 24) 512.
Proof. split; [done|reflexivity|lia]. Qed.

Lemma ex_lay_int : lay_int (2 ^ 24) 512 = 32458.
Proof. reflexivity. Qed.

Lemma ex_size : ns_size ex_ns = 2 ^ 24.
Proof. reflexivity. Qed.

Lemma ex_unlaid : unlaid (ns_size ex_ns) ex_btt.
Proof. rewrite ex_size. apply init_unlaid_ok; [apply ex_lay_ok|by rewrite ex_lay_int|by cbn; lia]. Qed.

Lemma ex_zeroed : zeroed_ok ex_ns.
Proof. done. Qed.

(** Its state and media once laid out. *)
Lemma ex_laid : exists n, ns_size n = 2 ^ 24 /\
  implements (2 ^ 24) (laid ex_btt) (ns_mem n) (zero_device 32202) /\ on_media (2 ^ 24) (laid ex_btt) (ns_mem n).
Proof.
  destruct (laid_ready ex_alloc_ok ex_ns ex_btt [] 0 ex_unlaid ex_zeroed) as (n & evs & _ & Hs & Hi & Ho);
    [split; [lia|reflexivity]|].
  exists n. rewrite <- ex_size. split; [done|]. split; [|done]. exact Hi.
Qed.

Lemma ex_lane : lane_ok (laid ex_btt) 1.
Proof. split; [lia|reflexivity]. Qed.

Definition ex_buf : list byte := replicate 512 x05.

(** ** The block translation table *)

Lemma btt_read_refines_witness : exists n, implements (2 ^ 24) (laid ex_btt) (ns_mem n) (zero_device 32202) /\
  run (btt_read 1 1 7) (Build_world n (laid ex_btt) []) = (Done (replicate 512 x00), Build_world n (laid ex_btt) []) /\
  run (btt_read 1 1 32202) (Build_world n (laid ex_btt) []) = (Err EINVAL, Build_world n (laid ex_btt) []).
Proof.
  destruct ex_laid as (n & Hs & Hi & Ho). exists n. split; [exact Hi|].
  assert (implements (ns_size n) (laid ex_btt) (ns_mem n) (zero_device 32202)) as Hi' by (by rewrite Hs).
  split.
  - rewrite (btt_read_refines 0 n (laid ex_btt) [] _ 1 7 Hi' ex_lane ltac:(lia)). reflexivity.
  - rewrite (btt_read_refines 0 n (laid ex_btt) [] _ 1 32202 Hi' ex_lane ltac:(lia)). reflexivity.
Defined.

Lemma btt_write_refines_witness : exists n n' s' lg',
  implements (2 ^ 24) (laid ex_btt) (ns_mem n) (zero_device 32202) /\
  run (btt_write 1 7 ex_buf) (Build_world n (laid ex_btt) []) = (Done tt, Build_world n' s' lg') /\
  implements (2 ^ 24) s' (ns_mem n') (d_set (zero_device 32202) 7 (BData ex_buf)).
Proof.
  destruct ex_laid as (n & Hs & Hi & Ho).
  assert (implements (ns_size n) (laid ex_btt) (ns_mem n) (zero_device 32202)) as Hi' by (by rewrite Hs).
  destruct (btt_write_refines n (laid ex_btt) [] _ 1 7 ex_buf Hi' ex_lane ltac:(lia) eq_refl)
    as (n' & s' & lg' & E & _ & _ & Hw). rewrite Hs in Hw.
  exists n, n', s', lg'. split; [exact Hi|]. split; [exact E|exact Hw].
Defined.

Lemma btt_setf_refines_witness : exists n n' lg',
  implements (2 ^ 24) (laid ex_btt) (ns_mem n) (zero_device 32202) /\
  run (btt_set_error 1 7) (Build_world n (laid ex_btt) []) = (Done tt, Build_world n' (laid ex_btt) lg') /\
  implements (2 ^ 24) (laid ex_btt) (ns_mem n') (d_set (zero_device 32202) 7 BError).
Proof.
  destruct ex_laid as (n & Hs & Hi & Ho).
  assert (implements (ns_size n) (laid ex_btt) (ns_mem n) (zero_device 32202)) as Hi' by (by rewrite Hs).
  destruct (btt_setf_refines n (laid ex_btt) [] _ 1 7 Hi' ltac:(lia) false) as (n' & lg' & E & _ & Hw).
  rewrite Hs in Hw. exists n, n', lg'. split; [exact Hi|]. split; [exact E|exact Hw].
Defined.

Lemma btt_write_crash_atomic_witness : exists n,
  implements (2 ^ 24) (laid ex_btt) (ns_mem n) (zero_device 32202) /\
  forall n1, ns_size n1 = 2 ^ 24 ->
    crashed (ns_mem n) (w_log (snd (run (btt_write 1 7 ex_buf) (Build_world n (laid ex_btt) [])))) (ns_mem n1) ->
    exists n2 s2 lg2 d',
      run (btt_init (2 ^ 24) 512 ex_uuid 2) (Build_world n1 zero_btt []) = (Done tt, Build_world n2 s2 lg2) /\
      implements (2 ^ 24) s2 (ns_mem n2) d' /\
      (d' = zero_device 32202 \/ d' = d_set (zero_device 32202) 7 (BData ex_buf)).
Proof.
  destruct ex_laid as (n & Hs & Hi & Ho). exists n. split; [exact Hi|]. intros n1 Hs1 Hc.
  assert (implements (ns_size n) (laid ex_btt) (ns_mem n) (zero_device 32202)) as Hi' by (by rewrite Hs).
  assert (on_media (ns_size n) (laid ex_btt) (ns_mem n)) as Ho' by (by rewrite Hs).
  destruct (btt_write_crash_atomic ex_alloc_ok n n1 (laid ex_btt) zero_btt _ 1 7 2 ex_buf ex_uuid Hi' Ho' ex_lane
    ltac:(lia) eq_refl eq_refl (eq_trans Hs1 (eq_sym Hs)) Hc) as (n2 & s2 & lg2 & d' & E & H2 & _ & Hd).
  rewrite Hs in H2. exists n2, s2, lg2, d'. split; [exact E|]. split; [exact H2|exact Hd].
Defined.

Lemma btt_init_restartable_witness : exists n n' s' evs,
  implements (2 ^ 24) (laid ex_btt) (ns_mem n) (zero_device 32202) /\
  run (btt_init (2 ^ 24) 512 ex_uuid 2) (Build_world n zero_btt []) = (Done tt, Build_world n' s' evs) /\
  implements (2 ^ 24) s' (ns_mem n') (zero_device 32202).
Proof.
  destruct ex_laid as (n & Hs & Hi & Ho).
  assert (recoverable (ns_size n) (laid ex_btt) (ns_mem n) (zero_device 32202)) as Hr by (rewrite Hs; by apply rec_quiet).
  destruct (btt_init_restartable ex_alloc_ok n (laid ex_btt) zero_btt [] _ ex_uuid 2 Hr eq_refl)
    as (n' & s' & evs & E & H2 & _).
  rewrite Hs in H2. exists n, n', s', evs. split; [exact Hi|]. split; [exact E|exact H2].
Defined.

Lemma ex_no_info : read_info (init_state (2 ^ 24) 512 ex_uuid) (mread (ns_mem ex_ns) 0 BTT_INFO_SIZE) = None.
Proof. unfold read_info. rewrite bool_decide_false; [done|]. by vm_compute. Qed.

Lemma btt_init_fresh_witness : exists s,
  run (btt_init (2 ^ 24) 512 ex_uuid 2) (Build_world ex_ns zero_btt []) = (Done tt, Build_world ex_ns s []) /\
  btt_nlba s = 32202.
Proof.
  pose proof (btt_init_fresh ex_alloc_ok ex_ns zero_btt [] (2 ^ 24) 512 0 0 2 ex_uuid 0 ex_lay_ok eq_refl ltac:(lia) ex_no_info) as H.
  rewrite ex_lay_int in H. change (32458 <? 512) with false in H. cbv iota in H.
  destruct H as (s & E & Hn & _). exists s. split; [exact E|exact Hn].
Defined.

