(* ===== verification/BttConcExamples.v ===== *)
(** BttConcExamples: interleavings of lanes on the BTT of BttExamples.

    A schedule is a list of moves; [exec] runs it.  The theorems of BttConcSpec
    and BttConcSafe are applied to executions it gives, and one of them shows
    what a read that leaves the retry loop leaves behind. *)

From S2P Require Import Prelude Mem Util BttLayout Prog Btt BttInv BttSpec BttOpen BttFresh Blk BttExamples BttConc BttConcSpec BttConcSafe.

(** ** Schedules *)

(** A call (with the fuel of its loop), some steps of a lane, a return. *)
Inductive move := MCall (l : nat) (op : call) (fuel : nat) | MRun (l k : nat) | MRet (l : nat).

Definition call_okb (lbs : Z) (c : call) : bool :=
  match c with
  | CRead lba | CSetZero lba | CSetError lba => 0 <=? lba
  | CWrite lba buf => (0 <=? lba) && (Z.of_nat (length buf) =? lbs)
  end.

Lemma call_okb_ok lbs c : call_okb lbs c = true -> call_ok lbs c.
Proof. destruct c; cbn; rewrite ?andb_true_iff; lia. Qed.

Section Exec.
Context {N : Type} `{NsOps N} `{Allocator}.

Definition lane_step (c : config N) (l : nat) : option (config N) :=
  match c_lanes c !! l with
  | Some (Some (op, p)) =>
      match pstep p (c_ns c) (c_st c) with
      | Some (p', n', s') =>
          Some {| c_ns := n'; c_st := s'; c_lanes := <[l := Some (op, p')]> (c_lanes c) |}
      | None => None
      end
  | _ => None
  end.

(** At most [k] steps of the lane. *)
Fixpoint lane_run (c : config N) (l k : nat) : config N :=
  match k with
  | O => c
  | S k => match lane_step c l with Some c' => lane_run c' l k | None => c end
  end.

Definition exec_move (c : config N) (m : move) : option (list label * config N) :=
  match m with
  | MCall l op fuel =>
      match c_lanes c !! l with
      | Some None =>
          if call_okb (lbasize (c_st c)) op then
            Some ([LCall l op],
              {| c_ns := c_ns c; c_st := c_st c;
                 c_lanes := <[l := Some (op, prog_of fuel (Z.of_nat l) op)]> (c_lanes c) |})
          else None
      | _ => None
      end
  | MRun l k => Some ([], lane_run c l k)
  | MRet l =>
      match c_lanes c !! l with
      | Some (Some (_, p)) =>
          match result_of p with
          | Some r => Some ([LRet l r],
              {| c_ns := c_ns c; c_st := c_st c; c_lanes := <[l := None]> (c_lanes c) |})
          | None => None
          end
      | _ => None
      end
  end.

Fixpoint exec (c : config N) (ms : list move) : option (list label * config N) :=
  match ms with
  | [] => Some ([], c)
  | m :: ms =>
      match exec_move c m with
      | Some (tr, c1) =>
          match exec c1 ms with Some (tr2, c2) => Some (tr ++ tr2, c2) | None => None end
      | None => None
      end
  end.

Lemma csteps_one (c c' : config N) o : cstep c o c' -> csteps c (visible o) c'.
Proof. intros Hs. rewrite <- (app_nil_r (visible o)). eapply csteps_step; [done|constructor]. Qed.

Lemma csteps_app (c c1 c2 : config N) t1 t2 :
  csteps c t1 c1 -> csteps c1 t2 c2 -> csteps c (t1 ++ t2) c2.
Proof. intros H1 H2. induction H1; [done|]. rewrite <- app_assoc. eapply csteps_step; eauto. Qed.

Lemma lane_run_csteps k (c : config N) l : csteps c [] (lane_run c l k).
Proof.
  revert c. induction k as [|k IH]; intros c; cbn [lane_run]; [constructor|].
  unfold lane_step. destruct (c_lanes c !! l) as [[[op p]|]|] eqn:El; try constructor.
  destruct (pstep p (c_ns c) (c_st c)) as [[[p' n'] s']|] eqn:Ep; [|constructor].
  eapply (csteps_step c None _ []); [by eapply cstep_run|apply IH].
Qed.

Lemma exec_csteps ms (c : config N) tr c' : exec c ms = Some (tr, c') -> csteps c tr c'.
Proof.
  revert c tr c'. induction ms as [|m ms IH]; intros c tr c' E; cbn [exec] in E.
  - injection E as <- <-. constructor.
  - destruct (exec_move c m) as [[t1 c1]|] eqn:Em; [|done].
    destruct (exec c1 ms) as [[t2 c2]|] eqn:Es; [|done]. injection E as <- <-.
    eapply csteps_app; [|by apply IH]. destruct m as [l op fuel|l k|l]; cbn in Em.
    + destruct (c_lanes c !! l) as [[?|]|] eqn:El; try done.
      destruct (call_okb _ op) eqn:Eo; [|done]. injection Em as <- <-.
      apply (csteps_one _ _ (Some _)). apply cstep_call; [done|by apply call_okb_ok].
    + injection Em as <- <-. apply lane_run_csteps.
    + destruct (c_lanes c !! l) as [[[op p]|]|] eqn:El; try done.
      destruct (result_of p) as [r|] eqn:Er; [|done]. injection Em as <- <-.
      apply (csteps_one _ _ (Some _)). by eapply cstep_ret.
Qed.

(** Can the lane take a step, or return? *)
Definition moves (c : config N) (l : nat) : bool :=
  match c_lanes c !! l with
  | Some (Some (_, p)) =>
      match pstep p (c_ns c) (c_st c), result_of p with None, None => false | _, _ => true end
  | _ => false
  end.
End Exec.

(** ** The executions *)

(** The BTT of BttExamples after its first write, to block 7. *)
Definition ex_first : world ns btt :=
  snd (run (btt_write 1 7 ex_buf) (Build_world ex_ns ex_btt [])).
Definition ex_dev : device := d_set (zero_device 32202) 7 (BData ex_buf).

Lemma ex_first_implements : implements (ns_size (w_ns ex_first)) (w_st ex_first) (ns_mem (w_ns ex_first)) ex_dev.
Proof.
  assert (0 <= 7 < nlba ex_btt) as Hl by (split; [lia|reflexivity]).
  destruct (write_unlaid ex_alloc_ok ex_ns ex_btt [] 1 7 ex_buf ex_unlaid ex_zeroed ex_lane Hl)
    as (n1 & evs & E1 & S1 & Himp).
  destruct (write_refines n1 (laid ex_btt) ([] ++ evs) _ 1 7 ex_buf Himp ex_lane ltac:(lia) eq_refl)
    as (n' & s' & lg' & E & S2 & _ & Hi).
  unfold ex_first. rewrite E1, E. cbn [snd w_ns w_st]. rewrite S2. exact Hi.
Qed.

Definition ex_c0 : config ns := idle_config (w_ns ex_first) (w_st ex_first).
Definition ex_run (ms : list move) : list label * config ns := default ([], ex_c0) (exec ex_c0 ms).

Lemma ex_run_csteps ms : csteps ex_c0 (ex_run ms).1 (ex_run ms).2.
Proof.
  unfold ex_run. destruct (exec ex_c0 ms) as [[tr c]|] eqn:E; [by eapply exec_csteps|constructor].
Qed.

(** What a lane is about to touch. *)
Definition pending (c : config ns) (l : nat) : option (bool * Z * Z) :=
  match c_lanes c !! l with Some (Some (_, p)) => access p | _ => None end.

Lemma pending_inv c l x : pending c l = Some x ->
  exists op p, c_lanes c !! l = Some (Some (op, p)) /\ access p = Some x.
Proof. unfold pending. destruct (c_lanes c !! l) as [[[op p]|]|]; intros E; try done. by exists op, p. Qed.

Definition all_idle (c : config ns) : bool :=
  forallb (fun t : thread => match t with None => true | _ => false end) (c_lanes c).

Lemma all_idle_inv c : all_idle c = true -> forall l t, c_lanes c !! l = Some t -> t = None.
Proof.
  unfold all_idle. rewrite forallb_forall. intros Hi l t E.
  specialize (Hi t ltac:(apply list_elem_of_In; by eapply list_elem_of_lookup_2)). by destruct t.
Qed.

Definition rtt_clear (c : config ns) : bool :=
  forallb (fun a => forallb (Z.eqb BTT_MAP_ENTRY_ERROR) (rtt a)) (arenas (c_st c)).

Lemma rtt_clear_inv c : rtt_clear c = true -> no_stale_slot c.
Proof.
  unfold rtt_clear. rewrite forallb_forall. intros Hr i a k v Ea _ Ev Hne.
  specialize (Hr a ltac:(apply list_elem_of_In; by eapply list_elem_of_lookup_2)).
  rewrite forallb_forall in Hr.
  specialize (Hr v ltac:(apply list_elem_of_In; by eapply list_elem_of_lookup_2)). lia.
Qed.

(** Lane 0 reads block 7 while lane 1 sets it to zero. *)
Definition ex_overlap (k : nat) : list move :=
  [MCall 0 (CRead 7) 3; MCall 1 (CSetZero 7) 0; MRun 0 k; MRun 1 10].
Definition ex_finish : list move := [MRun 0 100; MRet 0; MRun 1 100; MRet 1].

(** Lane 0 has published its entry when lane 1 sets the block to zero, and
    returns zeros; lane 1 then writes the block twice. *)
Definition ex_stale : list move :=
  [MCall 0 (CRead 7) 3; MRun 0 6; MCall 1 (CSetZero 7) 0; MRun 1 100; MRet 1; MRun 0 100; MRet 0;
   MCall 1 (CWrite 7 ex_buf) 0; MRun 1 100; MRet 1; MCall 1 (CWrite 7 ex_buf) 0; MRun 1 100].

(** The call a lane is in. *)
Definition inside (c : config ns) (l : nat) : option call :=
  match c_lanes c !! l with Some (Some (op, _)) => Some op | _ => None end.

Lemma inside_inv c l op : inside c l = Some op -> exists p, c_lanes c !! l = Some (Some (op, p)).
Proof. unfold inside. destruct (c_lanes c !! l) as [[[op' p]|]|]; intros [= <-]. by exists p. Qed.

Definition lane_free (c : config ns) (l : nat) : bool :=
  match c_lanes c !! l with Some None => true | _ => false end.

Lemma lane_free_inv c l : lane_free c l = true -> c_lanes c !! l = Some None.
Proof. unfold lane_free. destruct (c_lanes c !! l) as [[?|]|]; done. Qed.

Definition slot (c : config ns) (l : nat) : option Z :=
  match arenas (c_st c) !! 0%nat with Some a => rtt a !! l | None => None end.

Lemma slot_inv c l v : slot c l = Some v -> exists a, arenas (c_st c) !! 0%nat = Some a /\ rtt a !! l = Some v.
Proof. unfold slot. destruct (arenas (c_st c) !! 0%nat) as [a|]; [by exists a|done]. Qed.

Definition ex_busy : list move := [MCall 1 (CWrite 7 ex_buf) 0; MRun 1 17].

(** What the executions end in: computed once, for all of them. *)
Lemma ex_observed :
  (lbasize (w_st ex_first), nlane (w_st ex_first),
   pending (ex_run (ex_overlap 6)).2 1, pending (ex_run (ex_overlap 6)).2 0,
   all_idle (ex_run (ex_overlap 6 ++ ex_finish)).2,
   rtt_clear (ex_run ex_busy).2, inside (ex_run ex_busy).2 1,
   lane_free (ex_run ex_stale).2 0, inside (ex_run ex_stale).2 1,
   moves (ex_run ex_stale).2 1, slot (ex_run ex_stale).2 0) =
  (512, 2, Some (true, 16625692, 4), Some (false, 16625692, 4), true, true, Some (CWrite 7 ex_buf),
   true, Some (CWrite 7 ex_buf), false, Some (Z.lor BTT_MAP_ENTRY_NORMAL 32203)).
Proof. vm_compute. reflexivity. Qed.

Lemma ex_facts :
  lbasize (w_st ex_first) = 512 /\ nlane (w_st ex_first) = 2 /\
  pending (ex_run (ex_overlap 6)).2 1 = Some (true, 16625692, 4) /\
  pending (ex_run (ex_overlap 6)).2 0 = Some (false, 16625692, 4) /\
  all_idle (ex_run (ex_overlap 6 ++ ex_finish)).2 = true /\
  rtt_clear (ex_run ex_busy).2 = true /\ inside (ex_run ex_busy).2 1 = Some (CWrite 7 ex_buf) /\
  lane_free (ex_run ex_stale).2 0 = true /\ inside (ex_run ex_stale).2 1 = Some (CWrite 7 ex_buf) /\
  moves (ex_run ex_stale).2 1 = false /\
  slot (ex_run ex_stale).2 0 = Some (Z.lor BTT_MAP_ENTRY_NORMAL 32203).
Proof.
  pose proof ex_observed as E. revert E. intros [E ?]%pair_equal_spec.
  repeat apply pair_equal_spec in E as [E ?]. auto 20.
Qed.

(** ** The theorems at these executions *)

Lemma btt_lanes_linearizable_witness :
  csteps ex_c0 (ex_run (ex_overlap 6)).1 (ex_run (ex_overlap 6)).2 /\
  exists ac, asteps 512 (idle_spec ex_dev 2) (ex_run (ex_overlap 6)).1 ac.
Proof.
  pose proof (ex_run_csteps (ex_overlap 6)) as Hrun. split; [exact Hrun|].
  destruct (btt_lanes_linearizable _ _ _ _ _ ex_first_implements Hrun) as (ac & Ha & _).
  destruct ex_facts as (Elbs & Enl & _). rewrite Elbs, Enl in Ha.
  exists ac. exact Ha.
Defined.


(** The one overlap that is allowed: the entry of block 7. *)
Lemma btt_lanes_race_free_witness :
  csteps ex_c0 (ex_run (ex_overlap 6)).1 (ex_run (ex_overlap 6)).2 /\
  pending (ex_run (ex_overlap 6)).2 1 = Some (true, 16625692, 4) /\
  pending (ex_run (ex_overlap 6)).2 0 = Some (false, 16625692, 4) /\
  (16625692 + 4 <= 16625692 \/ 16625692 + 4 <= 16625692 \/ 16625692 mod 4 = 0).
Proof.
  pose proof (ex_run_csteps (ex_overlap 6)) as Hrun.
  destruct ex_facts as (_ & _ & Hw & Hr & _). split; [exact Hrun|]. split; [exact Hw|]. split; [exact Hr|].
  destruct (pending_inv _ _ _ Hw) as (op & p & Hl & Ha).
  destruct (pending_inv _ _ _ Hr) as (op' & p' & Hl' & Ha').
  destruct (btt_lanes_race_free _ _ _ _ _ _ _ _ _ _ _ _ _ _ _ _ ex_first_implements Hrun
    (ltac:(discriminate) : 1%nat <> 0%nat) Hl Hl' Ha Ha') as [[?|?]|(_ & _ & _ & _ & ?)]; auto.
Defined.

Lemma btt_lanes_deadlock_free_witness :
  csteps ex_c0 (ex_run ex_busy).1 (ex_run ex_busy).2 /\ inside (ex_run ex_busy).2 1 = Some (CWrite 7 ex_buf) /\
  exists l', can_move (ex_run ex_busy).2 l'.
Proof.
  pose proof (ex_run_csteps ex_busy) as Hrun. split; [exact Hrun|].
  destruct ex_facts as (_ & _ & _ & _ & _ & Hclear & Hin & _). split; [exact Hin|].
  destruct (inside_inv _ _ _ Hin) as [p Hl].
  exact (btt_lanes_deadlock_free _ _ _ _ _ _ _ _ ex_first_implements Hrun (rtt_clear_inv _ Hclear) Hl).
Defined.

(** ** A read that leaves its slot behind *)

(** [btt_read] returns from the retry loop, with an error or with zeros, without
    clearing the slot of the read tracking table that an earlier round has set.
    Here lane 0 has returned, no lane but lane 1 is inside the BTT, and lane 1
    waits in [btt_write] for the slot of lane 0: it will wait until that lane
    happens to read again. *)
Example stale_reader_blocks_writer :
  csteps ex_c0 (ex_run ex_stale).1 (ex_run ex_stale).2 /\
  c_lanes (ex_run ex_stale).2 !! 0%nat = Some None /\
  (exists p, c_lanes (ex_run ex_stale).2 !! 1%nat = Some (Some (CWrite 7 ex_buf, p))) /\
  moves (ex_run ex_stale).2 1 = false /\
  (exists a, arenas (c_st (ex_run ex_stale).2) !! 0%nat = Some a /\
     rtt a !! 0%nat = Some (Z.lor BTT_MAP_ENTRY_NORMAL 32203)).
Proof.
  destruct ex_facts as (_ & _ & _ & _ & _ & _ & _ & Hfree & Hin & Hm & Hs).
  split; [apply ex_run_csteps|]. split; [exact (lane_free_inv _ _ Hfree)|].
  split; [exact (inside_inv _ _ _ Hin)|]. split; [exact Hm|exact (slot_inv _ _ _ Hs)].
Qed.
