(* ===== verification/BlkExamples.v ===== *)
(** BlkExamples: pools of blocks of 16 megabytes, the consistency check and the
    utilities on concrete inputs: the theorems of Util, BttCheck and BlkSpec
    applied. *)

From stdpp Require Import strings.
From S2P Require Import Prelude Mem Util BttLayout Prog Btt BttInv BttSpec BttOpen BttCrash BttFresh BttCheck Blk BlkSpec.
From S2P Require Import BttExamples.

(** ** The consistency check *)

Lemma ex_check_sizes i a : arenas (laid ex_btt) !! i = Some a -> 0 < external_nlba a < 2 ^ 30 /\
  internal_nlba a = external_nlba a + nfree (laid ex_btt).
Proof. intros Ha. destruct i; [|done]. injection Ha as <-. split; [split; reflexivity|reflexivity]. Qed.

Lemma btt_check_accepts_witness : exists n, implements (2 ^ 24) (laid ex_btt) (ns_mem n) (zero_device 32202) /\
  run btt_check (Build_world n (laid ex_btt) []) = (Done true, Build_world n (laid ex_btt) []).
Proof.
  destruct ex_laid as (n & Hs & Hi & Ho). exists n. split; [exact Hi|].
  assert (implements (ns_size n) (laid ex_btt) (ns_mem n) (zero_device 32202)) as Hi' by (by rewrite Hs).
  exact (btt_check_accepts n (laid ex_btt) [] _ ex_alloc_ok Hi' eq_refl ex_check_sizes).
Defined.

(** Its only arena. *)
Definition ex_arena : arena := lay_arena (2 ^ 24) 512 ex_btt.

Lemma btt_check_first_arena_witness : exists n, ns_size n = 2 ^ 24 /\
  run btt_check (Build_world n (laid ex_btt) []) =
  (Done (bool_decide (partitioned (ns_mem n) ex_arena)), Build_world n (laid ex_btt) []).
Proof.
  destruct ex_laid as (n & Hs & Hi & Ho). exists n. split; [exact Hs|].
  assert (Forall (fun b => b < internal_nlba ex_arena) (arena_blocks (ns_mem n) ex_arena)) as Hr.
  { destruct Hi as (Hi & _). eapply inv_blocks_range. exact (bi_arena _ _ _ Hi 0%nat ex_arena eq_refl). }
  apply (btt_check_first_arena n (laid ex_btt) [] ex_arena ex_alloc_ok eq_refl); try reflexivity.
  - discriminate.
  - rewrite Hs. reflexivity.
  - split; reflexivity.
  - split; [discriminate|reflexivity].
  - exact Hr.
Defined.

(** An arena of 4096-byte blocks. *)
Definition ex_big_blocks : arena :=
  {| flags := 0; external_nlba := 0; internal_nlba := 0; internal_lbasize := 4096; startoff := 0; dataoff := 4096;
     mapoff := 0; flogoff := 0; nextoff := 0; flogs := []; rtt := []; map_locks := []; info_lock := false |}.

Lemma data_block_offset_aliases_witness :
  data_block_offset ex_big_blocks 1048576 = data_block_offset ex_big_blocks 0.
Proof. exact (data_block_offset_aliases ex_big_blocks eq_refl 0 ltac:(lia)). Defined.

(** ** Utilities *)

Definition ex_hdr : pool_hdr :=
  {| signature := BLK_HDR_SIG; major := 1; compat_features := 0; incompat_features := 0; ro_compat_features := 0;
     uuid := ex_uuid; crtime := 0; unused := replicate 4040 x00; checksum := 0 |}.

Lemma ex_hdr_wf : pool_hdr_wf ex_hdr.
Proof. by split. Qed.

Lemma util_checksum_roundtrip_witness :
  fst (util_checksum (snd (util_checksum (replicate 32 x05) 24 true)) 24 false) = true.
Proof.
  destruct (util_checksum_roundtrip (replicate 32 x05) 24 eq_refl ltac:(apply Nat.leb_le; reflexivity)) as (_ & _ & _ & H).
  exact H.
Defined.

Lemma util_checksum_detects_witness :
  fst (util_checksum (replicate 24 x00) 16 false) = true /\
  fst (util_checksum (replicate 4 x00 ++ [x01; x00; x00; x00] ++ replicate 16 x00) 16 false) = false.
Proof.
  assert (fst (util_checksum (replicate 4 x00 ++ replicate 4 x00 ++ replicate 16 x00) (Z.of_nat 16) false) = true)
    as Hv by reflexivity.
  split; [exact Hv|].
  apply (util_checksum_detects (replicate 4 x00) (replicate 4 x00) [x01; x00; x00; x00] (replicate 16 x00) 16
    eq_refl eq_refl eq_refl eq_refl ltac:(apply Nat.leb_le; reflexivity) Hv). discriminate.
Defined.

Lemma util_convert_hdr_roundtrip_witness : exists v,
  util_convert_hdr (snd (util_checksum (pool_hdr_bytes ex_hdr) 4088 true)) = Some (set_checksum ex_hdr v).
Proof. apply (util_convert_hdr_roundtrip ex_hdr ex_hdr_wf). discriminate. Defined.

Lemma util_map_hint_free_witness :
  util_map_hint (Some [(4096, 8192); (TERABYTE, TERABYTE + 4096)]) 65536 = TERABYTE + GIGABYTE /\
  TERABYTE + 4096 <= util_map_hint (Some [(4096, 8192); (TERABYTE, TERABYTE + 4096)]) 65536.
Proof.
  split; [reflexivity|].
  assert (maps_sorted 0 [(4096, 8192); (TERABYTE, TERABYTE + 4096)]) as Hs by (cbv; intuition discriminate).
  pose proof (util_map_hint_free [(4096, 8192); (TERABYTE, TERABYTE + 4096)] 65536 ltac:(lia) Hs ltac:(discriminate))
    as (_ & _ & _ & H).
  destruct (H TERABYTE (TERABYTE + 4096)) as [H1|H1]; [right; left|exact H1|].
  exfalso. revert H1. apply Z.lt_nge. reflexivity.
Defined.

Lemma page_range_covers_witness : page_range 4096 5000 10 = (4096, 914) /\ 4096 + 914 = 5000 + 10.
Proof.
  pose proof (page_range_covers 12 5000 10 ltac:(lia) ltac:(lia) ltac:(lia) ltac:(lia)) as H.
  change (2 ^ 12) with 4096 in H. change (page_range 4096 5000 10) with (4096, 914) in *.
  destruct H as (_ & _ & H). split; [reflexivity|exact H].
Defined.

(** ** The pool of blocks *)

Definition ex_benv : env := {| e_mmap := None; e_uuid := ex_uuid; e_time := 0; e_ncpus := 1 |}.

Lemma ex_benv_ok : env_ok ex_benv.
Proof. split; [done|]. cbn. lia. Qed.

(** A pool over the laid-out BTT. *)
Definition ex_pool (n : ns) : pmemblk :=
  {| p_ns := n; p_btt := laid ex_btt; p_rdonly := false; p_nlane := 2; p_next_lane := 0; p_locks := [false; false] |}.

Lemma ex_pool_inv : exists n, pool_inv (ex_pool n) (zero_device 32202).
Proof.
  destruct ex_laid as (n & Hs & Hi & Ho). exists n. split; cbn [ex_pool p_ns p_btt p_nlane p_next_lane p_locks]; try done.
  left. by rewrite Hs.
Qed.

Lemma pmemblk_read_refines_witness : exists n, pool_inv (ex_pool n) (zero_device 32202) /\
  fst (pmemblk_read 1 (ex_pool n) 5) = Done (replicate 512 x00).
Proof.
  destruct ex_pool_inv as (n & Hi). exists n. split; [exact Hi|].
  pose proof (pmemblk_read_refines 0 (ex_pool n) _ 5 Hi) as H.
  destruct (pmemblk_read 1 (ex_pool n) 5) as [r p']. destruct H as (-> & _). reflexivity.
Defined.

Lemma pmemblk_write_refines_witness : exists n, pool_inv (ex_pool n) (zero_device 32202) /\
  fst (pmemblk_write (ex_pool n) ex_buf 5) = Done tt.
Proof.
  destruct ex_pool_inv as (n & Hi). exists n. split; [exact Hi|].
  pose proof (pmemblk_write_refines ex_alloc_ok (ex_pool n) _ ex_buf 5 Hi eq_refl) as H.
  destruct (pmemblk_write (ex_pool n) ex_buf 5) as [r p']. destruct H as (-> & _). reflexivity.
Defined.

Lemma pmemblk_setf_refines_witness : exists n, pool_inv (ex_pool n) (zero_device 32202) /\
  pool_inv (snd (pmemblk_set_error (ex_pool n) 5)) (d_set (zero_device 32202) 5 BError).
Proof.
  destruct ex_pool_inv as (n & Hi). exists n. split; [exact Hi|].
  pose proof (pmemblk_setf_refines ex_alloc_ok (ex_pool n) _ 5 false Hi) as H. cbv iota zeta in H.
  destruct (pmemblk_set_error (ex_pool n) 5) as [r p']. exact (proj1 (proj2 H)).
Defined.

Lemma pmemblk_create_open_witness : exists p fs' p' fs'',
  pmemblk_create ex_benv {| files := ∅; space := 2 ^ 30 |} "blk" 512 (2 ^ 24 + 8192) = (Done p, fs') /\
  pmemblk_nblock p = 32202 /\ pmemblk_open ex_benv fs' "blk" 512 = (Done p', fs'') /\ pool_inv p' (zero_device 32202).
Proof.
  destruct (pmemblk_create_open ex_alloc_ok ex_benv ex_benv {| files := ∅; space := 2 ^ 30 |} "blk" 512 (2 ^ 24 + 8192) 512
    ex_benv_ok ex_benv_ok eq_refl (lookup_empty _) ltac:(done) ltac:(done) ex_lay_ok ltac:(apply Z.leb_le; reflexivity))
    as (p & fs' & E & Hn & Hi & p' & fs'' & E' & Hi').
  exists p, fs', p', fs''. split_and!; [exact E|exact Hn|exact E'|exact Hi'].
Defined.

(** *** A formatted pool file whose data area is laid out *)

Lemma fresh_media_agree raw lbs m m' :
  lay_ok raw lbs -> 512 <= lay_int raw lbs -> (forall z, 0 <= z -> m' z = m z) ->
  fresh_media raw lbs m -> fresh_media raw lbs m'.
Proof.
  intros Hl Hb Hm [Hmap Hflog].
  pose proof (regions _ _ _ _ _ _ (lay_arena_inv raw lbs Hl Hb ex_btt m (Build_fresh_media _ _ _ Hmap Hflog)))
    as (R1 & R2 & _).
  pose proof (lay_arena_fields raw lbs Hl Hb ex_btt) as (Es & _ & Em & _). rewrite Em in R2.
  destruct Hl as [Hr _ _]. unfold BTT_MIN_SIZE in Hr. split.
  - intros z Hz. rewrite Hm by lia. by apply Hmap.
  - intros k Hk. destruct (Hflog k Hk) as [F0 F1]. unfold flog_at in *.
    rewrite !(mread_agree m' m) by (intros z Hz; apply Hm; lia). done.
Qed.

Lemma ex_blk_file : exists m b, blk_validate m 512 false = inr (b, false) /\ b = 512 /\
  recoverable (datasize (file_ns m (2 ^ 24 + 8192))) (laid ex_btt) (data_mem (file_ns m (2 ^ 24 + 8192))) (zero_device 32202) /\
  mread m 24 16 = ex_uuid.
Proof.
  destruct (format_ok ex_benv (fun _ => x00) 512 true eq_refl) as (fm & Ef & Hh & Hbs & Hzf & Hu & Hout); [done|lia|].
  destruct (run_write_layout ex_alloc_ok ex_ns ex_btt [] 0 (u_layable _ _ ex_unlaid) ex_zeroed) as (n & evs & _ & Hs & Hfresh & Hinfo);
    [split; [lia|reflexivity]|reflexivity|].
  set (m := fun z => if z <? 8192 then fm z else p_mem n z).
  assert (forall z, z < 8192 -> m z = fm z) as Hlo by (intros z Hz; unfold m; by ztrue).
  assert (forall z, 0 <= z -> data_mem (file_ns m (2 ^ 24 + 8192)) z = ns_mem n z) as Hhi.
  { intros z Hz. change (m (8192 + z) = p_mem n (8192 + z)). unfold m. by ztrue. }
  exists m, 512. split; [|split; [done|split]].
  - unfold blk_validate. rewrite (mread_agree m fm) by (intros z Hz; apply Hlo; unfold POOL_HDR_SIZE in Hz; lia).
    rewrite Hh. destruct (new_hdr_ok ex_benv eq_refl) as (_ & v & Hv). rewrite Hv.
    rewrite (get_le_agree 4 m fm) by (intros z Hz; apply Hlo; unfold BLK_BSIZE_OFF in Hz; lia). by rewrite Hbs.
  - change (datasize (file_ns m (2 ^ 24 + 8192))) with (2 ^ 24).
    assert (fresh_media (2 ^ 24) 512 (data_mem (file_ns m (2 ^ 24 + 8192)))) as Hf'.
    { apply (fresh_media_agree _ _ (ns_mem n)); [apply ex_lay_ok|by rewrite ex_lay_int|done|done]. }
    apply rec_quiet.
    + apply (laid_implements ex_btt); [apply (u_layable _ _ ex_unlaid)|discriminate|done|done].
    + apply (laid_on_media ex_btt); [apply (u_layable _ _ ex_unlaid)|].
      rewrite (mread_agree _ (ns_mem n)); [exact Hinfo|]. intros z Hz. apply Hhi. lia.
  - rewrite (mread_agree m fm) by (intros z Hz; apply Hlo; lia). exact Hu.
Qed.

Lemma pmemblk_map_recovers_witness : exists m p,
  fst (pmemblk_map_common ex_benv m (2 ^ 24 + 8192) 512 false false false) = Done p /\
  p_rdonly p = false /\ pool_inv p (zero_device 32202).
Proof.
  destruct ex_blk_file as (m & b & Hv & Hb & Hr & Hu).
  destruct (pmemblk_map_recovers ex_alloc_ok ex_benv m (2 ^ 24 + 8192) 512 b false (laid ex_btt) _ ex_benv_ok Hv Hr)
    as (p & E & Hro & Hi); [reflexivity|by rewrite Hb|by rewrite Hu|].
  exists m, p. split; [exact E|]. split; [exact Hro|exact Hi].
Defined.
