(* ===== verification/LogExamples.v ===== *)
(** LogExamples: libpmem, libpmemlog and the pools of libpmemobj on concrete
    machines and pools, and the theorems of Pmem*, Log*, Obj* applied to them. *)

From stdpp Require Import strings.
From S2P Require Import Prelude Mem Util Prog Persist Pmem PmemSpec PmemCopy Log LogSpec Durable Obj ObjSpec.

(** A machine with CLWB, and one with only CLFLUSH and no non-temporal stores. *)
Definition ex_funcs : funcs := pmem_init (Some cpu_clwb) env_plain.

Definition ex_env : lenv :=
  {| le_mmap := inr 65536; le_funcs := ex_funcs; le_smaps := None; le_Pagesize := 4096;
     le_msync := fun _ _ => true; le_uuid := replicate 16 x07; le_time := 0; le_malloc := Some 1;
     le_rwlock_init := None |}.

Lemma ex_persist_ok : persist_ok ex_env.
Proof. split; [by right|exists 12; split; [lia|done]|done]. Qed.

Lemma ex_map_ok size : 0 <= size <= 2 ^ 62 -> map_ok ex_env 65536 size.
Proof. intros Hs. split; [done|split_and!; [lia|done|lia]|by exists 1|done]. Qed.

(** A pool of two megabytes, empty and with one byte. *)
Lemma ex_empty : exists plp, log_inv plp [] /\ lp_size plp = 2 ^ 21 /\ lp_addr plp = 65536 /\ lp_rdonly plp = false.
Proof.
  destruct (log_format_ok ex_env 65536 (2 ^ 21) (mapped (fun _ => x00) 65536) ex_persist_ok eq_refl)
    as (q & _ & Hd); [lia|lia|by change LOG_START with 8192|apply pm_of_wf|done|].
  exists {| lp_addr := 65536; lp_size := 2 ^ 21; lp_is_pmem := true; lp_rdonly := false; lp_lock := RwFree; lp_pm := q |}.
  split; [|done]. split; [|done|done]. cbn [lp_addr lp_size]. split_and!; [lia|done|lia].
Qed.

Lemma ex_one : exists plp, log_inv plp [x01] /\ lp_size plp = 2 ^ 21 /\ lp_addr plp = 65536 /\ lp_rdonly plp = false.
Proof.
  destruct ex_empty as (plp & Hi & Hs & Ha & Hro).
  exists (set_pm plp (execs (lp_pm plp) (append_insns ex_env plp [] [[x01]]))). split; [|done].
  apply (set_pm_inv _ _ _ [x01] Hi). apply (append_durable ex_env plp [] [[x01]] ex_persist_ok Hi).
  rewrite Hs. by change LOG_START with 8192.
Qed.

(** ** Witnesses *)

Lemma pmemlog_appendv_spec_witness : exists plp, log_inv plp [x01] /\
  let '(r, plp') := pmemlog_appendv ex_env plp [[x02]; [x03; x04]] in
  r = Done tt /\ log_inv plp' [x01; x02; x03; x04].
Proof.
  destruct ex_one as (plp & Hi & Hs & Ha & Hro). exists plp. split; [exact Hi|].
  assert (iov_total [[x02]; [x03; x04]] < 2 ^ 64) as Ht by reflexivity.
  pose proof (pmemlog_appendv_spec ex_env plp [x01] [[x02]; [x03; x04]] ex_persist_ok Hi Ht) as H.
  destruct (pmemlog_appendv ex_env plp _) as [r plp']. cbv zeta in H. rewrite Hro, Hs in H.
  destruct H as (H1 & _ & H2). exact (conj H1 H2).
Defined.

Lemma pmemlog_appendv_crash_atomic_witness : exists plp, log_inv plp [x01] /\
  forall j m', crash_image (execs (lp_pm plp) (take j (append_insns ex_env plp [x01] [[x02]]))) m' ->
    log_file (2 ^ 21) (shift 65536 m') [x01] \/ log_file (2 ^ 21) (shift 65536 m') [x01; x02].
Proof.
  destruct ex_one as (plp & Hi & Hs & Ha & Hro). exists plp. split; [exact Hi|]. intros j m' Hc.
  pose proof (pmemlog_appendv_crash_atomic ex_env plp [x01] [[x02]] j m' ex_persist_ok Hi Hro) as H.
  rewrite Hs, Ha in H. apply H; [by change LOG_START with 8192|by change LOG_START with 8192|exact Hc].
Defined.

Lemma pmemlog_append_is_appendv_witness : exists plp, log_inv plp [x01] /\
  pmemlog_append ex_env plp [x02] = pmemlog_appendv ex_env plp [[x02]].
Proof.
  destruct ex_one as (plp & Hi & _). exists plp. split; [exact Hi|].
  apply (pmemlog_append_is_appendv ex_env plp [x02]). reflexivity.
Defined.

Lemma pmemlog_rewind_spec_witness : exists plp, log_inv plp [x01] /\
  log_inv (snd (pmemlog_rewind ex_env plp)) [].
Proof.
  destruct ex_one as (plp & Hi & Hs & Ha & Hro). exists plp. split; [exact Hi|].
  pose proof (pmemlog_rewind_spec ex_env plp [x01] 0 (fun _ => x00) ex_persist_ok Hi) as H.
  destruct (pmemlog_rewind ex_env plp) as [r plp']. rewrite Hro in H. apply H.
Defined.

Lemma pmemlog_tell_nbyte_witness : exists plp, log_inv plp [x01] /\
  fst (pmemlog_nbyte plp) = Done (2 ^ 21 - 8192) /\ fst (pmemlog_tell plp) = Done 1.
Proof.
  destruct ex_one as (plp & Hi & Hs & _). exists plp. split; [exact Hi|].
  destruct (pmemlog_tell_nbyte plp [x01] Hi) as [H1 H2]. rewrite H1, H2. cbn [fst]. by rewrite Hs.
Defined.

Lemma pmemlog_walk_feeds_witness : exists plp, log_inv plp [x01] /\
  fst (pmemlog_walk (fun c n => (true, n + length c)%nat) 2 plp 16 0%nat) = Done 1%nat.
Proof.
  destruct ex_one as (plp & Hi & _). exists plp. split; [exact Hi|].
  destruct (pmemlog_walk_feeds (fun c n => (true, n + length c)%nat) plp [x01] 16 2 0%nat Hi) as (H & _); [lia|cbn; lia|].
  by rewrite H.
Defined.

Lemma pmemlog_walk_wraps_witness : exists plp, log_inv plp [x01] /\
  fst (pmemlog_walk (fun c seen => (true, seen ++ [c])) 4 plp (2 ^ 64 - 4096) []) =
  Done [[x01]; mread (view (lp_pm plp)) (lp_addr plp + 4096) 4097; mread (view (lp_pm plp)) (lp_addr plp) 8193].
Proof.
  destruct ex_one as (plp & Hi & _). exists plp. split; [exact Hi|].
  pose proof (pmemlog_walk_wraps plp [x01] Hi ltac:(discriminate)) as H. cbv zeta in H. by rewrite H.
Defined.

(** A file that holds a log with one byte. *)
Lemma ex_file : exists f, f_size f = 2 ^ 21 /\ log_file (2 ^ 21) (f_bytes f) [x01].
Proof.
  destruct ex_one as (plp & Hi & Hs & Ha & _). exists {| f_size := 2 ^ 21; f_bytes := shift 65536 (view (lp_pm plp)) |}.
  split; [done|]. cbn [f_bytes]. rewrite <- Hs, <- Ha. apply (li_log _ _ Hi).
Qed.

Definition ex_fs (f : file) : fsys := {| files := {[ "log"%string := f ]}; space := 2 ^ 30 |}.

Lemma pmemlog_open_recovers_witness : exists f plp fs', log_file (2 ^ 21) (f_bytes f) [x01] /\
  pmemlog_open ex_env (ex_fs f) "log" = (Done plp, fs') /\ log_inv plp [x01].
Proof.
  destruct ex_file as (f & Hs & Hf).
  assert (PMEMLOG_MIN_POOL <= f_size f) as Hmin by (by rewrite Hs).
  assert (map_ok ex_env 65536 (f_size f)) as Hmap by (rewrite Hs; by apply ex_map_ok).
  assert (log_file (f_size f) (f_bytes f) [x01]) as Hf' by (by rewrite Hs).
  destruct (pmemlog_open_recovers ex_env 65536 (ex_fs f) "log" f [x01] Hmap (lookup_singleton_eq _ _) Hmin Hf')
    as (plp & fs' & _ & E & Hi & _).
  by exists f, plp, fs'.
Defined.

Lemma pmemlog_close_open_witness : exists f plp plp' fs', log_inv plp [x01] /\
  pmemlog_open ex_env (pmemlog_close (ex_fs f) "log" plp) "log" = (Done plp', fs') /\ log_inv plp' [x01].
Proof.
  destruct ex_one as (plp & Hi & Hs & Ha & _). set (f := {| f_size := 2 ^ 21; f_bytes := fun _ => x00 |}).
  assert (map_ok ex_env 65536 (lp_size plp)) as Hmap by (rewrite Hs; by apply ex_map_ok).
  assert (PMEMLOG_MIN_POOL <= lp_size plp) as Hmin by (by rewrite Hs).
  destruct (pmemlog_close_open ex_env 65536 (ex_fs f) "log" f plp [x01] Hmap (lookup_singleton_eq _ _)
    (eq_sym Hs) Hmin Hi) as (plp' & fs' & E & Hi').
  by exists f, plp, plp', fs'.
Defined.

Lemma pmemlog_create_spec_witness : exists plp fs',
  pmemlog_create ex_env {| files := ∅; space := 2 ^ 30 |} "log" (2 ^ 21) = (Done plp, fs') /\ log_inv plp [].
Proof.
  assert (PMEMLOG_MIN_POOL <= 2 ^ 21 < 2 ^ 63) as Hmin by done.
  assert (map_ok ex_env 65536 (2 ^ 21)) as Hmap by (by apply ex_map_ok).
  destruct (pmemlog_create_spec ex_env 65536 {| files := ∅; space := 2 ^ 30 |} "log" (2 ^ 21) ex_persist_ok Hmap
    eq_refl (lookup_empty _) Hmin) as (plp & fs' & _ & E & Hi & _); [done|].
  by exists plp, fs'.
Defined.

Lemma pmemlog_check_spec_witness : exists f, log_file (2 ^ 21) (f_bytes f) [x01] /\
  pmemlog_check ex_env (ex_fs f) "log" = (Done true, ex_fs f).
Proof.
  destruct ex_file as (f & Hs & Hf). exists f. split; [exact Hf|].
  assert (map_ok ex_env 65536 (f_size f)) as Hmap by (rewrite Hs; by apply ex_map_ok).
  pose proof (pmemlog_check_spec ex_env 65536 (ex_fs f) "log" f Hmap (lookup_singleton_eq _ _)) as H.
  destruct (pmemlog_check _ _ _) as [r fs']. destruct H as [-> ->].
  rewrite Hs. change (2 ^ 21 <? PMEMLOG_MIN_POOL) with false. cbv iota.
  by rewrite (log_file_validates _ _ _ _ Hf).
Defined.

(** ** libpmem *)

(** Eight bytes stored across a line boundary. *)
Definition ex_stored : pm := store (pm_of (fun _ => x00)) 60 (replicate 8 x01).
Lemma ex_stored_wf : pm_wf ex_stored.
Proof. apply exec_wf, pm_of_wf. Qed.



Lemma pmem_memmove_durable_witness :
  let m := mwrite (fun _ => x00) 0 (replicate 16 x01) in
  let p := snd (pmem_memmove_persist ex_funcs 128 0 16 (pm_of m)) in
  mread (view p) 128 16 = replicate 16 x01 /\
  forall m', crash_image p m' -> mread m' 128 16 = replicate 16 x01.
Proof.
  cbv zeta. split; [by vm_compute|]. intros m' Hc. set (m := mwrite _ _ _) in *.
  rewrite (mread_agree m' (mwrite m 128 (mread m 0 16)) 128 16); [reflexivity|].
  apply (pmem_memmove_durable (Some cpu_clwb) env_plain 128 0 16 (pm_of m) m' (pm_of_wf m)
    ltac:(lia) ltac:(lia) ltac:(lia) ltac:(lia) ltac:(lia)); [|exact Hc].
  intros _. split; [reflexivity|split; [lia|right; left; reflexivity]].
Defined.

Lemma pmem_memset_spec_witness :
  mread (view (snd (pmem_memset_persist ex_funcs 62 5 4 (pm_of (fun _ => x00))))) 60 8 =
  [x00; x00; x05; x05; x05; x05; x00; x00].
Proof.
  pose proof (pmem_memset_spec (Some cpu_clwb) env_plain 62 5 4 (pm_of (fun _ => x00)) (pm_of_wf _)
    ltac:(lia) ltac:(lia) ltac:(lia)) as H.
  cbv zeta in H. fold ex_funcs in H. destruct (pmem_memset_persist _ _ _ _ _) as [r p'].
  destruct H as (_ & H & _). cbn [snd]. rewrite H. reflexivity.
Defined.

(** Two adjacent mappings of persistent memory, and one of a regular file. *)
Definition ex_maps : list mapping :=
  [ {| mp_lo := 4096; mp_hi := 8192; mp_other := 2; mp_mm := true |};
    {| mp_lo := 8192; mp_hi := 12288; mp_other := 0; mp_mm := true |};
    {| mp_lo := 12288; mp_hi := 16384; mp_other := 1; mp_mm := false |} ].

Lemma pmem_is_pmem_exact_witness :
  pmem_is_pmem ex_funcs (Some (smaps_of ex_maps)) 5000 6000 = true /\
  ~ (forall z, 5000 <= z < 5000 + 8000 -> direct ex_maps z).
Proof.
  assert (sorted_from 0 ex_maps) as Hs by (cbn; lia). split; [reflexivity|].
  intros H. apply (pmem_is_pmem_exact cpu_clwb env_plain ex_maps 5000 8000 eq_refl eq_refl Hs ltac:(lia)) in H.
  discriminate.
Defined.

Lemma durable_writes_crash_witness :
  let p := pm_of (fun _ => x00) in let evs := [EvWrite 64 [x01; x02]; EvZero 128 32] in
  exists insns, fold_left (durable_write ex_env true) evs p = execs p insns /\
    view (execs p insns) ≡ apply_events (view p) evs /\
    forall j m', crash_image (execs p (take j insns)) m' -> crashed (view p) evs m'.
Proof.
  cbv zeta. refine (durable_writes_crash ex_env true ex_persist_ok (pm_of (fun _ => x00)) [EvWrite 64 [x01; x02]; EvZero 128 32] (pm_of_wf _) _ _).
  - intros w v Hv. apply list_elem_of_singleton in Hv as ->. apply agree_refl.
  - repeat constructor; intros E; discriminate E.
Defined.

(** *** Object pools *)

Lemma ex_short : short (Some [x61; x62]).
Proof. split; [by apply (bool_decide_unpack _); vm_compute|by apply Nat.ltb_lt]. Qed.

Lemma pmemobj_create_open_witness :
  exists pop fs', pmemobj_create ex_env {| files := ∅; space := 2 ^ 22 |} "a" (Some [x61; x62]) (2 ^ 21) = (Done pop, fs') /\
    fst (pmemobj_open ex_env (pmemobj_close fs' "a" pop) "a" (Some [x63])) = Err EINVAL.
Proof.
  assert (forall n, Some [x63] = Some n -> c_string n) as Hn.
  { intros n [= <-]. by apply (bool_decide_unpack _); vm_compute. }
  destruct (pmemobj_create_open ex_env ex_persist_ok eq_refl 65536 eq_refl ex_env 65536
    {| files := ∅; space := 2 ^ 22 |} "a" (Some [x61; x62]) (Some [x63]) (2 ^ 21) eq_refl (lookup_empty _)
    ltac:(split; apply Z.leb_le; reflexivity) ex_short Hn) as (pop & fs' & E & _ & Ho).
  exists pop, fs'. split; [exact E|]. change (name_ok _ _) with false in Ho. exact Ho.
Defined.

Lemma pmemobj_create_crash_witness :
  exists insns pop file', pmemobj_map_common ex_env (fun _ => x00) (Some [x61; x62]) (2 ^ 21) false true = (Done pop, file') /\
    po_pm pop = execs (mapped (fun _ => x00) 65536) insns.
Proof.
  destruct (pmemobj_create_crash ex_env ex_persist_ok eq_refl 65536 eq_refl ltac:(lia) ltac:(lia)
    (fun _ => x00) (Some [x61; x62]) (2 ^ 21) ex_short ltac:(reflexivity)) as (insns & pop & file' & E & Ep & _).
  exists insns, pop, file'. split; [exact E|exact Ep].
Defined.
