(* ===== verification/ObjExamples.v ===== *)
(** ObjExamples: the allocator of libpmemobj on a concrete pool, and the
    theorems of BstSpec, BackendSpec, Durable, PmallocCrash and PmallocFresh
    applied to it. *)

From S2P Require Import Prelude Mem Util Prog StateM Persist Pmem Durable Bst BstSpec ObjHeap.
From S2P Require Import Bucket Backend Pmalloc BackendSpec HeapLogic HeapSpec PmallocSpec.
From S2P Require Import PmallocOps PmallocTop PmallocRecover PmallocOpen PmallocCrash.
From S2P Require Import PmallocFresh.

#[local] Open Scope stateM_scope.

(** ** A malloc that never fails *)

Definition next_addr (s : gset Z) : option Z := Some (1 + foldr Z.max 0 (elements s)).

Lemma next_addr_fresh s a : next_addr s = Some a -> a <> 0 /\ a ∉ s.
Proof.
  intros [= <-]. assert (forall l, 0 <= foldr Z.max 0 l /\ forall x, x ∈ l -> x <= foldr Z.max 0 l) as Hm.
  { induction l as [|y l [IH1 IH2]]; cbn; [split; [done|]; intros x Hx; by apply elem_of_nil in Hx|].
    split; [lia|]. intros x [->|Hx]%elem_of_cons; [lia|]. apply IH2 in Hx. lia. }
  destruct (Hm (elements s)) as [H0 H1]. split; [lia|]. intros Hin%elem_of_elements%H1. lia.
Qed.

#[export] Instance ex_node : NodeMalloc := {| node_malloc := next_addr; node_malloc_fresh := next_addr_fresh |}.
#[export] Instance ex_bucket : BucketMalloc := {| bucket_malloc := next_addr; bucket_malloc_fresh := next_addr_fresh |}.

Lemma ex_room fl : @has_room container_bst _ _ fl.
Proof.
  intros c k v Hc. destruct (add_refines c fl k v Hc) as (c' & Hadd).
  destruct (node_malloc (dom (nodes c))) eqn:E; [|done]. exists c'. apply Hadd.
Qed.

(** ** A pool of a hundred chunks' size *)

Definition ex_env : obj_env := {| oe_malloc := fun _ => true; oe_is_pmem := true |}.
Definition ex_pool : Z := 2 ^ 30.
Definition ex_size : Z := 100 * CHUNKSIZE.
Definition ex_ptr : Z := 4096.
Definition ex_blank : heap container_bst :=
  {| h_mem := fun _ => x00; h_log := []; h_buckets := ∅; h_pool := new_pool BACKEND_NOOP; h_arena_id := -1 |}.
Abbreviation ex_b := (filled true ex_pool ex_size).

Lemma ex_ok : pool_ok (opened true ex_pool ex_size).
Proof. constructor; [done|done|by vm_compute|by split; apply Z.ltb_lt; vm_compute|by apply Z.ltb_lt; vm_compute]. Qed.

Lemma ex_ok' : pool_ok ex_b.
Proof. by apply (pool_ok_filled (opened true ex_pool ex_size) true), ex_ok. Qed.

Lemma ex_can_open : can_open ex_env.
Proof. done. Qed.

Lemma ex_thread : fresh_thread ex_blank.
Proof. split; [done|]. by eexists. Qed.

Lemma ex_is_blank : blank ex_pool (h_mem ex_blank).
Proof. done. Qed.

Lemma ex_units : nunits ex_b = 95.
Proof. by vm_compute. Qed.

Lemma ex_open : exists h fl, pool_open ex_env ex_pool ex_size false ex_blank = inr (true, h) /\
  heap_ok ex_b h [(95, false)] [entry 0 95] /\ get64 (h_mem h) ex_ptr = 0 /\ fl = [entry 0 95].
Proof.
  destruct (fresh_core ex_env ex_pool ex_size ex_ok ex_blank ex_can_open ex_thread ex_is_blank) as (h & fl & E & Hh & Hk & Hr).
  specialize (Hr (ex_room [])). subst fl. change (nunits (opened (oe_is_pmem ex_env) ex_pool ex_size)) with (nunits ex_b) in Hh. rewrite ex_units in Hh.
  exists h, [entry 0 95]. split_and!; [exact E|exact Hh| |done].
  rewrite (get_le_agree 8 _ (h_mem ex_blank)); [by vm_compute|]. intros a Ha. apply Hk. unfold ex_ptr, ex_pool in *. lia.
Qed.

(** The pointer is below the pool. *)
Lemma ex_ptr_ok l m : zone_at ex_pool 0 m 0 l 95 -> ptr_ok ex_b l ex_ptr.
Proof.
  intros Hz. constructor; [done|done|]. intros a Ha. unfold foreign. cbn [b_pool filled opened set_zones_exhausted].
  unfold ex_ptr, ex_pool in *. split; [lia|]. intros Hf.
  assert (zone_at (b_pool ex_b) 0 m 0 l (nunits ex_b)) as Hz' by (by rewrite ex_units).
  pose proof (free_above ex_b m l Hz' a Hf) as Hd. rewrite data_addr_0 in Hd. cbn [b_pool filled opened set_zones_exhausted] in Hd. unfold ex_pool in Hd. lia.
Qed.

(** After an allocation of four chunks' size: three units. *)
Lemma ex_alloc : exists h fl, heap_ok ex_b h [(3, true); (92, false)] fl /\ get64 (h_mem h) ex_ptr = chunk_data_off 0 0 /\
  ptr_ok ex_b [(3, true); (92, false)] ex_ptr.
Proof.
  destruct ex_open as (h & fl & _ & Hh & Hp & _). pose proof (mo_zone _ _ _ (ho_media _ _ _ _ Hh)) as Hz. rewrite ex_units in Hz.
  pose proof (ex_ptr_ok _ _ Hz) as Hptr.
  destruct (pmalloc_core ex_env ex_b h [(95, false)] [entry 0 95] ex_ptr (4 * CHUNKSIZE) ex_ok' Hh Hptr Hp) as (h' & l' & fl' & E & Hh' & _ & Hr); [done|].
  assert (units_of (4 * CHUNKSIZE) = 3) as Hu by (by vm_compute).
  destruct Hr as [(_ & _ & [Hno|Hno])|(l1 & s & l2 & (El & Hle & _) & El' & Hv)].
  - by destruct Hno.
  - exfalso. specialize (Hno [] 95 [] eq_refl). rewrite Hu in Hno. assert (95 < 3); [|lia]. apply Hno. split; [by left|].
    split; [by apply Z.leb_le; vm_compute|]. intros y Hy. apply list_elem_of_singleton in Hy as ->. by right.
  - destruct l1 as [|c l1]; [|by destruct l1]. injection El as <- <-. rewrite Hu in El'. change (l' = [(3, true); (92, false)]) in El'. subst l'.
    exists h', fl'. split_and!; [done|done|]. eapply ex_ptr_ok. rewrite <- ex_units. apply Hh'.
Qed.

(** ** Witnesses *)

Lemma bst_add_refines_witness : exists c, contents c [] /\
  exists c', bst_add 5 7 c = inr (true, c') /\ exists l', added 5 7 [] l' /\ contents c' l'.
Proof. exists container_bst_new. split; [apply contents_new|]. exact (bst_add_refines container_bst_new [] 5 7 contents_new). Defined.

Lemma bst_get_rm_refines_witness : exists c, contents c [(5, 7)] /\
  exists r c' l', bst_get_rm_ge 3 c = inr (r, c') /\ contents c' l' /\ taken true 3 [(5, 7)] r l'.
Proof.
  destruct (add_refines container_bst_new [] 5 7 contents_new) as (c & _ & l & (l1 & l2 & E & ->) & Hc).
  destruct l1; [|done]. destruct l2; [|done]. exists c. split; [exact Hc|]. exact (bst_get_rm_refines c [(5, 7)] 3 true Hc).
Defined.


Lemma pool_open_fresh_witness : blank ex_pool (h_mem ex_blank) /\
  exists h' fl, pool_open ex_env ex_pool ex_size false ex_blank = inr (true, h') /\ heap_ok ex_b h' [(95, false)] fl /\
    kept_beyond ex_pool (h_mem ex_blank) (h_mem h') /\ (@has_room container_bst _ _ [] -> fl = [entry 0 95]).
Proof.
  split; [exact ex_is_blank|]. rewrite <- ex_units.
  exact (pool_open_fresh ex_env ex_pool ex_size ex_ok ex_blank ex_can_open ex_thread ex_is_blank).
Defined.

Lemma ex_open_ptr : exists h, heap_ok ex_b h [(95, false)] [entry 0 95] /\ get64 (h_mem h) ex_ptr = 0 /\ ptr_ok ex_b [(95, false)] ex_ptr.
Proof.
  destruct ex_open as (h & _ & _ & Hh & Hp & _). exists h. split_and!; [done|done|].
  eapply ex_ptr_ok. rewrite <- ex_units. apply Hh.
Qed.


Lemma pmalloc_succeeds_witness : exists h, heap_ok ex_b h [(95, false)] [entry 0 95] /\
  exists h' l', pmalloc ex_env ex_ptr (4 * CHUNKSIZE) h = inr (tt, h') /\ get64 (h_mem h') ex_ptr <> 0 /\
    exists l1 s l2, allocated ex_b [(95, false)] (4 * CHUNKSIZE) [entry 0 95] (h_mem h') l1 s l2 /\
      l' = carve l1 (units_of (4 * CHUNKSIZE)) s true l2 /\ exists fl', heap_ok ex_b h' l' fl'.
Proof.
  destruct ex_open_ptr as (h & Hh & Hp & Hptr). exists h. split; [exact Hh|].
  apply (pmalloc_succeeds ex_env ex_b h [(95, false)] [entry 0 95] ex_ptr (4 * CHUNKSIZE) ex_ok' Hh Hptr Hp).
  - split; reflexivity.
  - split; reflexivity.
  - discriminate.
  - intros s Hs. apply list_elem_of_singleton in Hs. injection Hs as ->. apply Z.leb_le. vm_compute. reflexivity.
Defined.

Lemma pmalloc_crash_atomic_witness : exists h, heap_ok ex_b h [(95, false)] [entry 0 95] /\
  exists ar h', 0 <= ar < 10 /\ pmalloc ex_env ex_ptr (4 * CHUNKSIZE) h = inr (tt, h') /\
    crash_atomic ex_env ex_b h h' ar (guard_bytes ex_b GUARD_TYPE_MALLOC ex_ptr 0)
      (fun m l' => user_kept ex_b (h_mem h) [(95, false)] ex_ptr m /\ old_or_new 3 [(95, false)] l' (get64 m ex_ptr)).
Proof.
  destruct ex_open_ptr as (h & Hh & Hp & Hptr). exists h. split; [exact Hh|].
  apply (pmalloc_crash_atomic ex_env ex_b h [(95, false)] [entry 0 95] ex_ptr (4 * CHUNKSIZE) ex_ok' Hh Hptr Hp);
    [split; reflexivity|exact ex_can_open].
Defined.

Lemma pfree_invariant_witness : exists h fl, heap_ok ex_b h ([] ++ (3, true) :: [(92, false)]) fl /\
  exists h' l' fl', pfree ex_env ex_ptr h = inr (tt, h') /\ heap_ok ex_b h' l' fl' /\
    user_kept ex_b (h_mem h) ([] ++ (3, true) :: [(92, false)]) ex_ptr (h_mem h') /\
    pfree_result ex_env [] 3 [(92, false)] fl ex_ptr (h_mem h') l' fl'.
Proof.
  destruct ex_alloc as (h & fl & Hh & Hv & Hptr). exists h, fl. split; [exact Hh|].
  exact (pfree_invariant ex_env ex_b h [] 3 [(92, false)] fl ex_ptr ex_ok' Hh Hptr Hv).
Defined.


Lemma pmalloc_pfree_roundtrip_witness : exists h, heap_ok ex_b h [(95, false)] [entry 0 95] /\
  exists h1 h2 l2 fl2, pmalloc ex_env ex_ptr (4 * CHUNKSIZE) h = inr (tt, h1) /\ pfree ex_env ex_ptr h1 = inr (tt, h2) /\
    heap_ok ex_b h2 l2 fl2 /\ get64 (h_mem h2) ex_ptr = 0 /\ user_kept ex_b (h_mem h) [(95, false)] ex_ptr (h_mem h2) /\
    (l2 = [(95, false)] \/ exists la s lb, [(95, false)] = la ++ (s, false) :: lb /\ l2 = carve la (units_of (4 * CHUNKSIZE)) s false lb).
Proof.
  destruct ex_open_ptr as (h & Hh & Hp & Hptr). exists h. split; [exact Hh|].
  apply (pmalloc_pfree_roundtrip ex_env ex_b h [(95, false)] [entry 0 95] ex_ptr (4 * CHUNKSIZE) ex_ok' Hh Hptr Hp);
    [split; reflexivity|split; reflexivity|exact ex_room].
Defined.
