(* ===== verification/ObjFaults.v ===== *)
(** ObjFaults: what modelling the allocator of libpmemobj showed, on the pool of
    ObjExamples: runs evaluated to their end, and bounds that the code misses. *)

From S2P Require Import Prelude Mem Util Prog StateM Bst BstSpec ObjHeap Bucket Backend.
From S2P Require Import Pmalloc BackendSpec HeapLogic HeapSpec PmallocSpec PmallocOps.
From S2P Require Import PmallocTop PmallocOpen ObjExamples.

#[local] Open Scope stateM_scope.

(** ** Evaluating a run *)

Definition ends {S A} (r : fault + (A * S)) : bool := match r with inr _ => true | inl _ => false end.
Definition end_state {S A} (r : fault + (A * S)) (s : S) : S := match r with inr (_, s) => s | inl _ => s end.

Definition result {S A} (r : fault + (A * S)) (a : A) : A := match r with inr (a, _) => a | inl _ => a end.

Lemma ends_with {S A} (r : fault + (A * S)) a s : ends r = true -> r = inr (result r a, end_state r s).
Proof. by destruct r as [|[? ?]]. Qed.

Lemma ends_in {S} (r : fault + (unit * S)) s : ends r = true -> r = inr (tt, end_state r s).
Proof. by destruct r as [|[[] ?]]. Qed.

(** The writes that a log records, when all are durable. *)
Definition event_of (ev : heap_event) : list event :=
  match ev with HWrite off bs => [EvWrite off bs] | HZero off n => [EvZero off n] | HStore _ _ => [] end.

Definition durable (ev : heap_event) : bool := match ev with HStore _ _ => false | _ => true end.

Lemma durable_log l : forallb durable l = true -> of_event <$> mjoin (event_of <$> l) = l.
Proof.
  induction l as [|ev l IH]; [done|]. intros [Hd Hl]%andb_true_iff. destruct ev; [..|done]; cbn; f_equal; by apply IH.
Qed.

Lemma log_split (l l0 : list heap_event) : take (length l0) l = l0 -> forallb durable (drop (length l0) l) = true ->
  l = l0 ++ (of_event <$> mjoin (event_of <$> drop (length l0) l)).
Proof. intros E Hd. rewrite durable_log by done. rewrite <- E at 1. by rewrite take_drop. Qed.

Definition ex_open_pool : M (heap container_bst) unit := pool_open ex_env ex_pool ex_size false ;;; ret tt.

(** ** Small sizes *)

Definition small_run : fault + (unit * heap container_bst) :=
  (ex_open_pool ;;; pmalloc ex_env 4096 1000 ;;; pmalloc ex_env 4104 1000)%stateM ex_blank.

(** Sizes up to one unit ask for no unit at all: the free chunk gets the size
    zero, two allocations of 1000 bytes get the same block, and the pool fails
    its own check. *)
Theorem pmalloc_small_aliases : exists h, small_run = inr (tt, h) /\
  get64 (h_mem h) 4096 = get64 (h_mem h) 4104 /\ get64 (h_mem h) 4096 <> 0 /\
  pool_check (h_mem h) ex_pool ex_size false = inr false.
Proof.
  exists (end_state small_run ex_blank). split; [apply ends_in; by vm_compute|].
  split_and!; [|apply Z.eqb_neq|]; vm_compute; reflexivity.
Qed.

(** ** The guard *)

Definition opened_heap : heap container_bst := end_state (ex_open_pool ex_blank) ex_blank.

(** The thread of another process, with the memory [m]. *)
Definition reopened (m : mem) : heap container_bst :=
  {| h_mem := m; h_log := []; h_buckets := ∅; h_pool := new_pool BACKEND_NOOP; h_arena_id := -1 |}.

Definition guard_write : event :=
  EvWrite (ex_pool + slot_off 0) (le_enc 4 INFO_SLOT_TYPE_ALLOC ++ zeros 4 ++ le_enc 8 (u64 (4096 - ex_pool))).

Definition half_guard : mem := mwrite (h_mem opened_heap) (ex_pool + slot_off 0) (le_enc 4 INFO_SLOT_TYPE_ALLOC ++ zeros 4).

Definition malloc_run : fault + (unit * heap container_bst) := pmalloc ex_env 4096 (4 * CHUNKSIZE) opened_heap.

(** The first write of [pmalloc] is that of the guard. *)
Lemma guard_first : exists h evs, malloc_run = inr (tt, h) /\ h_log h = h_log opened_heap ++ (of_event <$> guard_write :: evs).
Proof.
  exists (end_state malloc_run ex_blank), (mjoin (event_of <$> drop (S (length (h_log opened_heap))) (h_log (end_state malloc_run ex_blank)))).
  split; [apply ends_in; by vm_compute|]. by vm_compute.
Qed.

(** When only the first word of the guard reaches the media, the slot names an
    allocation whose pointer is at offset 0, in the pool header: recovery takes
    the signature for a block and leaves the pool. *)
Theorem torn_guard_faults : exists h evs m', malloc_run = inr (tt, h) /\
  h_log h = h_log opened_heap ++ (of_event <$> evs) /\ crashed (h_mem opened_heap) evs m' /\
  pool_open ex_env ex_pool ex_size false (reopened m') = inl Undefined.
Proof.
  destruct guard_first as (h & evs & E & El). exists h, (guard_write :: evs), half_guard. split_and!; [done|done| |by vm_compute].
  apply crashed_now. intros w. unfold half_guard, guard_write. set (a := ex_pool + slot_off 0). assert (a = 8 * 134217856) as Ea by (by vm_compute).
  destruct (Z.eq_dec w 134217856) as [->|Hne]; [right|left].
  - intros x Hx. rewrite !mwrite_in by (unfold zeros; len). rewrite app_assoc. symmetry. apply app_nth1. unfold zeros. len.
  - apply mwrite_agree. unfold zeros. len.
Qed.

(** ** prealloc *)

Lemma torn_event_none m ev : torn_event m ev m.
Proof. destruct ev; apply torn_none. Qed.

Lemma crashed_take k : forall m evs, crashed m evs (apply_events m (take k evs)).
Proof.
  induction k as [|k IH]; intros m [|ev evs]; [by apply crashed_done|apply crashed_now, torn_event_none|by apply crashed_done|].
  apply crashed_later. apply IH.
Qed.

(** A pool with room for two blocks of about 4 GiB; the size of a block of 16384
    units is 0 in 32 bits, so no data is moved. *)
Definition big_size : Z := 40000 * CHUNKSIZE.
Definition big_open : M (heap container_bst) unit := pool_open ex_env ex_pool big_size false ;;; ret tt.
Definition big_block : heap container_bst :=
  end_state ((big_open ;;; pmalloc ex_env 4096 (16384 * CHUNKSIZE + 1))%stateM ex_blank) ex_blank.

Definition realloc_run : fault + (unit * heap container_bst) := prealloc ex_env 4096 (16385 * CHUNKSIZE + 1) big_block.
Definition realloc_log : list event :=
  mjoin (event_of <$> drop (length (h_log big_block)) (h_log (end_state realloc_run ex_blank))).
(** Everything but the clearing of the guard. *)
Definition realloc_crash : mem := apply_events (h_mem big_block) (take (length realloc_log - 1) realloc_log).
(** The next process opens the pool and allocates one unit. *)
Definition reopen_and_alloc (m : mem) : fault + (unit * heap container_bst) :=
  (big_open ;;; pmalloc ex_env 4104 (CHUNKSIZE + 1))%stateM (reopened m).

(** A power failure in [prealloc] after the old block was released and before
    the guard is cleared: recovery takes the pointer back to the old block, which
    stays free, and the next allocation gets the same block. *)
Theorem prealloc_crash_aliases : exists h evs m' h2, realloc_run = inr (tt, h) /\
  h_log h = h_log big_block ++ (of_event <$> evs) /\ crashed (h_mem big_block) evs m' /\
  reopen_and_alloc m' = inr (tt, h2) /\
  get64 (h_mem h2) 4096 = get64 (h_mem h2) 4104 /\ get64 (h_mem h2) 4096 <> 0.
Proof.
  exists (end_state realloc_run ex_blank), realloc_log, realloc_crash, (end_state (reopen_and_alloc realloc_crash) ex_blank). split_and!.
  - apply ends_in. vm_compute. reflexivity.
  - apply log_split; vm_compute; reflexivity.
  - apply crashed_take.
  - apply ends_in. vm_compute. reflexivity.
  - vm_compute. reflexivity.
  - apply Z.eqb_neq. vm_compute. reflexivity.
Qed.

(** A failed allocation hands [prealloc] an object of a size that is not zero
    and the offset 0: the test that should notice takes it for a success, and
    [prealloc] goes on to copy the old block over the pool header. *)
Definition failed_alloc : fault + (bucket_object * heap container_bst) :=
  alloc_from_bucket (match p_buckets (h_pool opened_heap) with bk :: _ => bk | [] => 0 end) 4096 (200 * CHUNKSIZE) opened_heap.

Theorem failed_alloc_has_size : exists obj h, failed_alloc = inr (obj, h) /\ obj_size_idx obj = 199 /\ data_offset obj = 0 /\
  get64 (h_mem h) 4096 = 0.
Proof.
  exists (result failed_alloc no_object), (end_state failed_alloc ex_blank). split; [apply ends_with; vm_compute; reflexivity|].
  split_and!; vm_compute; reflexivity.
Qed.

(** ** Arenas and sizes *)

(** When all the arenas exist no further thread gets one: the index is -1, and
    the access to the table with it is out of bounds. *)
Theorem select_arena_full (p : pmalloc_pool)
  (Hall : forall x, x ∈ arenas p -> exists a, x = Some a /\ 0 <= associated_threads a) : select_arena_id p = -1.
Proof.
  unfold select_arena_id. change (Z.lnot 0) with (-1). generalize 0. induction (arenas p) as [|x l IH]; intros i; [done|].
  destruct (Hall x) as (a & -> & Ha); [by left|]. cbn [select_arena_loop]. ztrue. apply IH. intros y Hy. apply Hall. by right.
Qed.

(** A pool of 18 GiB has one zone by [get_max_zones], with more chunks by
    [get_zone_size_idx] than a zone has headers. *)
Theorem zone_too_large : get_max_zones (18 * 2 ^ 30) = 1 /\ MAX_CHUNK < get_zone_size_idx 0 1 (18 * 2 ^ 30).
Proof. split; [by vm_compute|apply Z.ltb_lt; by vm_compute]. Qed.

(** The last chunk of a pool may lie beyond its end: the headers of the pool and
    the info slots are not taken off its size. *)
Theorem last_chunk_beyond_end : let size := 2 ^ 25 + 1049584 in
  pool_ok (opened true ex_pool size) /\ size < chunk_data_off 0 (nunits (opened true ex_pool size)).
Proof.
  split; [constructor; [done|done|by vm_compute|by split; apply Z.ltb_lt; vm_compute|by apply Z.ltb_lt; vm_compute]|].
  apply Z.ltb_lt. by vm_compute.
Qed.
