(* ===== verification/PcheckExamples.v ===== *)
(** PcheckExamples: pmempool check on small arenas and a damaged log pool, and
    the theorems of Pcheck* applied to them. *)

From stdpp Require Import strings.
From S2P Require Import Prelude Mem Util BttLayout Prog StateM Btt Blk Log LogSpec.
From S2P Require Import Pcommon Pcheck PcheckBtt PcheckMap PcheckSpec PcheckLog.
From S2P Require Import BttFresh PcommonSpec PcheckType.
From S2P Require Import BttExamples LogExamples.

Definition ex_penv : penv :=
  {| pe_pread := fun _ _ => true; pe_pwrite := fun _ _ => true; pe_fsync := true; pe_fstat := true; pe_mmap := true;
     pe_open_r := true; pe_open := true; pe_backup := true; pe_mtime := 0; pe_uuid := replicate 16 x07 |}.

Lemma ex_io_ok : io_ok ex_penv.
Proof. by split. Qed.

Definition ex_check : check_args := {| a_repair := false; a_yes := false; a_exec := true; a_backup := false |}.
Definition ex_repair : check_args := {| a_repair := true; a_yes := true; a_exec := true; a_backup := false |}.
Definition ex_task (a : check_args) : pmempool_check := pmempool_check_default a (fun _ => x00) 8192 [].

(** An arena of five blocks: four in the map, one in the flog.  With [b] = 0 two
    map entries name block 0 and nothing names block 1. *)
Definition ex_slot (s1 s2 : Z) : flog_slot :=
  {| fs_alpha := {| lba := 0; old_map := 4; new_map := 4; seq := s1 |};
     fs_beta := {| lba := 0; old_map := 4; new_map := 4; seq := s2 |}; fs_pad := replicate 32 x00 |}.
Definition ex_map (b : Z) : list Z := Z.lor BTT_MAP_ENTRY_NORMAL <$> [0; b; 2; 3].

Lemma ex_sized b s1 s2 : arena_sized 4 1 5 (ex_map b) [ex_slot s1 s2].
Proof.
  split; try (cbn; lia). apply Forall_cons. split; [|by apply Forall_nil].
  intros x. unfold flog_cand, pmempool_check_check_flog, ex_slot. cbn [fs_alpha fs_beta seq].
  destruct (_ || _); [by intros [= <-]|]. destruct (_ || _); [by intros [= <-]|done].
Qed.

(** The log of two megabytes as pmemlog_create makes it, and one of which only
    the signature is left. *)
Definition ex_log : mem :=
  mwrite (fun _ => x00) 0 (log_hdr_bytes ex_env ++ le_enc 8 LOG_START ++ le_enc 8 (2 ^ 21) ++ le_enc 8 LOG_START).
Definition ex_damaged : mem := mwrite (fun _ => x00) 0 LOG_HDR_SIG.

Lemma ex_log_file : log_file (2 ^ 21) ex_log [].
Proof.
  assert (length (log_hdr_bytes ex_env) = 4096%nat) as Hl by (by apply length_log_hdr).
  split; try done; [|by vm_compute..]. unfold ex_log.
  rewrite mread_mwrite_in by (rewrite ?length_app, ?Hl, ?length_le_enc; unfold POOL_HDR_SIZE; lia). rewrite drop_0.
  rewrite take_app_length' by done. by apply log_hdr_bytes_ok.
Qed.

(** ** Witnesses *)



(** A lane written three times: its entries have the numbers 3 and 2. *)
Lemma third_sequence_rejected_witness :
  map_flog_repair 4 1 (ex_map 1) [ex_slot 3 2] 5 (ex_task ex_check) =
  inr ((CHECK_RESULT_NOT_CONSISTENT, ex_map 1, [ex_slot 3 2]), ex_task ex_check).
Proof.
  apply (third_sequence_rejected 4 1 5 (ex_map 1) [ex_slot 3 2] (ex_task ex_check) 0%nat
    (fs_alpha (ex_slot 3 2)) (fs_beta (ex_slot 3 2)) (replicate 32 x00) (ex_sized _ _ _)).
  - reflexivity.
  - lia.
  - right. split; [by right; left|reflexivity].
  - by left.
  - by left.
Defined.

Lemma pmempool_check_readonly_witness :
  exists r s', pmempool_check_func ex_penv (ex_task ex_check) = inr (r, s') /\ fd_size s' = 8192.
Proof.
  destruct (pmempool_check_func ex_penv (ex_task ex_check)) as [f|[r s']] eqn:E; [vm_compute in E; congruence|].
  exists r, s'. split; [reflexivity|].
  exact (proj2 (pmempool_check_readonly ex_penv (ex_task ex_check) s' r eq_refl E)).
Defined.



(** A file for which pmempool create accepts blocks of 32767 bytes and
    pmemblk_create does not. *)
Definition ex_odd : ns := {| p_mem := fun _ => x00; p_size := 16812672; cb_is_zeroed := true |}.

Lemma util_check_bsize_exact_witness :
  util_check_bsize 32767 16812672 = false /\
  fst (run (btt_init (16812672 - 8192) 32767 ex_uuid 2) (Build_world ex_odd zero_btt [])) = Err EINVAL.
Proof.
  assert (one_arena 16812672) as Hone by (split; lia || (apply Z.leb_le; reflexivity)).
  assert (read_info (init_state (ns_size ex_odd) 32767 ex_uuid) (mread (ns_mem ex_odd) 0 BTT_INFO_SIZE) = None) as Hno.
  { unfold read_info. rewrite bool_decide_false; [reflexivity|]. by vm_compute. }
  split; [reflexivity|].
  exact (proj2 (proj2 (proj2 (util_check_bsize_exact ex_alloc_ok 16812672 32767 ex_odd zero_btt [] ex_uuid 2 Hone eq_refl
    ltac:(lia) eq_refl eq_refl Hno)))).
Defined.

