(* ===== verification/PtoolExamples.v ===== *)
(** PtoolExamples: pmempool create and dump on concrete arguments and pools: the
    theorems of Pranges, Poutput, PcreateSpec and PdumpSpec applied. *)

From stdpp Require Import strings.
From S2P Require Import Prelude Mem Util BttLayout Prog Btt BttInv BttSpec BttOpen BttCrash BttFresh Blk BlkSpec Persist Pmem Log LogSpec Pcommon Pranges Poutput Pcreate PcreateSpec Pdump PdumpSpec.
From S2P Require Import BttExamples BlkExamples LogExamples.

(** ** Ranges and dumps of bytes *)

Definition ex_number (n : Z) : size_text := {| sz_num := n; sz_unit := UNone; sz_B := false |}.
Definition ex_texts : list range_text := [RFromTo (ex_number 7) (ex_number 3); RNum (ex_number 9); RFrom (ex_number 90)].
Definition ex_entire : range := {| first := 0; last := 99 |}.

Lemma ex_texts_ok : Forall (range_text_ok ex_entire) ex_texts.
Proof.
  assert (forall n, 0 <= n <= 99 -> inside ex_entire (ex_number n)) as H.
  { intros n Hn. unfold inside, size_ok, ex_number, size_value, ex_entire. cbn. lia. }
  repeat constructor; apply H; lia.
Qed.


Lemma outv_hexdump_roundtrip_witness : hexdump_star ∈ hexdump_lines (replicate 80 x07) 4096 false /\
  undump 4096 (hexdump_lines (replicate 80 x07) 4096 false) = replicate 80 x07.
Proof.
  split.
  - apply (bool_decide_unpack _). vm_compute. exact I.
  - exact (outv_hexdump_roundtrip (replicate 80 x07) 4096 ltac:(done) ltac:(done)).
Defined.

(** ** Creating *)

(** A disk with no space left. *)
Lemma pmempool_create_fails_clean_witness : exists r fs',
  pmempool_create_func ex_benv ex_env None [] ["blk"%string; "512"%string; "pool"%string] {| files := ∅; space := 0 |} =
    inr (r, fs') /\ r = Returned (-1) /\ files fs' = ∅.
Proof.
  eexists _, _. split; [vm_compute; reflexivity|]. split; [reflexivity|].
  refine (pmempool_create_fails_clean ex_benv ex_env None [] ["blk"%string; "512"%string; "pool"%string]
    {| files := ∅; space := 0 |} _ (Returned (-1)) _ _ eq_refl).
  - vm_compute. reflexivity.
  - discriminate.
Defined.

(** "pmempool create -l -s 16785408 blk 512 pool" *)
Definition ex_create : pmempool_create :=
  {| cr_verbose := false; cr_fname := "pool"%string; cr_fexists := false; cr_inherit_fname := None;
     cr_max_size := false; cr_str_type := Some "blk"%string; cr_type := PMEM_POOL_TYPE_NONE; cr_size := 16785408;
     cr_str_bsize := Some "512"%string; cr_bsize := 0; cr_layout := 0; cr_mode := DEFAULT_MODE |}.

Example ex_create_parsed :
  pmempool_create_parse_args
    [{| opt := x6c; optarg := None; optopt_is_0 := false |};
     {| opt := x73; optarg := Some "16785408"%string; optopt_is_0 := false |}]
    ["blk"%string; "512"%string; "pool"%string] = inr (ArgsOk ex_create).
Proof. vm_compute. reflexivity. Qed.

Lemma ex_blk_command : blk_command ex_create 512.
Proof. split; [done| |done]. by exists "512"%string. Qed.


(** ** Dumping *)

Definition ex_dump (fname : string) (ranges : option string) (chunksize bsize : Z) : pmempool_dump :=
  {| du_fname := fname; du_ofname := None; du_hex := false; du_bsize := bsize; du_ranges := [];
     du_str_ranges := ranges; du_chunksize := chunksize; du_chunkcnt := 0; du_out := []; du_exit := None |}.

Definition ex_heap : nat -> range := fun _ => {| first := 0; last := 0 |}.
Definition ex_fwrite : list byte -> list byte -> bool := fun _ _ => true.


Lemma device_blocks n s d : btt_device n s d -> d_nlba d = nlba s.
Proof. intros [(_ & Hn & _)|(_ & _ & Hz)]; [done|apply Hz]. Qed.


(** A log of two bytes, with a stale byte after them from before a rewind. *)
Definition ex_stale_log : plog :=
  {| lp_addr := 0; lp_size := 2 ^ 21; lp_is_pmem := true; lp_rdonly := false; lp_lock := RwFree;
     lp_pm := store (store (pm_of (fun _ => x00)) 8192 [x61; x62; x7a]) START_OFF (le_enc 8 8192) |}.

(** The last chunk is dumped at the full chunk size: the stale byte comes out, and
    at the end of the pool the tool reads outside the mapping. *)
Example dump_beyond_the_data :
  let go chunksize := snd (pmempool_dump_log_process_chunk ex_fwrite ex_stale_log [x61; x62]
    (du_set_ranges (ex_dump "log" None chunksize 0) [{| first := 0; last := 9 |}])) in
  du_out (go 3) = [x61; x62; x7a] /\ du_exit (go (2 ^ 21)) = Some Segfault.
Proof. vm_compute. done. Qed.
