(* ===== verification/PinfoExamples.v ===== *)
(** PinfoExamples: pmempool info on concrete files: the theorems of PinfoSpec
    applied, and what it shows when several ranges or several files are given. *)

From stdpp Require Import strings.
From S2P Require Import Prelude Mem Util BttLayout Prog StateM Btt BttInv BttSpec BttOpen BttCrash BttFresh Blk Persist Pmem Log LogSpec Pcommon Pranges Poutput Pcreate Pdump Pinfo PinfoSpec.
From S2P Require Import BttExamples BlkExamples LogExamples.

(** "-d -s", nothing else. *)
Definition ex_args (use_range : bool) (walk : Z) : info_args :=
  {| ia_human := false; ia_force := false; ia_type := PMEM_POOL_TYPE_NONE; ia_skip_zeros := false;
     ia_skip_error := false; ia_skip_no_flag := false; ia_use_range := use_range;
     ia_entire := {| first := 0; last := 2 ^ 64 - 1 |}; ia_walk := walk; ia_vlevel := VERBOSE_DEFAULT;
     ia_vdata := VERBOSE_DEFAULT; ia_vmap := VERBOSE_SILENT; ia_vflog := VERBOSE_SILENT;
     ia_vbackup := VERBOSE_SILENT; ia_vhdrdump := VERBOSE_SILENT; ia_vstats := VERBOSE_DEFAULT |}.

Definition ex_state (rs : list range) : info_state := {| is_out := []; is_ranges := rs |}.
Definition ex_all : range := {| first := 0; last := 2 ^ 64 - 1 |}.
Definition ex_mmap : Z -> Z -> bool := fun _ _ => true.

Example ex_args_parsed : info_parse_args LinkKept (fun _ _ => ex_all) false
    [{| opt := x64; optarg := None; optopt_is_0 := false |}; {| opt := x73; optarg := None; optopt_is_0 := false |}] =
  inr (InfoOk (ex_args false 0) [ex_all]).
Proof. vm_compute. reflexivity. Qed.

(** ** Witnesses *)

Lemma pmempool_info_get_range_exact_witness :
  pmempool_info_get_range (ex_args true 0) {| first := 90; last := 250 |} 99 100 = Some {| first := 0; last := 99 |} /\
  in_range {| first := 0; last := 99 |} 42.
Proof.
  pose proof (pmempool_info_get_range_exact (ex_args true 0) {| first := 90; last := 250 |} 99 100
    ltac:(cbn; lia) ltac:(lia) ltac:(lia) ltac:(lia)) as H.
  change (pmempool_info_get_range (ex_args true 0) {| first := 90; last := 250 |} 99 100) with (Some {| first := 0; last := 99 |}) in *.
  split; [reflexivity|]. destruct H as (_ & _ & H). apply (H 42 ltac:(lia)). intros _. unfold in_range. cbn. lia.
Defined.

(** The file of a pool of 16 megabytes, laid out. *)
Lemma ex_btt_file : exists f m, f_size f = 2 ^ 24 + 8192 /\ btt_file f 8192 (laid ex_btt) m (2 ^ 24) (zero_device 32202).
Proof.
  pose proof (u_layable _ _ ex_unlaid) as Hy.
  destruct (run_write_layout ex_alloc_ok ex_ns ex_btt [] 0 Hy ex_zeroed) as (n & evs & _ & Hs & Hfresh & Hinfo);
    [split; [lia|reflexivity]|reflexivity|].
  exists {| f_size := 2 ^ 24 + 8192; f_bytes := p_mem n |}, (ns_mem n). split; [done|].
  pose proof (lay_arena_fields _ _ ex_lay_ok ltac:(by rewrite ex_lay_int) ex_btt) as (Es & _ & Em & _ & Ee & _).
  split; cbn [f_size f_bytes].
  - reflexivity.
  - split; reflexivity.
  - intros z _. reflexivity.
  - apply (laid_implements ex_btt); [exact Hy|discriminate|reflexivity|exact Hfresh].
  - exact (laid_on_media ex_btt _ Hy Hinfo).
  - split; [reflexivity|]. intros j ar Ha. destruct j; [|done]. injection Ha as <-. reflexivity.
  - intros j ar info Ha Hd. destruct j; [|done]. injection Ha as <-.
    rewrite (read_info_of _ _ _ (ds_info _ _ _ _ Hd)).
    match goal with |- context [mread ?m' ?o BTT_INFO_SIZE] => change o with 0; change m' with (ns_mem n) end.
    match goal with |- ?o + _ + _ <= _ => change o with 0 end. rewrite Hinfo.
    destruct (info_checksum_roundtrip _ (lay_info_wf ex_btt Hy)) as (_ & _ & v & Hv). cbv zeta in Hv. rewrite Hv.
    apply Z.leb_le. vm_compute. reflexivity.
  - intros j ar x Ha Hx _. destruct j; [|done]. injection Ha as <-. unfold entry_at, get_le, mread.
    destruct Hfresh as [Hmap _]. change (rawsize ex_btt) with (2 ^ 24) in *. change (lbasize ex_btt) with 512 in *.
    rewrite Em. rewrite Ee in Hx. cbn [List.map fmap list_fmap seqZ]. 
    assert (forall i, 0 <= i < 4 -> ns_mem n (2 ^ 24 - 20480 - layout_mapsize (lay_ext (2 ^ 24) 512) + 4 * x + i) = x00) as Hz.
    { intros i Hi. apply Hmap. pose proof (lay_mapsize _ _ ex_lay_ok ltac:(by rewrite ex_lay_int)) as [Hm _]. lia. }
    change (seqZ 0 (Z.of_nat 4)) with [0; 1; 2; 3]. cbn [fmap list_fmap]. rewrite !Hz by lia. reflexivity.
Qed.


Lemma pmempool_info_log_data_exact_witness : exists f st', log_file (f_size f) (f_bytes f) [x01] /\
  pmempool_info_log_data (ex_args false 0) f ex_mmap 4096 1 8192 8193 (ex_state [ex_all]) = inr (0, st') /\
  is_out st' = [Heading "PMEMLOG data"; Hexdump [x01] 8192].
Proof.
  destruct ex_file as (f & Hs & Hf). rewrite <- Hs in Hf.
  destruct (pmempool_info_log_data_exact (ex_args false 0) f ex_mmap 4096 [x01] Hf ltac:(lia) (ex_state [ex_all])
    (2 ^ 64 - 1) eq_refl ltac:(done) ltac:(discriminate) eq_refl eq_refl ltac:(done) ltac:(by right)) as (st' & E & Ho).
  exists f, st'. split; [exact Hf|]. split; [exact E|exact Ho].
Defined.

Lemma pmempool_info_terminates_witness :
  pmempool_info_func LinkKept (fun _ _ => ex_all) false [] ["none"%string; "small"%string]
    {| files := {[ "small"%string := file_with [x01; x02] ]}; space := 0 |} ex_mmap 4096 3 <> inl OutOfFuel.
Proof.
  apply (pmempool_info_terminates LinkKept (fun _ _ => ex_all) false [] ["none"%string; "small"%string]
    {| files := {[ "small"%string := file_with [x01; x02] ]}; space := 0 |} ex_mmap 4096 3).
  intros name f Hf. cbn [files] in Hf. apply lookup_singleton_Some in Hf as [_ <-]. split; [discriminate|reflexivity].
Defined.

(** ** What goes wrong *)

Definition ex_file_of (n : nat) : file := file_with (replicate n x61).

(** Each range shown is taken off the size the next is cut to: two ranges inside
    the hundred bytes of a log make the tool dump nearly 2^64 bytes. *)
Example two_ranges_underflow :
  pmempool_info_log_data (ex_args true 0) (ex_file_of 100) ex_mmap 4096 1 0 100
    (ex_state [{| first := 0; last := 49 |}; {| first := 60; last := 99 |}]) = inl Undefined.
Proof. vm_compute. reflexivity. Qed.

(** So does a range that begins past the data. *)
Example range_past_data_underflows :
  pmempool_info_log_data (ex_args true 0) (ex_file_of 100) ex_mmap 4096 1 0 4 (ex_state [{| first := 10; last := 20 |}]) =
  inl Undefined.
Proof. vm_compute. reflexivity. Qed.

(** The range that stands for the whole is cut to the data of the first file, and
    of the next file only as much is shown. *)
Example second_file_cut :
  match pmempool_info_log_data (ex_args false 0) (ex_file_of 2) ex_mmap 4096 1 0 2 (ex_state [ex_all]) with
  | inr (_, st) =>
      match pmempool_info_log_data (ex_args false 0) (ex_file_of 5) ex_mmap 4096 1 0 5 st with
      | inr (_, st) => is_out st | inl _ => [] end
  | inl _ => []
  end = [Heading "PMEMLOG data"; Hexdump (replicate 2 x61) 0; Heading "PMEMLOG data"; Hexdump (replicate 2 x61) 0].
Proof. vm_compute. reflexivity. Qed.

(** The rest of the data after the last full chunk is not shown. *)
Example last_chunk_left_out :
  match pmempool_info_log_data (ex_args false 3) (ex_file_of 5) ex_mmap 4096 1 0 5 (ex_state [ex_all]) with
  | inr (_, st) => is_out st | inl _ => [] end = [ChunksHeading 1 3; ChunkDump 0 (replicate 3 x61) 0].
Proof. vm_compute. reflexivity. Qed.

(** Blocks never written read as zeros, but what is shown for each of them is what
    lies in the first block of the arena. *)
Example initial_blocks_show_block_0 :
  let f := file_with ([x68; x69] ++ replicate 6 x00) in
  match btt_data_loop (ex_args false 0) f 2 1
    {| i_sig := []; i_parent_uuid := []; i_flags := 0; i_major := 1; i_minor := 1; i_external_lbasize := 2;
       i_external_nlba := 2; i_internal_lbasize := 2; i_internal_nlba := 3; i_nfree := 1; i_infosize := 4096;
       i_nextoff := 0; i_dataoff := 0; i_mapoff := 0; i_flogoff := 0; i_infooff := 0; i_unused := []; i_checksum := 0 |}
    0 0 (replicate 8 x00) 0 1 (ex_state []) with
  | inr (_, st) => blocks_of (is_out st) | inl _ => [] end = [(0, [x68; x69]); (1, [x68; x69])].
Proof. vm_compute. reflexivity. Qed.
