(* ===== verification/VmemExamples.v ===== *)
(** VmemExamples: pools of libvmem on a small kernel: the theorems of VmemSpec
    applied, and the fault of vmem_delete with large pages. *)

From stdpp Require Import strings.
From S2P Require Import Prelude Mem Util Prog StateM Vmem VmemSpec.

Open Scope stateM_scope.

(** One descriptor, one name and one address to give away; mprotect always works. *)
Definition ex_kernel (j : Z) : kernel :=
  {| k_maps := fun _ => None;
     k_mkstemp := fun o _ => if decide (os_fds o !! 3 = None /\ ("/tmp/vmem.aaaaaa"%string : string) ∉ os_names o)
                             then inr (3, "/tmp/vmem.aaaaaa"%string) else inl ENOMEM;
     k_fallocate := fun _ _ size => if size <=? 2 ^ 30 then None else Some ENOSPC;
     k_fstat := fun _ _ => true;
     k_mmap := fun o _ len _ _ => if decide (os_maps o !! (2 ^ 40) = None /\ 0 < len < 2 ^ 40) then inr (2 ^ 40) else inl ENOMEM;
     k_munmap := fun _ _ _ => true;
     k_mprotect := fun _ _ _ _ => true;
     k_pagesize := 2 ^ j |}.

Lemma ex_kernel_ok j : 12 <= j <= 21 -> kernel_ok (ex_kernel j) j.
Proof.
  intros Hj. split; [done|done| | |done].
  - intros o template fd name. cbn. case_decide as Hd; [|done]. by intros [= <- <-].
  - intros o hint len fd cow base. cbn. case_decide as Hd; [|done]. intros [= <-]. split_and!; [lia|lia|lia| |apply Hd].
    replace (2 ^ 40) with (2 ^ (40 - j) * 2 ^ j) by (rewrite <- Z.pow_add_r by lia; f_equal; lia).
    apply Z.mod_mul. pose proof (Z.pow_pos_nonneg 2 j). lia.
Qed.

(** An allocator that hands out one place. *)
Definition ex_jemalloc : jemalloc :=
  {| je_pool_create := fun m addr size zeroed => if 0 <? size then Some (mwrite m addr [x01]) else None;
     je_pool_delete := fun m pool => mwrite m pool [x00];
     je_pool_check := fun m pool => 1;
     je_pool_malloc := fun m pool size => (pool + 64, m);
     je_pool_free := fun m pool ptr => m;
     je_pool_calloc := fun m pool nmemb size => (0, m);
     je_pool_ralloc := fun m pool ptr size => (0, m);
     je_pool_aligned_alloc := fun m pool alignment size => (0, m);
     je_pool_malloc_usable_size := fun m pool ptr => 64 |}.

Lemma ex_jemalloc_ok : jemalloc_ok ex_jemalloc.
Proof.
  split.
  - intros m addr size zeroed m' z. cbn. destruct (Z.ltb_spec 0 size); [|done]. intros [= <-] Hz. apply mwrite_out. cbn. lia.
  - intros m pool z Hz. apply mwrite_out. cbn. lia.
Qed.

Definition ex_os : os :=
  {| os_fds := {[ 7 := {| f_size := 1; f_bytes := fun _ => x00 |} ]}; os_names := {[ "/tmp/other"%string ]};
     os_blocked := false; os_maps := ∅; os_noacc := fun _ => false; os_mem := fun _ => xff |}.

Definition ex_size : Z := 14680065.   (* 14 megabytes and a byte *)

Lemma ex_created j : j = 12 \/ j = 16 -> exists o1, vmem_create (ex_kernel j) ex_jemalloc "/tmp" ex_size ex_os = inr (inr (2 ^ 40), o1).
Proof.
  intros Hj.
  assert (match vmem_create (ex_kernel j) ex_jemalloc "/tmp" ex_size ex_os with inr (inr a, _) => a | _ => 0 end = 2 ^ 40) as H.
  { destruct Hj as [-> | ->]; vm_compute; reflexivity. }
  destruct (vmem_create _ _ _ _ _) as [f|[[e|a] o1]]; [done|done|]. rewrite H. by exists o1.
Qed.

(** ** Witnesses *)



Lemma vmem_delete_faults_witness : exists o1,
  vmem_create (ex_kernel 16) ex_jemalloc "/tmp" ex_size ex_os = inr (inr (2 ^ 40), o1) /\
  vmem_delete (ex_kernel 16) ex_jemalloc (2 ^ 40) o1 = inl Undefined.
Proof.
  destruct (ex_created 16 (or_intror eq_refl)) as [o1 E1]. exists o1. split; [exact E1|].
  apply (vmem_delete_faults (ex_kernel 16) ex_jemalloc 16 (ex_kernel_ok 16 ltac:(lia)) ex_jemalloc_ok "/tmp" ex_size (2 ^ 40)
    ex_os o1); [unfold ex_size; lia|reflexivity|intros; reflexivity|exact E1].
Defined.

Lemma vmem_region_exact_witness : exists r o1,
  vmem_create_in_region (ex_kernel 12) ex_jemalloc (2 ^ 30) ex_size ex_os = inr (r, o1) /\ visible o1 = visible ex_os.
Proof.
  destruct (vmem_region_exact (ex_kernel 12) ex_jemalloc 12 (ex_kernel_ok 12 ltac:(lia)) ex_jemalloc_ok (2 ^ 30) ex_size ex_os
    ltac:(unfold ex_size; lia) ltac:(unfold ex_size; lia) eq_refl (fun _ _ => eq_refl)) as (r & o1 & E & Hv & _).
  exists r, o1. split; [exact E|exact Hv].
Defined.

Lemma vmem_strdup_copies_witness : exists r o1,
  vmem_strdup (ex_kernel 12) ex_jemalloc (2 ^ 40) [x68; x69] ex_os = inr (r, o1) /\
  (r <> 0 -> mread (os_mem o1) r 3 = [x68; x69; x00]).
Proof.
  destruct (vmem_strdup_copies (ex_kernel 12) ex_jemalloc (2 ^ 40) [x68; x69] ex_os) as (r & o1 & E & Hc).
  { intros r m _ _ z _. reflexivity. }
  exists r, o1. split; [exact E|exact Hc].
Defined.

(** Too small, and no file system with the room. *)
Example small_pool : vmem_create (ex_kernel 12) ex_jemalloc "/tmp" 4096 ex_os = inr (inl EINVAL, ex_os).
Proof. reflexivity. Qed.

Example no_room :
  match vmem_create (ex_kernel 12) ex_jemalloc "/tmp" (2 ^ 31) ex_os with inr (r, _) => Some r | inl _ => None end = Some (inl ENOSPC).
Proof. vm_compute. reflexivity. Qed.
