(* ===== verification/Vmmalloc.v ===== *)
(** Vmmalloc: src/src/libvmmalloc/libvmmalloc.c, the allocation functions of the
    C library replaced by those of one pool.

    The state is that of the operating system and the pool, 0 before the library
    is initialised.  Until then the calls go to the base heap of the embedded
    allocator, which is a record of functions like its pools.  The functions that
    are compiled only on some systems (memalign, aligned_alloc, valloc, pvalloc)
    are here; the hooks of glibc name the same functions. *)

From stdpp Require Import strings.
From S2P Require Import Prelude Mem Util Prog StateM Vmem Pranges Pcreate.

Open Scope stateM_scope.

Definition VMMALLOC_MIN_POOL : Z := 1024 * 1024 * 14.

Record vmm := { vm_os : os; vm_Vmp : Z }.

(** The base heap: what a call does to the memory and returns, 0 for NULL; and the
    error an aligned allocation leaves. *)
Record je_base := {
  je_malloc : mem -> Z -> Z * mem;
  je_calloc : mem -> Z -> Z -> Z * mem;
  je_realloc : mem -> Z -> Z -> Z * mem;
  je_free : mem -> Z -> mem;
  je_memalign : mem -> Z -> Z -> Z * mem;
  je_valloc : mem -> Z -> Z * mem;
  je_malloc_usable_size : mem -> Z -> Z;
  je_errno : mem -> Z -> Z -> errno;
}.

Section Vmmalloc.
Context (k : kernel) (je : jemalloc) (base : je_base).

Definition with_os (s : vmm) (o : os) : vmm := {| vm_os := o; vm_Vmp := vm_Vmp s |}.
Definition on_os {A} (m : M os A) : M vmm A := zoomM vm_os (fun o s => with_os s o) m.

(** "if (Vmp == NULL) return je_vmem_...; ... je_vmem_pool_... (Vmp + Header_size)" *)
Definition dispatch {A} (early : M os A) (pool : Z -> M os A) : M vmm A :=
  s <- getM ;; if vm_Vmp s =? 0 then on_os early else on_os (pool (u64 (vm_Vmp s + Header_size k))).

(** ** Allocation *)

Definition malloc (size : Z) : M vmm Z :=
  dispatch (je_call (fun m => je_malloc base m size)) (fun pool => je_call (fun m => je_pool_malloc je m pool size)).
Definition calloc (nmemb size : Z) : M vmm Z :=
  dispatch (je_call (fun m => je_calloc base m nmemb size)) (fun pool => je_call (fun m => je_pool_calloc je m pool nmemb size)).
Definition realloc (ptr size : Z) : M vmm Z :=
  dispatch (je_call (fun m => je_realloc base m ptr size)) (fun pool => je_call (fun m => je_pool_ralloc je m pool ptr size)).
Definition free (ptr : Z) : M vmm unit :=
  dispatch (modM (fun o => set_mem o (je_free base (os_mem o) ptr)))
    (fun pool => modM (fun o => set_mem o (je_pool_free je (os_mem o) pool ptr))).
Definition cfree (ptr : Z) : M vmm unit := free ptr.
Definition memalign (boundary size : Z) : M vmm Z :=
  dispatch (je_call (fun m => je_memalign base m boundary size))
    (fun pool => je_call (fun m => je_pool_aligned_alloc je m pool boundary size)).
Definition aligned_alloc (alignment size : Z) : M vmm Z := memalign alignment size.
Definition valloc (size : Z) : M vmm Z :=
  dispatch (je_call (fun m => je_valloc base m size))
    (fun pool => je_call (fun m => je_pool_aligned_alloc je m pool (k_pagesize k) size)).
Definition pvalloc (size : Z) : M vmm Z :=
  valloc (u64 (u64 (size + (k_pagesize k - 1)) / k_pagesize k * k_pagesize k)).
Definition malloc_usable_size (ptr : Z) : M vmm Z :=
  dispatch (o <- getM ;; ret (je_malloc_usable_size base (os_mem o) ptr))
    (fun pool => o <- getM ;; ret (je_pool_malloc_usable_size je (os_mem o) pool ptr)).

(** The pointer stored at [memptr], and the error returned instead of left in
    errno. *)
Definition posix_memalign (alignment size : Z) : M vmm (Z * option errno) :=
  s <- getM ;;
  let e := je_errno base (os_mem (vm_os s)) alignment size in
  ptr <- memalign alignment size ;;
  ret (ptr, if ptr =? 0 then Some e else None).

(** ** Start-up *)

Definition libvmmalloc_create (dir : string) (size : Z) : M os (errno + Z) :=
  if size <? VMMALLOC_MIN_POOL then ret (inl EINVAL)
  else
    let size := u64 (u64 (size + (k_pagesize k - 1)) / k_pagesize k * k_pagesize k) in
    r <- util_map_tmpfile k dir size ;;
    match r with
    | inl e => ret (inl e)
    | inr addr =>
        vmem_store_header addr size false ;;;
        ok <- vmem_pool_create k je addr size true ;;
        if ok : bool then util_range_none k addr POOL_HDR_SIZE ;;; ret (inr addr)
        else
          a <- load64 (addr + VMEM_ADDR_OFF) ;;
          s <- load64 (addr + VMEM_SIZE_OFF) ;;
          util_unmap k a s ;;; ret (inl ENOMEM)
    end.

(** The environment gives the directory and the size; [Exited 1] is exit (1). *)
Definition libvmmalloc_init (dir size_str : option string) : M vmm ending :=
  match dir, size_str with
  | None, _ | _, None => ret (Exited 1)
  | Some dir, Some size_str =>
      let size := u64 (atoll (bytes_of size_str)) in
      if size <? VMMALLOC_MIN_POOL then ret (Exited 1)
      else
        r <- on_os (libvmmalloc_create dir size) ;;
        match r with
        | inl _ => modM (fun s => {| vm_os := vm_os s; vm_Vmp := 0 |}) ;;; ret (Exited 1)
        | inr Vmp => modM (fun s => {| vm_os := vm_os s; vm_Vmp := Vmp |}) ;;; ret (Returned 0)
        end
  end.
End Vmmalloc.
