(* ===== verification/VmmallocSpec.v ===== *)
(** VmmallocSpec: what libvmmalloc promises: it starts with a pool or ends the
    process, and no sequence of allocation calls damages the header of the pool.

    The witnesses are at the end, on the kernel of VmemExamples. *)

From stdpp Require Import strings.
From S2P Require Import Prelude Mem Util Prog StateM Vmem VmemSpec Pranges Pcreate Vmmalloc VmemExamples.

Open Scope stateM_scope.

(** libvmmalloc has a copy of vmem_create. *)
Lemma libvmmalloc_create_same k je dir size : libvmmalloc_create k je dir size = vmem_create k je dir size.
Proof. unfold libvmmalloc_create, vmem_create. by replace VMMALLOC_MIN_POOL with VMEM_MIN_POOL by reflexivity. Qed.

(** The calls on a pool leave what lies before it alone. *)
Record jemalloc_calls_ok (je : jemalloc) : Prop := {
  jc_malloc m pool size z : z < pool -> (je_pool_malloc je m pool size).2 z = m z;
  jc_calloc m pool nmemb size z : z < pool -> (je_pool_calloc je m pool nmemb size).2 z = m z;
  jc_ralloc m pool ptr size z : z < pool -> (je_pool_ralloc je m pool ptr size).2 z = m z;
  jc_aligned m pool alignment size z : z < pool -> (je_pool_aligned_alloc je m pool alignment size).2 z = m z;
  jc_free m pool ptr z : z < pool -> je_pool_free je m pool ptr z = m z;
}.

(** The functions a program calls. *)
Inductive alloc_call :=
| CMalloc (size : Z)
| CCalloc (nmemb size : Z)
| CRealloc (ptr size : Z)
| CFree (ptr : Z)
| CMemalign (boundary size : Z)
| CPosixMemalign (alignment size : Z)
| CValloc (size : Z)
| CPvalloc (size : Z)
| CUsableSize (ptr : Z).

Section Spec.
Context (k : kernel) (je : jemalloc) (base : je_base) (j : Z).
Context (Hk : kernel_ok k j) (Hje : jemalloc_ok je) (Hcalls : jemalloc_calls_ok je).

Definition run_call (c : alloc_call) : M vmm Z :=
  match c with
  | CMalloc size => malloc k je base size
  | CCalloc nmemb size => calloc k je base nmemb size
  | CRealloc ptr size => realloc k je base ptr size
  | CFree ptr => free k je base ptr ;;; ret 0
  | CMemalign boundary size => memalign k je base boundary size
  | CPosixMemalign alignment size => r <- posix_memalign k je base alignment size ;; ret (fst r)
  | CValloc size => valloc k je base size
  | CPvalloc size => pvalloc k je base size
  | CUsableSize ptr => malloc_usable_size k je base ptr
  end.

Fixpoint run_calls (cs : list alloc_call) : M vmm (list Z) :=
  match cs with
  | [] => ret []
  | c :: cs => r <- run_call c ;; rs <- run_calls cs ;; ret (r :: rs)
  end.

(** ** Start-up *)

(** The library starts with a pool of its own, as vmem_create makes it, or the
    process ends with status 1 and with what it had before: when the environment
    names no directory or no size, when the size is too small, and when the pool
    cannot be made. *)
Theorem libvmmalloc_init_exact (dir size_str : option string) (s : vmm) (Hfirst : vm_Vmp s = 0) :
  exists r s', libvmmalloc_init k je dir size_str s = inr (r, s') /\
    match r with
    | Exited status => status = 1 /\ vm_Vmp s' = 0 /\ visible (vm_os s') = visible (vm_os s)
    | Returned ret => ret = 0 /\ vm_Vmp s' <> 0 /\
        exists d z, dir = Some d /\ size_str = Some z /\ VMMALLOC_MIN_POOL <= u64 (atoll (bytes_of z)) /\
          pool_made k je (vm_os s) (vm_os s') (vm_Vmp s') (pool_size k (u64 (atoll (bytes_of z))))
    end.
Proof.
  apply wp_elim. unfold libvmmalloc_init. destruct dir as [d|]; [|by apply wp_ret].
  destruct size_str as [z|]; [|by apply wp_ret].
  destruct (Z.ltb_spec (u64 (atoll (bytes_of z))) VMMALLOC_MIN_POOL) as [Hlt|Hge]; [by apply wp_ret|].
  rewrite libvmmalloc_create_same.
  destruct (vmem_create_made k je j Hk Hje d (u64 (atoll (bytes_of z))) (vm_os s)) as (r & o' & E & Hr).
  { pose proof (u64_range (atoll (bytes_of z))). lia. }
  apply wp_bind, (wp_intro _ _ _ r (with_os s o')); [unfold on_os, zoomM; by rewrite E|].
  destruct r as [e|Vmp]; unfold wp, bindM, modM, ret; cbn [vm_os vm_Vmp with_os].
  - by destruct Hr as [-> _].
  - destruct Hr as [_ Hp]. split_and!; [done| |by exists d, z]. destruct (pm_range _ _ _ _ _ _ Hp). lia.
Qed.

(** ** Running *)

(** A routine that only changes memory from [p] on. *)
Definition above {A} (p : Z) (m : M os A) : Prop :=
  forall o, wp m (fun _ o' => o' = set_mem o (os_mem o') /\ forall z, z < p -> os_mem o' z = os_mem o z) o.

Lemma above_call p call : (forall m z, z < p -> (call m).2 z = m z) -> above p (je_call call).
Proof. intros H o. unfold je_call, wp, bindM, getM, putM, ret. pose proof (H (os_mem o)) as H1. by destruct (call (os_mem o)). Qed.

Lemma above_mod p (f : mem -> mem) : (forall m z, z < p -> f m z = m z) -> above p (modM (fun o => set_mem o (f (os_mem o)))).
Proof. intros H o. apply wp_modM. split; [done|]. intros z Hz. by apply H. Qed.

(** The pool is in place: its header whole, and room for the allocator after it. *)
Record ready (sz : Z) (s : vmm) : Prop := {
  rd_Vmp : 0 < vm_Vmp s /\ vm_Vmp s + 2 ^ 22 < 2 ^ 64;
  rd_header : vmem_header (os_mem (vm_os s)) (vm_Vmp s) sz 0;
}.

Definition steady (sz : Z) (s s' : vmm) : Prop :=
  ready sz s' /\ vm_Vmp s' = vm_Vmp s /\ visible (vm_os s') = visible (vm_os s).

Lemma steady_dispatch {A} (early : M os A) pool sz s :
  (forall p, above p (pool p)) -> ready sz s -> wp (dispatch k early pool) (fun _ s' => steady sz s s') s.
Proof.
  intros Hp [[Hv Hb] Hh]. unfold dispatch. apply wp_bind, wp_getM. rewrite (proj2 (Z.eqb_neq _ 0)) by lia.
  destruct (header_size_bounds k j Hk) as [_ Hs]. rewrite u64_id by (unfold SIZEOF_VMEM in Hs; lia).
  destruct (wp_elim _ _ _ (Hp (vm_Vmp s + Header_size k) (vm_os s))) as (a & o' & E & Eo & Hz).
  apply (wp_intro _ _ _ a (with_os s o')); [unfold on_os, zoomM; by rewrite E|].
  split; [|split; [done|]].
  - split; [done|]. cbn [vm_os with_os vm_Vmp]. eapply vmem_header_agree; [exact Hh|]. intros z Hz'. symmetry. apply Hz. lia.
  - cbn [vm_os with_os]. unfold visible. by rewrite Eo.
Qed.

Lemma steady_call c sz s : ready sz s -> wp (run_call c) (fun _ s' => steady sz s s') s.
Proof.
  intros Hr. pose proof Hcalls as [H1 H2 H3 H4 H5].
  destruct c; cbn [run_call]; unfold malloc, calloc, realloc, free, pvalloc, valloc, memalign, malloc_usable_size.
  all: try (apply steady_dispatch; [intros p; apply above_call; auto|done]).
  - eapply wp_seq; [apply steady_dispatch; [|done]|by intros ? s' Hs; apply wp_ret].
    intros p. apply (above_mod p (fun m => je_pool_free je m p ptr)). auto.
  - unfold posix_memalign. apply wp_bind, wp_bind, wp_getM. eapply wp_seq.
    + apply steady_dispatch; [|done]. intros p. apply above_call. auto.
    + intros a s' Hs. by apply wp_ret, wp_ret.
  - apply steady_dispatch; [|done]. intros p o. apply wp_bind, wp_getM, wp_ret. split; [by destruct o|done].
Qed.

(** Whatever sequence of allocation calls a program makes after start-up: each
    returns, the pool stays the same, its header whole, and descriptors, names and
    mappings are as they were. *)
Theorem libvmmalloc_calls_steady (cs : list alloc_call) (sz : Z) (s : vmm) (Hr : ready sz s) :
  exists rs s', run_calls cs s = inr (rs, s') /\ length rs = length cs /\
    ready sz s' /\ vm_Vmp s' = vm_Vmp s /\ visible (vm_os s') = visible (vm_os s).
Proof.
  apply wp_elim. revert s Hr. induction cs as [|c cs IH]; intros s Hr; cbn [run_calls]; [by apply wp_ret|].
  eapply wp_seq; [by apply steady_call|]. intros r s1 (H1 & Ev & Es).
  eapply wp_seq; [by apply IH|]. intros rs s2 (El & H2 & Ev2 & Es2). apply wp_ret.
  split_and!; [cbn; congruence|done|congruence|congruence].
Qed.

(** posix_memalign reports an error exactly when it stores a null pointer. *)
Theorem posix_memalign_reports (alignment size : Z) (s s' : vmm) (ptr : Z) (e : option errno)
  (Hrun : posix_memalign k je base alignment size s = inr ((ptr, e), s')) :
  e = None <-> ptr <> 0.
Proof.
  unfold posix_memalign, bindM, getM in Hrun. destruct (memalign _ _ _ _ _ _) as [|[p s1]]; [done|].
  injection Hrun as <- <- _. by destruct (Z.eqb_spec p 0).
Qed.
End Spec.

(** ** Witnesses *)

Definition ex_base : je_base :=
  {| je_malloc := fun m size => (4096, m); je_calloc := fun m nmemb size => (0, m); je_realloc := fun m ptr size => (0, m);
     je_free := fun m ptr => m; je_memalign := fun m alignment size => (0, m); je_valloc := fun m size => (0, m);
     je_malloc_usable_size := fun m ptr => 0; je_errno := fun m alignment size => EINVAL |}.

Definition ex_vmm : vmm := {| vm_os := ex_os; vm_Vmp := 0 |}.

Lemma ex_calls_ok : jemalloc_calls_ok ex_jemalloc.
Proof. by split. Qed.

Lemma libvmmalloc_init_exact_witness : exists s',
  libvmmalloc_init (ex_kernel 12) ex_jemalloc (Some "/tmp"%string) (Some "14680065"%string) ex_vmm = inr (Returned 0, s') /\
  vm_Vmp s' = 2 ^ 40 /\ os_maps (vm_os s') = {[ 2 ^ 40 := 14684160 ]}.
Proof.
  destruct (libvmmalloc_init_exact (ex_kernel 12) ex_jemalloc 12 (ex_kernel_ok 12 ltac:(lia)) ex_jemalloc_ok
    (Some "/tmp"%string) (Some "14680065"%string) ex_vmm eq_refl) as (r & s' & E & Hr).
  assert (match libvmmalloc_init (ex_kernel 12) ex_jemalloc (Some "/tmp"%string) (Some "14680065"%string) ex_vmm with
          | inr (Returned 0, s) => vm_Vmp s | _ => 0 end = 2 ^ 40) as Hv by (vm_compute; reflexivity).
  rewrite E in Hv. destruct r as [ret|st]; [|discriminate Hv].
  destruct Hr as (-> & _ & d & z & Hd & Hz & _ & Hp). exists s'. split; [exact E|]. split; [exact Hv|]. injection Hz as <-.
  destruct (pm_maps _ _ _ _ _ _ Hp) as [_ Hm]. rewrite Hm, Hv. reflexivity.
Defined.

Lemma libvmmalloc_calls_steady_witness : exists s rs s',
  libvmmalloc_init (ex_kernel 12) ex_jemalloc (Some "/tmp"%string) (Some "14680065"%string) ex_vmm = inr (Returned 0, s) /\
  run_calls (ex_kernel 12) ex_jemalloc ex_base [CMalloc 10; CPosixMemalign 64 100; CFree 4096] s = inr (rs, s') /\
  length rs = 3%nat /\ visible (vm_os s') = visible (vm_os s).
Proof.
  destruct (ex_created 12 (or_introl eq_refl)) as [o1 E1].
  assert (pool_made (ex_kernel 12) ex_jemalloc ex_os o1 (2 ^ 40) 14684160) as Hp.
  { destruct (vmem_create_made (ex_kernel 12) ex_jemalloc 12 (ex_kernel_ok 12 ltac:(lia)) ex_jemalloc_ok "/tmp" ex_size ex_os
      ltac:(unfold ex_size; lia)) as (r & o' & E & Hr). rewrite E1 in E. injection E as <- <-. apply Hr. }
  destruct (libvmmalloc_calls_steady (ex_kernel 12) ex_jemalloc ex_base 12 (ex_kernel_ok 12 ltac:(lia)) ex_calls_ok
    [CMalloc 10; CPosixMemalign 64 100; CFree 4096] 14684160 {| vm_os := o1; vm_Vmp := 2 ^ 40 |}) as (rs & s' & E & El & _ & _ & Ev).
  { split; [cbn; lia|exact (pm_header _ _ _ _ _ _ Hp)]. }
  exists {| vm_os := o1; vm_Vmp := 2 ^ 40 |}, rs, s'. split; [|split; [exact E|split; [exact El|exact Ev]]].
  unfold libvmmalloc_init. change (u64 (atoll (bytes_of "14680065"))) with ex_size.
  change (ex_size <? VMMALLOC_MIN_POOL) with false. cbv iota. rewrite libvmmalloc_create_same.
  unfold on_os, zoomM, bindM at 1. cbn [vm_os ex_vmm]. rewrite E1. reflexivity.
Defined.

Lemma posix_memalign_reports_witness :
  match posix_memalign (ex_kernel 12) ex_jemalloc ex_base 64 100 ex_vmm with
  | inr ((ptr, e), _) => ptr = 0 /\ e = Some EINVAL /\ (e = None <-> ptr <> 0) | inl _ => False end.
Proof.
  destruct (posix_memalign (ex_kernel 12) ex_jemalloc ex_base 64 100 ex_vmm) as [f|[[ptr e] s']] eqn:E; [discriminate|].
  pose proof (posix_memalign_reports (ex_kernel 12) ex_jemalloc ex_base 64 100 ex_vmm s' ptr e E) as H.
  injection E as <- <- _. split; [reflexivity|]. split; [reflexivity|exact H].
Defined.
